(* ===== verification/_CoqProject ===== *)
-Q . S2P
Prelude.v
Float64.v
Types.v
GoTime.v
Interval.v
GoStrings.v
LeakyMath.v
Runtime.v
LRUCache.v
Store.v
Demo.v
TokenBucket.v
TokenSpec.v
LRUSpec.v
LeakyBucket.v
LeakySpec.v
Workers.v
WorkersSpec.v
WorkerLoop.v
Rounding.v
LeakyRate.v
PyClient.v
Persist.v
MD5.v
ReplicatedHash.v
Network.v
TLS.v
PeerJSON.v
Logging.v
DNSPool.v
MemberList.v
EtcdPool.v
K8sPool.v
PeerClient.v
PeerLoop.v
Global.v
GlobalSpec.v
GlobalLoop.v
Instance.v
InstanceSpec.v
Goroutine.v
InstanceLoop.v
InstanceCalls.v
ClusterCalls.v
GlobalFlow.v
Membership.v
Messages.v
Gateway.v
Config.v
EnvConfig.v
Daemon.v
Tools.v
Metrics.v
Cluster.v
Server.v
