(* ===== verification/Prelude.v ===== *)
(** * A verification development of Gubernator

    Gubernator is a distributed rate limiter. Clients send requests ("take [hits] from the
    limit [name]/[unique_key]") to any member of a cluster. The member that owns the key,
    found on a consistent hash ring, evaluates the request; others forward it, or, for
    GLOBAL limits, answer from their own cache and synchronise with the owner later. An
    owner shards its keys over workers, each with an LRU cache of bucket items that the two
    algorithms, token bucket and leaky bucket, read and update; an optional store keeps
    items beyond the cache, an optional loader saves and restores the caches. A daemon
    puts this together: it reads its configuration from the environment, sets up TLS,
    listens, and learns of other members from DNS, etcd, Kubernetes or a gossip protocol.

    ** How the code is modelled

    Code is translated into functions of a state and panic monad [M] (this file): state
    passing for mutation, [Panic] for run-time panics, [result] for Go errors with their
    wrapping chain. [int64] is [Z] with every operation wrapped to 64 bits; [float64] is
    the IEEE format computed bit by bit (file Float64). Cache items live in a heap of the
    process and are referred to by pointer, since cache, store and algorithms share them.
    The clock is a stream of readings, Prometheus counters a map. What is not in the
    repository is a parameter: the architecture's conversion of out-of-range floats
    ([Arch]), xxhash ([Hash64]), the ring's hash function, [sort.Slice] ([SortSlice], with
    its documented contract), a [Store] ([StoreOps] with [StoreLaws]), other members of the
    cluster and callers' contexts ([Surroundings], oracles), the DNS library ([DNSLib]),
    cryptography ([Crypto]), the cache of a peer's errors ([ErrCache] with [ErrCacheLaws]),
    the registry of metrics ([Registry] with [RegistryLaws]), the levels of the logging
    library ([LogLevels] with [LogLevelsLaws]), the gRPC transport with its message codec
    ([Transport], which may fail to deliver a call or lose its answer) and the gateway's
    runtime, and what the host, etcd, Kubernetes, the gossip library and the listening
    sockets answer (arguments; [Answers] of file Daemon), and which of the calls that a
    closing daemon waits in return ([Waits]).

    Goroutines are transition systems: a state with the place each goroutine is at, its
    channels and locks, and two relations, what may happen from outside and what the
    goroutines do by themselves ([env_step] and [run_step] in WorkerLoop, PeerLoop and
    InstanceLoop, [out_step] and [loop_step] in GlobalLoop). A goroutine of InstanceLoop is
    a program of atomic actions ([Prog] of file Goroutine), which other goroutines come
    between; run alone it is the function of file Instance. Safety is an invariant of every reachable
    state. Liveness is a measure that every step of the goroutines decreases, with a proof
    that one of them can move until all is done, so no fairness is assumed.

    ** Files

    - Prelude: integers, the monad, errors, shared lemmas and tactics.
    - Float64, GoTime, GoStrings: the parts of Go's float64, of package time and of
      packages strings, strconv and net the program uses.
    - Types: messages and items ([gubernator.pb.go], [store.go], [cache.go]), behaviour
      flags, [validateMaxWait].
    - Interval: [interval.go]; Gregorian periods (Module Gregorian) and the tick
      goroutine (Module Ticker).
    - LeakyMath: the arithmetic helpers at the end of [algorithms.go].
    - Runtime: process state, the interfaces [CacheOps]/[CacheLaws] and
      [StoreOps]/[StoreLaws] ([cache.go], [store.go]), triples and the isolation
      invariant with its hint database.
    - LRUCache: [lrucache.go], an instance of the cache interface. Store: [MockStore] and
      [MockLoader] of [store.go], an instance of the store interface. Demo: concrete
      worlds the examples start from.
    - TokenBucket, LeakyBucket: [algorithms.go], each operation with its run lemmas.
      TokenSpec, LeakySpec, LRUSpec: what they promise.
    - Rounding: how far the float64 operations are from the real ones. LeakyRate: the
      leaky bucket's rate over any sequence of commands.
    - Workers, WorkersSpec, WorkerLoop, Persist: [workers.go]; sharding and commands,
      calls in flight, [Load] and [Store].
    - MD5, ReplicatedHash: [replicated_hash.go], [region_picker.go].
    - PeerClient, PeerLoop: [peer_client.go]; the methods, and the calls, batches and
      shutdown of a client in flight. Global, GlobalSpec, GlobalLoop: [global.go] and
      [UpdatePeerGlobals]; what is aggregated, sent and installed, and the two loops with
      their tickers and [Close]. GlobalFlow: the whole way of a GLOBAL hit, from a
      member's queue to the owner and back.
    - Instance, InstanceSpec: the service methods of [gubernator.go], each as one function.
      Goroutine, InstanceLoop, InstanceCalls: the same methods as goroutines; any number of
      calls on one instance with their forwarding goroutines, channels, wait groups and
      fan outs, an executable scheduler for the examples, and an interface ([Budget],
      [NodeBudget]) through which a bound on what one evaluation costs becomes one on all
      calls together. ClusterCalls: members that forward to the owner of a key, and the
      cluster they make.
    - Membership: [SetPeers], [HealthCheck], [LiveCheck] and the lists of peers. Config:
      [SetDefaults], [NewV1Instance], [Close]. Messages: the accessors and enumerations of
      [gubernator.pb.go] and [peers.pb.go]. Gateway: the generated stubs, handlers and HTTP gateway
      ([gubernator_grpc.pb.go], [peers_grpc.pb.go], [gubernator.pb.gw.go],
      [peers.pb.gw.go]).
    - Network: [net.go]. TLS: [tls.go]. PeerJSON: [PeerInfo] as JSON, as members exchange
      it.
    - DNSPool, MemberList, EtcdPool, K8sPool: [dns.go], [memberlist.go], [etcd.go],
      [kubernetes.go]; how each turns what it is told into lists of peers.
    - EnvConfig: [SetupDaemonConfig] and its helpers in [config.go], [flags.go].
    - Daemon: [daemon.go]; starting and closing as acquisition and release of resources,
      by the stages of [Start]. Cluster: [cluster/cluster.go] over it.
    - Metrics: the metrics, what the collectors report of them, and their registration.
      Logging: [logging.go] and the log writer of [memberlist.go]. PyClient: the Python
      client.
    - Tools: [client.go], [grpc_stats.go], [staticbuilder.go], [metadata_carrier.go] and
      what the client and the probe under [cmd] send and report. Server:
      [cmd/gubernator] with package flag, and [cmd/gubernator-cluster].

    ** What the theorems show

    - Each algorithm, run on any cache and store that keep the laws of their interfaces,
      computes a pure function of bucket, request and clock (token_bucket_computes,
      leaky_bucket_computes), for the token bucket the one that [token_spec] gives field by
      field; the other theorems of TokenSpec and LeakySpec describe that
      function: admission, refusal, queries, changes of limit and duration, reset,
      scheduled admission with bounded waits, debt that is neither forgotten early nor
      moved by a client's clock.
    - The LRU cache implements a list of keys in order of use, within its capacity.
    - The pool executes calls at most once, in some sequential order, under any
      interleaving and cancellation, and every call completes (WorkerLoop); over any such
      order the hits admitted on a token bucket stay within its tokens, and those on a
      leaky bucket within its rate, with an explicit allowance for rounding
      (pool_leaky_rate); a request concerns only its own key; saving and restoring the
      caches is a round trip.
    - The ring gives every key one owner that all members agree on and that changes only
      in favour of a peer that joins; batching, aggregation of GLOBAL hits and broadcasts
      lose nothing and reach the owner, and a member answers what the owner broadcast.
      Composed: after a round trip a member that does not own a key answers with the
      owner's tokens less all the hits it had queued (global_round_trip). The loops that
      send hits and updates do send them (global_hits_sent, global_updates_sent).
    - A peer client never sends on its closed queue, hands a request over at most once,
      and gives a caller only the answer to its own request (peer_client_safe); its calls
      and its shutdown return (peer_calls_return); its errors make the instance unhealthy
      for as long as they are kept (health_follows_peers).
    - The generated stubs and the two kinds of gateway reach the methods of the service
      and agree, as far as the transport delivers (stubs_reach_methods, gateways_agree,
      bad_body_refused).
    - However the goroutines of concurrent calls interleave, every call is answered
      completely and in order, nothing panics or sends on a closed channel
      (calls_answered), and all calls return within a bounded number of steps
      (calls_return). The hits admitted on a key in all replies of its owner together stay
      within its tokens (owner_limit), and so do those in the replies of all members of a
      cluster (cluster_limit). Forwarding is bounded, and requests that book tokens are
      never sent twice; [SetPeers] never closes a client in use.
    - Every metric that is collected is described, and the collectors can be registered
      together (metrics_registered); the cache size reported is that of all caches
      (cache_size_reported). What libraries print is logged line by line (log_lines), and a
      level survives its JSON form (level_roundtrip). Messages are determined by their
      accessors, a nil message is an empty one (request_from_getters, nil_is_empty), names
      and numbers of enumerations stand for each other (enum_names_roundtrip), and the
      Python client sleeps until the reset (sleeps_until_reset).
    - Discovery reports exactly the members that are there: after any joins and leaves
      (member_list_tracks), as etcd last returned them whatever fails in between
      (etcd_latest, etcd_registration), each address once (k8s_slices) and as the informer holds them however
      late its notices are handled (k8s_list_follows), and again within minutes after an
      outage of DNS (dns_recovers); what a member advertises is what others read
      (peer_info_roundtrip).
    - A configuration that is accepted is well formed (setup_valid), and a configuration
      file is read as it was written (env_file_roundtrip). A daemon starts whenever what
      it asks for is available (start_completes), and gives back what it took when it is
      closed or fails to start, with the exceptions the theorems name (close_releases,
      spawn_failure_releases). The server runs from its command line to its exit status, if
      what [Close] waits for ends (flags_roundtrip, server_runs, exit_zero_means_closed).
    - Findings are proved of the code as it is: worker_sharding, forward_not_retried,
      broadcast_repeats_reset, moved_peer_keeps_region, dns_owner, etcd_gap_unnoticed,
      legacy_peer_on_port_zero, unreadable_update_erases, gossip_always_verified,
      member_list_ipv6_default, short_container_name_panics, supplied_pems_discarded,
      tls_restart_never_completes, empty_lookup_breaks_close, cli_needs_config,
      cli_durations, cli_checks, global_close_hangs, k8s_missed_deletion,
      unknown_flag_hides_rest, long_line_ends_log, level_numbers,
      abandoned_registration_spins, unset_version, given_server_overwritten, long_day.

    ** Bounds and fuel

    Loops are structural recursions or folds over their input. [searchLoop] (binary
    search) takes its length as fuel and [Search_spec] proves that enough. The forwarding
    loop recurses on the attempts left, six at the start. Splitting and trimming strings,
    durations, JSON values and the client's passes take the length of their input as
    fuel, since every step consumes some of it ([durationTerms_fuel], [parse_fuel],
    [passFrom_spec]). The number of steps goroutines may take is bounded by the measures
    [work] and [loopWork], computed from the state, and for calls on an instance by the
    steps their programs can take ([spends], [sys_bounded]). Traces, queues and call sequences are lists of any length.

    ** What is not modelled

    A worker executes a command in one step, and an instance waits for the pool's answer,
    and for room in the queues of the global manager, in the step that asks for it. In ClusterCalls the ring does not change and the network is
    a relation between the answers a member received and those the owner gave. Fused multiply-add,
    which Go may emit on some architectures, is not modelled: float expressions are
    evaluated as written. In the daemon a goroutine that serves a listener is represented
    by the fact that its server has the listener; waiting is a result ([Blocks]), not time;
    the clients of peers, which the instance makes and [Close] does not shut down, are not
    among the resources counted.
    A call to another process ends because its timeout ends it; how long it takes is not
    modelled. Data races, which Go leaves undefined, are not: a transition of a system is
    one access to what goroutines share. gRPC itself, the TLS protocol, the gossip
    protocol, the watch protocols of etcd and Kubernetes, the values of metrics other than
    counters and the cache size, tracing, what is written to the log, and the encoding and
    reflection of messages are libraries the program calls or code generated for them. The text of errors from package strconv
    leaves out the quotation marks around the input. *)

From stdpp Require Import base gmap strings list numbers relations.
From Stdlib Require Import ZArith Lia.

Local Open Scope Z_scope.

(** ** Machine integers

    Go's [int64] (and [int], 64 bits on the platforms the program builds for)
    is a [Z] in two's complement range; every arithmetic operator wraps. *)

Definition min_i64 : Z := - 2 ^ 63.
Definition max_i64 : Z := 2 ^ 63 - 1.

Definition in64 (z : Z) : Prop := min_i64 <= z <= max_i64.

Definition wrap64 (z : Z) : Z := (z + 2 ^ 63) mod 2 ^ 64 - 2 ^ 63.

Definition add64 (a b : Z) : Z := wrap64 (a + b).
Definition sub64 (a b : Z) : Z := wrap64 (a - b).
Definition mul64 (a b : Z) : Z := wrap64 (a * b).
(** Go's [/] truncates toward zero; the divisor is a non-zero constant at
    every place this is used. *)
Definition quot64 (a b : Z) : Z := wrap64 (Z.quot a b).

Declare Scope go_scope.
Delimit Scope go_scope with go.
Notation "a +i b" := (add64 a b) (at level 50, left associativity) : go_scope.
Notation "a -i b" := (sub64 a b) (at level 50, left associativity) : go_scope.
Notation "a *i b" := (mul64 a b) (at level 40, left associativity) : go_scope.

#[global] Instance in64_dec (z : Z) : Decision (in64 z).
Proof. unfold in64. apply _. Defined.

Lemma wrap64_range (z : Z) : in64 (wrap64 z).
Proof.
  unfold in64, wrap64, min_i64, max_i64.
  pose proof (Z.mod_pos_bound (z + 2 ^ 63) (2 ^ 64) ltac:(lia)). lia.
Qed.

Lemma wrap64_id (z : Z) : in64 z -> wrap64 z = z.
Proof.
  unfold in64, wrap64, min_i64, max_i64. intros H.
  rewrite Z.mod_small by lia. lia.
Qed.

Lemma add64_id (a b : Z) : in64 (a + b) -> add64 a b = a + b.
Proof. apply wrap64_id. Qed.
Lemma sub64_id (a b : Z) : in64 (a - b) -> sub64 a b = a - b.
Proof. apply wrap64_id. Qed.
Lemma mul64_id (a b : Z) : in64 (a * b) -> mul64 a b = a * b.
Proof. apply wrap64_id. Qed.
Lemma add64_range (a b : Z) : in64 (add64 a b).
Proof. apply wrap64_range. Qed.
Lemma sub64_range (a b : Z) : in64 (sub64 a b).
Proof. apply wrap64_range. Qed.
Lemma mul64_range (a b : Z) : in64 (mul64 a b).
Proof. apply wrap64_range. Qed.

(** Addition modulo 2^64 is a homomorphism from [Z]: sums may be wrapped at
    every step or once at the end. *)
Lemma wrap64_add_l (a b : Z) : wrap64 (wrap64 a + b) = wrap64 (a + b).
Proof.
  unfold wrap64. f_equal.
  replace ((a + 2 ^ 63) mod 2 ^ 64 - 2 ^ 63 + b + 2 ^ 63)
    with ((a + 2 ^ 63) mod 2 ^ 64 + b) by lia.
  rewrite Zplus_mod_idemp_l. f_equal. lia.
Qed.

Create HintDb go discriminated.
#[export] Hint Resolve wrap64_range add64_range sub64_range mul64_range : go.

(** [word] discharges bounds goals about wrapped arithmetic that does not
    overflow. *)
Ltac word :=
  unfold in64, min_i64, max_i64 in *;
  repeat first
    [ rewrite add64_id by (unfold in64, min_i64, max_i64; lia)
    | rewrite sub64_id by (unfold in64, min_i64, max_i64; lia)
    | rewrite mul64_id by (unfold in64, min_i64, max_i64; lia) ];
  lia.

(** ** Outcomes and the state monad

    A Go statement either completes, with a value and the new state, or
    panics (nil dereference, index out of range, division by zero). *)

Inductive outcome (A : Type) : Type :=
  | Ret (a : A)
  | Panic (why : string).
Arguments Ret {A} a.
Arguments Panic {A} why.

Definition M (S A : Type) : Type := S -> outcome (A * S).

#[global] Instance M_ret {S} : MRet (M S) := fun A a s => Ret (a, s).
#[global] Instance M_bind {S} : MBind (M S) := fun A B f m s =>
  match m s with
  | Ret (a, s') => f a s'
  | Panic w => Panic w
  end.

Definition panic {S A} (why : string) : M S A := fun _ => Panic why.
Definition gets {S A} (f : S -> A) : M S A := fun s => Ret (f s, s).
Definition modify {S} (f : S -> S) : M S unit := fun s => Ret (tt, f s).

(** [when b m]: the statement [if b { m }]. *)
Definition when {S} (b : bool) (m : M S unit) : M S unit :=
  if b then m else mret tt.

Lemma bind_ret_run {S A B} (m : M S A) (f : A -> M S B) (s s' : S) (a : A) :
  m s = Ret (a, s') -> (m ≫= f) s = f a s'.
Proof. intros H. unfold mbind, M_bind. by rewrite H. Qed.

Lemma mret_run {S A} (a : A) (s : S) : (mret a : M S A) s = Ret (a, s).
Proof. reflexivity. Qed.

Lemma gets_run {S A} (f : S -> A) (s : S) : gets f s = Ret (f s, s).
Proof. reflexivity. Qed.

Lemma modify_run {S} (f : S -> S) (s : S) : modify f s = Ret (tt, f s).
Proof. reflexivity. Qed.

Lemma bind_assoc {S A B C} (m : M S A) (f : A -> M S B) (g : B -> M S C) (s : S) :
  ((m ≫= f) ≫= g) s = (m ≫= (fun a => f a ≫= g)) s.
Proof. unfold mbind, M_bind. by destruct (m s) as [[a s']|]. Qed.

(** A run that returned did so through an intermediate state. *)
Lemma bind_ret_inv {S A B} (m : M S A) (f : A -> M S B) (s : S) (b : B) (s2 : S) :
  (m ≫= f) s = Ret (b, s2) ->
  exists a s1, m s = Ret (a, s1) /\ f a s1 = Ret (b, s2).
Proof.
  unfold mbind, M_bind. destruct (m s) as [[a s1]|] eqn:E; [|discriminate].
  intros H. by exists a, s1.
Qed.

(** ** Errors as values *)

(** Go errors, with the chain [errors.Is] and [errors.Unwrap] walk. *)
Inductive gerror : Type :=
  | ErrNew (msg : string)
  | Canceled
  | DeadlineExceeded
  | ErrWrap (msg : string) (inner : gerror).

Inductive result (A : Type) : Type :=
  | Ok (a : A)
  | Err (e : gerror).
Arguments Ok {A} a.
Arguments Err {A} e.

(** The text of an error, outermost message first, as [Error] prints it. *)
Fixpoint err_text (e : gerror) : string :=
  match e with
  | ErrNew m => m
  | Canceled => "context canceled"
  | DeadlineExceeded => "context deadline exceeded"
  | ErrWrap m i => m +:+ ": " +:+ err_text i
  end.

(** [errors.Is e target] for the two sentinel errors of package context. *)
Fixpoint err_is_deadline (e : gerror) : bool :=
  match e with
  | DeadlineExceeded => true
  | ErrWrap _ i => err_is_deadline i
  | _ => false
  end.

Fixpoint err_is_canceled (e : gerror) : bool :=
  match e with
  | Canceled => true
  | ErrWrap _ i => err_is_canceled i
  | _ => false
  end.

(** ** Step relations *)

Section Steps.
Context {St : Type} (R : St -> St -> Prop) (I : St -> Prop).

(** What every step preserves holds wherever the steps lead. *)
Lemma rtc_invariant (s s' : St) : (forall x y, R x y -> I x -> I y) -> I s -> rtc R s s' -> I s'.
Proof. intros Hstep Hs Hr. induction Hr as [|x y z Hxy _ IH]; [done|]. eauto. Qed.

(** A measure that every step lowers bounds the number of steps. *)
Lemma nsteps_bounded (w : St -> nat) (n : nat) (s s' : St) :
  (forall x y, R x y -> I x -> I y /\ (w y < w x)%nat) -> I s -> nsteps R n s s' -> I s' /\ (n + w s' <= w s)%nat.
Proof.
  intros Hstep Hs Hr. induction Hr as [x|n x y z Hxy _ IH]; [done|].
  destruct (Hstep x y Hxy Hs) as [Hy Hlt]. destruct (IH Hy). split; [done|lia].
Qed.
End Steps.

(** A sum over a list in which one element was replaced. *)
Lemma sum_insert {A} (f : A -> nat) (l : list A) (i : nat) (x y : A) : l !! i = Some x ->
  (sum_list_with f (<[i := y]> l) + f x = sum_list_with f l + f y)%nat.
Proof.
  revert i. induction l as [|z l IH]; intros [|i] Hi; simpl in *; simplify_eq; [lia|].
  specialize (IH i Hi). lia.
Qed.

