(* ===== verification/Float64.v ===== *)
(** * Go's [float64]

    The leaky bucket keeps its balance in a [float64].  The type is IEEE 754
    binary64, modelled bit for bit by the Standard Library's specification
    floats ([spec_float] at precision 53 and exponent 1024, rounding to nearest,
    ties to even).  The file holds the operators and the functions of package
    [math] the program uses, the conversions to and from [int64], and the facts
    the bucket proofs need: an order on the numbers that are not NaN, the sign of
    a rounded result, and exactness, that is, an operation whose mathematical
    result is representable returns it. *)

From stdpp Require Import base numbers list.
From Stdlib Require Import ZArith Lia SpecFloat.
From S2P Require Import Prelude.

Local Open Scope Z_scope.

(** ** Operators *)

Definition f64 : Type := spec_float.

Definition fadd (x y : f64) : f64 := SFadd 53 1024 x y.
Definition fsub (x y : f64) : f64 := SFsub 53 1024 x y.
Definition fmul (x y : f64) : f64 := SFmul 53 1024 x y.
Definition fdiv (x y : f64) : f64 := SFdiv 53 1024 x y.
Definition fopp (x : f64) : f64 := SFopp x.

Definition flt (x y : f64) : bool := SFltb x y.
Definition fle (x y : f64) : bool := SFleb x y.
Definition fgt (x y : f64) : bool := SFltb y x.
Definition fge (x y : f64) : bool := SFleb y x.

Definition fzero : f64 := S754_zero false.
Definition finf (neg : bool) : f64 := S754_infinity neg.

(** [n * 2^e], rounded. *)
Definition dyf (n e : Z) : f64 := binary_normalize 53 1024 n e false.

(** [float64(n)] of an [int64]. *)
Definition f64_of_int (n : Z) : f64 := dyf n 0.

(** ** Package math *)

Definition IsNaN (x : f64) : bool :=
  match x with S754_nan => true | _ => false end.

(** [math.IsInf(f, 0)] *)
Definition IsInf (x : f64) : bool :=
  match x with S754_infinity _ => true | _ => false end.

Definition Abs (x : f64) : f64 := SFabs x.

(** [math.Min] and [math.Max], special cases in the order of their source: the
    infinities first, then NaN, then zeros by sign. *)
Definition Min (x y : f64) : f64 :=
  match x, y with
  | S754_infinity true, _ | _, S754_infinity true => S754_infinity true
  | S754_nan, _ | _, S754_nan => S754_nan
  | S754_zero sx, S754_zero sy => if sx then x else y
  | _, _ => if flt x y then x else y
  end.

Definition Max (x y : f64) : f64 :=
  match x, y with
  | S754_infinity false, _ | _, S754_infinity false => S754_infinity false
  | S754_nan, _ | _, S754_nan => S754_nan
  | S754_zero sx, S754_zero sy => if sx then y else x
  | _, _ => if fgt x y then x else y
  end.

(** The built-in [max] on floats: NaN if an argument is, otherwise the larger,
    with -0 below +0. *)
Definition fmax_builtin (x y : f64) : f64 :=
  match x, y with
  | S754_nan, _ | _, S754_nan => S754_nan
  | S754_zero sx, S754_zero sy => if sx then y else x
  | _, _ => if fgt x y then x else y
  end.

(** The integer part, toward zero, of a finite number. *)
Definition trunc_Z (s : bool) (m : positive) (e : Z) : Z :=
  cond_Zopp s (if 0 <=? e then Z.shiftl (Zpos m) e else Z.shiftr (Zpos m) (- e)).

(** Whether a finite number has a fractional part. *)
Definition has_frac (m : positive) (e : Z) : bool :=
  (e <? 0) && negb (Zpos m mod 2 ^ (- e) =? 0).

(** [math.Ceil]. The result is an integer below 2^53 in magnitude or the argument
    itself, so it is exact; a negative argument above -1 gives -0. *)
Definition Ceil (x : f64) : f64 :=
  match x with
  | S754_finite s m e =>
      if has_frac m e then
        let t := trunc_Z s m e in
        let c := if s then t else t + 1 in
        if (c =? 0) then S754_zero s else f64_of_int c
      else x
  | _ => x
  end.

(** [int64(f)]: truncation when the integer part fits.  For NaN, an infinity or
    a number out of range the language leaves the result to the
    implementation, so it is a parameter: [cvt_oor]. *)
Class Arch : Type := {
  cvt_oor : f64 -> Z;
  cvt_oor_range : forall x, in64 (cvt_oor x)
}.

Definition int64_of_f `{Arch} (x : f64) : Z :=
  match x with
  | S754_zero _ => 0
  | S754_finite s m e =>
      if decide (in64 (trunc_Z s m e)) then trunc_Z s m e else cvt_oor x
  | _ => cvt_oor x
  end.

(** amd64: CVTTSD2SQ returns the smallest integer. *)
Definition amd64 : Arch.
Proof. refine {| cvt_oor := fun _ => min_i64 |}. intros _. by vm_compute. Defined.

(** arm64: FCVTZS saturates and sends NaN to zero. *)
Definition arm64 : Arch.
Proof.
  refine {| cvt_oor := fun x => match x with
                                | S754_nan | S754_zero _ => 0
                                | S754_infinity s => if s then min_i64 else max_i64
                                | S754_finite s _ _ => if s then min_i64 else max_i64
                                end |}.
  intros [ | [] | | [] ]; by vm_compute.
Defined.

(** ** Constants of the source *)

(** [1e-9] and [1e-6] as float64 constants: the quotient of two exact numbers is
    the nearest double of the decimal. *)
Definition c1em9 : f64 := Eval vm_compute in fdiv (f64_of_int 1) (f64_of_int 1000000000).
Definition c1em6 : f64 := Eval vm_compute in fdiv (f64_of_int 1) (f64_of_int 1000000).
(** [math.MaxInt64] and [math.MinInt64] converted to float64. *)
Definition fMaxInt64 : f64 := Eval vm_compute in f64_of_int max_i64.
Definition fMinInt64 : f64 := Eval vm_compute in f64_of_int min_i64.

(** ** Order

    On numbers that are not NaN, [fle] is a total preorder and [flt] its strict
    part. *)

Lemma fcompare_antisym (x y : f64) :
  SFcompare y x = option_map CompOpp (SFcompare x y).
Proof.
  destruct x as [[]|[]| |[] mx ex], y as [[]|[]| |[] my ey]; try reflexivity; simpl;
    rewrite (Z.compare_antisym ex ey);
    destruct (ex ?= ey); simpl; try reflexivity;
    change (Pos.compare_cont Eq my mx) with (Pos.compare my mx);
    change (Pos.compare_cont Eq mx my) with (Pos.compare mx my);
    rewrite (Pos.compare_antisym mx my); by destruct (Pos.compare mx my).
Qed.

Lemma fle_flt (x y : f64) : IsNaN x = false -> IsNaN y = false ->
  fle x y = negb (flt y x).
Proof.
  intros Hx Hy. unfold fle, flt, SFleb, SFltb. rewrite (fcompare_antisym x y).
  destruct (SFcompare x y) as [[]|] eqn:E; try reflexivity.
  exfalso. destruct x as [[]|[]| |[] mx ex], y as [[]|[]| |[] my ey]; discriminate.
Qed.

Lemma flt_fle (x y : f64) : flt x y = true -> fle x y = true.
Proof. unfold fle, flt, SFleb, SFltb. by destruct (SFcompare x y) as [[]|]. Qed.

Lemma flt_irrefl (x : f64) : flt x x = false.
Proof.
  unfold flt, SFltb. destruct x as [[]|[]| |[] m e]; try reflexivity; simpl;
    rewrite Z.compare_refl;
    change (Pos.compare_cont Eq m m) with (Pos.compare m m);
    by rewrite Pos.compare_refl.
Qed.

Lemma fle_refl (x : f64) : IsNaN x = false -> fle x x = true.
Proof. intros H. rewrite fle_flt by done. by rewrite flt_irrefl. Qed.

Lemma fle_total (x y : f64) : IsNaN x = false -> IsNaN y = false ->
  fle x y = true \/ fle y x = true.
Proof.
  intros Hx Hy. destruct (fle x y) eqn:E; [by left|right].
  rewrite fle_flt in E by done. apply negb_false_iff in E. by apply flt_fle.
Qed.

Lemma flt_nan_l (x y : f64) : flt x y = true -> IsNaN x = false /\ IsNaN y = false.
Proof. by destruct x as [[]|[]| |[] mx ex], y as [[]|[]| |[] my ey]. Qed.

Lemma fle_not_nan (x y : f64) : fle x y = true -> IsNaN x = false /\ IsNaN y = false.
Proof. by destruct x as [[]|[]| |[] mx ex], y as [[]|[]| |[] my ey]. Qed.

(** Exponent first, mantissa second: the order of two finite numbers of one sign. *)
Definition lexle (e1 : Z) (m1 : positive) (e2 : Z) (m2 : positive) : Prop :=
  e1 < e2 \/ (e1 = e2 /\ (m1 <= m2)%positive).

Lemma fle_finite (s : bool) (m1 m2 : positive) (e1 e2 : Z) :
  fle (S754_finite s m1 e1) (S754_finite s m2 e2) = true <->
  if s then lexle e2 m2 e1 m1 else lexle e1 m1 e2 m2.
Proof.
  unfold fle, SFleb, SFcompare, lexle.
  change (Pos.compare_cont Eq m1 m2) with (Pos.compare m1 m2).
  destruct s; destruct (Z.compare_spec e1 e2); destruct (Pos.compare_spec m1 m2); simpl;
    split; intros; try discriminate; try reflexivity; lia.
Qed.

Lemma fle_trans (x y z : f64) : fle x y = true -> fle y z = true -> fle x z = true.
Proof.
  destruct x as [[]|[]| |[] mx ex], y as [[]|[]| |[] my ey], z as [[]|[]| |[] mz ez];
    intros Hxy Hyz; try discriminate Hxy; try discriminate Hyz; try reflexivity;
    rewrite fle_finite in *; unfold lexle in *; lia.
Qed.

Lemma Min_le_l (x y : f64) : IsNaN x = false -> IsNaN y = false -> fle (Min x y) x = true.
Proof.
  intros Hx Hy. destruct (flt x y) eqn:E.
  - destruct x as [[]|[]| |[] mx ex], y as [[]|[]| |[] my ey]; try discriminate;
      unfold Min; rewrite ?E; try reflexivity; by apply fle_refl.
  - assert (fle y x = true) by (rewrite fle_flt by done; by rewrite E).
    destruct x as [[]|[]| |[] mx ex], y as [[]|[]| |[] my ey]; try discriminate;
      unfold Min; rewrite ?E; try reflexivity; done.
Qed.

Lemma Min_not_nan (x y : f64) : IsNaN x = false -> IsNaN y = false -> IsNaN (Min x y) = false.
Proof. intros Hx Hy. by pose proof (fle_not_nan _ _ (Min_le_l x y Hx Hy)) as [? ?]. Qed.

(** [Min] picks one of its arguments, up to the sign of a zero. *)
Lemma Min_cases (x y : f64) : IsNaN x = false -> IsNaN y = false ->
  Min x y = x \/ Min x y = y.
Proof.
  intros Hx Hy.
  destruct x as [[]|[]| |[] mx ex], y as [[]|[]| |[] my ey]; try discriminate;
    simpl; auto; match goal with |- context [if ?b then _ else _] => destruct b end; auto.
Qed.

(** ** Exactness

    A number with a canonical mantissa and exponent is a fixed point of rounding,
    in whatever scaled form the operation produced it. *)

Lemma digits2_log2 (p : positive) : Zpos (digits2_pos p) = Z.log2 (Zpos p) + 1.
Proof.
  induction p as [p IH|p IH|]; simpl digits2_pos; [| |reflexivity].
  - rewrite Pos2Z.inj_succ, IH. change (Zpos p~1) with (2 * Zpos p + 1).
    rewrite Z.log2_succ_double by lia. lia.
  - rewrite Pos2Z.inj_succ, IH. change (Zpos p~0) with (2 * Zpos p).
    rewrite Z.log2_double by lia. lia.
Qed.

Lemma Zdigits2_log2 (z : Z) : 0 < z -> Zdigits2 z = Z.log2 z + 1.
Proof. destruct z; try lia. intros _. apply digits2_log2. Qed.

Lemma iter_pos_S {A} (f : A -> A) (p : positive) (x : A) :
  iter_pos f p x = Pos.iter f x p.
Proof.
  revert x. induction p as [p IH|p IH|]; intros x; simpl; [| |reflexivity].
  - rewrite !IH. by rewrite <- !Pos.iter_swap.
  - by rewrite !IH.
Qed.

Lemma shr_1_double (m : Z) : 0 <= m ->
  shr_1 {| shr_m := 2 * m; shr_r := false; shr_s := false |} =
  {| shr_m := m; shr_r := false; shr_s := false |}.
Proof. by destruct m; intros; try lia. Qed.

(** Shifting out trailing zeros loses nothing. *)
Lemma shr_exact (m : Z) (p : positive) : 0 <= m ->
  iter_pos shr_1 p {| shr_m := m * 2 ^ Zpos p; shr_r := false; shr_s := false |} =
  {| shr_m := m; shr_r := false; shr_s := false |}.
Proof.
  intros Hm. rewrite iter_pos_S. revert m Hm. induction p as [|p IH] using Pos.peano_ind; intros m Hm.
  - change (Pos.iter shr_1 ?x 1) with (shr_1 x).
    rewrite Z.pow_1_r, Z.mul_comm. by apply shr_1_double.
  - rewrite Pos.iter_succ_r, Pos2Z.inj_succ, Z.pow_succ_r by lia.
    rewrite Z.mul_assoc, (Z.mul_comm m 2), <- Z.mul_assoc.
    rewrite shr_1_double by (apply Z.mul_nonneg_nonneg; [lia|apply Z.pow_nonneg; lia]).
    by apply IH.
Qed.

Lemma shr_fexp_exact (M : positive) (E j : Z) : bounded 53 1024 M E = true -> 0 <= j ->
  shr_fexp 53 1024 (Zpos M * 2 ^ j) (E - j) loc_Exact =
  ({| shr_m := Zpos M; shr_r := false; shr_s := false |}, E).
Proof.
  intros Hb Hj. unfold bounded, canonical_mantissa in Hb.
  apply andb_true_iff in Hb as [Hc _]. apply Z.eqb_eq in Hc. rewrite digits2_log2 in Hc.
  unfold shr_fexp.
  rewrite Zdigits2_log2 by (apply Z.mul_pos_pos; [lia|apply Z.pow_pos_nonneg; lia]).
  rewrite Z.log2_mul_pow2 by lia.
  replace (j + Z.log2 (Z.pos M) + 1 + (E - j)) with (Z.log2 (Z.pos M) + 1 + E) by ring.
  rewrite Hc. replace (E - (E - j)) with j by ring.
  unfold shr. destruct j as [|p|p]; [| |lia].
  - by rewrite Z.pow_0_r, Z.mul_1_r, Z.sub_0_r.
  - simpl shr_record_of_loc. rewrite shr_exact by lia. f_equal. lia.
Qed.

Lemma round_aux_exact (s : bool) (M : positive) (E j : Z) :
  bounded 53 1024 M E = true -> 0 <= j ->
  binary_round_aux 53 1024 s (Zpos M * 2 ^ j) (E - j) loc_Exact = S754_finite s M E.
Proof.
  intros Hb Hj. unfold binary_round_aux. rewrite shr_fexp_exact by done. simpl.
  pose proof (shr_fexp_exact M E 0 Hb ltac:(lia)) as H0.
  rewrite Z.pow_0_r, Z.mul_1_r, Z.sub_0_r in H0. rewrite H0. simpl.
  unfold bounded in Hb. apply andb_true_iff in Hb as [_ Hb].
  change (Z.leb E 971) with (Z.leb E (1024 - 53)). by rewrite Hb.
Qed.

Lemma shl_align_fst (m : positive) (e e' : Z) :
  Zpos (fst (shl_align m e e')) = Zpos m * 2 ^ Z.max 0 (e - e') /\
  snd (shl_align m e e') = Z.min e e'.
Proof.
  unfold shl_align. destruct (e' - e) as [|d|d] eqn:D; simpl.
  - replace (Z.max 0 (e - e')) with 0 by lia. split; lia.
  - replace (Z.max 0 (e - e')) with 0 by lia. split; lia.
  - replace (Z.max 0 (e - e')) with (Zpos d) by lia. split; [|lia].
    clear D. induction d as [|d IH] using Pos.peano_ind.
    + change (Pos.iter xO m 1) with (xO m). lia.
    + rewrite Pos.iter_succ, Pos2Z.inj_succ, Z.pow_succ_r by lia.
      rewrite (Pos2Z.inj_xO (Pos.iter xO m d)), IH. ring.
Qed.

(** Rounding [m * 2^e] when it equals a canonical number [M * 2^E]. *)
Lemma round_exact (s : bool) (m M : positive) (e E : Z) :
  bounded 53 1024 M E = true ->
  (e <= E /\ Zpos m = Zpos M * 2 ^ (E - e)) \/ (E <= e /\ Zpos M = Zpos m * 2 ^ (e - E)) ->
  binary_round 53 1024 s m e = S754_finite s M E.
Proof.
  intros Hb Hme. unfold binary_round.
  assert (fexp 53 1024 (Zpos (digits2_pos m) + e) = E) as Hf.
  { pose proof Hb as Hc. unfold bounded, canonical_mantissa in Hc.
    apply andb_true_iff in Hc as [Hc _]. apply Z.eqb_eq in Hc.
    rewrite digits2_log2 in *. rewrite <- Hc. f_equal.
    destruct Hme as [[? ->]|[? ->]]; rewrite Z.log2_mul_pow2 by lia; lia. }
  rewrite Hf. destruct (shl_align m e E) as [mz ez] eqn:Hs.
  pose proof (shl_align_fst m e E) as [H1 H2]. rewrite Hs in H1, H2. simpl in H1, H2.
  destruct Hme as [[He Hm]|[He Hm]].
  - rewrite H1, Hm, <- Z.mul_assoc, <- Z.pow_add_r by lia.
    replace ez with (E - (E - e + Z.max 0 (e - E))) by lia.
    apply round_aux_exact; [done|lia].
  - replace (Zpos mz) with (Zpos M * 2 ^ 0) by (rewrite H1, Hm, Z.max_r, Z.pow_0_r; lia).
    replace ez with (E - 0) by lia. by apply round_aux_exact.
Qed.

(** ** Dyadic numbers

    [dyf a e] is exactly [a * 2^e] when [a] fits in 53 bits and [e] in the exponent
    range: arithmetic on such numbers is integer arithmetic on [a]. *)

Definition mant (a : Z) : Prop := Z.abs a < 2 ^ 53.
Definition expo (e : Z) : Prop := -1074 <= e <= 971.

#[global] Instance mant_dec (a : Z) : Decision (mant a).
Proof. unfold mant. apply _. Defined.

Lemma round_repr (n : positive) (e : Z) : Zpos n < 2 ^ 53 -> expo e ->
  exists M E, bounded 53 1024 M E = true /\ E <= e /\ Zpos M = Zpos n * 2 ^ (e - E) /\
    forall s, binary_round 53 1024 s n e = S754_finite s M E.
Proof.
  intros Hn He. unfold expo in He.
  assert (Z.log2 (Zpos n) < 53) as Hl by (apply Z.log2_lt_pow2; lia).
  pose proof (Z.log2_nonneg (Zpos n)) as Hl0.
  set (E := Z.max (Z.log2 (Zpos n) + 1 + e - 53) (-1074)).
  assert (E <= e) as HE by lia.
  assert (0 < Zpos n * 2 ^ (e - E)) as HM
    by (apply Z.mul_pos_pos; [lia|apply Z.pow_pos_nonneg; lia]).
  exists (Z.to_pos (Zpos n * 2 ^ (e - E))), E. rewrite Z2Pos.id by done.
  assert (bounded 53 1024 (Z.to_pos (Zpos n * 2 ^ (e - E))) E = true) as Hb.
  { unfold bounded, canonical_mantissa. apply andb_true_iff. split; [|apply Z.leb_le; lia].
    apply Z.eqb_eq. rewrite digits2_log2, Z2Pos.id, Z.log2_mul_pow2 by lia.
    unfold fexp, emin. subst E. lia. }
  repeat split; try done. intros s. apply round_exact; [done|]. right.
  split; [done|]. by rewrite Z2Pos.id.
Qed.

(** A non-zero dyadic number is finite, with the sign of its mantissa. *)
Lemma dyf_finite (a e : Z) : mant a -> expo e -> a <> 0 ->
  exists M E, bounded 53 1024 M E = true /\ E <= e /\ Zpos M = Z.abs a * 2 ^ (e - E) /\
    dyf a e = S754_finite (a <? 0) M E.
Proof.
  intros Ha He Hn. unfold mant in Ha.
  destruct (round_repr (Z.to_pos (Z.abs a)) e) as (M & E & ? & ? & HM & Hr);
    [rewrite Z2Pos.id; lia|done|].
  rewrite Z2Pos.id in HM by lia. exists M, E. repeat split; try done.
  unfold dyf, binary_normalize. destruct a as [|p|p]; [done| |]; apply Hr.
Qed.

Lemma dyf_zero (e : Z) : dyf 0 e = fzero.
Proof. reflexivity. Qed.

Lemma dyf_not_nan (a e : Z) : mant a -> expo e -> IsNaN (dyf a e) = false.
Proof.
  intros Ha He. destruct (decide (a = 0)) as [->|Hn]; [reflexivity|].
  destruct (dyf_finite a e Ha He Hn) as (M & E & _ & _ & _ & ->). reflexivity.
Qed.

(** The number does not depend on how it was scaled before rounding. *)
Lemma normalize_scaled (c e j : Z) : mant c -> expo e -> 0 <= j ->
  binary_normalize 53 1024 (c * 2 ^ j) (e - j) false = dyf c e.
Proof.
  intros Hc He Hj. destruct (decide (c = 0)) as [->|Hn]; [reflexivity|].
  destruct (dyf_finite c e Hc He Hn) as (M & E & Hb & HE & HM & ->).
  assert (0 < 2 ^ j) as Hp by (apply Z.pow_pos_nonneg; lia).
  assert (forall s m, Zpos m = Z.abs c * 2 ^ j ->
            binary_round 53 1024 s m (e - j) = S754_finite s M E) as Hr.
  { intros s m Hm. apply round_exact; [done|].
    destruct (Z.le_ge_cases (e - j) E); [left|right]; split; try lia; rewrite ?HM, Hm, <- Z.mul_assoc,
      <- Z.pow_add_r by lia; do 2 f_equal; lia. }
  destruct (c * 2 ^ j) as [|m|m] eqn:Em; [nia| |]; simpl;
    (replace (c <? 0) with false by (symmetry; apply Z.ltb_ge; nia)) ||
    (replace (c <? 0) with true by (symmetry; apply Z.ltb_lt; nia)); apply Hr; nia.
Qed.

Lemma cond_Zopp_abs (a : Z) : cond_Zopp (a <? 0) (Z.abs a) = a.
Proof. unfold cond_Zopp. destruct (Z.ltb_spec a 0); lia. Qed.

Lemma cond_Zopp_mul (s : bool) (a b : Z) : cond_Zopp s (a * b) = cond_Zopp s a * b.
Proof. destruct s; simpl; lia. Qed.

(** An aligned operand of an addition, as a multiple of [2^(e - ez)]. *)
Lemma align_dyf (a e E ez : Z) (m : positive) :
  Zpos m = Z.abs a * 2 ^ (e - E) -> E <= e -> ez <= E ->
  cond_Zopp (a <? 0) (Zpos (fst (shl_align m E ez))) = a * 2 ^ (e - ez).
Proof.
  intros Hm HE Hz. rewrite (proj1 (shl_align_fst m E ez)), Hm, Z.max_r by lia.
  rewrite <- Z.mul_assoc, <- Z.pow_add_r by lia.
  rewrite cond_Zopp_mul, cond_Zopp_abs. do 2 f_equal. lia.
Qed.

Lemma fadd_dyf (a b e : Z) : mant a -> mant b -> mant (a + b) -> expo e ->
  fadd (dyf a e) (dyf b e) = dyf (a + b) e.
Proof.
  intros Ha Hb Hab He.
  destruct (decide (a = 0)) as [->|Hna].
  { rewrite Z.add_0_l. destruct (decide (b = 0)) as [->|Hnb]; [reflexivity|].
    by destruct (dyf_finite b e Hb He Hnb) as (M & E & _ & _ & _ & ->). }
  destruct (dyf_finite a e Ha He Hna) as (M1 & E1 & _ & HE1 & HM1 & Hx).
  destruct (decide (b = 0)) as [->|Hnb]; [by rewrite Z.add_0_r, Hx|].
  destruct (dyf_finite b e Hb He Hnb) as (M2 & E2 & _ & HE2 & HM2 & Hy).
  rewrite Hx, Hy. unfold fadd, SFadd.
  rewrite (align_dyf a e), (align_dyf b e) by (done || lia).
  rewrite <- Z.mul_add_distr_r.
  replace (Z.min E1 E2) with (e - (e - Z.min E1 E2)) at 2 by lia.
  apply normalize_scaled; (done || lia).
Qed.

Lemma fsub_dyf (a b e : Z) : mant a -> mant b -> mant (a - b) -> expo e ->
  fsub (dyf a e) (dyf b e) = dyf (a - b) e.
Proof.
  intros Ha Hb Hab He.
  destruct (decide (b = 0)) as [->|Hnb].
  { rewrite Z.sub_0_r. destruct (decide (a = 0)) as [->|Hna]; [reflexivity|].
    by destruct (dyf_finite a e Ha He Hna) as (M & E & _ & _ & _ & ->). }
  destruct (dyf_finite b e Hb He Hnb) as (M2 & E2 & _ & HE2 & HM2 & Hy).
  destruct (decide (a = 0)) as [->|Hna].
  { rewrite Hy. simpl. unfold dyf. rewrite Z.sub_0_l in *.
    destruct (dyf_finite (- b) e Hab He ltac:(lia)) as (M & E & HbM & HE & HM & Hr).
    unfold dyf in Hr, Hy. rewrite Hr.
    destruct b as [|p|p]; [done| |]; simpl in Hr, Hy |- *;
      unfold binary_round in *; destruct (shl_align _ _ _); simpl in *;
      unfold binary_round_aux in *; destruct (shr_fexp _ _ _ _ _) as [? ?];
      destruct (shr_fexp _ _ _ _ _) as [[[] ? ?] ?]; simpl in *; try congruence;
      destruct (_ <=? _); congruence. }
  destruct (dyf_finite a e Ha He Hna) as (M1 & E1 & _ & HE1 & HM1 & Hx).
  rewrite Hx, Hy. unfold fsub, SFsub.
  rewrite (align_dyf a e), (align_dyf b e) by (done || lia).
  rewrite <- Z.mul_sub_distr_r.
  replace (Z.min E1 E2) with (e - (e - Z.min E1 E2)) at 2 by lia.
  apply normalize_scaled; (done || lia).
Qed.

(** Canonical mantissas have 53 bits unless the exponent is the smallest. *)
Lemma bounded_mant (M : positive) (E : Z) : bounded 53 1024 M E = true ->
  Zpos M < 2 ^ 53 /\ -1074 <= E <= 971 /\ (-1074 < E -> 2 ^ 52 <= Zpos M).
Proof.
  unfold bounded, canonical_mantissa, fexp, emin. intros Hb.
  apply andb_true_iff in Hb as [Hc Hl]. apply Z.eqb_eq in Hc. apply Z.leb_le in Hl.
  rewrite digits2_log2 in Hc.
  assert (Z.log2 (Zpos M) < 53) by lia.
  split; [by apply Z.log2_lt_pow2|]. split; [lia|]. intros HE.
  apply Z.log2_le_pow2; lia.
Qed.

Lemma pow_lt_scale (M1 M2 : positive) (E1 E2 k : Z) :
  bounded 53 1024 M1 E1 = true -> bounded 53 1024 M2 E2 = true -> E1 < E2 -> k <= E1 ->
  Zpos M1 * 2 ^ (E1 - k) < Zpos M2 * 2 ^ (E2 - k).
Proof.
  intros H1 H2 HE Hk.
  destruct (bounded_mant _ _ H1) as (? & ? & _). destruct (bounded_mant _ _ H2) as (_ & ? & H52).
  specialize (H52 ltac:(lia)).
  replace (E2 - k) with ((E1 - k) + 1 + (E2 - E1 - 1)) by lia.
  rewrite !Z.pow_add_r by lia.
  assert (1 <= 2 ^ (E2 - E1 - 1)) by (apply (Z.pow_le_mono_r 2 0); lia).
  assert (0 < 2 ^ (E1 - k)) as HP by (apply Z.pow_pos_nonneg; lia).
  set (P := 2 ^ (E1 - k)) in *. set (Q := 2 ^ (E2 - E1 - 1)) in *.
  apply Z.lt_le_trans with (2 ^ 53 * P); [apply Z.mul_lt_mono_pos_r; lia|].
  replace (Zpos M2 * (P * 2 ^ 1 * Q)) with ((Zpos M2 * 2 * Q) * P) by ring.
  apply Z.mul_le_mono_nonneg_r; [lia|].
  apply Z.le_trans with (Zpos M2 * 2 * 1); [lia|]. apply Z.mul_le_mono_nonneg_l; lia.
Qed.

(** Two canonical numbers compare as their values do. *)
Lemma fcompare_pos (M1 M2 : positive) (E1 E2 k : Z) :
  bounded 53 1024 M1 E1 = true -> bounded 53 1024 M2 E2 = true -> k <= E1 -> k <= E2 ->
  match Z.compare E1 E2 with
  | Lt => Lt | Gt => Gt | Eq => Pos.compare_cont Eq M1 M2
  end = Z.compare (Zpos M1 * 2 ^ (E1 - k)) (Zpos M2 * 2 ^ (E2 - k)).
Proof.
  intros H1 H2 Hk1 Hk2. symmetry. destruct (Z.compare_spec E1 E2) as [->|H|H].
  - change (Pos.compare_cont Eq M1 M2) with (Z.compare (Zpos M1) (Zpos M2)).
    symmetry. apply Zmult_compare_compat_r. apply Z.lt_gt, Z.pow_pos_nonneg; lia.
  - apply Z.compare_lt_iff. by apply pow_lt_scale.
  - apply Z.compare_gt_iff. by apply pow_lt_scale.
Qed.

Lemma fcompare_dyf (a b e : Z) : mant a -> mant b -> expo e ->
  SFcompare (dyf a e) (dyf b e) = Some (Z.compare a b).
Proof.
  intros Ha Hb He.
  destruct (decide (a = 0)) as [->|Hna]; destruct (decide (b = 0)) as [->|Hnb]; try reflexivity.
  - destruct (dyf_finite b e Hb He Hnb) as (M & E & _ & _ & _ & ->).
    change (dyf 0 e) with (S754_zero false). unfold SFcompare.
    destruct (Z.ltb_spec b 0), (Z.compare_spec 0 b); (reflexivity || lia).
  - destruct (dyf_finite a e Ha He Hna) as (M & E & _ & _ & _ & ->).
    change (dyf 0 e) with (S754_zero false). unfold SFcompare.
    destruct (Z.ltb_spec a 0), (Z.compare_spec a 0); (reflexivity || lia).
  - destruct (dyf_finite a e Ha He Hna) as (M1 & E1 & B1 & HE1 & HM1 & ->).
    destruct (dyf_finite b e Hb He Hnb) as (M2 & E2 & B2 & HE2 & HM2 & ->). unfold SFcompare.
    set (k := Z.min E1 E2).
    assert (Z.compare (Zpos M1 * 2 ^ (E1 - k)) (Zpos M2 * 2 ^ (E2 - k)) =
            Z.compare (Z.abs a) (Z.abs b)) as Hc.
    { rewrite HM1, HM2, <- !Z.mul_assoc, <- !Z.pow_add_r by lia.
      replace (e - E1 + (E1 - k)) with (e - k) by lia.
      replace (e - E2 + (E2 - k)) with (e - k) by lia.
      symmetry. apply Zmult_compare_compat_r, Z.lt_gt, Z.pow_pos_nonneg; lia. }
    rewrite <- (fcompare_pos M1 M2 E1 E2 k) in Hc by (done || lia). f_equal.
    destruct (Z.ltb_spec a 0), (Z.ltb_spec b 0).
    + transitivity (CompOpp (Z.compare (Z.abs a) (Z.abs b))).
      * rewrite <- Hc. by destruct (E1 ?= E2), (Pos.compare_cont Eq M1 M2).
      * rewrite !Z.abs_neq by lia. by rewrite Z.compare_opp, <- Z.compare_antisym.
    + symmetry. apply Z.compare_lt_iff. lia.
    + symmetry. apply Z.compare_gt_iff. lia.
    + by rewrite Hc, !Z.abs_eq by lia.
Qed.

Lemma flt_dyf (a b e : Z) : mant a -> mant b -> expo e -> flt (dyf a e) (dyf b e) = (a <? b).
Proof.
  intros. unfold flt, SFltb. rewrite fcompare_dyf by done. unfold Z.ltb. by destruct (a ?= b).
Qed.

Lemma fle_dyf (a b e : Z) : mant a -> mant b -> expo e -> fle (dyf a e) (dyf b e) = (a <=? b).
Proof.
  intros. unfold fle, SFleb. rewrite fcompare_dyf by done. unfold Z.leb. by destruct (a ?= b).
Qed.

Lemma Min_dyf (a b e : Z) : mant a -> mant b -> expo e ->
  Min (dyf a e) (dyf b e) = dyf (Z.min a b) e.
Proof.
  intros Ha Hb He. pose proof (flt_dyf a b e Ha Hb He) as Hl.
  destruct (decide (a = 0)) as [->|Hna]; destruct (decide (b = 0)) as [->|Hnb]; try reflexivity;
    [destruct (dyf_finite b e Hb He Hnb) as (M2 & E2 & _ & _ & _ & Hy); rewrite Hy in *
    |destruct (dyf_finite a e Ha He Hna) as (M1 & E1 & _ & _ & _ & Hx); rewrite Hx in *
    |destruct (dyf_finite b e Hb He Hnb) as (M2 & E2 & _ & _ & _ & Hy);
     destruct (dyf_finite a e Ha He Hna) as (M1 & E1 & _ & _ & _ & Hx); rewrite Hx, Hy in *];
    unfold Min; rewrite ?dyf_zero in *; unfold fzero in *; rewrite Hl;
    destruct (Z.ltb_spec a b) || destruct (Z.ltb_spec 0 b) || destruct (Z.ltb_spec a 0);
    rewrite ?Z.min_l, ?Z.min_r by lia; (done || by rewrite ?Hx, ?Hy).
Qed.

(** Truncation of a dyadic number. *)
Lemma int64_of_dyf `{Arch} (a : Z) (k : Z) : mant a -> 0 <= k <= 1074 ->
  int64_of_f (dyf a (- k)) = Z.quot a (2 ^ k).
Proof.
  intros Ha Hk. assert (expo (- k)) as He by (unfold expo; lia).
  assert (0 < 2 ^ k) as Hp by (apply Z.pow_pos_nonneg; lia).
  destruct (decide (a = 0)) as [->|Hna]; [by rewrite Z.quot_0_l by lia|].
  destruct (dyf_finite a (- k) Ha He Hna) as (M & E & _ & HE & HM & ->). simpl.
  assert (trunc_Z (a <? 0) M E = Z.quot a (2 ^ k)) as Ht.
  { unfold trunc_Z. transitivity (cond_Zopp (a <? 0) (Z.quot (Z.abs a) (2 ^ k))).
    - f_equal. rewrite Z.quot_div_nonneg by lia. destruct (Z.leb_spec 0 E).
      + assert (E = 0) as -> by lia. assert (k = 0) as -> by lia.
        rewrite Z.shiftl_0_r, HM. simpl. by rewrite Z.div_1_r, Z.mul_1_r.
      + rewrite Z.shiftr_div_pow2, HM by lia.
        replace (2 ^ (- E)) with (2 ^ k * 2 ^ (- k - E)) by (rewrite <- Z.pow_add_r by lia; f_equal; lia).
        rewrite Z.div_mul_cancel_r; [done|lia|]. apply Z.pow_nonzero; lia.
    - rewrite <- (cond_Zopp_abs a) at 3. unfold cond_Zopp. destruct (a <? 0); [|done].
      by rewrite Z.quot_opp_l by lia. }
  rewrite Ht. rewrite decide_True; [done|].
  unfold mant in Ha. unfold in64, min_i64, max_i64.
  pose proof (Z.quot_abs a (2 ^ k) ltac:(lia)).
  assert (Z.quot (Z.abs a) (Z.abs (2 ^ k)) <= Z.abs a).
  { rewrite Z.quot_div_nonneg by lia. apply Z.div_le_upper_bound; [lia|]. nia. } lia.
Qed.
