(* ===== verification/Types.v ===== *)
(** * Requests, responses and bucket items

    The protocol messages ([gubernator.pb.go], [peers.pb.go]), the items the
    cache holds ([cache.go], [store.go]), and the functions on a request alone:
    behaviour flags ([HasBehavior], [SetBehavior]), the hash key and the
    validation of scheduled admission. *)

From stdpp Require Import base gmap strings list.
From Stdlib Require Import ZArith Lia.
From S2P Require Import Prelude Float64.

Local Open Scope Z_scope.

(** ** Enumerations

    Protocol enumerations are open: any int32 can arrive.  [Algorithm] and the
    [Behavior] flag set keep the number; a [Status] is only ever produced by
    the server itself. *)

Definition Algorithm : Type := Z.
Definition TOKEN_BUCKET : Algorithm := 0.
Definition LEAKY_BUCKET : Algorithm := 1.

Definition Behavior : Type := Z.
Definition BATCHING : Behavior := 0.
Definition NO_BATCHING : Behavior := 1.
Definition GLOBAL : Behavior := 2.
Definition DURATION_IS_GREGORIAN : Behavior := 4.
Definition RESET_REMAINING : Behavior := 8.
Definition MULTI_REGION : Behavior := 16.
Definition DRAIN_OVER_LIMIT : Behavior := 32.

Inductive Status : Type := UNDER_LIMIT | OVER_LIMIT | NEVER_FITS | SCHEDULED.

#[global] Instance Status_eq_dec : EqDecision Status.
Proof. solve_decision. Defined.

(** [b&flag != 0] *)
Definition HasBehavior (b flag : Behavior) : bool := negb (Z.land b flag =? 0).

Definition SetBehavior (b flag : Behavior) (set : bool) : Behavior :=
  if set then Z.lor b flag
  else let mask := Z.lxor b flag in Z.land b mask.

(** ** Messages *)

Record RateLimitReq : Type := mkReq {
  r_Name : string;
  r_UniqueKey : string;
  r_Hits : Z;
  r_Limit : Z;
  r_Duration : Z;
  r_Algorithm : Algorithm;
  r_Behavior : Behavior;
  r_Burst : Z;
  r_Metadata : gmap string string;
  r_CreatedAt : option Z;        (* a pointer: nil when the client did not set it *)
  r_MaxWait : Z
}.

Record RateLimitResp : Type := mkResp {
  rl_Status : Status;
  rl_Limit : Z;
  rl_Remaining : Z;
  rl_ResetTime : Z;
  rl_Error : string;
  rl_Metadata : gmap string string;
  rl_RetryAfter : Z
}.

(** A composite literal that names the first four fields. *)
Definition respOf (st : Status) (limit remaining reset : Z) : RateLimitResp :=
  mkResp st limit remaining reset "" ∅ 0.

(** [&RateLimitResp{Error: msg}] *)
Definition respError (msg : string) : RateLimitResp :=
  mkResp UNDER_LIMIT 0 0 0 msg ∅ 0.

Definition with_Status (s : Status) (r : RateLimitResp) : RateLimitResp :=
  mkResp s (rl_Limit r) (rl_Remaining r) (rl_ResetTime r) (rl_Error r) (rl_Metadata r) (rl_RetryAfter r).
Definition with_Remaining (z : Z) (r : RateLimitResp) : RateLimitResp :=
  mkResp (rl_Status r) (rl_Limit r) z (rl_ResetTime r) (rl_Error r) (rl_Metadata r) (rl_RetryAfter r).
Definition with_ResetTime (z : Z) (r : RateLimitResp) : RateLimitResp :=
  mkResp (rl_Status r) (rl_Limit r) (rl_Remaining r) z (rl_Error r) (rl_Metadata r) (rl_RetryAfter r).
Definition with_RetryAfter (z : Z) (r : RateLimitResp) : RateLimitResp :=
  mkResp (rl_Status r) (rl_Limit r) (rl_Remaining r) (rl_ResetTime r) (rl_Error r) (rl_Metadata r) z.
Definition with_Metadata (m : gmap string string) (r : RateLimitResp) : RateLimitResp :=
  mkResp (rl_Status r) (rl_Limit r) (rl_Remaining r) (rl_ResetTime r) (rl_Error r) m (rl_RetryAfter r).

Definition with_Hits (h : Z) (r : RateLimitReq) : RateLimitReq :=
  mkReq (r_Name r) (r_UniqueKey r) h (r_Limit r) (r_Duration r) (r_Algorithm r)
    (r_Behavior r) (r_Burst r) (r_Metadata r) (r_CreatedAt r) (r_MaxWait r).
Definition with_Burst (b : Z) (r : RateLimitReq) : RateLimitReq :=
  mkReq (r_Name r) (r_UniqueKey r) (r_Hits r) (r_Limit r) (r_Duration r) (r_Algorithm r)
    (r_Behavior r) b (r_Metadata r) (r_CreatedAt r) (r_MaxWait r).
Definition with_Behavior (b : Behavior) (r : RateLimitReq) : RateLimitReq :=
  mkReq (r_Name r) (r_UniqueKey r) (r_Hits r) (r_Limit r) (r_Duration r) (r_Algorithm r)
    b (r_Burst r) (r_Metadata r) (r_CreatedAt r) (r_MaxWait r).
Definition with_CreatedAt (c : option Z) (r : RateLimitReq) : RateLimitReq :=
  mkReq (r_Name r) (r_UniqueKey r) (r_Hits r) (r_Limit r) (r_Duration r) (r_Algorithm r)
    (r_Behavior r) (r_Burst r) (r_Metadata r) c (r_MaxWait r).

Definition HashKey (r : RateLimitReq) : string := r_Name r +:+ "_" +:+ r_UniqueKey r.

(** What a worker is told about a request beside the request itself. The
    ceiling is a [time.Duration], in nanoseconds. *)
Record RateLimitReqState : Type := mkReqState {
  IsOwner : bool;
  WaitCeiling : Z
}.

(** ** Items of the cache *)

Record TokenBucketItem : Type := mkToken {
  tb_Status : Status;
  tb_Limit : Z;
  tb_Duration : Z;
  tb_Remaining : Z;
  tb_CreatedAt : Z
}.

Record LeakyBucketItem : Type := mkLeaky {
  lb_Limit : Z;
  lb_Duration : Z;
  lb_Remaining : f64;
  lb_UpdatedAt : Z;
  lb_Burst : Z
}.

(** [Value interface{}]: nil, one of the two buckets, or anything a user's
    store put there. *)
Inductive ItemValue : Type :=
  | VNil
  | VToken (t : TokenBucketItem)
  | VLeaky (b : LeakyBucketItem)
  | VOther.

Record CacheItem : Type := mkItem {
  it_Algorithm : Algorithm;
  it_Key : string;
  it_Value : ItemValue;
  it_ExpireAt : Z;
  it_InvalidAt : Z
}.

Definition with_Value (v : ItemValue) (i : CacheItem) : CacheItem :=
  mkItem (it_Algorithm i) (it_Key i) v (it_ExpireAt i) (it_InvalidAt i).
Definition with_ExpireAt (e : Z) (i : CacheItem) : CacheItem :=
  mkItem (it_Algorithm i) (it_Key i) (it_Value i) e (it_InvalidAt i).

(** ** Validation of scheduled admission *)

Definition validateMaxWait (r : RateLimitReq) : string :=
  if r_MaxWait r <? 0 then "field 'max_wait' cannot be negative"
  else if r_MaxWait r =? 0 then ""
  else if negb (r_Algorithm r =? LEAKY_BUCKET) then "max_wait is only supported by LEAKY_BUCKET"
  else if HasBehavior (r_Behavior r) GLOBAL then "max_wait cannot be combined with GLOBAL"
  else if HasBehavior (r_Behavior r) DURATION_IS_GREGORIAN then
    "max_wait cannot be combined with DURATION_IS_GREGORIAN"
  else if HasBehavior (r_Behavior r) DRAIN_OVER_LIMIT then
    "max_wait cannot be combined with DRAIN_OVER_LIMIT"
  else if HasBehavior (r_Behavior r) RESET_REMAINING then
    "max_wait cannot be combined with RESET_REMAINING"
  else if r_Hits r <? 0 then "max_wait cannot be combined with negative hits"
  else "".

(** ** Flags *)

(** A single-bit flag, as every [Behavior] constant but [BATCHING] is. *)
Definition is_flag (f : Behavior) : Prop := exists k, 0 <= k /\ f = 2 ^ k.

Lemma HasBehavior_testbit (b k : Z) : 0 <= k -> HasBehavior b (2 ^ k) = Z.testbit b k.
Proof.
  intros Hk. unfold HasBehavior.
  destruct (Z.testbit b k) eqn:Hb.
  - apply negb_true_iff, Z.eqb_neq. intros H0.
    assert (Z.testbit (Z.land b (2 ^ k)) k = true) as Ht.
    { by rewrite Z.land_spec, Hb, Z.pow2_bits_true by lia. }
    rewrite H0, Z.bits_0 in Ht. discriminate.
  - apply negb_false_iff, Z.eqb_eq. apply Z.bits_inj'. intros n Hn.
    rewrite Z.land_spec, Z.bits_0, Z.pow2_bits_eqb by lia.
    destruct (Z.eqb_spec k n) as [<-|]; [by rewrite Hb|by rewrite andb_false_r].
Qed.

Lemma SetBehavior_testbit (b k n : Z) (set : bool) : 0 <= k -> 0 <= n ->
  Z.testbit (SetBehavior b (2 ^ k) set) n = if k =? n then set else Z.testbit b n.
Proof.
  intros Hk Hn. unfold SetBehavior.
  destruct set; rewrite ?Z.lor_spec, ?Z.land_spec, ?Z.lxor_spec, Z.pow2_bits_eqb by lia;
    destruct (k =? n), (Z.testbit b n); reflexivity.
Qed.

(** Setting or clearing one flag has that effect on it and none on another. *)
Lemma SetBehavior_has (b f g : Behavior) (set : bool) : is_flag f -> is_flag g ->
  HasBehavior (SetBehavior b f set) g = if f =? g then set else HasBehavior b g.
Proof.
  intros (k & Hk & ->) (n & Hn & ->).
  rewrite !HasBehavior_testbit, SetBehavior_testbit by lia.
  destruct (Z.eqb_spec k n) as [->|Hne]; [by rewrite Z.eqb_refl|].
  replace (2 ^ k =? 2 ^ n) with false; [done|]. symmetry. apply Z.eqb_neq.
  intros He. apply Hne. by apply (Z.pow_inj_r 2) in He; try lia.
Qed.

Lemma flags_are_flags :
  Forall is_flag [NO_BATCHING; GLOBAL; DURATION_IS_GREGORIAN; RESET_REMAINING; MULTI_REGION; DRAIN_OVER_LIMIT].
Proof.
  repeat constructor; [exists 0|exists 1|exists 2|exists 3|exists 4|exists 5]; split; by vm_compute.
Qed.
