(* ===== verification/GoTime.v ===== *)
(** * Package time

    What the program uses of Go's [time]: an instant with a location, its
    calendar fields, [Date], [AddDate], [Truncate], [Add], [Sub] and [UnixNano].
    The calendar is the proleptic Gregorian calendar on day numbers counted from
    1970-01-01. *)

From stdpp Require Import base list.
From Stdlib Require Import ZArith Lia.
From S2P Require Import Prelude.

Local Open Scope Z_scope.

(** ** Durations, in nanoseconds *)

Definition Nanosecond : Z := 1.
Definition Millisecond : Z := 1000000.
Definition Second : Z := 1000000000.
Definition Minute : Z := 60 * Second.
Definition Hour : Z := 60 * Minute.

(** [d.Milliseconds()] *)
Definition Milliseconds (d : Z) : Z := Z.quot d 1000000.

(** ** Civil dates and day numbers *)

(** Day number of the first of March of year [y], year 0 being leap. *)
Definition march1 (y : Z) : Z := 365 * y + y / 4 - y / 100 + y / 400 - 719468.

(** Month as an offset from March, with the year it belongs to. *)
Definition of_march (y m : Z) : Z * Z := if m <=? 2 then (y - 1, m + 9) else (y, m - 3).

(** The day number of a date whose month is in 1..12; the day may be any number,
    days past the end of the month running on into the next ones. *)
Definition days_of_civil (y m d : Z) : Z :=
  let '(y', mp) := of_march y m in march1 y' + (153 * mp + 2) / 5 + d - 1.

Definition civil_of_days (n : Z) : Z * Z * Z :=
  let z := n + 719468 in
  let era := z / 146097 in
  let doe := z mod 146097 in
  let yoe := (doe - doe / 1460 + doe / 36524 - doe / 146096) / 365 in
  let doy := doe - (365 * yoe + yoe / 4 - yoe / 100) in
  let mp := (5 * doy + 2) / 153 in
  let d := doy - (153 * mp + 2) / 5 + 1 in
  let m := if mp <? 10 then mp + 3 else mp - 9 in
  (yoe + era * 400 + (if m <=? 2 then 1 else 0), m, d).

(** Sunday is 0; day 0 was a Thursday. *)
Definition weekday_of_days (n : Z) : Z := (n + 4) mod 7.

(** ** Locations and instants *)

(** A time zone maps a Unix second to the offset in force, and to the span of
    seconds in which it is in force. *)
Record ZoneSpan : Type := mkSpan { zs_offset : Z; zs_start : Z; zs_end : Z }.
Record Location : Type := mkLoc { loc_lookup : Z -> ZoneSpan }.

Definition FixedZone (offset : Z) : Location :=
  mkLoc (fun _ => mkSpan offset min_i64 max_i64).
Definition UTC : Location := FixedZone 0.

(** An instant: nanoseconds since the Unix epoch, and a location. *)
Record Time : Type := mkTime { t_ns : Z; t_loc : Location }.

Definition unix_sec (t : Time) : Z := t_ns t / Second.
Definition nsec (t : Time) : Z := t_ns t mod Second.

(** Seconds since the epoch on the local wall clock. *)
Definition local_sec (t : Time) : Z :=
  unix_sec t + zs_offset (loc_lookup (t_loc t) (unix_sec t)).

(** [t.Date()] *)
Definition tDate (t : Time) : Z * Z * Z := civil_of_days (local_sec t / 86400).
(** [t.Clock()] *)
Definition tClock (t : Time) : Z * Z * Z :=
  let s := local_sec t mod 86400 in (s / 3600, s / 60 mod 60, s mod 60).
Definition tHour (t : Time) : Z := local_sec t mod 86400 / 3600.
Definition tWeekday (t : Time) : Z := weekday_of_days (local_sec t / 86400).

(** [Date(y, m, d, hh, mm, ss, ns, loc)]: fields out of range carry over; the
    zone is looked up at the wall-clock time read as UTC and, when that lands
    outside the span found, again at the corrected time. *)
Definition Date (y m d hh mm ss ns : Z) (l : Location) : Time :=
  let y := y + (m - 1) / 12 in
  let m := (m - 1) mod 12 + 1 in
  let ss := ss + ns / Second in
  let ns := ns mod Second in
  let unix := days_of_civil y m d * 86400 + hh * 3600 + mm * 60 + ss in
  let z := loc_lookup l unix in
  let offset :=
    if zs_offset z =? 0 then 0
    else
      let utc := unix - zs_offset z in
      if (utc <? zs_start z) || (zs_end z <=? utc)
      then zs_offset (loc_lookup l utc) else zs_offset z in
  mkTime ((unix - offset) * Second + ns) l.

Definition Add (t : Time) (d : Z) : Time := mkTime (t_ns t + d) (t_loc t).

(** [t.Sub(u)] saturates at the range of a Duration. *)
Definition Sub (t u : Time) : Z := Z.max min_i64 (Z.min max_i64 (t_ns t - t_ns u)).

Definition AddDate (t : Time) (years months days : Z) : Time :=
  let '(y, m, d) := tDate t in
  let '(hh, mm, ss) := tClock t in
  Date (y + years) (m + months) (d + days) hh mm ss (nsec t) (t_loc t).

(** [t.Truncate(d)] rounds down to a multiple of [d] since the zero time,
    January 1 of year 1. *)
Definition zero_time_ns : Z := - 62135596800 * Second.
Definition Truncate (t : Time) (d : Z) : Time :=
  if d <=? 0 then t else mkTime (t_ns t - (t_ns t - zero_time_ns) mod d) (t_loc t).

(** [t.UnixNano()] is an int64 count. *)
Definition UnixNano (t : Time) : Z := wrap64 (t_ns t).

(** ** The calendar is consistent *)

Definition next_month (y m : Z) : Z * Z := if m =? 12 then (y + 1, 1) else (y, m + 1).

(** The year of a day within its 400-year cycle. *)
Lemma yoe_bounds (doe : Z) : 0 <= doe < 146097 ->
  let yoe := (doe - doe / 1460 + doe / 36524 - doe / 146096) / 365 in
  0 <= yoe <= 399 /\ 365 * yoe + yoe / 4 - yoe / 100 <= doe /\
  doe < 365 * (yoe + 1) + (yoe + 1) / 4 - (yoe + 1) / 100 + (yoe + 1) / 400.
Proof. intros H yoe. unfold yoe. Z.to_euclidean_division_equations. lia. Qed.

Lemma march1_cycle (yoe era : Z) : 0 <= yoe <= 400 ->
  march1 (yoe + era * 400) =
  365 * yoe + yoe / 4 - yoe / 100 + yoe / 400 + 146097 * era - 719468.
Proof. intros H. unfold march1. Z.to_euclidean_division_equations. lia. Qed.

(** The month of a day within its year, counted from March. *)
Lemma month_bounds (doy : Z) : 0 <= doy <= 365 ->
  let mp := (5 * doy + 2) / 153 in
  0 <= mp <= 11 /\ (153 * mp + 2) / 5 <= doy < (153 * mp + 2) / 5 + 31 /\
  (mp <= 10 -> doy < (153 * (mp + 1) + 2) / 5) /\ (mp <= 9 <-> doy < 306).
Proof. intros H mp. unfold mp. Z.to_euclidean_division_equations. lia. Qed.

Lemma march1_step (y : Z) : march1 y + 365 <= march1 (y + 1) <= march1 y + 366.
Proof. unfold march1. Z.to_euclidean_division_equations. lia. Qed.

Lemma march1_mono (a b : Z) : a < b -> march1 a + 365 <= march1 b.
Proof.
  intros Hab. replace b with (a + 1 + Z.of_nat (Z.to_nat (b - a - 1))) by lia.
  induction (Z.to_nat (b - a - 1)) as [|k IH].
  - rewrite Z.add_0_r. apply march1_step.
  - replace (a + 1 + Z.of_nat (S k)) with (a + 1 + Z.of_nat k + 1) by lia.
    pose proof (march1_step (a + 1 + Z.of_nat k)). lia.
Qed.

Lemma march1_le (a b : Z) : a <= b -> march1 a <= march1 b.
Proof.
  intros H. destruct (decide (a = b)) as [->|]; [lia|]. pose proof (march1_mono a b). lia.
Qed.

(** The date of day [n] numbers [n], and lies inside its month and its year. *)
Lemma civil_of_days_spec (n y m d : Z) : civil_of_days n = (y, m, d) ->
  1 <= m <= 12 /\ 1 <= d <= 31 /\ days_of_civil y m d = n /\
  (let '(y', m') := next_month y m in n < days_of_civil y' m' 1) /\
  days_of_civil y 1 1 <= n < days_of_civil (y + 1) 1 1.
Proof.
  unfold civil_of_days. set (era := (n + 719468) / 146097).
  set (doe := (n + 719468) mod 146097).
  assert (n = 146097 * era + doe - 719468) as Hn
    by (pose proof (Z.div_mod (n + 719468) 146097); lia).
  assert (0 <= doe < 146097) as Hdoe by (apply Z.mod_pos_bound; lia).
  pose proof (yoe_bounds doe Hdoe) as Hy. simpl in Hy.
  set (yoe := (doe - doe / 1460 + doe / 36524 - doe / 146096) / 365) in *.
  set (Y := yoe + era * 400). clearbody era doe yoe.
  assert (march1 Y <= n < march1 (Y + 1)) as HY.
  { replace (Y + 1) with (yoe + 1 + era * 400) by lia. unfold Y. rewrite !march1_cycle by lia.
    assert (yoe / 400 = 0) by (apply Z.div_small; lia). lia. }
  assert (doe - (365 * yoe + yoe / 4 - yoe / 100) = n - march1 Y) as Hdoy.
  { unfold Y. rewrite march1_cycle by lia.
    assert (yoe / 400 = 0) by (apply Z.div_small; lia). lia. }
  rewrite Hdoy. pose proof (march1_step Y) as Hs. pose proof (march1_step (Y - 1)) as Hp.
  replace (Y - 1 + 1) with Y in Hp by lia.
  pose proof (month_bounds (n - march1 Y) ltac:(lia)) as Hm. simpl in Hm.
  set (mp := (5 * (n - march1 Y) + 2) / 153) in *. clearbody mp.
  clear Hy Hdoy Hdoe Hn. clearbody Y.
  intros [= <- <- <-]. unfold days_of_civil, of_march, next_month.
  destruct (Z.ltb_spec mp 10).
  - destruct (Z.leb_spec (mp + 3) 2); [lia|]. destruct (Z.leb_spec 1 2); [|lia].
    replace (Y + 0 + 1 - 1) with Y by lia. replace (Y + 0 - 1) with (Y - 1) by lia.
    replace (Y + 0) with Y by lia.
    destruct (Z.eqb_spec (mp + 3) 12).
    + destruct (Z.leb_spec 1 2); [|lia]. replace (Y + 1 - 1) with Y by lia.
      replace mp with 9 in * by lia. Z.to_euclidean_division_equations; lia.
    + destruct (Z.leb_spec (mp + 3 + 1) 2); [lia|].
      replace (mp + 3 - 3) with mp by lia. replace (mp + 3 + 1 - 3) with (mp + 1) by lia.
      Z.to_euclidean_division_equations; lia.
  - destruct (Z.leb_spec (mp - 9) 2); [|lia]. destruct (Z.leb_spec 1 2); [|lia].
    destruct (Z.eqb_spec (mp - 9) 12); [lia|].
    replace (Y + 1 + 1 - 1) with (Y + 1) by lia. replace (Y + 1 - 1) with Y by lia.
    replace (mp - 9 + 9) with mp by lia.
    destruct (Z.leb_spec (mp - 9 + 1) 2).
    + replace (mp - 9 + 1 + 9) with (mp + 1) by lia. Z.to_euclidean_division_equations; lia.
    + replace mp with 11 in * by lia. Z.to_euclidean_division_equations; lia.
Qed.

Lemma days_of_civil_day (y m d : Z) : days_of_civil y m d = days_of_civil y m 1 + (d - 1).
Proof. unfold days_of_civil. destruct (of_march y m). lia. Qed.

(** A year starts in January and its months lie within it. *)
Lemma days_of_year (y m : Z) : 1 <= m <= 12 ->
  days_of_civil y 1 1 <= days_of_civil y m 1 < days_of_civil (y + 1) 1 1.
Proof.
  intros Hm. unfold days_of_civil, of_march. simpl. replace (y + 1 - 1) with y by lia.
  pose proof (march1_step (y - 1)) as Hs. replace (y - 1 + 1) with y in Hs by lia.
  destruct (Z.leb_spec m 2); Z.to_euclidean_division_equations; lia.
Qed.

Lemma year_start_mono (y y' : Z) : y <= y' -> days_of_civil y 1 1 <= days_of_civil y' 1 1.
Proof.
  intros H. unfold days_of_civil, of_march. simpl. pose proof (march1_le (y - 1) (y' - 1)). lia.
Qed.

(** The fields of the first day of a month. *)
Lemma civil_of_first (y m : Z) : 1 <= m <= 12 -> civil_of_days (days_of_civil y m 1) = (y, m, 1).
Proof.
  intros Hm. destruct (civil_of_days (days_of_civil y m 1)) as [[y2 m2] d2] eqn:E.
  pose proof (civil_of_days_spec _ _ _ _ E) as (Hm2 & Hd2 & Heq & Hnext & Hyear).
  rewrite (days_of_civil_day y2 m2 d2) in Heq.
  pose proof (days_of_year y m Hm) as Hy.
  assert (y2 = y) as ->.
  { destruct (Z.lt_trichotomy y2 y) as [?|[?|?]]; [|done|]; exfalso.
    - pose proof (year_start_mono (y2 + 1) y). lia.
    - pose proof (year_start_mono (y + 1) y2). lia. }
  assert (m2 = m /\ d2 = 1) as [-> ->]; [|done].
  clear E Hyear Hy. unfold days_of_civil, of_march, next_month in *.
  destruct (Z.eqb_spec m2 12), (Z.leb_spec m 2), (Z.leb_spec m2 2); simpl in Hnext;
    try (destruct (Z.leb_spec (m2 + 1) 2)); replace (y + 1 - 1) with y in * by lia;
    pose proof (march1_step (y - 1)); replace (y - 1 + 1) with y in * by lia;
    Z.to_euclidean_division_equations; lia.
Qed.
