(* ===== verification/Interval.v ===== *)
(** * Intervals ([interval.go])

    [Gregorian]: the two functions that turn a calendar interval into a duration
    and an expiration time, with the theorem that they describe one and the same
    period.  [Ticker]: the one-shot ticker [Interval] that paces batches, as a
    state machine over its two buffered channels. *)

From stdpp Require Import base list strings.
From Stdlib Require Import ZArith Lia.
From S2P Require Import Prelude GoTime.

Local Open Scope Z_scope.

Module Gregorian.

Definition GregorianMinutes : Z := 0.
Definition GregorianHours : Z := 1.
Definition GregorianDays : Z := 2.
Definition GregorianWeeks : Z := 3.
Definition GregorianMonths : Z := 4.
Definition GregorianYears : Z := 5.

Definition gregorian_error : gerror :=
  ErrNew "behavior DURATION_IS_GREGORIAN is set; but `Duration` is not a valid gregorian interval".

Definition GregorianDuration (now : Time) (d : Z) : result Z :=
  if d =? GregorianMinutes then Ok 60000
  else if d =? GregorianHours then Ok 3600000
  else if d =? GregorianDays then Ok 86400000
  else if d =? GregorianWeeks then Ok 604800000
  else if d =? GregorianMonths then
    let '(y, m, _) := tDate now in
    let begin := Date y m 1 0 0 0 0 (t_loc now) in
    Ok (Milliseconds (Sub (AddDate begin 0 1 0) begin))
  else if d =? GregorianYears then
    let '(y, _, _) := tDate now in
    let begin := Date y 1 1 0 0 0 0 (t_loc now) in
    Ok (Milliseconds (Sub (AddDate begin 1 0 0) begin))
  else Err gregorian_error.

Definition GregorianExpiration (now : Time) (d : Z) : result Z :=
  if d =? GregorianMinutes then
    Ok (Z.quot (UnixNano (Add (Truncate now Minute) (Minute - Nanosecond))) 1000000)
  else if d =? GregorianHours then
    let '(y, m, dd) := tDate now in
    Ok (Z.quot (UnixNano (Add (Date y m dd (tHour now) 0 0 0 (t_loc now)) (Hour - Nanosecond))) 1000000)
  else if d =? GregorianDays then
    let '(y, m, dd) := tDate now in
    Ok (Z.quot (UnixNano (Date y m dd 23 59 59 (Second - Nanosecond) (t_loc now))) 1000000)
  else if d =? GregorianWeeks then
    let '(y, m, dd) := tDate now in
    let daysUntilSunday := Z.rem (7 - tWeekday now) 7 in
    Ok (Z.quot (UnixNano (Date y m (dd + daysUntilSunday) 23 59 59 (Second - Nanosecond) (t_loc now))) 1000000)
  else if d =? GregorianMonths then
    let '(y, m, _) := tDate now in
    Ok (Z.quot (UnixNano (Add (AddDate (Date y m 1 0 0 0 0 (t_loc now)) 0 1 0) (- Nanosecond))) 1000000)
  else if d =? GregorianYears then
    let '(y, _, _) := tDate now in
    Ok (Z.quot (UnixNano (Add (AddDate (Date y 1 1 0 0 0 0 (t_loc now)) 1 0 0) (- Nanosecond))) 1000000)
  else Err gregorian_error.

(** ** Specification: calendar periods

    The period of kind [d] that contains an instant, in a zone [o] seconds east of
    Greenwich: its first nanosecond and the first nanosecond after it. Weeks run
    from Monday to Sunday. *)

Definition Day : Z := 24 * Hour.

Definition period_days (d n : Z) : Z * Z :=
  let '(y, m, _) := civil_of_days n in
  if d =? GregorianDays then (n, n + 1)
  else if d =? GregorianWeeks then (let mon := n - (n + 3) mod 7 in (mon, mon + 7))
  else if d =? GregorianMonths then
    (let '(y', m') := next_month y m in (days_of_civil y m 1, days_of_civil y' m' 1))
  else (days_of_civil y 1 1, days_of_civil (y + 1) 1 1).

Definition period (o d ns : Z) : Z * Z :=
  let l := ns + o * Second in
  if d =? GregorianMinutes then (let s := ns / Minute * Minute in (s, s + Minute))
  else if d =? GregorianHours then (let s := l / Hour * Hour - o * Second in (s, s + Hour))
  else let '(a, b) := period_days d (l / Day) in (a * Day - o * Second, b * Day - o * Second).

Lemma Date_fixed (y m d hh mm ss o : Z) (ns : Z) : 1 <= m <= 12 -> 0 <= ns < Second ->
  Date y m d hh mm ss ns (FixedZone o) =
  mkTime ((days_of_civil y m d * 86400 + hh * 3600 + mm * 60 + ss - o) * Second + ns) (FixedZone o).
Proof.
  intros Hm Hns. unfold Date, FixedZone. simpl.
  rewrite (Z.div_small (m - 1) 12), (Z.mod_small (m - 1) 12) by lia.
  rewrite (Z.div_small ns Second), (Z.mod_small ns Second) by done.
  replace (y + 0) with y by lia. replace (m - 1 + 1) with m by lia. replace (ss + 0) with ss by lia.
  f_equal. destruct (Z.eqb_spec o 0) as [->|]; [by rewrite !Z.sub_0_r|].
  by destruct (_ || _).
Qed.

(** A date past December carries into the next year. *)
Lemma Date_carry (y m d hh mm ss ns : Z) (l : Location) : 1 <= m <= 12 ->
  Date y (m + 1) d hh mm ss ns l =
  (let '(y', m') := next_month y m in Date y' m' d hh mm ss ns l).
Proof.
  intros Hm. unfold next_month. destruct (Z.eqb_spec m 12) as [->|Hne].
  - unfold Date. change ((12 + 1 - 1) / 12) with 1. change ((12 + 1 - 1) mod 12) with 0.
    change ((1 - 1) / 12) with 0. change ((1 - 1) mod 12) with 0. by rewrite Z.add_0_r.
  - done.
Qed.

Lemma next_month_range (y m y' m' : Z) : 1 <= m <= 12 -> next_month y m = (y', m') -> 1 <= m' <= 12.
Proof. unfold next_month. destruct (Z.eqb_spec m 12); intros ? [= <- <-]; lia. Qed.

(** Midnight of the first day of a month. *)
Definition first_of (o y m : Z) : Time := Date y m 1 0 0 0 0 (FixedZone o).

Lemma first_of_ns (o y m : Z) : 1 <= m <= 12 ->
  t_ns (first_of o y m) = days_of_civil y m 1 * Day - o * Second.
Proof.
  intros Hm. unfold first_of. rewrite Date_fixed by (done || (unfold Second; lia)). simpl.
  unfold Day, Hour, Minute. ring.
Qed.

Lemma AddDate_first (o y m dy dm : Z) : 1 <= m <= 12 ->
  AddDate (first_of o y m) dy dm 0 = Date (y + dy) (m + dm) 1 0 0 0 0 (FixedZone o).
Proof.
  intros Hm. pose proof (first_of_ns o y m Hm) as Hns.
  assert (local_sec (first_of o y m) = days_of_civil y m 1 * 86400) as Hl.
  { unfold local_sec, unix_sec. rewrite Hns. unfold first_of, Date, FixedZone. simpl.
    replace (days_of_civil y m 1 * Day - o * Second) with
      ((days_of_civil y m 1 * 86400 - o) * Second) by (unfold Day, Hour, Minute; ring).
    rewrite Z.div_mul by done. lia. }
  assert (nsec (first_of o y m) = 0) as Hn.
  { unfold nsec. rewrite Hns.
    replace (days_of_civil y m 1 * Day - o * Second) with
      ((days_of_civil y m 1 * 86400 - o) * Second) by (unfold Day, Hour, Minute; ring).
    by apply Z.mod_mul. }
  unfold AddDate, tDate, tClock. rewrite Hl, Hn, Z.div_mul, Z.mod_mul by lia.
  rewrite civil_of_first by done. reflexivity.
Qed.

Lemma first_of_next_month (o y m y' m' : Z) : 1 <= m <= 12 -> next_month y m = (y', m') ->
  AddDate (first_of o y m) 0 1 0 = first_of o y' m'.
Proof.
  intros Hm Hn. rewrite AddDate_first, Z.add_0_r, Date_carry by done. by rewrite Hn.
Qed.

Lemma first_of_next_year (o y : Z) :
  AddDate (first_of o y 1) 1 0 0 = first_of o (y + 1) 1.
Proof. by rewrite AddDate_first by lia. Qed.

(** ** Expirations and durations *)

(** Rounding the last nanosecond of a period to milliseconds. *)
Lemma last_ms (e : Z) : 0 < e <= max_i64 -> e mod Millisecond = 0 ->
  Z.quot (wrap64 (e - 1)) 1000000 = e / Millisecond - 1.
Proof.
  intros He Hm. rewrite wrap64_id by (unfold in64, min_i64, max_i64 in *; lia).
  rewrite Z.quot_div_nonneg by lia. unfold Millisecond in *.
  Z.to_euclidean_division_equations; lia.
Qed.

Lemma whole_ms (a o : Z) : (a * Day - o * Second) mod Millisecond = 0.
Proof.
  replace (a * Day - o * Second) with ((a * 86400000 - o * 1000) * Millisecond)
    by (unfold Day, Hour, Minute, Second, Millisecond; ring).
  by apply Z.mod_mul.
Qed.

(** The local day and hour of an instant in a fixed zone. *)
Lemma local_day (ns o : Z) :
  local_sec (mkTime ns (FixedZone o)) / 86400 = (ns + o * Second) / Day /\
  local_sec (mkTime ns (FixedZone o)) mod 86400 / 3600 =
    (ns + o * Second) / Hour - 24 * ((ns + o * Second) / Day).
Proof.
  unfold local_sec, unix_sec, FixedZone, Day, Hour, Minute, Second. simpl.
  Z.to_euclidean_division_equations; lia.
Qed.

Lemma period_days_bounds (d n a b : Z) : period_days d n = (a, b) -> a <= n < b.
Proof.
  unfold period_days. destruct (civil_of_days n) as [[y m] dd] eqn:E.
  pose proof (civil_of_days_spec _ _ _ _ E) as (Hm & Hd & Heq & Hnext & Hyear).
  rewrite days_of_civil_day in Heq.
  destruct (d =? GregorianDays); [intros [= <- <-]; lia|].
  destruct (d =? GregorianWeeks).
  { intros [= <- <-]. pose proof (Z.mod_pos_bound (n + 3) 7). lia. }
  destruct (d =? GregorianMonths); [|intros [= <- <-]; lia].
  destruct (next_month y m) as [y' m']. intros [= <- <-]. lia.
Qed.

(** An instant lies in its period. *)
Lemma period_bounds (o d ns s e : Z) : period o d ns = (s, e) -> s <= ns < e.
Proof.
  unfold period. destruct (d =? GregorianMinutes).
  { intros [= <- <-]. unfold Minute, Second. Z.to_euclidean_division_equations; lia. }
  destruct (d =? GregorianHours).
  { intros [= <- <-]. unfold Hour, Minute, Second. Z.to_euclidean_division_equations; lia. }
  destruct (period_days d ((ns + o * Second) / Day)) as [a b] eqn:E. intros [= <- <-].
  apply period_days_bounds in E. unfold Day, Hour, Minute, Second in *.
  Z.to_euclidean_division_equations; lia.
Qed.

Lemma period_whole_ms (o d ns s e : Z) : period o d ns = (s, e) ->
  s mod Millisecond = 0 /\ e mod Millisecond = 0.
Proof.
  unfold period. destruct (d =? GregorianMinutes).
  { intros [= <- <-]. unfold Minute, Second, Millisecond.
    Z.to_euclidean_division_equations; lia. }
  destruct (d =? GregorianHours).
  { intros [= <- <-]. unfold Hour, Minute, Second, Millisecond.
    Z.to_euclidean_division_equations; lia. }
  destruct (period_days d _) as [a b]. intros [= <- <-]. split; apply whole_ms.
Qed.

(** The last nanosecond the code computes is the one before the period's end. *)
Lemma expiration_ns (o d ns s e : Z) : 0 <= d <= 5 -> period o d ns = (s, e) ->
  GregorianExpiration (mkTime ns (FixedZone o)) d = Ok (Z.quot (wrap64 (e - 1)) 1000000).
Proof.
  intros Hd Hp. unfold GregorianExpiration, period, period_days in *.
  pose proof (local_day ns o) as [Hday Hhour].
  unfold tDate, tHour, tWeekday, weekday_of_days. rewrite Hday, Hhour. simpl t_loc.
  set (n := (ns + o * Second) / Day) in *.
  destruct (civil_of_days n) as [[y m] dd] eqn:E.
  pose proof (civil_of_days_spec _ _ _ _ E) as (Hm & _ & Heq & _ & _).
  destruct (Z.eqb_spec d GregorianMinutes) as [->|H0].
  { injection Hp as <- <-. unfold Truncate, UnixNano, Add. simpl. do 3 f_equal.
    unfold zero_time_ns, Minute, Second, Nanosecond. Z.to_euclidean_division_equations; lia. }
  destruct (Z.eqb_spec d GregorianHours) as [->|H1].
  { injection Hp as <- <-. rewrite Date_fixed by (done || (unfold Second; lia)).
    unfold UnixNano, Add. simpl. do 3 f_equal. rewrite Heq.
    unfold Hour, Minute, Second, Nanosecond in *. lia. }
  destruct (Z.eqb_spec d GregorianDays) as [->|H2].
  { injection Hp as <- <-. rewrite Date_fixed by (done || (unfold Second, Nanosecond; lia)).
    unfold UnixNano. simpl. do 3 f_equal. rewrite Heq.
    unfold Day, Hour, Minute, Second, Nanosecond. lia. }
  destruct (Z.eqb_spec d GregorianWeeks) as [->|H3].
  { injection Hp as <- <-. rewrite Date_fixed by (done || (unfold Second, Nanosecond; lia)).
    unfold UnixNano. simpl. do 3 f_equal. rewrite (days_of_civil_day y m (dd + _)).
    rewrite (days_of_civil_day y m dd) in Heq.
    assert (Z.rem (7 - (n + 4) mod 7) 7 = 6 - (n + 3) mod 7) as ->.
    { rewrite Z.rem_mod_nonneg by (pose proof (Z.mod_pos_bound (n + 4) 7); lia).
      Z.to_euclidean_division_equations; lia. }
    unfold Day, Hour, Minute, Second, Nanosecond. lia. }
  destruct (Z.eqb_spec d GregorianMonths) as [->|H4].
  { fold (first_of o y m). destruct (next_month y m) as [y' m'] eqn:En. injection Hp as <- <-.
    rewrite (first_of_next_month o y m y' m') by done.
    unfold UnixNano, Add. cbn [t_ns]. rewrite first_of_ns by (by eapply next_month_range). done. }
  destruct (Z.eqb_spec d GregorianYears) as [->|H5];
    [|unfold GregorianYears, GregorianMonths, GregorianWeeks, GregorianDays, GregorianHours, GregorianMinutes in *; lia].
  injection Hp as <- <-. fold (first_of o y 1). rewrite first_of_next_year.
  unfold UnixNano, Add. cbn [t_ns]. by rewrite first_of_ns by lia.
Qed.

(** [GregorianExpiration] is the last millisecond of the calendar period (minute,
    hour, day, week ending on Sunday, month, year) that contains [now]. *)
Lemma GregorianExpiration_period (o d ns s e : Z) :
  0 <= d <= 5 -> period o d ns = (s, e) -> 0 < e <= max_i64 ->
  s <= ns < e /\
  GregorianExpiration (mkTime ns (FixedZone o)) d = Ok (e / Millisecond - 1).
Proof.
  intros Hd Hp He. split; [by eapply period_bounds|].
  rewrite (expiration_ns o d ns s e Hd Hp).
  by rewrite last_ms by (done || apply (period_whole_ms o d ns s e Hp)).
Qed.

Lemma Milliseconds_sub (t u : Time) : 0 <= t_ns t - t_ns u <= max_i64 ->
  Milliseconds (Sub t u) = (t_ns t - t_ns u) / Millisecond.
Proof.
  intros H. unfold Milliseconds, Sub, Millisecond.
  rewrite Z.min_r, Z.max_r by (unfold min_i64, max_i64 in *; lia).
  apply Z.quot_div_nonneg; lia.
Qed.

Lemma month_span (y m y' m' : Z) : 1 <= m <= 12 -> next_month y m = (y', m') ->
  days_of_civil y m 1 <= days_of_civil y' m' 1 <= days_of_civil y m 1 + 31.
Proof.
  unfold next_month, days_of_civil, of_march. intros Hm. pose proof (march1_step (y - 1)) as Hs.
  replace (y - 1 + 1) with y in Hs by lia.
  destruct (Z.eqb_spec m 12) as [->|]; intros [= <- <-]; simpl; replace (y + 1 - 1) with y by lia.
  - change ((153 * (12 - 3) + 2) / 5) with 275. change ((153 * (1 + 9) + 2) / 5) with 306. lia.
  - destruct (Z.leb_spec m 2), (Z.leb_spec (m + 1) 2); Z.to_euclidean_division_equations; lia.
Qed.

(** [GregorianDuration] is the length, in milliseconds, of the same period. *)
Lemma GregorianDuration_period (o d ns s e : Z) :
  0 <= d <= 5 -> period o d ns = (s, e) ->
  GregorianDuration (mkTime ns (FixedZone o)) d = Ok ((e - s) / Millisecond).
Proof.
  intros Hd Hp. unfold GregorianDuration, period, period_days in *.
  unfold tDate. rewrite (proj1 (local_day ns o)). simpl t_loc.
  set (n := (ns + o * Second) / Day) in *.
  destruct (civil_of_days n) as [[y m] dd] eqn:E.
  pose proof (civil_of_days_spec _ _ _ _ E) as (Hm & _ & _ & _ & _).
  destruct (Z.eqb_spec d GregorianMinutes) as [->|H0].
  { injection Hp as <- <-. rewrite Z.add_simpl_l. done. }
  destruct (Z.eqb_spec d GregorianHours) as [->|H1].
  { injection Hp as <- <-. rewrite Z.add_simpl_l. done. }
  destruct (Z.eqb_spec d GregorianDays) as [->|H2].
  { injection Hp as <- <-. replace (_ - _ - _) with Day by (unfold Day; lia). done. }
  destruct (Z.eqb_spec d GregorianWeeks) as [->|H3].
  { injection Hp as <- <-. replace (_ - _ - _) with (7 * Day) by (unfold Day; lia). done. }
  destruct (Z.eqb_spec d GregorianMonths) as [->|H4].
  { fold (first_of o y m). destruct (next_month y m) as [y' m'] eqn:En. injection Hp as <- <-.
    pose proof (month_span y m y' m' Hm En). pose proof (next_month_range y m y' m' Hm En).
    rewrite (first_of_next_month o y m y' m') by done.
    rewrite Milliseconds_sub; rewrite !first_of_ns by done; [done|].
    unfold Day, Hour, Minute, Second, max_i64 in *. lia. }
  destruct (Z.eqb_spec d GregorianYears) as [->|H5];
    [|unfold GregorianYears, GregorianMonths, GregorianWeeks, GregorianDays, GregorianHours, GregorianMinutes in *; lia].
  injection Hp as <- <-. fold (first_of o y 1). rewrite first_of_next_year.
  pose proof (march1_step (y - 1)) as Hs. replace (y - 1 + 1) with y in Hs by lia.
  assert (days_of_civil y 1 1 + 365 <= days_of_civil (y + 1) 1 1 <= days_of_civil y 1 1 + 366).
  { unfold days_of_civil, of_march. simpl. replace (y + 1 - 1) with y by lia. lia. }
  rewrite Milliseconds_sub; rewrite !first_of_ns by lia; [done|].
  unfold Day, Hour, Minute, Second, max_i64 in *. lia.
Qed.

(** Any other number of the duration field is an error, of both functions. *)
Lemma gregorian_invalid (now : Time) (d : Z) : ~ 0 <= d <= 5 ->
  GregorianExpiration now d = Err gregorian_error /\ GregorianDuration now d = Err gregorian_error.
Proof.
  intros Hd. unfold GregorianExpiration, GregorianDuration,
    GregorianYears, GregorianMonths, GregorianWeeks, GregorianDays, GregorianHours, GregorianMinutes.
  repeat (rewrite (proj2 (Z.eqb_neq d _)) by lia). done.
Qed.

(** C39: In a zone with a fixed offset, a Gregorian limit expires with the calendar period
    that contains the moment (minute, hour, day, week ending on Sunday, month, year):
    [GregorianExpiration] is the last millisecond of that period, and [GregorianDuration]
    its length, as long as the period ends after 1970 and within the range of nanoseconds
    in 64 bits. *)
Theorem Gregorian_periods (o d ns s e : Z)
    (Hd : 0 <= d <= 5) (Hp : period o d ns = (s, e)) (He : 0 < e <= max_i64) :
  s <= ns < e /\
  GregorianExpiration (mkTime ns (FixedZone o)) d = Ok (e / Millisecond - 1) /\
  GregorianDuration (mkTime ns (FixedZone o)) d = Ok ((e - s) / Millisecond).
Proof.
  destruct (GregorianExpiration_period o d ns s e Hd Hp He) as [Hin Hx]. split; [done|]. split; [done|].
  by apply GregorianDuration_period.
Qed.

(** The last day of February 2024, in a zone an hour ahead: the month ends with it. *)
Lemma Gregorian_periods_witness :
  GregorianExpiration (mkTime (1709204400 * Second) (FixedZone 3600)) GregorianMonths = Ok (1709247600000 - 1) /\
  GregorianDuration (mkTime (1709204400 * Second) (FixedZone 3600)) GregorianMonths = Ok (29 * 86400000).
Proof.
  apply (Gregorian_periods 3600 GregorianMonths (1709204400 * Second) (1706742000 * Second) (1709247600 * Second));
    [done|vm_compute; reflexivity|done].
Defined.

(** Where clocks are changed the two differ: the day on which summer time ends has 25 hours
    between its expiration and that of the day before, but its duration is 24 hours. *)
Definition summerTimeEnds : Location :=
  mkLoc (fun s => if s <? 1729990800 then mkSpan 7200 min_i64 1729990800 else mkSpan 3600 1729990800 max_i64).

Example long_day :
  GregorianExpiration (mkTime (1729979999 * Second) summerTimeEnds) GregorianDays = Ok (1729980000000 - 1) /\
  GregorianExpiration (mkTime (1729980000 * Second) summerTimeEnds) GregorianDays = Ok (1729980000000 + 25 * 3600000 - 1) /\
  GregorianDuration (mkTime (1729980000 * Second) summerTimeEnds) GregorianDays = Ok (24 * 3600000).
Proof. vm_compute. split_and!; reflexivity. Qed.
End Gregorian.

(** ** The one-shot ticker ([Interval]) *)

Module Ticker.

(** What the goroutine of [run] is doing. *)
Inductive Phase : Type := Ready | Sleeping | Stopped.

(** The channels [in] and [C] each buffer one value. *)
Record Interval : Type := mkInterval {
  iv_in : bool;
  iv_C : bool;
  iv_phase : Phase;
  iv_done : bool
}.

Definition NewInterval : Interval := mkInterval false false Ready false.

(** [Next]: queue an interval unless one is queued. *)
Definition Next (i : Interval) : Interval := mkInterval true (iv_C i) (iv_phase i) (iv_done i).

(** [Stop] closes [done]; the goroutine sees it when it is next in the select. *)
Definition Stop (i : Interval) : Interval := mkInterval (iv_in i) (iv_C i) (iv_phase i) true.

(** Moves of the goroutine and of the reader of [C]. *)
Inductive event : Type := Begin | Tick | Quit | Receive | CallNext.

#[global] Instance event_eq_dec : EqDecision event.
Proof. solve_decision. Defined.

Definition step (i : Interval) (ev : event) : option Interval :=
  match ev with
  | Begin => if (iv_in i : bool) then
               match iv_phase i with
               | Ready => Some (mkInterval false (iv_C i) Sleeping (iv_done i))
               | _ => None
               end
             else None
  | Tick => match iv_phase i with
            | Sleeping => if iv_C i then None else Some (mkInterval (iv_in i) true Ready (iv_done i))
            | _ => None
            end
  | Quit => match iv_phase i with
            | Ready => if iv_done i then Some (mkInterval (iv_in i) (iv_C i) Stopped true) else None
            | _ => None
            end
  | Receive => if iv_C i then Some (mkInterval (iv_in i) false (iv_phase i) (iv_done i)) else None
  | CallNext => Some (Next i)
  end.

Fixpoint run (i : Interval) (evs : list event) : option Interval :=
  match evs with
  | [] => Some i
  | ev :: evs => match step i ev with Some i' => run i' evs | None => None end
  end.

Definition count (ev : event) (evs : list event) : nat :=
  length (filter (fun e => e = ev) evs).

Definition bit (b : bool) : nat := if b then 1 else 0.
Definition sleeping (i : Interval) : nat := match iv_phase i with Sleeping => 1 | _ => 0 end.

(** What the counts of moves say about the state. *)
Record accounted (i : Interval) (evs : list event) : Prop := {
  ac_next : (count Begin evs + bit (iv_in i) <= count CallNext evs)%nat;
  ac_tick : (count Tick evs + sleeping i = count Begin evs)%nat;
  ac_read : (count Receive evs + bit (iv_C i) = count Tick evs)%nat
}.

Lemma count_app (ev : event) (l1 l2 : list event) : count ev (l1 ++ l2) = (count ev l1 + count ev l2)%nat.
Proof. unfold count. by rewrite filter_app, length_app. Qed.

Lemma step_accounted (i i' : Interval) (evs : list event) (ev : event) :
  accounted i evs -> step i ev = Some i' -> accounted i' (evs ++ [ev]).
Proof.
  intros [H1 H2 H3] Hs. destruct i as [bin bC ph dn]. unfold sleeping in *. simpl in *.
  destruct ev, bin, bC, ph, dn; simplify_eq/=; constructor; rewrite !count_app; unfold count, sleeping, bit in *; simpl in *; lia.
Qed.

Lemma run_accounted (i i' : Interval) (evs0 evs : list event) :
  accounted i evs0 -> run i evs = Some i' -> accounted i' (evs0 ++ evs).
Proof.
  revert i evs0. induction evs as [|ev evs IH]; intros i evs0 Ha Hr; simpl in *.
  - simplify_eq. by rewrite app_nil_r.
  - destruct (step i ev) as [i1|] eqn:Hs; [|done].
    replace (evs0 ++ ev :: evs) with ((evs0 ++ [ev]) ++ evs) by (by rewrite <- app_assoc).
    apply (IH i1); [by eapply step_accounted|done].
Qed.

(** The ticker ticks only when asked to: in every run there are at most as many
    ticks as calls of [Next], and at most as many are read as were sent. *)
Theorem ticker_ticks_bounded (evs : list event) (i : Interval) (Hrun : run NewInterval evs = Some i) :
  (count Receive evs <= count Tick evs <= count CallNext evs)%nat.
Proof.
  assert (accounted NewInterval []) as H0 by (by constructor).
  destruct (run_accounted NewInterval i [] evs H0 Hrun) as [H1 H2 H3]. simpl in *. lia.
Qed.

(** A call of [Next] is not lost: unless the ticker is being stopped, the
    goroutine and a reader of [C] can always go on to a tick that follows the call.
    In particular a call made while an interval is already running is not ignored: the
    ticker ticks for the running interval and then once more. *)
Theorem ticker_next_ticks (i : Interval) (Hlive : iv_phase i <> Stopped) :
  exists evs i', run (Next i) evs = Some i' /\ count CallNext evs = 0%nat /\ iv_in i' = false /\
    count Tick evs = match iv_phase i with Sleeping => 2%nat | _ => 1%nat end.
Proof.
  destruct i as [bin bC ph dn]. destruct ph; [| |done]; destruct bC.
  - exists [Begin; Receive; Tick]. by eexists.
  - exists [Begin; Tick]. by eexists.
  - exists [Receive; Tick; Begin; Receive; Tick]. by eexists.
  - exists [Tick; Begin; Receive; Tick]. by eexists.
Qed.

Lemma ticker_ticks_bounded_witness : (count Receive [CallNext; Begin; Tick; Receive] <= 1)%nat.
Proof.
  destruct (ticker_ticks_bounded [CallNext; Begin; Tick; Receive] _ eq_refl) as [H1 H2].
  etransitivity; [exact H1|exact H2].
Defined.

Lemma ticker_next_ticks_witness : exists evs i',
  run (Next (mkInterval false false Sleeping false)) evs = Some i' /\ count Tick evs = 2%nat.
Proof.
  destruct (ticker_next_ticks (mkInterval false false Sleeping false)) as (evs & i' & Hr & _ & _ & Ht);
    [discriminate|]. exists evs, i'. by split.
Defined.
End Ticker.
