(* ===== verification/GoStrings.v ===== *)
(** * Text (Go packages [strings], [strconv], [time] and [net])

    The functions on strings that configuration and peer discovery use, as the Go
    standard library defines them: splitting, trimming, numbers, durations,
    [host:port] addresses. A string is a sequence of bytes. *)

From stdpp Require Import base strings list pretty.
From Stdlib Require Import ZArith Lia Ascii.
From S2P Require Import Prelude Float64.

Local Open Scope Z_scope.

(** ** Bytes and substrings *)

Definition byte (c : ascii) : Z := Z.of_N (N_of_ascii c).

Definition chr (z : Z) : string := String (ascii_of_N (Z.to_N z)) "".

(** A string of the bytes given. *)
Definition bytes (l : list Z) : string := foldr (fun z s => chr z +:+ s) "" l.

Definition HasPrefix (s p : string) : bool := String.prefix p s.

(** [s[n:]] *)
Fixpoint skipn_s (n : nat) (s : string) : string :=
  match n, s with
  | O, _ => s
  | S n, String _ s => skipn_s n s
  | S _, EmptyString => EmptyString
  end.

(** The parts of [s] before and after the first [sep], if it occurs. *)
Fixpoint cut (sep s : string) : option (string * string) :=
  if String.prefix sep s then Some (EmptyString, skipn_s (String.length sep) s)
  else match s with
       | EmptyString => None
       | String c s => match cut sep s with
                       | Some (a, b) => Some (String c a, b)
                       | None => None
                       end
       end.

(** [strings.SplitN]: at most [n] parts. *)
Fixpoint SplitN (n : nat) (sep s : string) : list string :=
  match n with
  | O => []
  | S O => [s]
  | S n => match cut sep s with
           | None => [s]
           | Some (a, b) => a :: SplitN n sep b
           end
  end.

(** [strings.Split], for a separator that is not empty: there are at most as many
    separators as bytes. *)
Definition Split (sep s : string) : list string := SplitN (S (String.length s)) sep s.

Fixpoint Join (sep : string) (parts : list string) : string :=
  match parts with
  | [] => EmptyString
  | [p] => p
  | p :: ps => p +:+ sep +:+ Join sep ps
  end.

(** [strings.IndexByte(s, c) >= 0] *)
Fixpoint contains (c : ascii) (s : string) : bool :=
  match s with
  | EmptyString => false
  | String d s => Ascii.eqb c d || contains c s
  end.

(** ** White space *)

(** The encodings of the runes [unicode.IsSpace] accepts. *)
Definition spaces : list string :=
  map chr [9; 10; 11; 12; 13; 32] ++
  [bytes [194; 133]; bytes [194; 160]; bytes [225; 154; 128]] ++
  map (fun z => bytes [226; 128; z]) (seqZ 128 11) ++
  [bytes [226; 128; 168]; bytes [226; 128; 169]; bytes [226; 128; 175]; bytes [226; 129; 159];
   bytes [227; 128; 128]].

Fixpoint reverse_onto (s acc : string) : string :=
  match s with
  | EmptyString => acc
  | String c s => reverse_onto s (String c acc)
  end.

Definition reverseString (s : string) : string := reverse_onto s EmptyString.

(** Strip prefixes of [sps], at most [fuel] times. *)
Fixpoint trimPrefixes (fuel : nat) (sps : list string) (s : string) : string :=
  match fuel with
  | O => s
  | S fuel => match List.find (fun p => String.prefix p s) sps with
              | Some p => trimPrefixes fuel sps (skipn_s (String.length p) s)
              | None => s
              end
  end.

(** [strings.TrimSpace]: every encoding has a byte, so the length is fuel enough. *)
Definition trimLeft (sps : list string) (s : string) : string := trimPrefixes (String.length s) sps s.

Definition TrimSpace (s : string) : string :=
  reverseString (trimLeft (map reverseString spaces) (reverseString (trimLeft spaces s))).

(** ** Numbers *)

Definition isDigit (c : ascii) : bool := (48 <=? byte c) && (byte c <=? 57).

Fixpoint digitsVal (acc : Z) (s : string) : option Z :=
  match s with
  | EmptyString => Some acc
  | String c s => if isDigit c then digitsVal (acc * 10 + (byte c - 48)) s else None
  end.

Definition errSyntax (fn s : string) : gerror :=
  ErrNew ("strconv." +:+ fn +:+ ": parsing " +:+ s +:+ ": invalid syntax").

Definition errRange (fn s : string) : gerror :=
  ErrNew ("strconv." +:+ fn +:+ ": parsing " +:+ s +:+ ": value out of range").

Definition signOf (s : string) : bool * string :=
  match s with
  | String c s' => if Ascii.eqb c "-" then (true, s') else if Ascii.eqb c "+" then (false, s') else (false, s)
  | EmptyString => (false, s)
  end.

(** [strconv.ParseInt(s, 10, 64)]; [strconv.Atoi] is the same under its own name. *)
Definition parseInt (fn s : string) : result Z :=
  let '(neg, d) := signOf s in
  match d with
  | EmptyString => Err (errSyntax fn s)
  | _ => match digitsVal 0 d with
         | None => Err (errSyntax fn s)
         | Some v => let v := if neg then - v else v in
                     if decide (in64 v) then Ok v else Err (errRange fn s)
         end
  end.

Definition ParseInt : string -> result Z := parseInt "ParseInt".
Definition Atoi : string -> result Z := parseInt "Atoi".

Definition ParseBool (s : string) : result bool :=
  if bool_decide (s ∈ ["1"; "t"; "T"; "TRUE"; "true"; "True"]) then Ok true
  else if bool_decide (s ∈ ["0"; "f"; "F"; "FALSE"; "false"; "False"]) then Ok false
  else Err (errSyntax "ParseBool" s).

(** ** Durations ([time.ParseDuration]) *)

(** The digits at the front: value, rest, and whether any byte was consumed; [None] on
    overflow. *)
Fixpoint leadingInt (x : Z) (s : string) : option (Z * string) :=
  match s with
  | String c s' =>
      if isDigit c then
        if 2 ^ 63 / 10 <? x then None
        else let x := x * 10 + (byte c - 48) in
             if 2 ^ 63 <? x then None else leadingInt x s'
      else Some (x, s)
  | EmptyString => Some (x, s)
  end.

Definition fTen : f64 := f64_of_int 10.

Fixpoint leadingFraction (x : Z) (scale : f64) (overflow : bool) (s : string) : Z * f64 * string :=
  match s with
  | String c s' =>
      if isDigit c then
        if overflow then leadingFraction x scale true s'
        else if (2 ^ 63 - 1) / 10 <? x then leadingFraction x scale true s'
        else let y := x * 10 + (byte c - 48) in
             if 2 ^ 63 <? y then leadingFraction x scale true s'
             else leadingFraction y (fmul scale fTen) false s'
      else (x, scale, s)
  | EmptyString => (x, scale, s)
  end.

(** The bytes up to the next digit or point. *)
Fixpoint leadingUnit (s : string) : string * string :=
  match s with
  | String c s' => if isDigit c || Ascii.eqb c "." then (EmptyString, s)
                   else let '(u, r) := leadingUnit s' in (String c u, r)
  | EmptyString => (EmptyString, EmptyString)
  end.

Definition unitOf (u : string) : option Z :=
  if String.eqb u "ns" then Some 1
  else if String.eqb u "us" || String.eqb u (bytes [194; 181; 115]) || String.eqb u (bytes [206; 188; 115])
  then Some 1000
  else if String.eqb u "ms" then Some 1000000
  else if String.eqb u "s" then Some 1000000000
  else if String.eqb u "m" then Some 60000000000
  else if String.eqb u "h" then Some 3600000000000
  else None.

Definition invalidDuration {A} (orig : string) : result A := Err (ErrNew ("time: invalid duration " +:+ orig)).

(** One number with its unit at the front of [s]: its nanoseconds and the rest. The
    fraction is at most an hour, so its conversion from float is in range. *)
Definition durationTerm `{Arch} (orig s : string) : result (Z * string) :=
  match s with
  | EmptyString => invalidDuration orig
  | String c _ =>
      if negb (isDigit c || Ascii.eqb c ".") then invalidDuration orig
      else
        match leadingInt 0 s with
        | None => invalidDuration orig
        | Some (v, s1) =>
            let pre := isDigit c in
            let '(f, scale, s2, post) :=
              match s1 with
              | String d s1' =>
                  if Ascii.eqb d "." then
                    let '(f, scale, s2) := leadingFraction 0 (f64_of_int 1) false s1' in
                    (f, scale, s2, negb (Nat.eqb (String.length s1') (String.length s2)))
                  else (0, f64_of_int 1, s1, false)
              | EmptyString => (0, f64_of_int 1, s1, false)
              end in
            if negb pre && negb post then invalidDuration orig
            else
              let '(u, rest) := leadingUnit s2 in
              if String.eqb u "" then Err (ErrNew ("time: missing unit in duration " +:+ orig))
              else
                match unitOf u with
                | None => Err (ErrNew ("time: unknown unit " +:+ u +:+ " in duration " +:+ orig))
                | Some unit =>
                    if 2 ^ 63 / unit <? v then invalidDuration orig
                    else
                      let v := v * unit in
                      let v := if 0 <? f
                               then v + int64_of_f (fmul (f64_of_int f) (fdiv (f64_of_int unit) scale))
                               else v in
                      if 2 ^ 63 <? v then invalidDuration orig else Ok (v, rest)
                end
        end
  end.

(** The loop over the terms; every term consumes a byte, so the length is fuel enough. *)
Fixpoint durationTerms `{Arch} (fuel : nat) (orig : string) (d : Z) (s : string) : result Z :=
  match s, fuel with
  | EmptyString, _ => Ok d
  | _, O => invalidDuration orig
  | _, S fuel =>
      match durationTerm orig s with
      | Err e => Err e
      | Ok (v, rest) => let d := d + v in
                        if 2 ^ 63 <? d then invalidDuration orig else durationTerms fuel orig d rest
      end
  end.

Definition ParseDuration `{Arch} (orig : string) : result Z :=
  let '(neg, s) := signOf orig in
  if String.eqb s "0" then Ok 0
  else if String.eqb s "" then invalidDuration orig
  else
    match durationTerms (String.length s) orig 0 s with
    | Err e => Err e
    | Ok d => if neg then Ok (- d)
              else if 2 ^ 63 - 1 <? d then invalidDuration orig else Ok d
    end.

(** ** Addresses ([net.SplitHostPort], [net.JoinHostPort]) *)

(** The parts before and after the last [c]. *)
Fixpoint lastCut (c : ascii) (s : string) : option (string * string) :=
  match s with
  | EmptyString => None
  | String d s' => match lastCut c s' with
                   | Some (a, b) => Some (String d a, b)
                   | None => if Ascii.eqb c d then Some (EmptyString, s') else None
                   end
  end.

Definition addrErr {A} (addr why : string) : result A :=
  Err (ErrNew (if String.eqb addr "" then why else "address " +:+ addr +:+ ": " +:+ why)).

Definition missingPort : string := "missing port in address".
Definition tooManyColons : string := "too many colons in address".

(** The brackets left over once the host is found: [j] is the text in which no opening,
    [k] the text in which no closing one may be. *)
Definition checkBrackets (hostport j k host port : string) : result (string * string) :=
  if contains "[" j then addrErr hostport "unexpected '[' in address"
  else if contains "]" k then addrErr hostport "unexpected ']' in address"
  else Ok (host, port).

Definition SplitHostPort (hostport : string) : result (string * string) :=
  match lastCut ":" hostport with
  | None => addrErr hostport missingPort
  | Some (before, port) =>
      if HasPrefix hostport "[" then
        match cut "]" hostport with
        | None => addrErr hostport "missing ']' in address"
        | Some (pre, post) =>
            if String.eqb post "" then addrErr hostport missingPort
            else if Nat.eqb (S (String.length pre)) (String.length before)
            then checkBrackets hostport (skipn_s 1 hostport) post (skipn_s 1 pre) port
            else if HasPrefix post ":" then addrErr hostport tooManyColons
            else addrErr hostport missingPort
        end
      else if contains ":" before then addrErr hostport tooManyColons
      else checkBrackets hostport hostport hostport before port
  end.

Definition JoinHostPort (host port : string) : string :=
  if contains ":" host then "[" +:+ host +:+ "]:" +:+ port else host +:+ ":" +:+ port.

(** ** Lemmas *)

Lemma app_cons (c : ascii) (a b : string) : String c a +:+ b = String c (a +:+ b).
Proof. done. Qed.

Lemma skipn_app (a b : string) : skipn_s (String.length a) (a +:+ b) = b.
Proof. induction a as [|c a IH]; [done|exact IH]. Qed.

Lemma prefix_app (p s : string) : String.prefix p s = true <-> exists r, s = p +:+ r.
Proof.
  revert s. induction p as [|c p IH]; intros s; simpl.
  { split; [by exists s|by destruct s]. }
  destruct s as [|d s]; [split; [done|by intros [r [=]]]|]. cbn [String.prefix].
  destruct (ascii_dec c d) as [->|Hn].
  - rewrite IH. split; intros [r Hr]; exists r; [by rewrite Hr|by injection Hr].
  - split; [done|]. intros [r [= -> _]]. done.
Qed.

Lemma cut_app (sep s a b : string) : cut sep s = Some (a, b) -> s = a +:+ sep +:+ b.
Proof.
  revert a b. induction s as [|c s IH]; intros a b; cbn [cut].
  - destruct (String.prefix sep "") eqn:E; [|done]. intros [= <- <-].
    apply prefix_app in E as [r Hr]. by destruct sep.
  - destruct (String.prefix sep (String c s)) eqn:E.
    + intros [= <- <-]. apply prefix_app in E as [r ->]. by rewrite skipn_app.
    + destruct (cut sep s) as [[a' b']|]; [|done]. intros [= <- <-].
      rewrite app_cons. f_equal. by apply IH.
Qed.

Lemma cut_None (c : ascii) (s : string) : cut (String c "") s = None -> contains c s = false.
Proof.
  induction s as [|d s IH]; [done|]. cbn [cut String.prefix contains].
  destruct (ascii_dec c d) as [->|Hn]; [by destruct s|].
  destruct (Ascii.eqb_spec c d); [done|]. destruct (cut _ s) as [[??]|]; [done|]. intros _. by apply IH.
Qed.

Lemma cut_before (c : ascii) (s a b : string) : cut (String c "") s = Some (a, b) -> contains c a = false.
Proof.
  revert a b. induction s as [|d s IH]; intros a b; [done|]. cbn [cut String.prefix].
  destruct (ascii_dec c d) as [->|Hn].
  { replace (String.prefix "" s) with true by (by destruct s). by intros [= <- _]. }
  destruct (cut _ s) as [[a' b']|]; [|done]. intros [= <- _]. simpl.
  destruct (Ascii.eqb_spec c d); [done|]. by apply (IH a' b').
Qed.

(** The separator that follows a part without it is the first one. *)
Lemma cut_first (c : ascii) (a b : string) : contains c a = false -> cut (String c "") (a +:+ String c b) = Some (a, b).
Proof.
  induction a as [|d a IH].
  { intros _. change ("" +:+ ?x) with x. cbn [cut String.prefix]. destruct (ascii_dec c c); [|done]. by destruct b. }
  rewrite app_cons. cbn [contains cut String.prefix].
  intros [Hd Ha]%orb_false_iff. destruct (ascii_dec c d) as [->|Hn]; [by rewrite Ascii.eqb_refl in Hd|].
  by rewrite (IH Ha).
Qed.

Lemma cut_absent (c : ascii) (s : string) : contains c s = false -> cut (String c "") s = None.
Proof.
  induction s as [|d s IH]; [done|]. cbn [contains cut String.prefix]. intros [Hd Hs]%orb_false_iff.
  destruct (ascii_dec c d) as [->|Hn]; [by rewrite Ascii.eqb_refl in Hd|]. by rewrite (IH Hs).
Qed.

Lemma length_app (a b : string) : String.length (a +:+ b) = (String.length a + String.length b)%nat.
Proof. induction a as [|c a IH]; [done|]. rewrite app_cons. simpl. by rewrite IH. Qed.

Lemma app_inj_r (a b t : string) : a +:+ t = b +:+ t -> a = b.
Proof.
  revert b. induction a as [|c a IH]; intros [|d b] E; rewrite ?app_cons in E; [done|..].
  - apply (f_equal String.length) in E. change ("" +:+ t) with t in E. cbn [String.length] in E.
    rewrite length_app in E. lia.
  - apply (f_equal String.length) in E. change ("" +:+ t) with t in E. cbn [String.length] in E.
    rewrite length_app in E. lia.
  - injection E as -> E. f_equal. by apply IH.
Qed.

Lemma SplitN_step (n : nat) (sep s : string) :
  SplitN (S (S n)) sep s = match cut sep s with None => [s] | Some (a, b) => a :: SplitN (S n) sep b end.
Proof. done. Qed.

Lemma Join_step (sep p q : string) (ps : list string) : Join sep (p :: q :: ps) = p +:+ sep +:+ Join sep (q :: ps).
Proof. done. Qed.

Lemma Join_SplitN (n : nat) (sep s : string) : (0 < n)%nat -> Join sep (SplitN n sep s) = s.
Proof.
  revert s. induction n as [|n IH]; intros s Hn; [lia|]. destruct n as [|n]; [done|].
  rewrite SplitN_step. destruct (cut sep s) as [[a b]|] eqn:E; [|done].
  apply cut_app in E as ->. transitivity (a +:+ sep +:+ Join sep (SplitN (S n) sep b)); [|by rewrite IH by lia].
  destruct n; [done|]. rewrite SplitN_step. by destruct (cut sep b) as [[??]|].
Qed.

(** Joining what was split gives the string back. *)
Lemma Join_Split (sep s : string) : Join sep (Split sep s) = s.
Proof. apply Join_SplitN. lia. Qed.

Lemma SplitN_none (n : nat) (c : ascii) (s : string) : (String.length s < n)%nat ->
  Forall (fun p => contains c p = false) (SplitN n (String c "") s).
Proof.
  revert s. induction n as [|n IH]; intros s Hn; [lia|]. destruct n as [|n].
  { destruct s; [by repeat constructor|simpl in Hn; lia]. }
  rewrite SplitN_step. destruct (cut _ s) as [[a b]|] eqn:E; [|constructor; [by apply cut_None|constructor]].
  constructor; [by apply cut_before in E|]. apply IH.
  apply cut_app in E as ->. rewrite !length_app in Hn. simpl in Hn. lia.
Qed.

(** No part has the separator left. *)
Lemma Split_none (c : ascii) (s : string) : Forall (fun p => contains c p = false) (Split (String c "") s).
Proof. apply SplitN_none. lia. Qed.

Lemma SplitN_Join (n : nat) (c : ascii) (ps : list string) :
  (length ps <= n)%nat -> ps <> [] -> Forall (fun p => contains c p = false) ps ->
  SplitN n (String c "") (Join (String c "") ps) = ps.
Proof.
  revert n. induction ps as [|p ps IH]; intros n Hn Hne Hf; [done|]. inversion Hf as [|? ? Hp Hps]; subst.
  destruct n as [|n]; [simpl in Hn; lia|]. destruct ps as [|q ps].
  - cbn [Join]. destruct n; [done|]. cbn [SplitN]. by rewrite cut_absent.
  - destruct n as [|n]; [simpl in Hn; lia|]. rewrite SplitN_step, Join_step.
    change (String c "" +:+ ?x) with (String c x). rewrite cut_first by done.
    f_equal. apply IH; [simpl in *; lia|done|done].
Qed.

Lemma length_Join (c : ascii) (ps : list string) : (length ps <= S (String.length (Join (String c "") ps)))%nat.
Proof.
  induction ps as [|p [|q ps] IH]; [simpl; lia..|]. cbn [Join] in *. rewrite !length_app.
  cbn [length String.length] in *. lia.
Qed.

(** Splitting what was joined gives the parts back. *)
Lemma Split_Join (c : ascii) (ps : list string) :
  ps <> [] -> Forall (fun p => contains c p = false) ps -> Split (String c "") (Join (String c "") ps) = ps.
Proof. apply SplitN_Join, length_Join. Qed.

(** *** Numbers *)

Lemma digit_char (x : N) : (x < 10)%N ->
  isDigit (pretty_N_char x) = true /\ byte (pretty_N_char x) - 48 = Z.of_N x.
Proof. intros Hx. destruct x as [|p]; [done|]. do 4 (destruct p as [p|p|]; try done; try lia). Qed.

Lemma digits_go (x : N) (s : string) (acc : Z) :
  exists k : N, digitsVal acc (pretty_N_go x s) = digitsVal (acc * 10 ^ Z.of_N k + Z.of_N x) s.
Proof.
  revert s acc. induction (N.lt_wf_0 x) as [x _ IH]. intros s acc.
  destruct (decide (x = 0%N)) as [->|Hx].
  { exists 0%N. rewrite pretty_N_go_0. f_equal. lia. }
  rewrite pretty_N_go_step by lia.
  destruct (IH (x / 10)%N ltac:(apply N.div_lt; lia) (String (pretty_N_char (x mod 10)) s) acc) as [k ->].
  exists (k + 1)%N. cbn [digitsVal].
  destruct (digit_char (x mod 10)) as [-> ->]; [apply N.mod_lt; lia|]. f_equal.
  rewrite (N.div_mod x 10) at 3 by lia. rewrite !N2Z.inj_add, N2Z.inj_mul, Z.pow_add_r by lia. lia.
Qed.

Lemma digits_pretty (x : N) : digitsVal 0 (pretty x) = Some (Z.of_N x).
Proof.
  unfold pretty, pretty_N. destruct (decide (x = 0%N)) as [->|Hx]; [done|].
  by destruct (digits_go x "" 0) as [k ->].
Qed.

Lemma go_nonempty (x : N) (c : ascii) (s : string) : exists d r, pretty_N_go x (String c s) = String d r.
Proof.
  revert c s. induction (N.lt_wf_0 x) as [x _ IH]. intros c s.
  destruct (decide (x = 0%N)) as [->|Hx]; [rewrite pretty_N_go_0; eauto|].
  rewrite pretty_N_go_step by lia. apply IH, N.div_lt; lia.
Qed.

Lemma pretty_digit (x : N) : exists d r, pretty x = String d r /\ isDigit d = true.
Proof.
  assert (exists d r, pretty x = String d r) as (d & r & Hp).
  { unfold pretty, pretty_N. destruct (decide (x = 0%N)) as [->|Hx]; [by eexists _, _|].
    rewrite pretty_N_go_step by lia. apply go_nonempty. }
  exists d, r. split; [done|]. pose proof (digits_pretty x) as Hd. rewrite Hp in Hd. simpl in Hd.
  by destruct (isDigit d).
Qed.

Lemma digit_not_sign (d : ascii) (r : string) : isDigit d = true -> signOf (String d r) = (false, String d r).
Proof.
  intros Hd. simpl. destruct (Ascii.eqb_spec d "-") as [->|_]; [done|]. by destruct (Ascii.eqb_spec d "+") as [->|_].
Qed.

(** Reading a printed number gives it back. *)
Lemma parseInt_pretty (fn : string) (z : Z) : in64 z -> parseInt fn (pretty z) = Ok z.
Proof.
  intros H64. unfold parseInt, pretty, pretty_Z.
  assert (forall x : positive, exists d r, @pretty positive _ x = String d r /\ isDigit d = true /\
            digitsVal 0 (String d r) = Some (Z.pos x)) as Hx.
  { intros x. destruct (pretty_digit (N.pos x)) as (d & r & Hp & Hd). exists d, r.
    by rewrite <- Hp, digits_pretty. }
  destruct z as [|p|p].
  - done.
  - destruct (Hx p) as (d & r & -> & Hd & Hv). rewrite digit_not_sign, Hv by done.
    by rewrite decide_True.
  - destruct (Hx p) as (d & r & Hp & Hd & Hv).
    change ("-" +:+ ?x) with (String "-" x). unfold signOf. rewrite Ascii.eqb_refl, Hp, Hv.
    by rewrite decide_True.
Qed.

Lemma parseInt_range (fn s : string) (z : Z) : parseInt fn s = Ok z -> in64 z.
Proof.
  unfold parseInt. destruct (signOf s) as [neg [|c d]]; [done|]. destruct (digitsVal 0 _); [|done].
  by case_decide; intros [= <-].
Qed.

(** *** Addresses *)

Lemma contains_app (c : ascii) (a b : string) : contains c (a +:+ b) = contains c a || contains c b.
Proof. induction a as [|d a IH]; [done|]. rewrite app_cons. simpl. by rewrite IH, orb_assoc. Qed.

Lemma lastCut_app (c : ascii) (a b : string) : contains c b = false -> lastCut c (a +:+ String c b) = Some (a, b).
Proof.
  intros Hb. assert (lastCut c b = None) as Hn.
  { induction b as [|d b IH]; [done|]. cbn [contains lastCut] in *. apply orb_false_iff in Hb as [-> Hb].
    by rewrite IH. }
  induction a as [|d a IH].
  - change ("" +:+ ?x) with x. cbn [lastCut]. by rewrite Hn, Ascii.eqb_refl.
  - rewrite app_cons. cbn [lastCut]. by rewrite IH.
Qed.

Lemma app_assoc_s (a b c : string) : (a +:+ b) +:+ c = a +:+ b +:+ c.
Proof. induction a as [|d a IH]; [done|]. by rewrite !app_cons, IH. Qed.

(** A host and a port without brackets, the port without a colon. *)
Definition addressable (host port : string) : bool :=
  negb (contains "[" host || contains "]" host || contains "[" port || contains "]" port || contains ":" port).

(** An address that was joined splits into the same host and port, IPv6 hosts included. *)
Lemma SplitHostPort_Join (host port : string) : addressable host port = true ->
  SplitHostPort (JoinHostPort host port) = Ok (host, port).
Proof.
  unfold addressable. rewrite negb_true_iff, !orb_false_iff. intros ((((Ho & Hc) & Po) & Pc) & Pp).
  unfold JoinHostPort. destruct (contains ":" host) eqn:Ehost; unfold SplitHostPort.
  - replace ("[" +:+ host +:+ "]:" +:+ port) with (("[" +:+ host +:+ "]") +:+ String ":" port)
      by (by rewrite !app_assoc_s).
    rewrite lastCut_app by done.
    replace (HasPrefix _ "[") with true by (symmetry; apply prefix_app; eexists; by rewrite !app_assoc_s).
    replace (("[" +:+ host +:+ "]") +:+ String ":" port) with (String "[" host +:+ String "]" (String ":" port))
      by (by rewrite !app_assoc_s).
    rewrite cut_first by done. cbn [String.eqb].
    replace (Nat.eqb _ _) with true
      by (symmetry; apply Nat.eqb_eq; rewrite !length_app; simpl; lia).
    unfold checkBrackets. rewrite app_cons. cbn [skipn_s]. rewrite contains_app, Ho. simpl. by rewrite Po, Pc.
  - change (host +:+ ":" +:+ port) with (host +:+ String ":" port). rewrite lastCut_app by done.
    replace (HasPrefix _ "[") with false.
    + rewrite Ehost. unfold checkBrackets. rewrite !contains_app, Ho, Hc. simpl. by rewrite Po, Pc.
    + symmetry. destruct (HasPrefix _ "[") eqn:E; [|done]. apply prefix_app in E as [r Hr].
      destruct host as [|d host]; [done|]. injection Hr as -> _. by simpl in Ho.
Qed.

(** *** Durations *)

Lemma leadingInt_rest (s s' : string) (x v : Z) : 0 <= x -> leadingInt x s = Some (v, s') ->
  0 <= v /\ (String.length s' <= String.length s)%nat.
Proof.
  revert x. induction s as [|c s IH]; intros x Hx; cbn [leadingInt]; [by intros [= <- <-]|].
  destruct (isDigit c) eqn:Ed; [|by intros [= <- <-]].
  destruct (_ <? x); [done|]. destruct (_ <? _); [done|]. intros Hr.
  apply IH in Hr as [? ?]; [simpl; lia|]. unfold isDigit in Ed. lia.
Qed.

Lemma leadingFraction_rest (s s' : string) (x f : Z) (sc sc' : f64) (o : bool) :
  leadingFraction x sc o s = (f, sc', s') -> (String.length s' <= String.length s)%nat.
Proof.
  revert x sc o. induction s as [|c s IH]; intros x sc o; cbn [leadingFraction]; [by intros [= _ _ <-]|].
  repeat case_match; intros Hr; try (apply IH in Hr; simpl; lia). by injection Hr as _ _ <-.
Qed.

Lemma leadingUnit_rest (s u r : string) : leadingUnit s = (u, r) -> s = u +:+ r.
Proof.
  revert u. induction s as [|c s IH]; intros u; cbn [leadingUnit]; [by intros [= <- <-]|].
  destruct (_ || _); [by intros [= <- <-]|]. destruct (leadingUnit s) as [u' r'].
  intros [= <- <-]. rewrite app_cons. f_equal. by apply IH.
Qed.

(** A term takes at least one byte, and is never more than 2^63 nanoseconds. *)
Lemma durationTerm_spec `{Arch} (orig s rest : string) (v : Z) : durationTerm orig s = Ok (v, rest) ->
  (String.length rest < String.length s)%nat /\ v <= 2 ^ 63.
Proof.
  unfold durationTerm. destruct s as [|c s]; [done|]. destruct (negb (_ || _)); [done|].
  destruct (leadingInt 0 _) as [[v0 s1]|] eqn:Ei; [|done].
  apply leadingInt_rest in Ei as [_ Hi]; [|lia].
  match goal with |- context [match ?m with (_, _) => _ end] => destruct m as [[[f sc] s2] post] eqn:Ef end.
  assert (String.length s2 <= String.length s1)%nat as Hf.
  { destruct s1 as [|d s1]; [by injection Ef as _ _ <- _|].
    destruct (Ascii.eqb d "."); [|by injection Ef as _ _ <- _].
    destruct (leadingFraction _ _ _ _) as [[f' sc'] s2'] eqn:E. injection Ef as _ _ <- _.
    apply leadingFraction_rest in E. simpl. lia. }
  destruct (negb _ && negb _); [done|]. destruct (leadingUnit s2) as [u r] eqn:Eu.
  apply leadingUnit_rest in Eu. destruct (String.eqb_spec u "") as [|Hu]; [done|].
  destruct (unitOf u) as [unit|]; [|done]. destruct (_ <? v0); [done|].
  match goal with |- context [2 ^ 63 <? ?x] => destruct (Z.ltb_spec (2 ^ 63) x) as [|Hle]; [done|] end.
  intros [= <- <-]. split; [|done]. rewrite Eu, length_app in Hf.
  destruct u; [done|]. simpl in *. lia.
Qed.

(** The length of the text is enough fuel: more changes nothing. *)
Lemma durationTerms_fuel `{Arch} (fuel : nat) (orig s : string) (d : Z) : (String.length s <= fuel)%nat ->
  durationTerms fuel orig d s = durationTerms (String.length s) orig d s.
Proof.
  remember (String.length s) as n eqn:En. revert fuel s d En.
  induction (lt_wf n) as [n _ IH]. intros fuel s d -> Hf.
  destruct s as [|c s]; [by destruct fuel|]. destruct fuel as [|fuel]; [simpl in Hf; lia|].
  cbn [durationTerms String.length]. destruct (durationTerm orig (String c s)) as [[v rest]|] eqn:E; [|done].
  destruct (2 ^ 63 <? d + v); [done|]. apply durationTerm_spec in E as [Hl _]. simpl in Hl, Hf.
  rewrite (IH (String.length rest)) by (simpl; lia). symmetry. apply (IH (String.length rest)); simpl; lia.
Qed.
