(* ===== verification/LeakyMath.v ===== *)
(** * The arithmetic of the leaky bucket ([algorithms.go])

    The pure helpers on a [LeakyBucketItem]: the leak credited for elapsed time,
    whether a balance is in debt, when it is full again, and the conversions
    between fractional balances and whole tokens. *)

From stdpp Require Import base strings list.
From Stdlib Require Import ZArith Lia SpecFloat.
From S2P Require Import Prelude Float64 Types.

Local Open Scope Z_scope.

(** [snapToZero] absorbs float error around zero. *)
Definition snapToZero (balance : f64) : f64 :=
  if flt (Abs balance) c1em9 then fzero else balance.

(** [creditedLeak]: tokens leaked into the bucket between its last credit and [now]. *)
Definition creditedLeak (b : LeakyBucketItem) (now : Z) (rate : f64) : f64 :=
  if now <=? lb_UpdatedAt b then fzero
  else
    let leak := fdiv (f64_of_int (sub64 now (lb_UpdatedAt b))) rate in
    if negb (IsNaN leak) then leak else fzero.

(** [unusableRate]: zero, negative, infinite or NaN. *)
Definition unusableRate (rate : f64) : bool := negb (fgt rate fzero) || IsInf rate.

(** The rate a configuration implies: [float64(duration) / float64(limit)]. *)
Definition rateOf (duration limit : Z) : f64 := fdiv (f64_of_int duration) (f64_of_int limit).

(** [debtAt]: is the balance, credited to [now], still below zero? *)
Definition debtAt (b : LeakyBucketItem) (now : Z) : bool :=
  let rate := rateOf (lb_Duration b) (lb_Limit b) in
  let balance :=
    if negb (unusableRate rate) then fadd (lb_Remaining b) (creditedLeak b now rate)
    else lb_Remaining b in
  flt (snapToZero balance) fzero.

(** Writing a field of the bucket. *)
Definition with_lbRemaining (f : f64) (b : LeakyBucketItem) : LeakyBucketItem :=
  mkLeaky (lb_Limit b) (lb_Duration b) f (lb_UpdatedAt b) (lb_Burst b).
Definition with_lbUpdatedAt (z : Z) (b : LeakyBucketItem) : LeakyBucketItem :=
  mkLeaky (lb_Limit b) (lb_Duration b) (lb_Remaining b) z (lb_Burst b).
Definition with_lbBurst (z : Z) (b : LeakyBucketItem) : LeakyBucketItem :=
  mkLeaky (lb_Limit b) (lb_Duration b) (lb_Remaining b) (lb_UpdatedAt b) z.
Definition with_lbConfig (limit duration : Z) (b : LeakyBucketItem) : LeakyBucketItem :=
  mkLeaky limit duration (lb_Remaining b) (lb_UpdatedAt b) (lb_Burst b).

Section Conversions.
Context `{Arch}.

(** [millis]: conversion to int64, saturating. *)
Definition millis (f : f64) : Z :=
  if fge f fMaxInt64 then max_i64
  else if fle f fMinInt64 then min_i64
  else int64_of_f f.

(** [fullAt]: when the balance is back at burst, in epoch milliseconds. *)
Definition fullAt (b : LeakyBucketItem) (rate : f64) : Z :=
  millis (Ceil (fadd (f64_of_int (lb_UpdatedAt b))
                     (fmul (fsub (f64_of_int (lb_Burst b)) (lb_Remaining b)) rate))).

(** [wholeTokens]: the tokens a caller can spend from a fractional balance. *)
Definition wholeTokens (balance : f64) : Z := int64_of_f (fadd balance c1em9).

(** [spendableTokens]: the balance as a response's remaining. *)
Definition spendableTokens (balance : f64) : Z := Z.max 0 (wholeTokens balance).

(** ** Bounds *)

Lemma int64_of_f_range (f : f64) : in64 (int64_of_f f).
Proof.
  destruct f as [s|s| |s m e]; simpl; try apply cvt_oor_range; [by vm_compute|].
  destruct (decide (in64 (trunc_Z s m e))); [done|apply cvt_oor_range].
Qed.

(** Whatever the float, the conversion is a proper int64. *)
Lemma millis_range (f : f64) : in64 (millis f).
Proof.
  unfold millis. destruct (fge _ _); [by vm_compute|].
  destruct (fle _ _); [by vm_compute|]. apply int64_of_f_range.
Qed.

Lemma spendableTokens_range (f : f64) : 0 <= spendableTokens f <= max_i64.
Proof.
  unfold spendableTokens. pose proof (int64_of_f_range (fadd f c1em9)) as Hr.
  unfold wholeTokens, in64, max_i64 in *. lia.
Qed.
End Conversions.

(** ** Zero snapping *)

Lemma snapToZero_cases (x : f64) : snapToZero x = fzero \/ snapToZero x = x.
Proof. unfold snapToZero. destruct (flt _ _); auto. Qed.

Lemma snapToZero_zero (s : bool) : snapToZero (S754_zero s) = fzero.
Proof. by destruct s. Qed.

(** Snapping never moves a balance up past zero or down: it keeps the sign, and
    it does not create NaN. *)
Lemma snapToZero_not_nan (x : f64) : IsNaN x = false -> IsNaN (snapToZero x) = false.
Proof. intros Hx. by destruct (snapToZero_cases x) as [->| ->]. Qed.

Lemma snapToZero_neg (x : f64) : flt (snapToZero x) fzero = true -> snapToZero x = x.
Proof. destruct (snapToZero_cases x) as [->| ->]; [discriminate|done]. Qed.

Lemma snapToZero_idem (x : f64) : snapToZero (snapToZero x) = snapToZero x.
Proof.
  unfold snapToZero at 2 3. destruct (flt (Abs x) c1em9) eqn:E; [reflexivity|].
  unfold snapToZero. by rewrite E.
Qed.

(** A balance that survived snapping is zero or at least 1e-9 away from it. *)
Lemma snapToZero_gap (x : f64) : snapToZero x = x -> x = fzero \/ flt (Abs x) c1em9 = false.
Proof. unfold snapToZero. destruct (flt (Abs x) c1em9); auto. Qed.

(** [creditedLeak] is never NaN, whatever the rate. *)
Lemma creditedLeak_not_nan (b : LeakyBucketItem) (now : Z) (rate : f64) :
  IsNaN (creditedLeak b now rate) = false.
Proof.
  unfold creditedLeak. destruct (_ <=? _); [reflexivity|].
  by destruct (IsNaN (fdiv _ _)) eqn:E.
Qed.
