(* ===== verification/Runtime.v ===== *)
(** * The process a worker runs in

    State shared by the components: the heap of cache items (the cache, the
    persistent store and the algorithms hold pointers to the same items and write
    through them), the wall clock, and the Prometheus counters.  The clock is a
    stream of readings: each call of [clock.Now] takes the next one, so two calls
    in one handler may see different times.  The file ends with the two interfaces
    the algorithms are written against, [Cache] ([cache.go]) and [Store]
    ([store.go]), and the laws their implementations promise. *)

From stdpp Require Import base gmap strings list.
From Stdlib Require Import ZArith Lia.
From S2P Require Import Prelude Float64 Types GoTime.

Local Open Scope Z_scope.

(** ** State *)

Abbreviation Ptr := nat.

Record Env : Type := mkEnv {
  e_heap : gmap nat CacheItem;
  e_next : nat;                      (* first pointer not yet allocated *)
  e_clock : nat -> Z;                (* readings of the clock, in Unix nanoseconds *)
  e_tick : nat;                      (* readings taken so far *)
  e_loc : Location;                  (* the process's local time zone *)
  e_counters : gmap string Z;        (* Prometheus counters, by name and label *)
  e_lost : f64                       (* gubernator_scheduled_debt_lost_tokens *)
}.

Definition with_heap (h : gmap nat CacheItem) (e : Env) : Env :=
  mkEnv h (e_next e) (e_clock e) (e_tick e) (e_loc e) (e_counters e) (e_lost e).
Definition with_tick (n : nat) (e : Env) : Env :=
  mkEnv (e_heap e) (e_next e) (e_clock e) n (e_loc e) (e_counters e) (e_lost e).
Definition with_counters (c : gmap string Z) (e : Env) : Env :=
  mkEnv (e_heap e) (e_next e) (e_clock e) (e_tick e) (e_loc e) c (e_lost e).
Definition with_lost (f : f64) (e : Env) : Env :=
  mkEnv (e_heap e) (e_next e) (e_clock e) (e_tick e) (e_loc e) (e_counters e) f.

(** [clock.Now()] *)
Definition Now : M Env Time := fun e =>
  Ret (mkTime (e_clock e (e_tick e)) (e_loc e), with_tick (S (e_tick e)) e).

(** [epochMillis(t)], and [MillisecondNow()]. *)
Definition epochMillis (t : Time) : Z := Z.quot (UnixNano t) 1000000.
Definition MillisecondNow : M Env Z := t ← Now; mret (epochMillis t).

(** [metric.Add(1)] *)
Definition incr (name : string) : M Env unit :=
  modify (fun e => with_counters (<[name := default 0 (e_counters e !! name) + 1]> (e_counters e)) e).

(** Reading and writing through a pointer; a dangling pointer is a panic. *)
Definition load (p : Ptr) : M Env CacheItem := fun e =>
  match e_heap e !! p with
  | Some it => Ret (it, e)
  | None => Panic "invalid memory address or nil pointer dereference"
  end.
Definition save (p : Ptr) (it : CacheItem) : M Env unit :=
  modify (fun e => with_heap (<[p := it]> (e_heap e)) e).
Definition alloc (it : CacheItem) : M Env Ptr := fun e =>
  Ret (e_next e,
       mkEnv (<[e_next e := it]> (e_heap e)) (S (e_next e)) (e_clock e) (e_tick e) (e_loc e)
         (e_counters e) (e_lost e)).

(** [item.IsExpired()] ([cache.go]) *)
Definition expiredAt (item : CacheItem) (now : Z) : bool :=
  if negb (it_InvalidAt item =? 0) && (it_InvalidAt item <? now) then true
  else if it_ExpireAt item <? now then true
  else false.
Definition IsExpired (item : CacheItem) : M Env bool :=
  now ← MillisecondNow; mret (expiredAt item now).

(** Running a computation on a part of a larger state. *)
Definition zoom {S T A} (get : S -> T) (put : T -> S -> S) (m : M T A) : M S A := fun s =>
  match m (get s) with
  | Ret (a, t) => Ret (a, put t s)
  | Panic w => Panic w
  end.

(** ** How the process state evolves *)

(** Pointers at or above [e_next] are free. *)
Definition env_ok (e : Env) : Prop := forall p, (e_next e <= p)%nat -> e_heap e !! p = None.

(** Only the clock moved and counters were bumped. *)
Record env_quiet (e e' : Env) : Prop := {
  eq_heap : e_heap e' = e_heap e;
  eq_next : e_next e' = e_next e;
  eq_clock : e_clock e' = e_clock e;
  eq_loc : e_loc e' = e_loc e;
  eq_tick : (e_tick e <= e_tick e')%nat
}.

(** Items may have been allocated as well, none was changed. *)
Record env_grow (e e' : Env) : Prop := {
  eg_heap : e_heap e ⊆ e_heap e';
  eg_next : (e_next e <= e_next e')%nat;
  eg_clock : e_clock e' = e_clock e;
  eg_loc : e_loc e' = e_loc e;
  eg_tick : (e_tick e <= e_tick e')%nat
}.

#[global] Instance env_quiet_refl : Reflexive env_quiet.
Proof. intros e. by constructor. Qed.
#[global] Instance env_quiet_trans : Transitive env_quiet.
Proof. intros a b c [] []. constructor; try congruence. lia. Qed.
#[global] Instance env_grow_refl : Reflexive env_grow.
Proof. intros e. by constructor. Qed.
#[global] Instance env_grow_trans : Transitive env_grow.
Proof. intros a b c [] []. constructor; try congruence; [by etransitivity|lia|lia]. Qed.

Lemma env_quiet_grow (e e' : Env) : env_quiet e e' -> env_grow e e'.
Proof. intros [H1 H2 H3 H4 H5]. constructor; rewrite ?H1, ?H2; try done. Qed.

Lemma env_quiet_ok (e e' : Env) : env_quiet e e' -> env_ok e -> env_ok e'.
Proof. intros [H1 H2 _ _ _] Hok p Hp. rewrite H1. apply Hok. by rewrite <- H2. Qed.

Lemma Now_quiet (e : Env) : env_quiet e (with_tick (S (e_tick e)) e).
Proof. constructor; simpl; try done. lia. Qed.

Lemma counters_quiet (c : gmap string Z) (e : Env) : env_quiet e (with_counters c e).
Proof. by constructor. Qed.

Lemma lost_quiet (f : f64) (e : Env) : env_quiet e (with_lost f e).
Proof. by constructor. Qed.

Create HintDb env discriminated.
#[export] Hint Resolve env_quiet_refl env_grow_refl env_quiet_grow Now_quiet counters_quiet lost_quiet : env.

(** ** Interfaces *)

(** [type Cache interface], the methods the algorithms call. *)
Class CacheOps (C : Type) : Type := {
  c_Add : Ptr -> M (Env * C) bool;
  c_UpdateExpiration : string -> Z -> M (Env * C) bool;
  c_GetItem : string -> M (Env * C) (option Ptr);
  c_Remove : string -> M (Env * C) unit
}.

(** The heap of [e'] has every item of [e], possibly rewritten, under the same key. *)
Definition keys_kept (e e' : Env) : Prop :=
  forall p it, e_heap e !! p = Some it -> exists it', e_heap e' !! p = Some it' /\ it_Key it' = it_Key it.

Lemma env_quiet_keys (e e' : Env) : env_quiet e e' -> keys_kept e e'.
Proof. intros Hq p it Hp. exists it. by rewrite (eq_heap _ _ Hq). Qed.

Lemma env_grow_keys (e e' : Env) : env_grow e e' -> keys_kept e e'.
Proof. intros Hg p it Hp. exists it. split; [|done]. by eapply lookup_weaken, eg_heap. Qed.

(** Rewriting an item in place, its key unchanged. *)
Lemma save_keys (e : Env) (p : Ptr) (it it' : CacheItem) :
  e_heap e !! p = Some it -> it_Key it' = it_Key it ->
  keys_kept e (with_heap (<[p := it']> (e_heap e)) e).
Proof.
  intros Hp Hk q iq Hq. simpl. destruct (decide (p = q)) as [<-|Hne].
  - rewrite lookup_insert_eq. simplify_eq. by exists it'.
  - rewrite lookup_insert_ne by done. by exists iq.
Qed.

#[export] Hint Resolve env_quiet_keys env_grow_keys : env.

(** What a cache promises: it is a finite map from keys to items ([c_view]), of
    which it may drop entries, but only when an item with a new key is added and
    the cache is full ([c_room] says it is not). *)
Class CacheLaws (C : Type) `{CacheOps C} : Type := {
  c_view : C -> gmap string Ptr;
  c_room : C -> Prop;
  c_wf : Env -> C -> Prop;

  c_wf_item : forall e c k p, c_wf e c -> c_view c !! k = Some p ->
    exists it, e_heap e !! p = Some it /\ it_Key it = k;
  c_wf_env : forall e e' c, c_wf e c -> keys_kept e e' -> c_wf e' c;

  c_GetItem_ok : forall e c k, c_wf e c ->
    exists res e' c', c_GetItem k (e, c) = Ret (res, (e', c')) /\
      env_quiet e e' /\ c_wf e' c' /\
      match c_view c !! k with
      | None => res = None /\ c_view c' = c_view c /\ e_tick e' = e_tick e
      | Some p => exists it, e_heap e !! p = Some it /\ e_tick e' = S (e_tick e) /\
          if expiredAt it (epochMillis (mkTime (e_clock e (e_tick e)) (e_loc e)))
          then res = None /\ c_view c' = delete k (c_view c)
          else res = Some p /\ c_view c' = c_view c
      end;

  c_Add_ok : forall e c p it, c_wf e c -> e_heap e !! p = Some it ->
    exists b e' c', c_Add p (e, c) = Ret (b, (e', c')) /\
      env_quiet e e' /\ c_wf e' c' /\
      c_view c' !! it_Key it = Some p /\
      (forall k, k <> it_Key it -> c_view c' !! k = c_view c !! k \/ c_view c' !! k = None) /\
      (is_Some (c_view c !! it_Key it) \/ c_room c -> c_view c' = <[it_Key it := p]> (c_view c));

  c_Remove_ok : forall e c k, c_wf e c ->
    exists c', c_Remove k (e, c) = Ret (tt, (e, c')) /\ c_wf e c' /\
      c_view c' = delete k (c_view c);

  c_UpdateExpiration_ok : forall e c k t, c_wf e c ->
    exists b e' , c_UpdateExpiration k t (e, c) = Ret (b, (e', c)) /\ c_wf e' c /\
      match c_view c !! k with
      | None => b = false /\ e' = e
      | Some p => b = true /\ exists it, e_heap e !! p = Some it /\
                    e' = with_heap (<[p := with_ExpireAt t it]> (e_heap e)) e
      end
}.

(** [type Store interface]. [Get] returns the item and true, or false. *)
Class StoreOps (S : Type) : Type := {
  s_OnChange : RateLimitReq -> Ptr -> M (Env * S) unit;
  s_Get : RateLimitReq -> M (Env * S) (option Ptr);
  s_Remove : string -> M (Env * S) unit
}.

(** What the code relies on of a user's store: its methods return, and do not
    change items that are in the cache; [Get] returns a valid item. *)
Class StoreLaws (S : Type) `{StoreOps S} : Type := {
  s_wf : Env -> S -> Prop;
  s_wf_env : forall e e' s, s_wf e s -> keys_kept e e' -> s_wf e' s;
  s_OnChange_ok : forall e s r p, env_ok e -> s_wf e s -> is_Some (e_heap e !! p) ->
    exists e' s', s_OnChange r p (e, s) = Ret (tt, (e', s')) /\
      env_grow e e' /\ env_ok e' /\ s_wf e' s';
  s_Get_ok : forall e s r, env_ok e -> s_wf e s ->
    exists res e' s', s_Get r (e, s) = Ret (res, (e', s')) /\
      env_grow e e' /\ env_ok e' /\ s_wf e' s' /\
      forall p, res = Some p -> is_Some (e_heap e' !! p);
  s_Remove_ok : forall e s k, env_ok e -> s_wf e s ->
    exists e' s', s_Remove k (e, s) = Ret (tt, (e', s')) /\
      env_grow e e' /\ env_ok e' /\ s_wf e' s'
}.

(** ** The state of a request handler *)

Record World (C S : Type) : Type := mkWorld {
  w_env : Env;
  w_cache : C;
  w_store : option S      (* nil when no persistent store is configured *)
}.
Arguments mkWorld {C S} _ _ _.
Arguments w_env {C S} _.
Arguments w_cache {C S} _.
Arguments w_store {C S} _.

Definition onEnv {C S A} (m : M Env A) : M (World C S) A :=
  zoom w_env (fun e w => mkWorld e (w_cache w) (w_store w)) m.

Definition onCache {C S A} (m : M (Env * C) A) : M (World C S) A :=
  zoom (fun w => (w_env w, w_cache w)) (fun ec w => mkWorld (fst ec) (snd ec) (w_store w)) m.

(** [if s != nil { ... }] around a call on the store. *)
Definition onStore {C S A} (dflt : A) (m : M (Env * S) A) : M (World C S) A := fun w =>
  match w_store w with
  | None => Ret (dflt, w)
  | Some s => match m (w_env w, s) with
              | Ret (a, (e, s')) => Ret (a, mkWorld e (w_cache w) (Some s'))
              | Panic why => Panic why
              end
  end.

Lemma onEnv_run {C S A} (m : M Env A) (w : World C S) (a : A) (e' : Env) :
  m (w_env w) = Ret (a, e') -> onEnv m w = Ret (a, mkWorld e' (w_cache w) (w_store w)).
Proof. intros H. unfold onEnv, zoom. by rewrite H. Qed.

Lemma onCache_run {C S A} (m : M (Env * C) A) (w : World C S) (a : A) (e' : Env) (c' : C) :
  m (w_env w, w_cache w) = Ret (a, (e', c')) -> onCache m w = Ret (a, mkWorld e' c' (w_store w)).
Proof. intros H. unfold onCache, zoom. by rewrite H. Qed.

Lemma load_run {C S} (p : Ptr) (it : CacheItem) (w : World C S) :
  e_heap (w_env w) !! p = Some it -> onEnv (load p) w = Ret (it, w).
Proof. intros H. rewrite (onEnv_run _ _ it (w_env w)); [by destruct w|]. unfold load. by rewrite H. Qed.

(** ** Well-formed worlds *)

Section WorldOk.
Context {C S : Type} `{CacheLaws C} `{StoreLaws S}.

Definition store_wf (e : Env) (s : option S) : Prop :=
  match s with Some s => s_wf e s | None => True end.

Record world_ok (w : World C S) : Prop := {
  wo_env : env_ok (w_env w);
  wo_cache : c_wf (w_env w) (w_cache w);
  wo_store : store_wf (w_env w) (w_store w)
}.

Lemma store_wf_env (e e' : Env) (s : option S) : store_wf e s -> keys_kept e e' -> store_wf e' s.
Proof. destruct s; [apply s_wf_env|done]. Qed.

(** Replacing the process state by one with the same items keeps the world well formed. *)
Lemma world_ok_env (w : World C S) (e' : Env) : world_ok w -> env_ok e' -> keys_kept (w_env w) e' ->
  world_ok (mkWorld e' (w_cache w) (w_store w)).
Proof.
  intros [He Hc Hs] Hok Hk. constructor; simpl; [done|by eapply c_wf_env|by eapply store_wf_env].
Qed.

Lemma world_ok_quiet (w : World C S) (e' : Env) : world_ok w -> env_quiet (w_env w) e' ->
  world_ok (mkWorld e' (w_cache w) (w_store w)).
Proof.
  intros Hw Hq. apply world_ok_env; [done| |auto with env]. by eapply env_quiet_ok, wo_env.
Qed.

Lemma env_ok_save (e : Env) (p : Ptr) (it : CacheItem) : env_ok e -> is_Some (e_heap e !! p) ->
  env_ok (with_heap (<[p := it]> (e_heap e)) e).
Proof.
  intros Hok [x Hx] q Hq. simpl in *. destruct (decide (p = q)) as [<-|Hne].
  - rewrite Hok in Hx by done. done.
  - rewrite lookup_insert_ne by done. by apply Hok.
Qed.

(** A call on the store, when there is one, changes no item. *)
Lemma onStore_run {A} (dflt : A) (m : M (Env * S) A) (w : World C S) :
  world_ok w ->
  (forall s, s_wf (w_env w) s -> exists a e' s', m (w_env w, s) = Ret (a, (e', s')) /\
     env_grow (w_env w) e' /\ env_ok e' /\ s_wf e' s') ->
  exists a e' s', onStore dflt m w = Ret (a, mkWorld e' (w_cache w) s') /\
    env_grow (w_env w) e' /\ world_ok (mkWorld e' (w_cache w) s').
Proof.
  intros Hw Hm. pose proof Hw as [He Hc Hs]. unfold onStore. destruct w as [e c [s|]]; simpl in *.
  - destruct (Hm s Hs) as (a & e' & s' & -> & Hg & Hok & Hs'). exists a, e', (Some s').
    split; [done|]. split; [done|]. constructor; simpl; [done| |done].
    eapply c_wf_env; [done|auto with env].
  - exists dflt, e, None. by split.
Qed.
End WorldOk.

(** ** Triples

    [triple P m Q]: from a state in [P], [m] does not panic and ends in [Q]. *)
Definition triple {St A} (P : St -> Prop) (m : M St A) (Q : A -> St -> Prop) : Prop :=
  forall s, P s -> exists a s', m s = Ret (a, s') /\ Q a s'.

Lemma triple_ret {St A} (P : St -> Prop) (a : A) (Q : A -> St -> Prop) :
  (forall s, P s -> Q a s) -> triple P (mret a) Q.
Proof. intros H s Hs. exists a, s. split; [done|by apply H]. Qed.

Lemma triple_bind {St A B} (P : St -> Prop) (m : M St A) (f : A -> M St B)
    (R : A -> St -> Prop) (Q : B -> St -> Prop) :
  triple P m R -> (forall a, triple (R a) (f a) Q) -> triple P (m ≫= f) Q.
Proof.
  intros Hm Hf s Hs. destruct (Hm s Hs) as (a & s1 & Hr & HR).
  destruct (Hf a s1 HR) as (b & s2 & Hr2 & HQ). exists b, s2.
  by rewrite (bind_ret_run _ _ _ _ _ Hr).
Qed.

Lemma triple_pre {St A} (P P' : St -> Prop) (m : M St A) (Q : A -> St -> Prop) :
  (forall s, P s -> P' s) -> triple P' m Q -> triple P m Q.
Proof. intros HP Hm s Hs. by apply Hm, HP. Qed.

Lemma triple_post {St A} (P : St -> Prop) (m : M St A) (Q Q' : A -> St -> Prop) :
  (forall a s, Q a s -> Q' a s) -> triple P m Q -> triple P m Q'.
Proof. intros HQ Hm s Hs. destruct (Hm s Hs) as (a & s' & Hr & Ha). exists a, s'. auto. Qed.

Lemma triple_pure {St A} (F : Prop) (P : St -> Prop) (m : M St A) (Q : A -> St -> Prop) :
  (F -> triple P m Q) -> triple (fun s => F /\ P s) m Q.
Proof. intros Hm s [HF HP]. by apply Hm. Qed.

(** ** Isolation

    The invariant of a handler for key [k] that started in the process state [h]: the
    world is well formed, the clock and the time zone are those of [h], every item of
    [h] is still there under its key, and those of another key are as they were. *)
Section Isolation.
Context {C S : Type} `{CacheLaws C} `{StoreLaws S}.
Variables (h : Env) (k : string).

Record same_but (e : Env) : Prop := {
  sb_items : forall p it, e_heap h !! p = Some it ->
    exists it', e_heap e !! p = Some it' /\ it_Key it' = it_Key it /\ (it_Key it <> k -> it' = it);
  sb_clock : e_clock e = e_clock h;
  sb_loc : e_loc e = e_loc h
}.

Definition iso (w : World C S) : Prop := world_ok w /\ same_but (w_env w).

(** The handler may write item [p]: it is one of its own key. *)
Definition owned (p : Ptr) (w : World C S) : Prop :=
  iso w /\ exists it, e_heap (w_env w) !! p = Some it /\ it_Key it = k.

Lemma owned_iso (p : Ptr) (w : World C S) : owned p w -> iso w.
Proof. by intros []. Qed.

Lemma iso_step (w w' : World C S) : iso w -> world_ok w' -> env_grow (w_env w) (w_env w') -> iso w'.
Proof.
  intros [_ [Hi Hc Hl]] Hok Hg. split; [done|]. constructor.
  - intros p it Hp. destruct (Hi p it Hp) as (it' & Hp' & Hk). exists it'. split; [|done].
    eapply lookup_weaken; [done|apply Hg].
  - by rewrite (eg_clock _ _ Hg).
  - by rewrite (eg_loc _ _ Hg).
Qed.

Lemma owned_step (p : Ptr) (w w' : World C S) :
  owned p w -> world_ok w' -> env_grow (w_env w) (w_env w') -> owned p w'.
Proof.
  intros [Hi (it & Hp & Hk)] Hok Hg. split; [by eapply iso_step|].
  exists it. split; [|done]. eapply lookup_weaken; [done|apply Hg].
Qed.

(** A call that only moves the clock or bumps counters. *)
Lemma onEnv_quiet_run {A} (m : M Env A) (w : World C S) : world_ok w ->
  (forall e, exists a e', m e = Ret (a, e') /\ env_quiet e e') ->
  exists a w', onEnv m w = Ret (a, w') /\ world_ok w' /\ env_grow (w_env w) (w_env w').
Proof.
  intros Hw Hm. destruct (Hm (w_env w)) as (a & e' & Hr & Hq). exists a, (mkWorld e' (w_cache w) (w_store w)).
  split; [by apply onEnv_run|]. split; [by apply world_ok_quiet|by apply env_quiet_grow].
Qed.

Lemma Now_calm (e : Env) : exists a e', Now e = Ret (a, e') /\ env_quiet e e'.
Proof. eexists _, _. split; [done|apply Now_quiet]. Qed.

Lemma incr_calm (n : string) (e : Env) : exists a e', incr n e = Ret (a, e') /\ env_quiet e e'.
Proof. eexists _, _. split; [done|apply counters_quiet]. Qed.

Lemma iso_quiet {A} (m : M Env A) : (forall e, exists a e', m e = Ret (a, e') /\ env_quiet e e') ->
  triple iso (onEnv m) (fun _ => iso).
Proof.
  intros Hm w Hi. destruct (onEnv_quiet_run m w (proj1 Hi) Hm) as (a & w' & Hr & Hok & Hg).
  exists a, w'. split; [done|by eapply iso_step].
Qed.

Lemma owned_quiet {A} (p : Ptr) (m : M Env A) :
  (forall e, exists a e', m e = Ret (a, e') /\ env_quiet e e') ->
  triple (owned p) (onEnv m) (fun _ => owned p).
Proof.
  intros Hm w Hi. destruct (onEnv_quiet_run m w (proj1 (proj1 Hi)) Hm) as (a & w' & Hr & Hok & Hg).
  exists a, w'. split; [done|by eapply owned_step].
Qed.

Lemma owned_load (p : Ptr) :
  triple (owned p) (onEnv (load p)) (fun it w => it_Key it = k /\ owned p w).
Proof.
  intros w [Hi (it & Hp & Hk)]. exists it, w. split; [by apply load_run|]. split; [done|].
  split; [done|by exists it].
Qed.

Lemma owned_save (p : Ptr) (it' : CacheItem) : it_Key it' = k ->
  triple (owned p) (onEnv (save p it')) (fun _ => owned p).
Proof.
  intros Hk' w [[Hok [Hi Hc Hl]] (it & Hp & Hk)].
  eexists tt, (mkWorld (with_heap (<[p := it']> (e_heap (w_env w))) (w_env w)) (w_cache w) (w_store w)).
  split; [done|]. split; [split|].
  - apply world_ok_env; [done|apply env_ok_save; [apply Hok|by eexists]|].
    eapply save_keys; [done|congruence].
  - constructor; [|done|done]. intros q iq Hq. simpl.
    destruct (Hi q iq Hq) as (iq' & Hq' & Hkq & Hsame). destruct (decide (p = q)) as [<-|Hne].
    + rewrite lookup_insert_eq. exists it'. rewrite Hp in Hq'. injection Hq' as <-.
      split; [done|]. split; [congruence|]. intros Hx. exfalso. apply Hx. congruence.
    + rewrite lookup_insert_ne by done. by exists iq'.
  - exists it'. split; [apply lookup_insert_eq|done].
Qed.

Lemma owned_alloc (it : CacheItem) : it_Key it = k -> triple iso (onEnv (alloc it)) (fun p => owned p).
Proof.
  intros Hk w [Hok Hi]. pose proof (wo_env w Hok) as He.
  eexists (e_next (w_env w)), _. split; [done|].
  set (w' := mkWorld _ _ _).
  assert (env_grow (w_env w) (w_env w')) as Hg.
  { constructor; simpl; try done; [|lia]. apply insert_subseteq. by apply He. }
  assert (world_ok w') as Hok'.
  { apply world_ok_env; [done| |auto with env]. intros q Hq. simpl in *.
    rewrite lookup_insert_ne by lia. apply He. lia. }
  split; [by apply (iso_step w)|]. exists it. split; [apply lookup_insert_eq|done].
Qed.

(** The cache's methods change no item. *)
Lemma cache_call_step {A} (m : M (Env * C) A) (w : World C S) (a : A) (e' : Env) (c' : C) :
  world_ok w -> m (w_env w, w_cache w) = Ret (a, (e', c')) -> env_quiet (w_env w) e' -> c_wf e' c' ->
  onCache m w = Ret (a, mkWorld e' c' (w_store w)) /\ world_ok (mkWorld e' c' (w_store w)) /\
  env_grow (w_env w) e'.
Proof.
  intros [He _ Hs] Hr Hq Hwf. split; [by apply onCache_run|]. split; [|by apply env_quiet_grow].
  constructor; simpl; [by apply (env_quiet_ok (w_env w))|done|eapply store_wf_env; [done|auto with env]].
Qed.

Lemma GetItem_iso : triple iso (onCache (c_GetItem k))
  (fun o => match o with Some p => owned p | None => iso end).
Proof.
  intros w Hi. destruct (c_GetItem_ok (w_env w) (w_cache w) k (wo_cache _ (proj1 Hi)))
    as (res & e' & c' & Hr & Hq & Hwf & Hm).
  destruct (cache_call_step _ w _ _ _ (proj1 Hi) Hr Hq Hwf) as (Hrun & Hok & Hg).
  exists res, (mkWorld e' c' (w_store w)). split; [done|].
  assert (iso (mkWorld e' c' (w_store w))) as Hi' by (by apply (iso_step w)).
  destruct (c_view (w_cache w) !! k) as [p|] eqn:Hv; [|by destruct Hm as [-> _]].
  destruct Hm as (it & Hp & _ & Hm). destruct (expiredAt it _); destruct Hm as [-> Hm]; [done|].
  split; [done|]. destruct (c_wf_item e' c' k p Hwf) as (it' & ? & ?); [by rewrite Hm|]. by exists it'.
Qed.

(** The handler may read item [p], of whatever key. *)
Definition valid (p : Ptr) (w : World C S) : Prop := iso w /\ is_Some (e_heap (w_env w) !! p).

Lemma owned_valid (p : Ptr) (w : World C S) : owned p w -> valid p w.
Proof. intros [Hi (it & Hp & _)]. split; [done|by eexists]. Qed.

Lemma valid_step (p : Ptr) (w w' : World C S) :
  valid p w -> world_ok w' -> env_grow (w_env w) (w_env w') -> valid p w'.
Proof.
  intros [Hi (it & Hp)] Hok Hg. split; [by apply (iso_step w)|].
  exists it. eapply lookup_weaken; [done|apply Hg].
Qed.

Lemma Add_valid (p : Ptr) : triple (valid p) (onCache (c_Add p)) (fun _ => valid p).
Proof.
  intros w Hv. pose proof Hv as [Hi (it & Hp)].
  destruct (c_Add_ok (w_env w) (w_cache w) p it (wo_cache _ (proj1 Hi)) Hp)
    as (b & e' & c' & Hr & Hq & Hwf & _).
  destruct (cache_call_step _ w _ _ _ (proj1 Hi) Hr Hq Hwf) as (Hrun & Hok & Hg).
  exists b, (mkWorld e' c' (w_store w)). split; [done|by apply (valid_step p w)].
Qed.

Lemma Add_owned (p : Ptr) : triple (owned p) (onCache (c_Add p)) (fun _ => owned p).
Proof.
  intros w Ho. destruct Ho as [Hi (it & Hp & Hk)].
  destruct (c_Add_ok (w_env w) (w_cache w) p it (wo_cache _ (proj1 Hi)) Hp)
    as (b & e' & c' & Hr & Hq & Hwf & _).
  destruct (cache_call_step _ w _ _ _ (proj1 Hi) Hr Hq Hwf) as (Hrun & Hok & Hg).
  exists b, (mkWorld e' c' (w_store w)). split; [done|]. apply (owned_step p w); [|done|done].
  split; [done|by exists it].
Qed.

Lemma Remove_iso : triple iso (onCache (c_Remove k)) (fun _ => iso).
Proof.
  intros w Hi. destruct (c_Remove_ok (w_env w) (w_cache w) k (wo_cache _ (proj1 Hi))) as (c' & Hr & Hwf & _).
  destruct (cache_call_step _ w _ _ _ (proj1 Hi) Hr (env_quiet_refl _) Hwf) as (Hrun & Hok & Hg).
  exists tt, (mkWorld (w_env w) c' (w_store w)). split; [done|by apply (iso_step w)].
Qed.

Lemma UpdateExpiration_owned (p : Ptr) (t : Z) :
  triple (owned p) (onCache (c_UpdateExpiration k t)) (fun _ => owned p).
Proof.
  intros w [[Hok Hi] (it & Hp & Hk)].
  destruct (c_UpdateExpiration_ok (w_env w) (w_cache w) k t (wo_cache _ Hok)) as (b & e' & Hr & Hwf & Hm).
  exists b, (mkWorld e' (w_cache w) (w_store w)). split; [by apply onCache_run|].
  destruct (c_view (w_cache w) !! k) as [q|] eqn:Hv; destruct Hm as [_ Hm].
  - destruct Hm as (iq & Hq & ->).
    destruct (c_wf_item _ _ _ _ (wo_cache _ Hok) Hv) as (iq' & ? & Hkq). simplify_eq.
    destruct (owned_save q (with_ExpireAt t iq) Hkq w) as (? & w' & Hrun & [Hiso _]);
      [split; [done|by exists iq]|].
    injection Hrun as _ <-. split; [exact Hiso|]. simpl.
    destruct (decide (q = p)) as [->|]; [rewrite lookup_insert_eq|rewrite lookup_insert_ne by done];
      eexists; (split; [done|]); simplify_eq; done.
  - subst e'. destruct w. split; [done|by exists it].
Qed.

(** A call on the store. *)
Lemma store_call {A} (dflt : A) (m : M (Env * S) A) (w : World C S) (P : World C S -> Prop) :
  world_ok w -> P w ->
  (forall w', P w -> world_ok w' -> env_grow (w_env w) (w_env w') -> P w') ->
  (forall s, s_wf (w_env w) s -> exists a e' s', m (w_env w, s) = Ret (a, (e', s')) /\
     env_grow (w_env w) e' /\ env_ok e' /\ s_wf e' s') ->
  exists a w', onStore dflt m w = Ret (a, w') /\ P w'.
Proof.
  intros Hok HP Hstep Hm. destruct (onStore_run dflt m w Hok Hm) as (a & e' & s' & Hr & Hg & Hok').
  exists a, (mkWorld e' (w_cache w) s'). split; [done|by apply Hstep].
Qed.

Lemma OnChange_owned (r : RateLimitReq) (p : Ptr) :
  triple (owned p) (onStore tt (s_OnChange r p)) (fun _ => owned p).
Proof.
  intros w Ho. pose proof Ho as [[Hok _] (it & Hp & _)].
  apply (store_call _ _ w (owned p)); [done|done| |].
  - intros w' _. by apply owned_step.
  - intros s Hs. exists tt. apply s_OnChange_ok; [apply Hok|done|by eexists].
Qed.

Lemma sRemove_iso (key : string) : triple iso (onStore tt (s_Remove key)) (fun _ => iso).
Proof.
  intros w Hi. apply (store_call _ _ w iso); [apply Hi|done| |].
  - intros w' _. by apply iso_step.
  - intros s Hs. exists tt. apply s_Remove_ok; [apply Hi|done].
Qed.

Lemma sGet_iso (r : RateLimitReq) : triple iso (onStore None (s_Get r))
  (fun o => match o with Some p => valid p | None => iso end).
Proof.
  intros w Hi. unfold onStore. destruct (w_store w) as [s|] eqn:Hst; [|by exists None, w].
  pose proof (wo_store _ (proj1 Hi)) as Hs. rewrite Hst in Hs.
  destruct (s_Get_ok (w_env w) s r (wo_env _ (proj1 Hi)) Hs) as (res & e' & s' & -> & Hg & Hok & Hwf & Hval).
  set (w' := mkWorld e' (w_cache w) (Some s')).
  assert (world_ok w') as Hw'.
  { constructor; simpl; [done| |done]. eapply c_wf_env; [apply Hi|auto with env]. }
  exists res, w'. split; [done|]. assert (iso w') by (by apply (iso_step w)).
  destruct res as [p|]; [|done]. split; [done|by apply Hval].
Qed.
End Isolation.

(** Proving a triple: one rule per statement of the handler. *)
Create HintDb triple discriminated.
#[export] Hint Resolve iso_quiet owned_quiet Now_calm incr_calm owned_load owned_save owned_alloc
  GetItem_iso Add_owned Add_valid Remove_iso UpdateExpiration_owned OnChange_owned sRemove_iso sGet_iso : triple.
#[export] Hint Extern 1 (it_Key _ = _) => assumption || reflexivity : triple.

Ltac triple_step :=
  lazymatch goal with
  | |- triple (fun w => ?P /\ _) _ _ => apply triple_pure; intros ?
  | |- triple _ (_ ≫= _) _ => eapply triple_bind; [solve [eauto with triple]|intros ?; cbv beta]
  | |- triple _ (mret _) _ => apply triple_ret; intros ? ?; simpl
  | |- triple _ (match ?x with _ => _ end) _ => destruct x eqn:?
  end.
Ltac triple_auto := repeat triple_step.
