(* ===== verification/LRUCache.v ===== *)
(** * The LRU cache ([lrucache.go])

    A map from keys to list elements and a doubly linked list of elements in
    order of use, the most recently used first.  Elements hold pointers to cache
    items.  The invariant [lru_wf] ties the map, the list and the heap together;
    every operation preserves it, and the cache implements the [Cache] interface
    of [Runtime]. *)

From stdpp Require Import base gmap strings list fin_maps.
From Stdlib Require Import ZArith Lia SpecFloat.
From S2P Require Import Prelude Float64 Types GoTime LeakyMath Runtime.

Local Open Scope Z_scope.

(** ** State *)

Record LRUCache : Type := mkLRU {
  lc_cache : gmap string nat;     (* key to element *)
  lc_elems : gmap nat Ptr;        (* element to its Value *)
  lc_ll : list nat;               (* elements, front to back *)
  lc_cacheSize : Z;
  lc_cacheLen : Z;
  lc_fresh : nat;                 (* identity of the next element *)
  lc_closed : bool                (* [Close] set the map and the list to nil *)
}.

Definition defaultCacheSize : Z := 50000.

(** [setter.SetDefault(&x, d)]: [d] when [x] has the zero value. *)
Definition SetDefaultZ (x d : Z) : Z := if x =? 0 then d else x.

Definition NewLRUCache (maxSize : Z) : LRUCache :=
  mkLRU ∅ ∅ [] (SetDefaultZ maxSize defaultCacheSize) 0 0 false.

(** ** container/list *)

(** [l.Remove(e)] *)
Definition unlink (id : nat) (ll : list nat) : list nat := filter (fun x => x <> id) ll.
(** [l.MoveToFront(e)] *)
Definition moveToFront (id : nat) (ll : list nat) : list nat := id :: unlink id ll.

Definition with_ll (ll : list nat) (c : LRUCache) : LRUCache :=
  mkLRU (lc_cache c) (lc_elems c) ll (lc_cacheSize c) (lc_cacheLen c) (lc_fresh c) (lc_closed c).
Definition with_elems (m : gmap nat Ptr) (c : LRUCache) : LRUCache :=
  mkLRU (lc_cache c) m (lc_ll c) (lc_cacheSize c) (lc_cacheLen c) (lc_fresh c) (lc_closed c).
Definition with_len (n : Z) (c : LRUCache) : LRUCache :=
  mkLRU (lc_cache c) (lc_elems c) (lc_ll c) (lc_cacheSize c) n (lc_fresh c) (lc_closed c).

(** ** Operations *)

Section Ops.

Abbreviation MC := (M (Env * LRUCache)).

Definition envOp {A} (m : M Env A) : MC A := zoom fst (fun e s => (e, snd s)) m.
Definition cacheOp (f : LRUCache -> LRUCache) : MC unit := modify (fun s => (fst s, f (snd s))).
Definition cacheGet {A} (f : LRUCache -> A) : MC A := gets (fun s => f (snd s)).

(** [ele.Value], asserted to be a cache item. *)
Definition elemValue (id : nat) : MC Ptr := fun s =>
  match lc_elems (snd s) !! id with
  | Some p => Ret (p, s)
  | None => Panic "invalid memory address or nil pointer dereference"
  end.

Definition removeElement (id : nat) : MC unit :=
  p ← elemValue id;
  cacheOp (fun c => with_ll (unlink id (lc_ll c)) (with_elems (delete id (lc_elems c)) c));;
  kv ← envOp (load p);
  cacheOp (fun c =>
    mkLRU (delete (it_Key kv) (lc_cache c)) (lc_elems c) (lc_ll c) (lc_cacheSize c)
      (Z.of_nat (length (lc_ll c))) (lc_fresh c) (lc_closed c)).

(** Tokens of booked debt an evicted item takes with it. *)
Definition evictedDebt (item : CacheItem) : M Env f64 :=
  match it_Value item with
  | VLeaky b =>
      let rate := rateOf (lb_Duration b) (lb_Limit b) in
      balance ← (if fgt rate fzero
                 then now ← MillisecondNow; mret (fadd (lb_Remaining b) (creditedLeak b now rate))
                 else mret (lb_Remaining b));
      mret (fmax_builtin fzero (fopp (snapToZero balance)))
  | _ => mret fzero
  end.

Definition removeOldest : MC unit :=
  ll ← cacheGet lc_ll;
  match last ll with
  | None => mret tt
  | Some id =>
      p ← elemValue id;
      entry ← envOp (load p);
      now ← envOp MillisecondNow;
      when (now <? it_ExpireAt entry) (envOp (incr "gubernator_unexpired_evictions_count"));;
      lost ← envOp (evictedDebt entry);
      when (fgt lost fzero)
        (envOp (incr "gubernator_scheduled_debt_evictions_count");;
         envOp (modify (fun e => with_lost (fadd (e_lost e) lost) e)));;
      removeElement id
  end.

Definition Add (item : Ptr) : MC bool :=
  it ← envOp (load item);
  hit ← cacheGet (fun c => lc_cache c !! it_Key it);
  match hit with
  | Some ee =>
      cacheOp (fun c => with_ll (moveToFront ee (lc_ll c)) c);;
      cacheOp (fun c => with_elems (<[ee := item]> (lc_elems c)) c);;
      mret true
  | None =>
      closed ← cacheGet lc_closed;
      if closed : bool then panic "invalid memory address or nil pointer dereference" else
      cacheOp (fun c =>
        mkLRU (<[it_Key it := lc_fresh c]> (lc_cache c)) (<[lc_fresh c := item]> (lc_elems c))
          (lc_fresh c :: lc_ll c) (lc_cacheSize c) (lc_cacheLen c) (S (lc_fresh c)) (lc_closed c));;
      full ← cacheGet (fun c => negb (lc_cacheSize c =? 0) && (lc_cacheSize c <? Z.of_nat (length (lc_ll c))));
      when full removeOldest;;
      cacheOp (fun c => with_len (Z.of_nat (length (lc_ll c))) c);;
      mret false
  end.

Definition GetItem (key : string) : MC (option Ptr) :=
  hit ← cacheGet (fun c => lc_cache c !! key);
  match hit with
  | Some ele =>
      p ← elemValue ele;
      entry ← envOp (load p);
      expired ← envOp (IsExpired entry);
      if expired : bool then
        removeElement ele;;
        envOp (incr "gubernator_cache_access_count:miss");;
        mret None
      else
        envOp (incr "gubernator_cache_access_count:hit");;
        cacheOp (fun c => with_ll (moveToFront ele (lc_ll c)) c);;
        mret (Some p)
  | None =>
      envOp (incr "gubernator_cache_access_count:miss");;
      mret None
  end.

Definition Remove (key : string) : MC unit :=
  hit ← cacheGet (fun c => lc_cache c !! key);
  match hit with
  | Some ele => removeElement ele
  | None => mret tt
  end.

Definition Size (c : LRUCache) : Z := lc_cacheLen c.

Definition UpdateExpiration (key : string) (expireAt : Z) : MC bool :=
  hit ← cacheGet (fun c => lc_cache c !! key);
  match hit with
  | Some ele =>
      p ← elemValue ele;
      entry ← envOp (load p);
      envOp (save p (with_ExpireAt expireAt entry));;
      mret true
  | None => mret false
  end.

(** The items [Each] sends, in the order the map is ranged over. *)
Definition Each (c : LRUCache) : list Ptr :=
  omap (fun kv => lc_elems c !! kv.2) (map_to_list (lc_cache c)).

Definition Close (c : LRUCache) : LRUCache :=
  mkLRU ∅ ∅ [] (lc_cacheSize c) 0 (lc_fresh c) true.

End Ops.

(** The collector's gauge: the sizes of its caches, summed as floats. *)
Definition getSize (caches : list LRUCache) : f64 :=
  fold_left (fun size c => fadd size (f64_of_int (Size c))) caches fzero.

(** ** Invariant *)

(** The map, the elements, the list and the heap agree. *)
Record lru_core (e : Env) (c : LRUCache) : Prop := {
  wf_nodup : NoDup (lc_ll c);
  wf_ll : forall id, id ∈ lc_ll c <-> is_Some (lc_elems c !! id);
  wf_cache : forall k id, lc_cache c !! k = Some id ->
    exists p it, lc_elems c !! id = Some p /\ e_heap e !! p = Some it /\ it_Key it = k;
  wf_elems : forall id p, lc_elems c !! id = Some p ->
    exists it, e_heap e !! p = Some it /\ lc_cache c !! it_Key it = Some id;
  wf_fresh : forall id, is_Some (lc_elems c !! id) -> (id < lc_fresh c)%nat;
  wf_size : 0 <= lc_cacheSize c;
  wf_open : lc_closed c = false
}.

(** Between operations the recorded length is right and within the capacity. *)
Record lru_wf (e : Env) (c : LRUCache) : Prop := {
  wf_core : lru_core e c;
  wf_len : lc_cacheLen c = Z.of_nat (length (lc_ll c));
  wf_bound : lc_cacheSize c <> 0 -> Z.of_nat (length (lc_ll c)) <= lc_cacheSize c
}.

(** The abstract state: the map from keys to items. *)
Definition lru_view (c : LRUCache) : gmap string Ptr := omap (fun id => lc_elems c !! id) (lc_cache c).

Definition lru_room (c : LRUCache) : Prop :=
  lc_cacheSize c = 0 \/ Z.of_nat (length (lc_ll c)) < lc_cacheSize c.

Lemma lru_view_lookup (c : LRUCache) (k : string) :
  lru_view c !! k = lc_cache c !! k ≫= (fun id => lc_elems c !! id).
Proof. unfold lru_view. by rewrite lookup_omap. Qed.

(** ** Lists of elements *)

Lemma elem_of_unlink (id x : nat) (ll : list nat) : x ∈ unlink id ll <-> x ∈ ll /\ x <> id.
Proof. unfold unlink. rewrite list_elem_of_filter. tauto. Qed.

Lemma NoDup_unlink (id : nat) (ll : list nat) : NoDup ll -> NoDup (unlink id ll).
Proof. apply NoDup_filter. Qed.

Lemma unlink_notin (id : nat) (ll : list nat) : id ∉ ll -> unlink id ll = ll.
Proof.
  induction ll as [|x ll IH]; intros Hn; [done|]. apply not_elem_of_cons in Hn as [Hx Hn].
  unfold unlink. rewrite filter_cons, decide_True by congruence. f_equal. by apply IH.
Qed.

Lemma length_unlink (id : nat) (ll : list nat) : NoDup ll -> id ∈ ll ->
  S (length (unlink id ll)) = length ll.
Proof.
  induction ll as [|x ll IH]; intros Hnd Hin; [by apply not_elem_of_nil in Hin|].
  apply NoDup_cons in Hnd as [Hx Hnd]. unfold unlink. rewrite filter_cons. fold (unlink id ll).
  destruct (decide (x = id)) as [->|Hne].
  - rewrite decide_False by tauto. simpl. by rewrite unlink_notin.
  - rewrite decide_True by done. simpl. f_equal. apply IH; [done|].
    apply elem_of_cons in Hin as [?|?]; [congruence|done].
Qed.

Lemma NoDup_moveToFront (id : nat) (ll : list nat) : NoDup ll -> NoDup (moveToFront id ll).
Proof.
  intros H. apply NoDup_cons. split; [|by apply NoDup_unlink].
  rewrite elem_of_unlink. tauto.
Qed.

Lemma elem_of_moveToFront (id x : nat) (ll : list nat) : id ∈ ll -> x ∈ moveToFront id ll <-> x ∈ ll.
Proof.
  intros Hid. unfold moveToFront. rewrite elem_of_cons, elem_of_unlink.
  destruct (decide (x = id)) as [->|]; tauto.
Qed.

Lemma length_moveToFront (id : nat) (ll : list nat) : NoDup ll -> id ∈ ll ->
  length (moveToFront id ll) = length ll.
Proof. intros. simpl. by apply length_unlink. Qed.

(** ** Each operation, run *)

(** The cache without an element. *)
Definition drop_elem (id : nat) (k : string) (c : LRUCache) : LRUCache :=
  mkLRU (delete k (lc_cache c)) (delete id (lc_elems c)) (unlink id (lc_ll c)) (lc_cacheSize c)
    (Z.of_nat (length (unlink id (lc_ll c)))) (lc_fresh c) (lc_closed c).

Lemma removeElement_run (e : Env) (c : LRUCache) (id : nat) (p : Ptr) (it : CacheItem) :
  lc_elems c !! id = Some p -> e_heap e !! p = Some it ->
  removeElement id (e, c) = Ret (tt, (e, drop_elem id (it_Key it) c)).
Proof.
  intros Hid Hp. unfold removeElement, elemValue, envOp, zoom, load, cacheOp, modify, mbind, M_bind.
  simpl. rewrite Hid. simpl. by rewrite Hp.
Qed.

Lemma drop_elem_core (e : Env) (c : LRUCache) (id : nat) (p : Ptr) (it : CacheItem) :
  lru_core e c -> lc_elems c !! id = Some p -> e_heap e !! p = Some it ->
  lru_core e (drop_elem id (it_Key it) c).
Proof.
  intros [Hnd Hll Hc Hel Hfr Hsz Hop] Hid Hp.
  assert (lc_cache c !! it_Key it = Some id) as Hk.
  { destruct (Hel _ _ Hid) as (it' & ? & ?). by simplify_eq. }
  constructor; simpl; try done.
  - by apply NoDup_unlink.
  - intros x. rewrite elem_of_unlink, Hll. destruct (decide (x = id)) as [->|Hne].
    + rewrite lookup_delete_eq. split; [tauto|]. intros [? ?]; discriminate.
    + rewrite lookup_delete_ne by done. tauto.
  - intros k x Hx. destruct (decide (k = it_Key it)) as [->|Hne]; [by rewrite lookup_delete_eq in Hx|].
    rewrite lookup_delete_ne in Hx by done. destruct (Hc _ _ Hx) as (p' & it' & H1 & H2 & H3).
    exists p', it'. rewrite lookup_delete_ne; [done|]. intros ->. simplify_eq.
  - intros x px Hx. destruct (decide (x = id)) as [->|Hne]; [by rewrite lookup_delete_eq in Hx|].
    rewrite lookup_delete_ne in Hx by done. destruct (Hel _ _ Hx) as (it' & H1 & H2).
    exists it'. split; [done|]. rewrite lookup_delete_ne; [done|]. intros He. rewrite He in Hk. congruence.
  - intros x Hx. apply Hfr. destruct (decide (x = id)) as [->|Hne]; [by eauto|].
    by rewrite lookup_delete_ne in Hx.
Qed.

Lemma drop_elem_view (e : Env) (c : LRUCache) (id : nat) (p : Ptr) (it : CacheItem) :
  lru_core e c -> lc_elems c !! id = Some p -> e_heap e !! p = Some it ->
  lru_view (drop_elem id (it_Key it) c) = delete (it_Key it) (lru_view c).
Proof.
  intros Hw Hid Hp. apply map_eq. intros k. rewrite lru_view_lookup. simpl.
  destruct (decide (k = it_Key it)) as [->|Hne]; [by rewrite !lookup_delete_eq|].
  rewrite !lookup_delete_ne, lru_view_lookup by done.
  destruct (lc_cache c !! k) as [x|] eqn:Hx; [|done]. simpl.
  rewrite lookup_delete_ne; [done|]. intros ->.
  destruct (wf_cache _ _ Hw _ _ Hx) as (? & ? & ? & ? & ?). by simplify_eq.
Qed.

Lemma drop_elem_length (e : Env) (c : LRUCache) (id : nat) (p : Ptr) (k : string) :
  lru_core e c -> lc_elems c !! id = Some p ->
  S (length (lc_ll (drop_elem id k c))) = length (lc_ll c).
Proof.
  intros Hw Hid. apply length_unlink; [by apply (wf_nodup e)|]. apply (wf_ll _ _ Hw). by eexists.
Qed.

Lemma drop_elem_wf (e : Env) (c : LRUCache) (id : nat) (p : Ptr) (it : CacheItem) :
  lru_wf e c -> lc_elems c !! id = Some p -> e_heap e !! p = Some it ->
  lru_wf e (drop_elem id (it_Key it) c).
Proof.
  intros Hw Hid Hp. pose proof (drop_elem_length e c id p (it_Key it) (wf_core _ _ Hw) Hid) as Hl.
  constructor; [by eapply drop_elem_core, Hp; [apply Hw|]|done|].
  intros Hne. pose proof (wf_bound _ _ Hw Hne). simpl in *. lia.
Qed.

(** The view of an element that is in the map. *)
Lemma core_lookup (e : Env) (c : LRUCache) (k : string) (id : nat) :
  lru_core e c -> lc_cache c !! k = Some id ->
  exists p it, lc_elems c !! id = Some p /\ e_heap e !! p = Some it /\ it_Key it = k /\
    lru_view c !! k = Some p.
Proof.
  intros Hw Hk. destruct (wf_cache _ _ Hw _ _ Hk) as (p & it & ? & ? & ?).
  exists p, it. rewrite lru_view_lookup, Hk. done.
Qed.

Lemma core_lookup_None (c : LRUCache) (k : string) :
  lc_cache c !! k = None -> lru_view c !! k = None.
Proof. intros H. by rewrite lru_view_lookup, H. Qed.

(** Reordering the list changes nothing else. *)
Lemma moveToFront_wf (e : Env) (c : LRUCache) (id : nat) : lru_wf e c -> is_Some (lc_elems c !! id) ->
  lru_wf e (with_ll (moveToFront id (lc_ll c)) c).
Proof.
  intros [[Hnd Hll Hc Hel Hfr Hsz Hop] Hln Hb] Hid.
  assert (id ∈ lc_ll c) as Hin by by apply Hll.
  constructor; [constructor|..]; simpl lc_ll; rewrite ?length_moveToFront by done; try done.
  - by apply NoDup_moveToFront.
  - intros x. rewrite elem_of_moveToFront by done. apply Hll.
Qed.

(** The invariant reads the heap only for the keys of items. *)
Lemma lru_wf_env (e e' : Env) (c : LRUCache) : lru_wf e c -> keys_kept e e' -> lru_wf e' c.
Proof.
  intros [[Hnd Hll Hc Hel Hfr Hsz Hop] Hln Hb] Hk. constructor; [constructor|..]; try done.
  - intros k id Hid. destruct (Hc _ _ Hid) as (p & it & H1 & H2 & H3).
    destruct (Hk _ _ H2) as (it' & H4 & H5). exists p, it'. rewrite H5. by subst k.
  - intros id p Hid. destruct (Hel _ _ Hid) as (it & H1 & H2).
    destruct (Hk _ _ H1) as (it' & ? & He). exists it'. by rewrite He.
Qed.

Lemma envOp_run {A} (m : M Env A) (e e' : Env) (c : LRUCache) (a : A) :
  m e = Ret (a, e') -> envOp m (e, c) = Ret (a, (e', c)).
Proof. intros H. unfold envOp, zoom. simpl. by rewrite H. Qed.

Lemma evictedDebt_run (e : Env) (it : CacheItem) :
  exists f e', evictedDebt it e = Ret (f, e') /\ env_quiet e e'.
Proof.
  unfold evictedDebt. destruct (it_Value it) as [| |b|]; try (by eexists _, _; split; [reflexivity|auto with env]).
  destruct (fgt _ _); eexists _, _; (split; [reflexivity|auto with env]).
Qed.

(** The back of a non-empty list is an element of the cache. *)
Lemma last_elem (e : Env) (c : LRUCache) (id : nat) : lru_core e c -> last (lc_ll c) = Some id ->
  exists p it, lc_elems c !! id = Some p /\ e_heap e !! p = Some it /\ lc_cache c !! it_Key it = Some id.
Proof.
  intros Hw Hl. apply last_Some_elem_of in Hl. apply (wf_ll _ _ Hw) in Hl as [p Hp].
  destruct (wf_elems _ _ Hw _ _ Hp) as (it & ? & ?). by exists p, it.
Qed.

Lemma removeOldest_run (e : Env) (c : LRUCache) (id : nat) (p : Ptr) (it : CacheItem) :
  last (lc_ll c) = Some id -> lc_elems c !! id = Some p -> e_heap e !! p = Some it ->
  exists e', removeOldest (e, c) = Ret (tt, (e', drop_elem id (it_Key it) c)) /\ env_quiet e e'.
Proof.
  intros Hl Hid Hp. unfold removeOldest.
  rewrite (bind_ret_run _ _ _ (e, c) (lc_ll c)) by reflexivity. rewrite Hl.
  rewrite (bind_ret_run _ _ _ (e, c) p) by (unfold elemValue; simpl; by rewrite Hid).
  rewrite (bind_ret_run _ _ _ (e, c) it) by (apply envOp_run; unfold load; by rewrite Hp).
  erewrite (bind_ret_run _ _ _ (with_tick (S (e_tick e)) e, c)) by (by apply envOp_run).
  set (now := epochMillis _).
  assert (exists e2, when (now <? it_ExpireAt it) (envOp (incr "gubernator_unexpired_evictions_count"))
            (with_tick (S (e_tick e)) e, c) = Ret (tt, (e2, c)) /\ env_quiet e e2) as (e2 & H2 & Hq2).
  { destruct (now <? it_ExpireAt it); eexists; (split; [reflexivity|]);
      (etransitivity; [apply Now_quiet|auto with env]). }
  rewrite (bind_ret_run _ _ _ _ _ H2).
  destruct (evictedDebt_run e2 it) as (f & e3 & H3 & Hq3).
  rewrite (bind_ret_run _ _ _ (e3, c) f) by (by apply envOp_run).
  match goal with |- context [when ?b ?m] => assert (exists e4, when b m (e3, c) = Ret (tt, (e4, c)) /\ env_quiet e3 e4)
    as (e4 & H4 & Hq4) end.
  { destruct (fgt f fzero); eexists; (split; [reflexivity|]); [|auto with env].
    etransitivity; [apply counters_quiet|apply lost_quiet]. }
  rewrite (bind_ret_run _ _ _ _ _ H4).
  assert (env_quiet e e4) as Hq by (by do 2 (etransitivity; [eassumption|])).
  exists e4. split; [|done]. eapply removeElement_run; [done|]. by rewrite (eq_heap _ _ Hq).
Qed.

(** ** The cache implements the interface *)

#[global] Instance LRU_ops : CacheOps LRUCache := {|
  c_Add := Add;
  c_UpdateExpiration := UpdateExpiration;
  c_GetItem := GetItem;
  c_Remove := Remove
|}.

Lemma GetItem_spec (e : Env) (c : LRUCache) (k : string) : lru_wf e c ->
  exists res e' c', GetItem k (e, c) = Ret (res, (e', c')) /\ env_quiet e e' /\ lru_wf e' c' /\
    match lru_view c !! k with
    | None => res = None /\ lru_view c' = lru_view c /\ e_tick e' = e_tick e
    | Some p => exists it, e_heap e !! p = Some it /\ e_tick e' = S (e_tick e) /\
        if expiredAt it (epochMillis (mkTime (e_clock e (e_tick e)) (e_loc e)))
        then res = None /\ lru_view c' = delete k (lru_view c)
        else res = Some p /\ lru_view c' = lru_view c
    end.
Proof.
  intros Hw. unfold GetItem.
  rewrite (bind_ret_run _ _ _ (e, c) (lc_cache c !! k)) by reflexivity.
  destruct (lc_cache c !! k) as [id|] eqn:Hk.
  2: { rewrite core_lookup_None by done. eexists _, _, c. split; [reflexivity|]. simpl.
       split; [apply counters_quiet|]. split; [|done].
       eapply lru_wf_env; [done|]. apply env_quiet_keys, counters_quiet. }
  destruct (core_lookup e c k id (wf_core _ _ Hw) Hk) as (p & it & Hid & Hp & Hkey & Hv). rewrite Hv.
  rewrite (bind_ret_run _ _ _ (e, c) p) by (unfold elemValue; simpl; by rewrite Hid).
  rewrite (bind_ret_run _ _ _ (e, c) it) by (apply envOp_run; unfold load; by rewrite Hp).
  erewrite (bind_ret_run _ _ _ (with_tick (S (e_tick e)) e, c)) by (by apply envOp_run).
  destruct (expiredAt it _) eqn:Hx.
  - rewrite (bind_ret_run _ _ _ (with_tick (S (e_tick e)) e, drop_elem id (it_Key it) c) tt)
      by (by eapply removeElement_run).
    eexists _, _, _. split; [reflexivity|]. split; [by constructor; simpl; try lia|]. split.
    + eapply lru_wf_env; [by eapply (drop_elem_wf e c id p it)|]. intros q iq Hq. by exists iq.
    + exists it. rewrite Hx. repeat split; try done. rewrite <- Hkey.
      eapply drop_elem_view; [apply Hw|done|done].
  - eexists _, _, _. split; [reflexivity|]. split; [by constructor; simpl; try lia|]. split.
    + eapply lru_wf_env; [apply (moveToFront_wf e); [done|by eexists]|]. intros q iq Hq. by exists iq.
    + exists it. rewrite Hx. done.
Qed.

Lemma Remove_spec (e : Env) (c : LRUCache) (k : string) : lru_wf e c ->
  exists c', Remove k (e, c) = Ret (tt, (e, c')) /\ lru_wf e c' /\ lru_view c' = delete k (lru_view c).
Proof.
  intros Hw. unfold Remove.
  rewrite (bind_ret_run _ _ _ (e, c) (lc_cache c !! k)) by reflexivity.
  destruct (lc_cache c !! k) as [id|] eqn:Hk.
  - destruct (core_lookup e c k id (wf_core _ _ Hw) Hk) as (p & it & Hid & Hp & Hkey & Hv).
    eexists. split; [by eapply removeElement_run|]. split; [by eapply (drop_elem_wf e c id p it)|].
    rewrite <- Hkey. eapply drop_elem_view; [apply Hw|done|done].
  - exists c. split; [reflexivity|]. split; [done|]. symmetry. apply delete_id. by apply core_lookup_None.
Qed.

Lemma UpdateExpiration_spec (e : Env) (c : LRUCache) (k : string) (t : Z) : lru_wf e c ->
  exists b e', UpdateExpiration k t (e, c) = Ret (b, (e', c)) /\ lru_wf e' c /\
    match lru_view c !! k with
    | None => b = false /\ e' = e
    | Some p => b = true /\ exists it, e_heap e !! p = Some it /\
                  e' = with_heap (<[p := with_ExpireAt t it]> (e_heap e)) e
    end.
Proof.
  intros Hw. unfold UpdateExpiration.
  rewrite (bind_ret_run _ _ _ (e, c) (lc_cache c !! k)) by reflexivity.
  destruct (lc_cache c !! k) as [id|] eqn:Hk.
  2: { rewrite core_lookup_None by done. by exists false, e. }
  destruct (core_lookup e c k id (wf_core _ _ Hw) Hk) as (p & it & Hid & Hp & Hkey & Hv). rewrite Hv.
  rewrite (bind_ret_run _ _ _ (e, c) p) by (unfold elemValue; simpl; by rewrite Hid).
  rewrite (bind_ret_run _ _ _ (e, c) it) by (apply envOp_run; unfold load; by rewrite Hp).
  exists true. eexists. split; [reflexivity|]. simpl. split; [|by eauto].
  eapply lru_wf_env; [done|]. intros q iq Hq. simpl.
  destruct (decide (p = q)) as [<-|]; [|rewrite lookup_insert_ne by done; by exists iq].
  rewrite lookup_insert_eq. simplify_eq. by eexists; split; [reflexivity|].
Qed.

(** [Add] of a key that is present: the element moves to the front and points
    to the new item. *)
Lemma Add_hit (e : Env) (c : LRUCache) (p : Ptr) (it : CacheItem) (id : nat) :
  lru_wf e c -> e_heap e !! p = Some it -> lc_cache c !! it_Key it = Some id ->
  let c' := with_elems (<[id := p]> (lc_elems c)) (with_ll (moveToFront id (lc_ll c)) c) in
  Add p (e, c) = Ret (true, (e, c')) /\ lru_wf e c' /\
  lru_view c' = <[it_Key it := p]> (lru_view c).
Proof.
  intros Hw Hp Hk c'. split; [|split].
  - unfold Add. rewrite (bind_ret_run _ _ _ (e, c) it) by (apply envOp_run; unfold load; by rewrite Hp).
    rewrite (bind_ret_run _ _ _ (e, c) (lc_cache c !! it_Key it)) by reflexivity. by rewrite Hk.
  - destruct (core_lookup e c _ id (wf_core _ _ Hw) Hk) as (p0 & it0 & Hid & Hp0 & Hkey & Hv).
    destruct (moveToFront_wf e c id Hw ltac:(by eexists)) as [[Hnd Hll Hc Hel Hfr Hsz Hop] Hln Hb].
    assert (forall x, is_Some (<[id := p]> (lc_elems c) !! x) <-> is_Some (lc_elems c !! x)) as Hdom.
    { intros x. rewrite lookup_insert_is_Some. destruct (decide (id = x)) as [<-|Hne].
      - split; [by intros _; eexists|by left].
      - split; [by intros [?|[? ?]]|auto]. }
    simpl in *. constructor; [constructor|..]; simpl; try done.
    + intros x. by rewrite Hdom.
    + intros k x Hx. destruct (decide (id = x)) as [<-|Hne].
      * rewrite lookup_insert_eq. exists p, it. repeat split; try done.
        destruct (Hc _ _ Hx) as (? & ? & ? & ? & ?). simplify_eq. congruence.
      * rewrite lookup_insert_ne by done. apply (Hc _ _ Hx).
    + intros x px Hx. destruct (decide (id = x)) as [<-|Hne].
      * rewrite lookup_insert_eq in Hx. simplify_eq. by exists it.
      * rewrite lookup_insert_ne in Hx by done. apply (Hel _ _ Hx).
    + intros x Hx. apply Hfr. by apply Hdom.
  - apply map_eq. intros k. rewrite lru_view_lookup. simpl.
    destruct (decide (it_Key it = k)) as [<-|Hne].
    + rewrite Hk, lookup_insert_eq. simpl. by rewrite lookup_insert_eq.
    + rewrite lookup_insert_ne, lru_view_lookup by done.
      destruct (lc_cache c !! k) as [x|] eqn:Hx; [|done]. simpl.
      rewrite lookup_insert_ne; [done|]. intros <-.
      destruct (wf_cache _ _ (wf_core _ _ Hw) _ _ Hx) as (? & ? & ? & ? & ?).
      destruct (wf_cache _ _ (wf_core _ _ Hw) _ _ Hk) as (? & ? & ? & ? & ?). by simplify_eq.
Qed.

(** The cache with a new element at the front. *)
Definition push_elem (k : string) (p : Ptr) (c : LRUCache) : LRUCache :=
  mkLRU (<[k := lc_fresh c]> (lc_cache c)) (<[lc_fresh c := p]> (lc_elems c))
    (lc_fresh c :: lc_ll c) (lc_cacheSize c) (lc_cacheLen c) (S (lc_fresh c)) (lc_closed c).

Lemma push_elem_core (e : Env) (c : LRUCache) (p : Ptr) (it : CacheItem) :
  lru_wf e c -> e_heap e !! p = Some it -> lc_cache c !! it_Key it = None ->
  lru_core e (push_elem (it_Key it) p c).
Proof.
  intros [[Hnd Hll Hc Hel Hfr Hsz Hop] _ _] Hp Hk.
  assert (lc_elems c !! lc_fresh c = None) as Hnew.
  { apply eq_None_not_Some. intros Hs. apply Hfr in Hs. lia. }
  assert (forall k id, lc_cache c !! k = Some id -> id <> lc_fresh c) as Hne.
  { intros k id Hid ->. destruct (Hc _ _ Hid) as (? & ? & ? & _). congruence. }
  constructor; simpl; try done.
  - apply NoDup_cons. split; [|done]. rewrite Hll, Hnew. by intros [? ?].
  - intros x. rewrite elem_of_cons, Hll, lookup_insert_is_Some.
    split; [intros [->|?]; [by left|]|intros [<-|[? ?]]; auto].
    destruct (decide (lc_fresh c = x)); auto.
  - intros k x Hx. destruct (decide (it_Key it = k)) as [<-|Hnk].
    + rewrite lookup_insert_eq in Hx. simplify_eq. exists p, it. by rewrite lookup_insert_eq.
    + rewrite lookup_insert_ne in Hx by done. pose proof (Hne _ _ Hx).
      rewrite lookup_insert_ne by done. apply (Hc _ _ Hx).
  - intros x px Hx. destruct (decide (lc_fresh c = x)) as [<-|Hnx].
    + rewrite lookup_insert_eq in Hx. simplify_eq. exists it. by rewrite lookup_insert_eq.
    + rewrite lookup_insert_ne in Hx by done. destruct (Hel _ _ Hx) as (itx & H1 & H2).
      exists itx. split; [done|]. rewrite lookup_insert_ne; [done|]. intros He. rewrite He in Hk. congruence.
  - intros x Hx. rewrite lookup_insert_is_Some in Hx. destruct Hx as [<-|[_ Hx]]; [lia|].
    apply Hfr in Hx. lia.
Qed.

Lemma push_elem_view (e : Env) (c : LRUCache) (p : Ptr) (k : string) :
  lru_wf e c -> lc_cache c !! k = None ->
  lru_view (push_elem k p c) = <[k := p]> (lru_view c).
Proof.
  intros Hw Hk. apply map_eq. intros x. rewrite lru_view_lookup. simpl.
  destruct (decide (k = x)) as [<-|Hne].
  - rewrite !lookup_insert_eq. simpl. by rewrite lookup_insert_eq.
  - rewrite !lookup_insert_ne, lru_view_lookup by done.
    destruct (lc_cache c !! x) as [id|] eqn:Hx; [|done]. simpl.
    rewrite lookup_insert_ne; [done|]. intros <-.
    destruct (wf_cache _ _ (wf_core _ _ Hw) _ _ Hx) as (? & ? & H & _).
    pose proof (wf_fresh _ _ (wf_core _ _ Hw) (lc_fresh c) ltac:(by eexists)). lia.
Qed.

(** [Add] of a new key: the item goes to the front; when the cache is then over
    its capacity, the element at the back goes, with its item's key. *)
Lemma Add_miss (e : Env) (c : LRUCache) (p : Ptr) (it : CacheItem) :
  lru_wf e c -> e_heap e !! p = Some it -> lc_cache c !! it_Key it = None ->
  exists e' c', Add p (e, c) = Ret (false, (e', c')) /\ env_quiet e e' /\ lru_wf e' c' /\
    (lru_room c /\ lru_view c' = <[it_Key it := p]> (lru_view c) /\
       c' = with_len (Z.of_nat (S (length (lc_ll c)))) (push_elem (it_Key it) p c) \/
     exists victim vp vit, ~ lru_room c /\ last (lc_ll c) = Some victim /\
       lc_elems c !! victim = Some vp /\ e_heap e !! vp = Some vit /\ it_Key vit <> it_Key it /\
       lru_view c' = delete (it_Key vit) (<[it_Key it := p]> (lru_view c)) /\
       c' = drop_elem victim (it_Key vit) (push_elem (it_Key it) p c)).
Proof.
  intros Hw Hp Hk. pose proof (push_elem_core e c p it Hw Hp Hk) as Hc1.
  pose proof (push_elem_view e c p _ Hw Hk) as Hv1. set (c1 := push_elem (it_Key it) p c) in *.
  unfold Add. rewrite (bind_ret_run _ _ _ (e, c) it) by (apply envOp_run; unfold load; by rewrite Hp).
  rewrite (bind_ret_run _ _ _ (e, c) (lc_cache c !! it_Key it)) by reflexivity. rewrite Hk.
  rewrite (bind_ret_run _ _ _ (e, c) (lc_closed c)) by reflexivity.
  rewrite (wf_open _ _ (wf_core _ _ Hw)).
  rewrite (bind_ret_run _ _ _ (e, c1) tt) by reflexivity.
  erewrite (bind_ret_run _ _ _ (e, c1)) by reflexivity. simpl lc_cacheSize. simpl lc_ll.
  pose proof (wf_size _ _ (wf_core _ _ Hw)) as Hsz. pose proof (wf_bound _ _ Hw) as Hb.
  destruct (negb (lc_cacheSize c =? 0) && (lc_cacheSize c <? Z.of_nat (length (lc_fresh c :: lc_ll c)))) eqn:Hf.
  - apply andb_true_iff in Hf as [H0 Hf]. apply negb_true_iff, Z.eqb_neq in H0. apply Z.ltb_lt in Hf.
    specialize (Hb H0). simpl length in Hf.
    destruct (last (lc_ll c)) as [victim|] eqn:Hl.
    2: { apply last_None in Hl. rewrite Hl in *. simpl in *. lia. }
    assert (last (lc_ll c1) = Some victim) as Hl1.
    { simpl. rewrite last_cons. by rewrite Hl. }
    destruct (last_elem e c victim (wf_core _ _ Hw) Hl) as (vp & vit & Hvid & Hvp & Hvk).
    assert (lc_elems c1 !! victim = Some vp) as Hvid1.
    { simpl. rewrite lookup_insert_ne; [done|]. intros <-.
      pose proof (wf_fresh _ _ (wf_core _ _ Hw) _ ltac:(by eexists)). lia. }
    destruct (removeOldest_run e c1 victim vp vit Hl1 Hvid1 Hvp) as (e' & Hr & Hq).
    unfold when. rewrite (bind_ret_run _ _ _ _ _ Hr).
    pose proof (drop_elem_length e c1 victim vp (it_Key vit) Hc1 Hvid1) as Hlen. simpl in Hlen.
    eexists e', _. split; [reflexivity|]. split; [done|]. split.
    + eapply lru_wf_env; [|by apply env_quiet_keys]. pose proof (drop_elem_core e c1 victim vp vit Hc1 Hvid1 Hvp) as [].
      constructor; [by constructor|done|]. simpl in *. lia.
    + right. exists victim, vp, vit. split; [unfold lru_room; lia|].
      repeat split; try done; [congruence|]. rewrite <- Hv1. eapply drop_elem_view; done.
  - unfold when. erewrite (bind_ret_run _ _ _ (e, c1)) by reflexivity.
    assert (lru_room c) as Hroom.
    { unfold lru_room. apply andb_false_iff in Hf as [Hf|Hf].
      - apply negb_false_iff, Z.eqb_eq in Hf. by left.
      - apply Z.ltb_ge in Hf. simpl length in Hf. right. lia. }
    eexists e, _. split; [reflexivity|]. split; [reflexivity|]. split.
    + pose proof Hc1 as []. constructor; [by constructor|done|]. unfold lru_room in Hroom. simpl in *. lia.
    + left. by repeat split.
Qed.

#[global] Instance LRU_laws : CacheLaws LRUCache.
Proof.
  refine {| c_view := lru_view; c_room := lru_room; c_wf := lru_wf |}.
  - intros e c k p Hw Hv. rewrite lru_view_lookup in Hv.
    destruct (lc_cache c !! k) as [id|] eqn:Hk; [|done]. simpl in Hv.
    destruct (wf_cache _ _ (wf_core _ _ Hw) _ _ Hk) as (? & it & ? & ? & ?). simplify_eq. by exists it.
  - apply lru_wf_env.
  - intros e c k. apply GetItem_spec.
  - intros e c p it Hw Hp. destruct (lc_cache c !! it_Key it) as [id|] eqn:Hk.
    + destruct (Add_hit e c p it id Hw Hp Hk) as (Ha & Hw' & Hv).
      eexists _, _, _. split; [exact Ha|]. split; [reflexivity|]. split; [done|]. rewrite Hv.
      split; [apply lookup_insert_eq|]. split; [|done]. intros k Hne. left. by rewrite lookup_insert_ne.
    + destruct (Add_miss e c p it Hw Hp Hk) as (e' & c' & Ha & Hq & Hw' & Hv).
      eexists _, _, _. split; [exact Ha|]. split; [done|]. split; [done|].
      destruct Hv as [(Hroom & -> & _)|(victim & vp & vit & Hroom & Hl & Hvid & Hvp & Hne & -> & _)].
      * split; [apply lookup_insert_eq|]. split; [|done]. intros k Hk'. left. by rewrite lookup_insert_ne.
      * split; [rewrite lookup_delete_ne by done; apply lookup_insert_eq|]. split.
        -- intros k Hk'. destruct (decide (it_Key vit = k)) as [<-|Hnk]; [right; apply lookup_delete_eq|left].
           by rewrite lookup_delete_ne, lookup_insert_ne.
        -- intros [[x Hx]|?]; [|done]. rewrite core_lookup_None in Hx by done. done.
  - intros e c k. apply Remove_spec.
  - intros e c k t. apply UpdateExpiration_spec.
Defined.

Lemma NewLRUCache_wf (e : Env) (maxSize : Z) : 0 <= maxSize -> lru_wf e (NewLRUCache maxSize).
Proof.
  intros H. constructor; [constructor|..]; simpl; try done.
  - constructor.
  - intros id. rewrite lookup_empty. split; [by intros ?%not_elem_of_nil|by intros [? ?]].
  - intros id. rewrite lookup_empty. by intros [? ?].
  - unfold SetDefaultZ, defaultCacheSize. destruct (maxSize =? 0); lia.
  - unfold SetDefaultZ, defaultCacheSize. destruct (maxSize =? 0); lia.
Qed.

(** ** Refinement: a bounded list of keys in order of use *)

(** The abstract cache is the list of (key, item) pairs, most recently used first. *)
Definition spec_touch (k : string) (p : Ptr) (l : list (string * Ptr)) : list (string * Ptr) :=
  (k, p) :: filter (fun kp => kp.1 <> k) l.

Definition spec_add (cap : Z) (k : string) (p : Ptr) (l : list (string * Ptr)) : list (string * Ptr) :=
  if decide (k ∈ l.*1) then spec_touch k p l
  else if cap =? 0 then (k, p) :: l
  else take (Z.to_nat cap) ((k, p) :: l).

Definition entry_of (e : Env) (els : gmap nat Ptr) (id : nat) : option (string * Ptr) :=
  p ← els !! id; it ← e_heap e !! p; Some (it_Key it, p).

Definition recency (e : Env) (c : LRUCache) : list (string * Ptr) :=
  omap (entry_of e (lc_elems c)) (lc_ll c).

Lemma omap_cons {A B} (f : A -> option B) (x : A) (l : list A) :
  omap f (x :: l) = match f x with Some y => y :: omap f l | None => omap f l end.
Proof. reflexivity. Qed.

Lemma omap_length_all {A B} (f : A -> option B) (l : list A) :
  (forall x, x ∈ l -> is_Some (f x)) -> length (omap f l) = length l.
Proof.
  induction l as [|x l IH]; intros H; [done|]. rewrite omap_cons.
  destruct (H x) as [y ->]; [by left|]. simpl. f_equal. apply IH. intros z Hz. apply H. by right.
Qed.

Lemma omap_ext_in {A B} (f g : A -> option B) (l : list A) :
  (forall x, x ∈ l -> f x = g x) -> omap f l = omap g l.
Proof.
  induction l as [|x l IH]; intros H; [done|].
  rewrite (omap_cons f), (omap_cons g), (H x) by (by left).
  by rewrite IH by (intros y Hy; apply H; by right).
Qed.

Lemma core_entry (e : Env) (c : LRUCache) (id : nat) : lru_core e c -> id ∈ lc_ll c ->
  exists k p, entry_of e (lc_elems c) id = Some (k, p) /\ lc_cache c !! k = Some id /\
    lc_elems c !! id = Some p.
Proof.
  intros Hw Hin. apply (wf_ll _ _ Hw) in Hin as [p Hp].
  destruct (wf_elems _ _ Hw _ _ Hp) as (it & Hit & Hk).
  exists (it_Key it), p. unfold entry_of. by rewrite Hp; simpl; rewrite Hit.
Qed.

Lemma recency_length (e : Env) (c : LRUCache) : lru_core e c ->
  length (recency e c) = length (lc_ll c).
Proof.
  intros Hw. apply omap_length_all. intros x Hx.
  destruct (core_entry e c x Hw Hx) as (k & p & -> & _). by eexists.
Qed.

Lemma recency_key (e : Env) (c : LRUCache) (k : string) : lru_core e c ->
  k ∈ (recency e c).*1 <-> is_Some (lc_cache c !! k).
Proof.
  intros Hw. split.
  - intros ([k' p] & -> & Hin)%list_elem_of_fmap. apply list_elem_of_omap in Hin as (id & Hid & Hx).
    destruct (core_entry e c id Hw Hid) as (? & ? & ? & ? & _). simplify_eq. by eexists.
  - intros [id Hid]. destruct (core_lookup e c k id Hw Hid) as (p & it & Hp & Hit & <- & _).
    apply list_elem_of_fmap. exists (it_Key it, p). split; [done|].
    apply list_elem_of_omap. exists id. split; [apply (wf_ll _ _ Hw); by eexists|].
    unfold entry_of. by rewrite Hp; simpl; rewrite Hit.
Qed.

(** Unlinking an element removes its key from the list. *)
Lemma recency_unlink (e : Env) (c : LRUCache) (k : string) (id : nat) :
  lru_core e c -> lc_cache c !! k = Some id ->
  omap (entry_of e (lc_elems c)) (unlink id (lc_ll c)) = filter (fun kp => kp.1 <> k) (recency e c).
Proof.
  intros Hw Hk. unfold recency.
  assert (forall ll, ll ⊆ lc_ll c -> omap (entry_of e (lc_elems c)) (unlink id ll) =
            filter (fun kp => kp.1 <> k) (omap (entry_of e (lc_elems c)) ll)) as H; [|by apply H].
  induction ll as [|x ll IH]; intros Hs; [done|].
  destruct (core_entry e c x Hw ltac:(set_solver)) as (k' & p & Hx & Hk' & _).
  rewrite (omap_cons (entry_of e (lc_elems c))), Hx, filter_cons. unfold unlink. rewrite filter_cons.
  fold (unlink id ll). simpl. destruct (decide (x = id)) as [->|Hne].
  - rewrite !decide_False; [apply IH; set_solver| |tauto].
    intros Hn. apply Hn. destruct (wf_cache _ _ Hw _ _ Hk) as (? & ? & ? & ? & <-).
    destruct (wf_cache _ _ Hw _ _ Hk') as (? & ? & ? & ? & <-). by simplify_eq.
  - rewrite decide_True by done. rewrite (omap_cons (entry_of e (lc_elems c))), Hx.
    rewrite decide_True by (intros ->; congruence). f_equal. apply IH. set_solver.
Qed.

(** [GetItem] of a live key moves it to the front; of an expired key drops it. *)
Lemma GetItem_recency (e : Env) (c : LRUCache) (k : string) (id : nat) : lru_wf e c ->
  lc_cache c !! k = Some id ->
  forall res e' c', GetItem k (e, c) = Ret (res, (e', c')) ->
  recency e' c' = match res with
                  | Some p => spec_touch k p (recency e c)
                  | None => filter (fun kp => kp.1 <> k) (recency e c)
                  end.
Proof.
  intros Hw Hk res e' c'. pose proof (recency_unlink e c k id (wf_core _ _ Hw) Hk) as Hu.
  destruct (core_lookup e c k id (wf_core _ _ Hw) Hk) as (p & it & Hid & Hp & Hkey & Hv).
  unfold GetItem. rewrite (bind_ret_run _ _ _ (e, c) (lc_cache c !! k)) by reflexivity. rewrite Hk.
  rewrite (bind_ret_run _ _ _ (e, c) p) by (unfold elemValue; simpl; by rewrite Hid).
  rewrite (bind_ret_run _ _ _ (e, c) it) by (apply envOp_run; unfold load; by rewrite Hp).
  erewrite (bind_ret_run _ _ _ (with_tick (S (e_tick e)) e, c)) by (by apply envOp_run).
  destruct (expiredAt it _).
  - rewrite (bind_ret_run _ _ _ (with_tick (S (e_tick e)) e, drop_elem id (it_Key it) c) tt)
      by (by eapply removeElement_run).
    intros [= <- <- <-]. rewrite <- Hu. unfold recency. simpl. apply omap_ext_in.
    intros x Hx%elem_of_unlink. unfold entry_of. by rewrite lookup_delete_ne by (intros <-; tauto).
  - intros [= <- <- <-]. transitivity (omap (entry_of e (lc_elems c)) (moveToFront id (lc_ll c))); [done|].
    unfold moveToFront, spec_touch. rewrite omap_cons, Hu.
    unfold entry_of at 1. rewrite Hid. simpl. rewrite Hp. simpl. by rewrite Hkey.
Qed.

(** A new element at the front, whose item has key [k]. *)
Lemma recency_push (e : Env) (c : LRUCache) (p : Ptr) (it : CacheItem) :
  lru_core e c -> e_heap e !! p = Some it ->
  recency e (push_elem (it_Key it) p c) = (it_Key it, p) :: recency e c.
Proof.
  intros Hc Hp. unfold recency. cbn [lc_ll lc_elems push_elem]. rewrite omap_cons.
  unfold entry_of at 1. rewrite lookup_insert_eq. simpl. rewrite Hp. simpl. f_equal.
  apply omap_ext_in. intros x Hx. unfold entry_of. rewrite lookup_insert_ne; [done|]. intros <-.
  apply (wf_ll _ _ Hc) in Hx. pose proof (wf_fresh _ _ Hc _ Hx). lia.
Qed.

(** Dropping the back element drops the last pair. *)
Lemma recency_drop_last (e : Env) (c : LRUCache) (victim : nat) (k : string) :
  lru_core e c -> last (lc_ll c) = Some victim ->
  recency e (drop_elem victim k c) = take (pred (length (lc_ll c))) (recency e c).
Proof.
  intros Hc Hl. apply last_Some in Hl as [ll' Hll].
  pose proof (wf_nodup _ _ Hc) as Hnd. rewrite Hll in Hnd. apply NoDup_app in Hnd as (_ & Hnd & _).
  assert (victim ∉ ll') as Hnin by (intros Hin; apply (Hnd _ Hin); by left).
  unfold recency. cbn [lc_ll lc_elems drop_elem]. rewrite Hll. unfold unlink. rewrite filter_app.
  rewrite filter_cons, decide_False, filter_nil, app_nil_r by tauto. fold (unlink victim ll').
  rewrite unlink_notin, omap_app, length_app by done. simpl. rewrite Nat.add_1_r. simpl pred.
  assert (length (omap (entry_of e (lc_elems c)) ll') = length ll') as Hlen.
  { apply omap_length_all. intros x Hx.
    destruct (core_entry e c x Hc) as (? & ? & -> & _); [rewrite Hll; set_solver|]. by eexists. }
  rewrite <- Hlen, take_app_length. apply omap_ext_in. intros x Hx. unfold entry_of.
  by rewrite lookup_delete_ne by (intros <-; done).
Qed.

(** [Add] is the abstract insertion: an existing key moves to the front with its
    new item, a new key is pushed and, over capacity, the last one dropped. *)
Lemma Add_recency (e : Env) (c : LRUCache) (p : Ptr) (it : CacheItem) : lru_wf e c ->
  e_heap e !! p = Some it ->
  exists b e' c', Add p (e, c) = Ret (b, (e', c')) /\
    recency e' c' = spec_add (lc_cacheSize c) (it_Key it) p (recency e c).
Proof.
  intros Hw Hp. pose proof (wf_core _ _ Hw) as Hc. unfold spec_add.
  pose proof (recency_key e c (it_Key it) Hc) as Hkey.
  pose proof (recency_length e c Hc) as Hlen.
  destruct (lc_cache c !! it_Key it) as [id|] eqn:Hk.
  - rewrite decide_True by (apply Hkey; by eexists).
    destruct (Add_hit e c p it id Hw Hp Hk) as (Ha & _ & _).
    eexists _, _, _. split; [exact Ha|]. unfold recency at 1, spec_touch. cbn [lc_ll lc_elems with_ll with_elems].
    rewrite <- (recency_unlink e c _ id) by done. unfold moveToFront.
    rewrite omap_cons. unfold entry_of at 1.
    rewrite lookup_insert_eq. simpl. rewrite Hp. simpl. f_equal. apply omap_ext_in.
    intros x Hx%elem_of_unlink. unfold entry_of. by rewrite lookup_insert_ne by (intros <-; tauto).
  - rewrite decide_False by (rewrite Hkey; by intros [? ?]).
    destruct (Add_miss e c p it Hw Hp Hk) as (e' & c' & Ha & Hq & Hw' & Hv).
    eexists _, _, _. split; [exact Ha|]. pose proof (wf_bound _ _ Hw) as Hb.
    assert (recency e' c' = recency e c') as ->.
    { unfold recency. apply omap_ext_in. intros x _. unfold entry_of. by rewrite (eq_heap _ _ Hq). }
    unfold lru_room in Hv.
    destruct Hv as [(Hroom & _ & ->)|(victim & vp & vit & Hroom & Hl & Hvid & Hvp & Hne & _ & ->)].
    + transitivity (recency e (push_elem (it_Key it) p c)); [done|]. rewrite recency_push by done.
      destruct (Z.eqb_spec (lc_cacheSize c) 0) as [|Hn0]; [done|]. rewrite take_ge; [done|]. simpl. lia.
    + destruct (Z.eqb_spec (lc_cacheSize c) 0) as [|Hn0]; [lia|]. specialize (Hb Hn0).
      rewrite recency_drop_last; [|by apply push_elem_core|simpl; rewrite last_cons; by rewrite Hl].
      rewrite recency_push by done. f_equal. simpl. lia.
Qed.

Lemma map_to_list_omap {A B} (f : A -> option B) (m : gmap string A) :
  map_to_list (omap f m) ≡ₚ omap (fun kv => (fun b => (kv.1, b)) <$> f kv.2) (map_to_list m).
Proof.
  induction m as [|k x m Hk IH] using map_ind.
  - by rewrite omap_empty, !map_to_list_empty.
  - rewrite map_to_list_insert by done. rewrite omap_cons. simpl.
    rewrite omap_insert. destruct (f x) as [b|]; simpl.
    + rewrite map_to_list_insert by (by rewrite lookup_omap, Hk). by rewrite IH.
    + rewrite delete_id by (by rewrite lookup_omap, Hk). done.
Qed.

(** [Each] sends every cached item once. *)
Lemma Each_view (c : LRUCache) : Each c ≡ₚ (map_to_list (lru_view c)).*2.
Proof.
  unfold Each, lru_view. rewrite map_to_list_omap.
  induction (map_to_list (lc_cache c)) as [|[k id] l IH]; [done|].
  rewrite !omap_cons. simpl. destruct (lc_elems c !! id); simpl; by rewrite IH.
Qed.
