(* ===== verification/Store.v ===== *)
(** * Persistent stores ([store.go])

    The in-memory [MockStore] and [MockLoader].  The store holds pointers: an item
    it was handed by [OnChange] is the very item the cache holds, so later updates
    of the bucket show through.  [MockStore] implements the [Store] interface of
    [Runtime] and meets its laws. *)

From stdpp Require Import base gmap strings list.
From Stdlib Require Import ZArith Lia.
From S2P Require Import Prelude Types Runtime.

Local Open Scope Z_scope.

Record MockStore : Type := mkMockStore {
  ms_Called : gmap string Z;
  ms_CacheItems : gmap string Ptr
}.

Definition NewMockStore : MockStore :=
  mkMockStore {["OnChange()" := 0; "Remove()" := 0; "Get()" := 0]} ∅.

(** [ms.Called[name] += 1] *)
Definition called (name : string) (m : gmap string Z) : gmap string Z :=
  <[name := default 0 (m !! name) + 1]> m.

Definition OnChange (r : RateLimitReq) (item : Ptr) : M (Env * MockStore) unit := fun s =>
  let '(e, ms) := s in
  match e_heap e !! item with
  | Some it => Ret (tt, (e, mkMockStore (called "OnChange()" (ms_Called ms))
                                        (<[it_Key it := item]> (ms_CacheItems ms))))
  | None => Panic "invalid memory address or nil pointer dereference"
  end.

Definition Get (r : RateLimitReq) : M (Env * MockStore) (option Ptr) := fun s =>
  let '(e, ms) := s in
  Ret (ms_CacheItems ms !! HashKey r,
       (e, mkMockStore (called "Get()" (ms_Called ms)) (ms_CacheItems ms))).

Definition Remove (key : string) : M (Env * MockStore) unit := fun s =>
  let '(e, ms) := s in
  Ret (tt, (e, mkMockStore (called "Remove()" (ms_Called ms)) (delete key (ms_CacheItems ms)))).

#[global] Instance MockStore_ops : StoreOps MockStore := {|
  s_OnChange := OnChange;
  s_Get := Get;
  s_Remove := Remove
|}.

(** Every stored pointer is valid. *)
Definition mock_wf (e : Env) (ms : MockStore) : Prop :=
  forall k p, ms_CacheItems ms !! k = Some p -> is_Some (e_heap e !! p).

#[global] Instance MockStore_laws : StoreLaws MockStore.
Proof.
  refine {| s_wf := mock_wf |}.
  - intros e e' ms Hw Hk k p Hp. destruct (Hw _ _ Hp) as [it Hit].
    destruct (Hk _ _ Hit) as (it' & ? & _). by eexists.
  - intros e ms r p Hok Hw [it Hit]. simpl. rewrite Hit. eexists _, _. split; [reflexivity|].
    split; [done|]. split; [done|]. intros k q. simpl. destruct (decide (it_Key it = k)) as [<-|Hne].
    + rewrite lookup_insert_eq. intros [= <-]. by eexists.
    + rewrite lookup_insert_ne by done. apply Hw.
  - intros e ms r Hok Hw. simpl. eexists _, _, _. split; [reflexivity|].
    repeat split; try done. intros p Hp. by eapply Hw.
  - intros e ms k Hok Hw. simpl. eexists _, _. split; [reflexivity|]. repeat split; try done.
    intros k' p. simpl. rewrite lookup_delete_Some. intros [_ Hp]. by eapply Hw.
Defined.

(** [MockLoader]: what [Load] sends on its channel and what [Save] reads from it. *)
Record MockLoader : Type := mkMockLoader {
  ml_Called : gmap string Z;
  ml_CacheItems : list Ptr
}.

Definition NewMockLoader : MockLoader := mkMockLoader {["Load()" := 0; "Save()" := 0]} [].

Definition Load (ml : MockLoader) : list Ptr * MockLoader :=
  (ml_CacheItems ml, mkMockLoader (called "Load()" (ml_Called ml)) (ml_CacheItems ml)).

Definition Save (input : list Ptr) (ml : MockLoader) : MockLoader :=
  mkMockLoader (called "Save()" (ml_Called ml)) (ml_CacheItems ml ++ input).
