(* ===== verification/Demo.v ===== *)
(** * Concrete worlds

    An empty process with an LRU cache of ten items, with and without the in-memory
    store, a frozen clock, and a few requests; the examples that evaluate the
    theorems at concrete inputs start from these. *)

From stdpp Require Import base gmap strings list.
From Stdlib Require Import ZArith Lia.
From S2P Require Import Prelude Float64 Types GoTime Runtime LRUCache Store.

Local Open Scope Z_scope.

(** A process whose clock stands still at [ms] milliseconds. *)
Definition demoEnv (ms : Z) : Env := mkEnv ∅ 0 (fun _ => ms * 1000000) 0 UTC ∅ fzero.

Definition demoWorld (ms : Z) (s : option MockStore) : World LRUCache MockStore :=
  mkWorld (demoEnv ms) (NewLRUCache 10) s.

Lemma demoWorld_ok (ms : Z) : world_ok (demoWorld ms None).
Proof. constructor; simpl; [done|by apply NewLRUCache_wf|done]. Qed.

Lemma demoWorld_store_ok (ms : Z) : world_ok (demoWorld ms (Some NewMockStore)).
Proof. constructor; simpl; [done|by apply NewLRUCache_wf|done]. Qed.

(** Ten per minute on "account:1234", created at the millisecond [at_ms]. *)
Definition demoReq (alg : Algorithm) (hits at_ms : Z) : RateLimitReq :=
  mkReq "requests_per_min" "account:1234" hits 10 60000 alg BATCHING 0 ∅ (Some at_ms) 0.

Definition owner : RateLimitReqState := mkReqState true 0.
Definition replica : RateLimitReqState := mkReqState false 0.

(** The state a run ends in. *)
Definition after {St A} (m : M St A) (s : St) : St :=
  match m s with Ret (_, s') => s' | Panic _ => s end.

Lemma after_triple {St A} (P : St -> Prop) (m : M St A) (Q : A -> St -> Prop) (R : St -> Prop) (s : St) :
  triple P m Q -> P s -> (forall a s', Q a s' -> R s') -> R (after m s).
Proof. intros Hm Hs HR. destruct (Hm s Hs) as (a & s' & Hr & HQ). unfold after. rewrite Hr. eauto. Qed.

Lemma iso_start {C S : Type} `{CacheLaws C} `{StoreLaws S} (k : string) (w : World C S) :
  world_ok w -> iso (w_env w) k w.
Proof. intros Hw. split; [done|]. constructor; [|done|done]. intros p it Hp. by exists it. Qed.

(** The heap of an isolated run. *)
Lemma iso_other {C S : Type} `{CacheLaws C} `{StoreLaws S} (h : Env) (k : string) (w : World C S)
    (p : Ptr) (it : CacheItem) :
  iso h k w -> e_heap h !! p = Some it -> it_Key it <> k -> e_heap (w_env w) !! p = Some it.
Proof. intros [_ Hs] Hp Hk. destruct (sb_items _ _ _ Hs p it Hp) as (it' & -> & _ & ->); done. Qed.
