(* ===== verification/TokenBucket.v ===== *)
(** * The token bucket ([algorithms.go])

    [tokenBucket] and [tokenBucketNewItem], statement by statement, over any cache
    and any persistent store.  [fetchItem] is the lookup both algorithms begin
    with. *)

From stdpp Require Import base gmap strings list.
From Stdlib Require Import ZArith Lia.
From S2P Require Import Prelude Float64 Types GoTime Interval LeakyMath Runtime.

Local Open Scope Z_scope.
Local Open Scope go_scope.

Import Gregorian.

Section Algorithm.
Context {C S : Type} `{CacheOps C} `{StoreOps S}.

Abbreviation W := (World C S).

(** The item for the request, from the cache or else from the store, when it is
    sane: it has a value and its own key is the key asked for. *)
Definition fetchItem (r : RateLimitReq) : M W (option Ptr) :=
  let hashKey := HashKey r in
  hit ← onCache (c_GetItem hashKey);
  found ← match hit with
          | Some p => mret (Some p)
          | None =>
              got ← onStore None (s_Get r);
              match got with
              | Some p => onCache (c_Add p);; mret (Some p)
              | None => mret None
              end
          end;
  match found with
  | None => mret None
  | Some p =>
      item ← onEnv (load p);
      match it_Value item with
      | VNil => mret None
      | _ => if String.eqb (it_Key item) hashKey then mret (Some p) else mret None
      end
  end.

(** [if s != nil && reqState.IsOwner { s.OnChange(ctx, r, item) }] *)
Definition notifyStore (r : RateLimitReq) (st : RateLimitReqState) (p : Ptr) : M W unit :=
  if IsOwner st then onStore tt (s_OnChange r p) else mret tt.

(** [if reqState.IsOwner { metricOverLimitCounter.Add(1) }] *)
Definition countOverLimit (st : RateLimitReqState) : M W unit :=
  when (IsOwner st) (onEnv (incr "gubernator_over_limit_counter")).

(** [c.Remove(hashKey)] and, with a store, [s.Remove(ctx, hashKey)]. *)
Definition dropItem (hashKey : string) : M W unit :=
  onCache (c_Remove hashKey);; onStore tt (s_Remove hashKey).

(** [*r.CreatedAt] *)
Definition derefCreatedAt (r : RateLimitReq) : M W Z :=
  match r_CreatedAt r with
  | Some c => mret c
  | None => panic "invalid memory address or nil pointer dereference"
  end.

(** Writing the bucket of an item in place. *)
Definition setToken (p : Ptr) (t : TokenBucketItem) : M W unit :=
  item ← onEnv (load p); onEnv (save p (with_Value (VToken t) item)).

Definition with_tbStatus (s : Status) (t : TokenBucketItem) : TokenBucketItem :=
  mkToken s (tb_Limit t) (tb_Duration t) (tb_Remaining t) (tb_CreatedAt t).
Definition with_tbRemaining (z : Z) (t : TokenBucketItem) : TokenBucketItem :=
  mkToken (tb_Status t) (tb_Limit t) (tb_Duration t) z (tb_CreatedAt t).

(** Called by [tokenBucket] when adding a new item. *)
Definition tokenBucketNewItem (r : RateLimitReq) (st : RateLimitReqState) : M W (result RateLimitResp) :=
  createdAt ← derefCreatedAt r;
  let expire := createdAt +i r_Duration r in
  let t := mkToken UNDER_LIMIT (r_Limit r) (r_Duration r) (r_Limit r -i r_Hits r) createdAt in
  expired ← (if HasBehavior (r_Behavior r) DURATION_IS_GREGORIAN
             then now ← onEnv Now; mret (GregorianExpiration now (r_Duration r))
             else mret (Ok expire));
  match expired with
  | Err e => mret (Err e)
  | Ok expire =>
      let rl := respOf UNDER_LIMIT (r_Limit r) (tb_Remaining t) expire in
      tr ← (if r_Limit r <? r_Hits r
            then countOverLimit st;;
                 mret (with_tbRemaining (r_Limit r) t,
                       with_Remaining (r_Limit r) (with_Status OVER_LIMIT rl))
            else mret (t, rl));
      let '(t, rl) := tr in
      p ← onEnv (alloc (mkItem TOKEN_BUCKET (HashKey r) (VToken t) expire 0));
      onCache (c_Add p);;
      notifyStore r st p;;
      mret (Ok rl)
  end.

(** The last part of [tokenBucket], on the bucket [t] of item [p] and the
    response prepared so far: admit, refuse, or only report. *)
Definition tokenDecide (p : Ptr) (t : TokenBucketItem) (rl : RateLimitResp)
    (r : RateLimitReq) (st : RateLimitReqState) : M W RateLimitResp :=
  if r_Hits r =? 0 then
    if rl_Remaining rl =? 0 then mret (with_Status (tb_Status t) rl)
    else setToken p (with_tbStatus UNDER_LIMIT t);; mret rl
  else if (rl_Remaining rl =? 0) && (0 <? r_Hits r) then
    countOverLimit st;;
    setToken p (with_tbStatus OVER_LIMIT t);;
    mret (with_Status OVER_LIMIT rl)
  else
    let t := with_tbStatus UNDER_LIMIT t in
    setToken p t;;
    if tb_Remaining t =? r_Hits r then
      setToken p (with_tbRemaining 0 t);;
      mret (with_Remaining 0 rl)
    else if tb_Remaining t <? r_Hits r then
      countOverLimit st;;
      let rl := with_Status OVER_LIMIT rl in
      if HasBehavior (r_Behavior r) DRAIN_OVER_LIMIT then
        setToken p (with_tbRemaining 0 t);;
        mret (with_Remaining 0 rl)
      else mret rl
    else
      let remaining := tb_Remaining t -i r_Hits r in
      setToken p (with_tbRemaining remaining t);;
      mret (with_Remaining remaining rl).

(** Lines of [tokenBucket] that adopt a changed limit. *)
Definition adoptLimit (t : TokenBucketItem) (r : RateLimitReq) : TokenBucketItem :=
  if tb_Limit t =? r_Limit r then t
  else
    let remaining := tb_Remaining t +i (r_Limit r -i tb_Limit t) in
    let remaining := if remaining <? 0 then 0 else remaining in
    mkToken (tb_Status t) (r_Limit r) (tb_Duration t) remaining (tb_CreatedAt t).

(** The block that extends or renews the bucket [t] of item [p] when the duration
    of the limit changed. *)
Definition renewed (t : TokenBucketItem) (r : RateLimitReq) (expire createdAt : Z) : Z * TokenBucketItem :=
  let '(expire, t) :=
    if expire <=? createdAt
    then (createdAt +i r_Duration r,
          mkToken (tb_Status t) (tb_Limit t) (tb_Duration t) (tb_Limit t) createdAt)
    else (expire, t) in
  (expire, mkToken (tb_Status t) (tb_Limit t) (r_Duration r) (tb_Remaining t) (tb_CreatedAt t)).

Definition tokenRenew (p : Ptr) (item : CacheItem) (t : TokenBucketItem) (rl : RateLimitResp)
    (r : RateLimitReq) : M W (result (TokenBucketItem * RateLimitResp)) :=
  if tb_Duration t =? r_Duration r then mret (Ok (t, rl))
  else
    expired ← (if HasBehavior (r_Behavior r) DURATION_IS_GREGORIAN
               then now ← onEnv Now; mret (GregorianExpiration now (r_Duration r))
               else mret (Ok (tb_CreatedAt t +i r_Duration r)));
    match expired with
    | Err e => mret (Err e)
    | Ok expire =>
        createdAt ← derefCreatedAt r;
        let '(expire, t) := renewed t r expire createdAt in
        onEnv (save p (with_ExpireAt expire (with_Value (VToken t) item)));;
        mret (Ok (t, with_Remaining (tb_Remaining t) (with_ResetTime expire rl)))
    end.

(** [tokenBucket] from the type assertion on: [t] is the bucket of item [p]. *)
Definition tokenUpdate (p : Ptr) (item : CacheItem) (t : TokenBucketItem)
    (r : RateLimitReq) (st : RateLimitReqState) : M W (result RateLimitResp) :=
  let t := adoptLimit t r in
  setToken p t;;
  let rl := respOf UNDER_LIMIT (r_Limit r) (tb_Remaining t) (it_ExpireAt item) in
  changed ← tokenRenew p item t rl r;
  match changed with
  | Err e => mret (Err e)
  | Ok (t, rl) =>
      rl ← tokenDecide p t rl r st;
      (* deferred *) notifyStore r st p;;
      mret (Ok rl)
  end.

(** Both removals in [tokenBucket] are documented resets: booked debt on a leaky
    item is forgiven and counted. *)
Definition countForgiven (item : CacheItem) : M W unit :=
  match it_Value item with
  | VLeaky lb =>
      now ← onEnv Now;
      when (debtAt lb (epochMillis now)) (onEnv (incr "gubernator_scheduled_debt_reset_count"))
  | _ => mret tt
  end.

Definition tokenBucket (r : RateLimitReq) (st : RateLimitReqState) : M W (result RateLimitResp) :=
  let hashKey := HashKey r in
  found ← fetchItem r;
  match found with
  | None => tokenBucketNewItem r st
  | Some p =>
      item ← onEnv (load p);
      countForgiven item;;
      if HasBehavior (r_Behavior r) RESET_REMAINING then
        dropItem hashKey;;
        mret (Ok (respOf UNDER_LIMIT (r_Limit r) (r_Limit r) 0))
      else
        match it_Value item with
        | VToken t => tokenUpdate p item t r st
        | _ => dropItem hashKey;; tokenBucketNewItem r st
        end
  end.

End Algorithm.

(** ** Running the algorithm *)

Section Run.
Context {C S : Type} `{CacheLaws C} `{StoreLaws S}.

Abbreviation W := (World C S).

(** The clock reading the next call of [clock.Now] will see, in milliseconds. *)
Definition nowMs (e : Env) : Z := epochMillis (mkTime (e_clock e (e_tick e)) (e_loc e)).

(** The world in which item [p], holding [it], is cached under [k]. *)
Definition cached (w : W) (k : string) (p : Ptr) (it : CacheItem) : Prop :=
  c_view (w_cache w) !! k = Some p /\ e_heap (w_env w) !! p = Some it.

Lemma cached_key (w : W) (k : string) (p : Ptr) (it : CacheItem) :
  world_ok w -> cached w k p it -> it_Key it = k.
Proof.
  intros Hw [Hv Hp]. destruct (c_wf_item _ _ _ _ (wo_cache w Hw) Hv) as (it' & ? & ?). congruence.
Qed.

(** A live item is found in the cache; only the clock advances. *)
Lemma fetchItem_live (w : W) (r : RateLimitReq) (p : Ptr) (it : CacheItem) :
  world_ok w -> cached w (HashKey r) p it -> expiredAt it (nowMs (w_env w)) = false ->
  it_Value it <> VNil ->
  exists w', fetchItem r w = Ret (Some p, w') /\ world_ok w' /\ cached w' (HashKey r) p it /\
    env_quiet (w_env w) (w_env w') /\ e_tick (w_env w') = Datatypes.S (e_tick (w_env w)) /\
    c_view (w_cache w') = c_view (w_cache w) /\ w_store w' = w_store w.
Proof.
  intros Hw Hc Hx Hnil. pose proof Hc as [Hv Hp].
  destruct (c_GetItem_ok (w_env w) (w_cache w) (HashKey r) (wo_cache w Hw))
    as (res & e' & c' & Hget & Hq & Hwf & Hres).
  rewrite Hv in Hres. destruct Hres as (it' & Hp' & Ht & Hres). simplify_eq.
  unfold nowMs in Hx. rewrite Hx in Hres. destruct Hres as [-> Hview].
  set (w' := mkWorld e' c' (w_store w)).
  assert (e_heap e' !! p = Some it) as Hp2 by (by rewrite (eq_heap _ _ Hq)).
  assert (world_ok w') as Hw'.
  { constructor; simpl; [by eapply env_quiet_ok, wo_env|done|].
    eapply store_wf_env; [apply Hw|auto with env]. }
  exists w'. split; [|split; [done|split; [split; simpl; [by rewrite Hview|done]|done]]].
  unfold fetchItem. rewrite (bind_ret_run _ _ _ w' (Some p)) by (by apply onCache_run).
  rewrite (bind_ret_run _ _ _ w' (Some p)) by reflexivity.
  rewrite (bind_ret_run _ _ _ w' it) by (by apply load_run).
  rewrite (cached_key w (HashKey r) p it), String.eqb_refl by done.
  by destruct (it_Value it).
Qed.

(** Writing the bucket of an item. *)
Lemma setToken_run (w : W) (p : Ptr) (it : CacheItem) (t : TokenBucketItem) :
  e_heap (w_env w) !! p = Some it ->
  setToken p t w =
  Ret (tt, mkWorld (with_heap (<[p := with_Value (VToken t) it]> (e_heap (w_env w))) (w_env w))
             (w_cache w) (w_store w)).
Proof.
  intros Hp. unfold setToken. rewrite (bind_ret_run _ _ _ w it) by (by apply load_run). reflexivity.
Qed.

Lemma countOverLimit_run (st : RateLimitReqState) (w : W) :
  exists e', countOverLimit st w = Ret (tt, mkWorld e' (w_cache w) (w_store w)) /\
    env_quiet (w_env w) e' /\ e_tick e' = e_tick (w_env w).
Proof.
  unfold countOverLimit. destruct (IsOwner st); simpl.
  - eexists. split; [by apply onEnv_run|]. split; [apply counters_quiet|done].
  - exists (w_env w). split; [by destruct w|done].
Qed.

(** ** The decision as a function

    The bucket and the response [tokenDecide] leaves, without the heap. *)
Definition decide_token (t : TokenBucketItem) (rl : RateLimitResp) (r : RateLimitReq)
    : TokenBucketItem * RateLimitResp :=
  if r_Hits r =? 0 then
    if rl_Remaining rl =? 0 then (t, with_Status (tb_Status t) rl)
    else (with_tbStatus UNDER_LIMIT t, rl)
  else if (rl_Remaining rl =? 0) && (0 <? r_Hits r) then
    (with_tbStatus OVER_LIMIT t, with_Status OVER_LIMIT rl)
  else if tb_Remaining t =? r_Hits r then
    (with_tbRemaining 0 (with_tbStatus UNDER_LIMIT t), with_Remaining 0 rl)
  else if tb_Remaining t <? r_Hits r then
    if HasBehavior (r_Behavior r) DRAIN_OVER_LIMIT
    then (with_tbRemaining 0 (with_tbStatus UNDER_LIMIT t), with_Remaining 0 (with_Status OVER_LIMIT rl))
    else (with_tbStatus UNDER_LIMIT t, with_Status OVER_LIMIT rl)
  else
    let remaining := tb_Remaining t -i r_Hits r in
    (with_tbRemaining remaining (with_tbStatus UNDER_LIMIT t), with_Remaining remaining rl).

(** The world after writing bucket [t] into item [p]. *)
Definition wrote (w : W) (p : Ptr) (it : CacheItem) (w' : W) : Prop :=
  env_quiet (with_heap (<[p := it]> (e_heap (w_env w))) (w_env w)) (w_env w') /\
  w_cache w' = w_cache w /\ w_store w' = w_store w.

Lemma wrote_heap (w w' : W) (p : Ptr) (it : CacheItem) : wrote w p it w' ->
  e_heap (w_env w') = <[p := it]> (e_heap (w_env w)).
Proof. intros (Hq & _). by rewrite (eq_heap _ _ Hq). Qed.

Lemma wrote_set (w : W) (p : Ptr) (it : CacheItem) :
  wrote w p it (mkWorld (with_heap (<[p := it]> (e_heap (w_env w))) (w_env w)) (w_cache w) (w_store w)).
Proof. done. Qed.

Lemma wrote_same (w : W) (p : Ptr) (it : CacheItem) (e' : Env) : e_heap (w_env w) !! p = Some it ->
  env_quiet (w_env w) e' -> wrote w p it (mkWorld e' (w_cache w) (w_store w)).
Proof.
  intros Hp [? ? ? ? ?]. split; [|done]. constructor; simpl; try done. by rewrite insert_id.
Qed.

Lemma wrote_trans (w w1 w2 : W) (p : Ptr) (it1 it2 : CacheItem) :
  wrote w p it1 w1 -> wrote w1 p it2 w2 -> wrote w p it2 w2.
Proof.
  intros (Hq1 & Hc1 & Hs1) (Hq2 & Hc2 & Hs2). split; [|split; congruence].
  destruct Hq1 as [Hh1 Hn1 Hk1 Hl1 Ht1], Hq2 as [Hh2 Hn2 Hk2 Hl2 Ht2]. simpl in *.
  constructor; simpl; try congruence; [|lia]. by rewrite Hh2, Hh1, insert_insert_eq.
Qed.

Lemma wrote_ok (w w' : W) (p : Ptr) (it it' : CacheItem) : world_ok w ->
  e_heap (w_env w) !! p = Some it -> it_Key it' = it_Key it -> wrote w p it' w' -> world_ok w'.
Proof.
  intros Hw Hp Hk (Hq & Hc & Hs). destruct w' as [e' c' s']. simpl in *. subst.
  assert (env_ok (with_heap (<[p := it']> (e_heap (w_env w))) (w_env w))) as He
    by (apply env_ok_save; [apply Hw|by eexists]).
  apply (world_ok_env w); [done|by eapply env_quiet_ok|].
  intros q iq Hq'. destruct (save_keys _ p it it' Hp Hk q iq Hq') as (i2 & Hi2 & Hk2).
  exists i2. by rewrite (eq_heap _ _ Hq).
Qed.

(** [tokenDecide] computes [decide_token] on the bucket in place. *)
Lemma tokenDecide_run (w : W) (p : Ptr) (it : CacheItem) (t : TokenBucketItem)
    (rl : RateLimitResp) (r : RateLimitReq) (st : RateLimitReqState) :
  e_heap (w_env w) !! p = Some it -> it_Value it = VToken t ->
  exists w', tokenDecide p t rl r st w = Ret (snd (decide_token t rl r), w') /\
    wrote w p (with_Value (VToken (fst (decide_token t rl r))) it) w'.
Proof.
  intros Hp Ht. assert (with_Value (VToken t) it = it) as Hsame by (destruct it; simpl in *; by subst).
  unfold tokenDecide, decide_token.
  destruct (r_Hits r =? 0).
  { destruct (rl_Remaining rl =? 0); simpl.
    - exists w. split; [done|]. rewrite Hsame. destruct w. by apply (wrote_same (mkWorld _ _ _)).
    - erewrite (bind_ret_run _ _ _ _ tt) by (by apply setToken_run). eexists. split; [done|]. apply wrote_set. }
  destruct ((rl_Remaining rl =? 0) && (0 <? r_Hits r)).
  { destruct (countOverLimit_run st w) as (e1 & Hr1 & Hq1 & Ht1).
    rewrite (bind_ret_run _ _ _ _ _ Hr1).
    erewrite (bind_ret_run _ _ _ _ tt) by (apply (setToken_run (mkWorld e1 _ _)); simpl; by rewrite (eq_heap _ _ Hq1)).
    eexists. split; [done|]. eapply wrote_trans; [by eapply wrote_same|apply wrote_set]. }
  cbn zeta. rewrite (bind_ret_run _ _ _ _ _ (setToken_run w p it _ Hp)).
  set (w1 := mkWorld (with_heap _ _) (w_cache w) (w_store w)).
  set (t1 := with_tbStatus UNDER_LIMIT t). set (it1 := with_Value (VToken t1) it).
  assert (wrote w p it1 w1) as Hw1 by apply wrote_set.
  assert (e_heap (w_env w1) !! p = Some it1) as Hp1 by apply lookup_insert_eq.
  change (tb_Remaining t1) with (tb_Remaining t).
  destruct (tb_Remaining t =? r_Hits r).
  { rewrite (bind_ret_run _ _ _ _ _ (setToken_run w1 p it1 _ Hp1)). eexists. split; [done|].
    eapply wrote_trans; [exact Hw1|apply (wrote_set w1)]. }
  destruct (tb_Remaining t <? r_Hits r).
  { destruct (countOverLimit_run st w1) as (e2 & Hr2 & Hq2 & Ht2).
    rewrite (bind_ret_run _ _ _ _ _ Hr2).
    assert (wrote w1 p it1 (mkWorld e2 (w_cache w1) (w_store w1))) as Hw2 by (by apply wrote_same).
    destruct (HasBehavior (r_Behavior r) DRAIN_OVER_LIMIT).
    - erewrite (bind_ret_run _ _ _ _ tt)
        by (apply (setToken_run (mkWorld e2 _ _) p it1); simpl; by rewrite (eq_heap _ _ Hq2)).
      eexists. split; [done|]. eapply wrote_trans; [exact Hw1|].
      eapply wrote_trans; [exact Hw2|apply wrote_set].
    - eexists. split; [done|]. by eapply wrote_trans. }
  rewrite (bind_ret_run _ _ _ _ _ (setToken_run w1 p it1 _ Hp1)). eexists. split; [done|].
  eapply wrote_trans; [exact Hw1|apply (wrote_set w1)].
Qed.

(** The rest of [tokenBucket] on a live bucket, as a function: the item it leaves
    in the cache, and what it returns. [now] is the reading a Gregorian duration
    would be computed from. *)
Definition tokenResp (it : CacheItem) (t : TokenBucketItem) (r : RateLimitReq) : RateLimitResp :=
  respOf UNDER_LIMIT (r_Limit r) (tb_Remaining t) (it_ExpireAt it).

Definition newExpiry (t : TokenBucketItem) (r : RateLimitReq) (now : Time) : result Z :=
  if HasBehavior (r_Behavior r) DURATION_IS_GREGORIAN then GregorianExpiration now (r_Duration r)
  else Ok (tb_CreatedAt t +i r_Duration r).

Definition decided (it : CacheItem) (t : TokenBucketItem) (r : RateLimitReq)
    : CacheItem * result RateLimitResp :=
  let d := decide_token t (tokenResp it t r) r in
  (with_Value (VToken (fst d)) it, Ok (snd d)).

(** The renewal block, as a function of the item. *)
Definition token_renew (it : CacheItem) (t : TokenBucketItem) (r : RateLimitReq) (now : Time)
    (createdAt : Z) : result (Z * TokenBucketItem) :=
  if tb_Duration t =? r_Duration r then Ok (it_ExpireAt it, t)
  else match newExpiry t r now with
       | Err e => Err e
       | Ok expire => Ok (renewed t r expire createdAt)
       end.

Definition token_update (it : CacheItem) (t : TokenBucketItem) (r : RateLimitReq)
    (now : Time) (createdAt : Z) : CacheItem * result RateLimitResp :=
  let t := adoptLimit t r in
  match token_renew it t r now createdAt with
  | Err e => (with_Value (VToken t) it, Err e)
  | Ok (expire, t) => decided (with_ExpireAt expire it) t r
  end.

(** What a handler leaves behind: item [p] rewritten to [it], nothing else changed
    but the clock, the counters and items newly allocated by the store. *)
Record touched (w : W) (p : Ptr) (it : CacheItem) (w' : W) : Prop := {
  tc_ok : world_ok w';
  tc_view : c_view (w_cache w') = c_view (w_cache w);
  tc_env : env_grow (with_heap (<[p := it]> (e_heap (w_env w))) (w_env w)) (w_env w')
}.

Lemma touched_cached (w w' : W) (k : string) (p : Ptr) (it it' : CacheItem) :
  cached w k p it -> touched w p it' w' -> cached w' k p it'.
Proof.
  intros [Hv _] [_ Hview He]. split; [by rewrite Hview|].
  eapply lookup_weaken; [|apply (eg_heap _ _ He)]. apply lookup_insert_eq.
Qed.

Lemma notifyStore_run (w : W) (r : RateLimitReq) (st : RateLimitReqState) (p : Ptr) :
  world_ok w -> is_Some (e_heap (w_env w) !! p) ->
  exists e' s', notifyStore r st p w = Ret (tt, mkWorld e' (w_cache w) s') /\
    env_grow (w_env w) e' /\ world_ok (mkWorld e' (w_cache w) s').
Proof.
  intros Hw Hp. unfold notifyStore. destruct (IsOwner st).
  - destruct (onStore_run tt (s_OnChange r p) w Hw) as ([] & e' & s' & Hr & Hg & Hok); [|eauto].
    intros s Hs. exists tt. apply s_OnChange_ok; [apply Hw|done|done].
  - exists (w_env w), (w_store w). destruct w. by split.
Qed.

(** Decision and deferred notification of the store. *)
Lemma decide_notify_run (w : W) (p : Ptr) (it : CacheItem) (t : TokenBucketItem)
    (rl : RateLimitResp) (r : RateLimitReq) (st : RateLimitReqState) :
  world_ok w -> e_heap (w_env w) !! p = Some it -> it_Value it = VToken t ->
  let d := decide_token t rl r in
  exists w', (rl ← tokenDecide p t rl r st; notifyStore r st p;; mret (Ok rl)) w = Ret (Ok (snd d), w') /\
    touched w p (with_Value (VToken (fst d)) it) w'.
Proof.
  intros Hw Hp Ht d.
  destruct (tokenDecide_run w p it t rl r st Hp Ht) as (w1 & Hrun & Hwr). fold d in Hrun, Hwr.
  rewrite (bind_ret_run _ _ _ _ _ Hrun).
  assert (world_ok w1) as Hw1 by (by apply (wrote_ok w w1 p it (with_Value _ it) Hw Hp eq_refl Hwr)).
  pose proof (wrote_heap _ _ _ _ Hwr) as Hh.
  destruct (notifyStore_run w1 r st p Hw1) as (e2 & s2 & Hn & Hg & Hok);
    [rewrite Hh, lookup_insert_eq; eauto|].
  rewrite (bind_ret_run _ _ _ _ _ Hn). eexists. split; [done|].
  destruct Hwr as (Hq & Hc & _). constructor; simpl; [done|by rewrite Hc|].
  etransitivity; [apply env_quiet_grow, Hq|done].
Qed.

(** Touching an item that was just rewritten in place. *)
Lemma wrote_touched (w w1 w' : W) (p : Ptr) (it1 it2 : CacheItem) :
  wrote w p it1 w1 -> touched w1 p it2 w' -> touched w p it2 w'.
Proof.
  intros Hwr [Hok Hv Hg]. pose proof (wrote_heap _ _ _ _ Hwr) as Hh. destruct Hwr as (Hq & Hc & _).
  constructor; [done|by rewrite Hv, Hc|]. destruct Hg as [Hg ? ? ? ?], Hq. simpl in *.
  rewrite Hh, insert_insert_eq in Hg. constructor; simpl; congruence || lia || done.
Qed.

Lemma wrote_touched_end (w w' : W) (p : Ptr) (it : CacheItem) :
  world_ok w' -> wrote w p it w' -> touched w p it w'.
Proof.
  intros Hok (Hq & Hc & _). constructor; [done|by rewrite Hc|auto with env].
Qed.

Lemma tokenRenew_run (w : W) (p : Ptr) (it : CacheItem) (t : TokenBucketItem)
    (r : RateLimitReq) (createdAt : Z) :
  e_heap (w_env w) !! p = Some (with_Value (VToken t) it) -> r_CreatedAt r = Some createdAt ->
  let now := mkTime (e_clock (w_env w) (e_tick (w_env w))) (e_loc (w_env w)) in
  exists w', tokenRenew p it t (tokenResp it t r) r w =
      Ret (match token_renew it t r now createdAt with
           | Err e => Err e
           | Ok (expire, t') => Ok (t', tokenResp (with_ExpireAt expire it) t' r)
           end, w') /\
    wrote w p (match token_renew it t r now createdAt with
               | Err e => with_Value (VToken t) it
               | Ok (expire, t') => with_ExpireAt expire (with_Value (VToken t') it)
               end) w'.
Proof.
  intros Hp Hcr now. unfold tokenRenew, token_renew.
  destruct (tb_Duration t =? r_Duration r).
  { exists w. split; [by destruct it|]. destruct w, it. by apply (wrote_same (mkWorld _ _ _)). }
  assert (exists e2, (if HasBehavior (r_Behavior r) DURATION_IS_GREGORIAN
      then now ← onEnv Now; mret (GregorianExpiration now (r_Duration r))
      else mret (Ok (tb_CreatedAt t +i r_Duration r))) w
    = Ret (newExpiry t r now, mkWorld e2 (w_cache w) (w_store w)) /\ env_quiet (w_env w) e2)
    as (e2 & Hne & Hq2).
  { unfold newExpiry. destruct w, (HasBehavior _ DURATION_IS_GREGORIAN); eexists;
      (split; [done|auto with env]). }
  rewrite (bind_ret_run _ _ _ _ _ Hne).
  set (w2 := mkWorld e2 _ _). assert (wrote w p (with_Value (VToken t) it) w2) as Hw2 by (by apply wrote_same).
  destruct (newExpiry t r now) as [expire|e]; [|by exists w2].
  rewrite (bind_ret_run _ _ _ w2 createdAt) by (unfold derefCreatedAt; by rewrite Hcr).
  destruct (renewed t r expire createdAt) as [expire' t2].
  rewrite (bind_ret_run _ _ _ (mkWorld (with_heap (<[p := with_ExpireAt expire' (with_Value (VToken t2) it)]>
    (e_heap (w_env w2))) (w_env w2)) (w_cache w2) (w_store w2)) tt) by done.
  eexists. split; [done|]. eapply wrote_trans; [exact Hw2|apply wrote_set].
Qed.

(** [tokenBucket] from the type assertion on computes [token_update]. *)
Lemma tokenUpdate_run (w : W) (p : Ptr) (it : CacheItem) (t : TokenBucketItem)
    (r : RateLimitReq) (st : RateLimitReqState) (createdAt : Z) :
  world_ok w -> e_heap (w_env w) !! p = Some it -> r_CreatedAt r = Some createdAt ->
  let u := token_update it t r (mkTime (e_clock (w_env w) (e_tick (w_env w))) (e_loc (w_env w))) createdAt in
  exists w', tokenUpdate p it t r st w = Ret (snd u, w') /\ touched w p (fst u) w'.
Proof.
  intros Hw Hp Hcr u. subst u. unfold tokenUpdate, token_update.
  rewrite (bind_ret_run _ _ _ _ _ (setToken_run w p it _ Hp)).
  set (t1 := adoptLimit t r). set (it1 := with_Value (VToken t1) it).
  set (w1 := mkWorld (with_heap _ _) (w_cache w) (w_store w)). set (now := mkTime _ _).
  assert (wrote w p it1 w1) as Hwr by apply wrote_set.
  destruct (tokenRenew_run w1 p it t1 r createdAt) as (w2 & Hr2 & Hwr2); [apply lookup_insert_eq|done|].
  change (mkTime (e_clock (w_env w1) _) _) with now in Hr2, Hwr2.
  rewrite (bind_ret_run _ _ _ _ _ Hr2). pose proof (wrote_trans _ _ _ _ _ _ Hwr Hwr2) as Hwr3.
  destruct (token_renew it t1 r now createdAt) as [[expire t2]|e]; simpl.
  - set (it2 := with_ExpireAt expire (with_Value (VToken t2) it)) in *.
    assert (world_ok w2) as Hw2 by (by apply (wrote_ok w w2 p it it2 Hw Hp eq_refl Hwr3)).
    destruct (decide_notify_run w2 p it2 t2 (tokenResp (with_ExpireAt expire it) t2 r) r st Hw2)
      as (w' & Hr & Ht); [by rewrite (wrote_heap _ _ _ _ Hwr3), lookup_insert_eq|done|].
    exists w'. split; [exact Hr|]. by eapply wrote_touched.
  - exists w2. split; [done|]. apply wrote_touched_end; [|done].
    by apply (wrote_ok w w2 p it it1 Hw Hp eq_refl Hwr3).
Qed.

(** ** Handlers on whole worlds *)

(** The readings of the clock a handler will take. *)
Definition reading (n : nat) (e : Env) : Time := mkTime (e_clock e (n + e_tick e)) (e_loc e).

Lemma quiet_touched (w w1 w' : W) (p : Ptr) (it : CacheItem) :
  env_quiet (w_env w) (w_env w1) -> c_view (w_cache w1) = c_view (w_cache w) ->
  touched w1 p it w' -> touched w p it w'.
Proof.
  intros [Hh ? ? ? ?] Hv [Hok Hv' Hg]. constructor; [done|by rewrite Hv'|].
  destruct Hg as [Hg ? ? ? ?]. simpl in *. rewrite Hh in Hg. constructor; simpl; congruence || lia || done.
Qed.

Lemma tokenBucket_live (w : W) (r : RateLimitReq) (st : RateLimitReqState) (p : Ptr)
    (it : CacheItem) (t : TokenBucketItem) (createdAt : Z) :
  world_ok w -> cached w (HashKey r) p it -> expiredAt it (nowMs (w_env w)) = false ->
  it_Value it = VToken t -> r_CreatedAt r = Some createdAt ->
  HasBehavior (r_Behavior r) RESET_REMAINING = false ->
  let u := token_update it t r (reading 1 (w_env w)) createdAt in
  exists w', tokenBucket r st w = Ret (snd u, w') /\ touched w p (fst u) w'.
Proof.
  intros Hw Hc Hx Ht Hcr Hreset u.
  destruct (fetchItem_live w r p it Hw Hc Hx) as (w1 & Hf & Hw1 & [Hv1 Hp1] & Hq & Htick & Hview & Hs);
    [by rewrite Ht|].
  unfold tokenBucket. rewrite (bind_ret_run _ _ _ _ _ Hf), (bind_ret_run _ _ _ w1 it) by (by apply load_run).
  unfold countForgiven. rewrite Ht, Hreset, (bind_ret_run _ _ _ w1 tt) by done.
  destruct (tokenUpdate_run w1 p it t r st createdAt Hw1 Hp1 Hcr) as (w' & Hr & Htc).
  rewrite Htick, (eq_clock _ _ Hq), (eq_loc _ _ Hq) in Hr, Htc.
  exists w'. split; [exact Hr|]. by eapply quiet_touched.
Qed.

(** The item a new bucket starts as, and the response to the request that made it. *)
Definition token_new (r : RateLimitReq) (now : Time) (createdAt : Z) : result (CacheItem * RateLimitResp) :=
  let over := r_Limit r <? r_Hits r in
  let t := mkToken UNDER_LIMIT (r_Limit r) (r_Duration r)
             (if over then r_Limit r else r_Limit r -i r_Hits r) createdAt in
  match newExpiry t r now with
  | Err e => Err e
  | Ok expire =>
      Ok (mkItem TOKEN_BUCKET (HashKey r) (VToken t) expire 0,
          respOf (if over then OVER_LIMIT else UNDER_LIMIT) (r_Limit r) (tb_Remaining t) expire)
  end.

(** A handler that created item [p]: it is cached under its key, other keys keep
    their item or lost it to eviction, and no existing item changed. *)
Record created (w : W) (p : Ptr) (it : CacheItem) (w' : W) : Prop := {
  cr_ok : world_ok w';
  cr_cached : cached w' (it_Key it) p it;
  cr_fresh : e_heap (w_env w) !! p = None;
  cr_others : forall k, k <> it_Key it ->
    c_view (w_cache w') !! k = c_view (w_cache w) !! k \/ c_view (w_cache w') !! k = None;
  cr_env : env_grow (w_env w) (w_env w')
}.

(** Allocating an item, caching it and telling the store. *)
Lemma create_run (w : W) (it : CacheItem) (r : RateLimitReq) (st : RateLimitReqState)
    (rl : RateLimitResp) : world_ok w ->
  exists p w', (p ← onEnv (alloc it); onCache (c_Add p);; notifyStore r st p;;
                mret (Ok rl : result RateLimitResp)) w = Ret (Ok rl, w') /\ created w p it w'.
Proof.
  intros Hw. set (p := e_next (w_env w)). assert (e_heap (w_env w) !! p = None) as Hfree by (by apply Hw).
  set (e1 := mkEnv (<[p := it]> (e_heap (w_env w))) (Datatypes.S p) (e_clock (w_env w)) (e_tick (w_env w))
               (e_loc (w_env w)) (e_counters (w_env w)) (e_lost (w_env w))).
  assert (env_grow (w_env w) e1) as Hg1 by (constructor; simpl; try done; [by apply insert_subseteq|lia]).
  assert (world_ok (mkWorld e1 (w_cache w) (w_store w))) as [He1 Hc1 Hs1].
  { apply world_ok_env; [done| |auto with env]. intros q Hq. simpl in *.
    rewrite lookup_insert_ne by lia. apply Hw. unfold p in Hq. lia. }
  destruct (c_Add_ok e1 (w_cache w) p it Hc1) as (b & e2 & c2 & Hadd & Hq2 & Hwf2 & Hv2 & Hot & _);
    [apply lookup_insert_eq|].
  set (w2 := mkWorld e2 c2 (w_store w)).
  assert (world_ok w2) as Hw2
    by (constructor; simpl; [by apply (env_quiet_ok e1)|done|eapply store_wf_env; [exact Hs1|simpl; auto with env]]).
  assert (e_heap e2 !! p = Some it) as Hp2 by (rewrite (eq_heap _ _ Hq2); apply lookup_insert_eq).
  destruct (notifyStore_run w2 r st p Hw2) as (e3 & s3 & Hn & Hg3 & Hw3); [by eexists|].
  exists p, (mkWorld e3 c2 s3). split.
  - rewrite (bind_ret_run _ _ _ (mkWorld e1 (w_cache w) (w_store w)) p) by done.
    rewrite (bind_ret_run _ _ _ w2 b) by (by apply (onCache_run _ (mkWorld e1 _ _))).
    by rewrite (bind_ret_run _ _ _ _ _ Hn).
  - constructor; simpl; [done| |done|done|].
    + split; [done|]. eapply lookup_weaken; [exact Hp2|apply Hg3].
    + etransitivity; [done|]. etransitivity; [apply env_quiet_grow; exact Hq2|done].
Qed.

(** Creating after the clock moved. *)
Lemma quiet_created (w w1 w' : W) (p : Ptr) (it : CacheItem) :
  env_grow (w_env w) (w_env w1) ->
  (forall k, k <> it_Key it ->
    c_view (w_cache w1) !! k = c_view (w_cache w) !! k \/ c_view (w_cache w1) !! k = None) ->
  created w1 p it w' -> created w p it w'.
Proof.
  intros Hg Hv [Hok Hca Hfr Hot Hg']. constructor; [done|done| | |by etransitivity].
  - destruct (e_heap (w_env w) !! p) eqn:E; [|done].
    rewrite (lookup_weaken _ _ _ _ E (eg_heap _ _ Hg)) in Hfr. done.
  - intros k Hk. destruct (Hot k Hk) as [->| ->]; [by apply Hv|by right].
Qed.

Lemma tokenBucketNewItem_run (w : W) (r : RateLimitReq) (st : RateLimitReqState) (createdAt : Z) :
  world_ok w -> r_CreatedAt r = Some createdAt ->
  match token_new r (reading 0 (w_env w)) createdAt with
  | Err e => exists e', tokenBucketNewItem r st w = Ret (Err e, mkWorld e' (w_cache w) (w_store w)) /\
               env_quiet (w_env w) e'
  | Ok (it, rl) => exists p w', tokenBucketNewItem r st w = Ret (Ok rl, w') /\ created w p it w'
  end.
Proof.
  intros Hw Hcr. unfold tokenBucketNewItem, token_new.
  rewrite (bind_ret_run _ _ _ w createdAt) by (unfold derefCreatedAt; by rewrite Hcr).
  set (t := mkToken UNDER_LIMIT (r_Limit r) (r_Duration r) (r_Limit r -i r_Hits r) createdAt).
  assert (exists e1, (if HasBehavior (r_Behavior r) DURATION_IS_GREGORIAN
      then now ← onEnv Now; mret (GregorianExpiration now (r_Duration r))
      else mret (Ok (createdAt +i r_Duration r))) w
    = Ret (newExpiry t r (reading 0 (w_env w)), mkWorld e1 (w_cache w) (w_store w)) /\
      env_quiet (w_env w) e1) as (e1 & Hne & Hq1).
  { unfold newExpiry. destruct w, (HasBehavior _ DURATION_IS_GREGORIAN); eexists;
      (split; [done|auto with env]). }
  rewrite (bind_ret_run _ _ _ _ _ Hne).
  match goal with |- context [newExpiry ?x r _] =>
    replace (newExpiry x r) with (newExpiry t r) by done end.
  destruct (newExpiry t r (reading 0 (w_env w))) as [expire|e]; [|by exists e1].
  set (w1 := mkWorld e1 _ _) in *. assert (world_ok w1) as Hw1 by (by apply world_ok_quiet).
  destruct (r_Limit r <? r_Hits r).
  - destruct (countOverLimit_run st w1) as (e2 & Hr2 & Hq2 & _).
    rewrite bind_assoc, (bind_ret_run _ _ _ _ _ Hr2), (bind_ret_run _ _ _ _ _ (mret_run _ _)).
    destruct (create_run (mkWorld e2 (w_cache w1) (w_store w1))
      (mkItem TOKEN_BUCKET (HashKey r) (VToken (with_tbRemaining (r_Limit r) t)) expire 0) r st
      (respOf OVER_LIMIT (r_Limit r) (r_Limit r) expire)) as (p & w' & Hrun & Hcr'); [by apply world_ok_quiet|].
    exists p, w'. split; [exact Hrun|]. refine (quiet_created w _ w' p _ _ _ Hcr'); [|by left].
    apply env_quiet_grow. by etransitivity.
  - rewrite (bind_ret_run _ _ _ _ _ (mret_run _ _)).
    destruct (create_run w1 (mkItem TOKEN_BUCKET (HashKey r) (VToken t) expire 0) r st
      (respOf UNDER_LIMIT (r_Limit r) (tb_Remaining t) expire) Hw1) as (p & w' & Hrun & Hcr').
    exists p, w'. split; [exact Hrun|]. refine (quiet_created w _ w' p _ _ _ Hcr'); [|by left]. by apply env_quiet_grow.
Qed.

(** No item is cached for the key, or the one that is has expired. *)
Definition absent (w : W) (k : string) : Prop :=
  match c_view (w_cache w) !! k with
  | None => True
  | Some p => exists it, e_heap (w_env w) !! p = Some it /\ expiredAt it (nowMs (w_env w)) = true
  end.

(** Without a store, the lookup of an absent key finds nothing and forgets the
    expired item; it takes one reading of the clock when there was one. *)
Lemma fetchItem_absent (w : W) (r : RateLimitReq) :
  world_ok w -> absent w (HashKey r) -> w_store w = None ->
  exists w', fetchItem r w = Ret (None, w') /\ world_ok w' /\ env_quiet (w_env w) (w_env w') /\
    c_view (w_cache w') = delete (HashKey r) (c_view (w_cache w)) /\ w_store w' = None.
Proof.
  intros Hw Ha Hs.
  destruct (c_GetItem_ok (w_env w) (w_cache w) (HashKey r) (wo_cache w Hw))
    as (res & e' & c' & Hget & Hq & Hwf & Hres).
  assert (res = None /\ c_view c' = delete (HashKey r) (c_view (w_cache w))) as [-> Hv].
  { unfold absent in Ha. destruct (c_view (w_cache w) !! HashKey r) as [p|] eqn:E.
    - destruct Ha as (it & Hp & Hx), Hres as (it' & Hp' & _ & Hres). simplify_eq.
      unfold nowMs in Hx. by rewrite Hx in Hres.
    - destruct Hres as (-> & -> & _). split; [done|]. by rewrite delete_id. }
  destruct (cache_call_step _ w _ _ _ Hw Hget Hq Hwf) as (Hrun & Hok & _).
  exists (mkWorld e' c' (w_store w)). split; [|done].
  unfold fetchItem. rewrite (bind_ret_run _ _ _ _ _ Hrun).
  rewrite (bind_ret_run _ _ _ (mkWorld e' c' (w_store w)) None); [done|].
  rewrite (bind_ret_run _ _ _ (mkWorld e' c' (w_store w)) None); [done|]. unfold onStore. simpl. by rewrite Hs.
Qed.

(** [c.Remove] and [s.Remove]. *)
Lemma dropItem_run (w : W) (k : string) : world_ok w ->
  exists w', dropItem k w = Ret (tt, w') /\ world_ok w' /\ env_grow (w_env w) (w_env w') /\
    c_view (w_cache w') = delete k (c_view (w_cache w)).
Proof.
  intros Hw. destruct (c_Remove_ok (w_env w) (w_cache w) k (wo_cache _ Hw)) as (c1 & Hr & Hwf & Hv).
  destruct (cache_call_step _ w _ _ _ Hw Hr (env_quiet_refl _) Hwf) as (Hrun & Hok & _).
  destruct (onStore_run tt (s_Remove k) _ Hok) as ([] & e2 & s2 & Hr2 & Hg & Hok2).
  { intros s Hs. exists tt. apply s_Remove_ok; [apply Hw|done]. }
  eexists. unfold dropItem. rewrite (bind_ret_run _ _ _ _ _ Hrun). by split.
Qed.

Lemma countForgiven_run (w : W) (it : CacheItem) :
  exists e', countForgiven it w = Ret (tt, mkWorld e' (w_cache w) (w_store w)) /\ env_quiet (w_env w) e'.
Proof.
  unfold countForgiven. destruct (it_Value it) as [| |lb|]; try (exists (w_env w); by destruct w).
  set (e1 := with_tick (Datatypes.S (e_tick (w_env w))) (w_env w)).
  rewrite (bind_ret_run _ _ _ (mkWorld e1 (w_cache w) (w_store w)) (reading 0 (w_env w))) by done.
  unfold when. destruct (debtAt lb _); eexists; (split; [done|]); simpl; [|auto with env].
  etransitivity; [apply Now_quiet|apply counters_quiet].
Qed.

(** ** Isolation

    [tokenBucket] never panics on a request with a creation time, and changes no
    item of another key. *)

Lemma fetchItem_iso (h : Env) (r : RateLimitReq) :
  triple (iso h (HashKey r)) (fetchItem r : M W _)
    (fun o => match o with Some p => owned h (HashKey r) p | None => iso h (HashKey r) end).
Proof.
  unfold fetchItem.
  apply (triple_bind _ _ _ _ _ (GetItem_iso h (HashKey r))). intros hit.
  apply (triple_bind _ _ _ (fun o => match o with Some p => valid h (HashKey r) p | None => iso h (HashKey r) end)).
  - destruct hit as [p|]; [apply triple_ret; intros w Hw; by apply owned_valid|].
    apply (triple_bind _ _ _ _ _ (sGet_iso h (HashKey r) r)). intros [p|]; triple_auto; done.
  - intros [p|]; [|triple_auto; done].
    apply (triple_bind _ _ _ (fun it w => valid h (HashKey r) p w /\ e_heap (w_env w) !! p = Some it)).
    + intros w Hv. pose proof Hv as [_ [it Hp]]. exists it, w. split; [by apply load_run|done].
    + intros it. destruct (String.eqb_spec (it_Key it) (HashKey r)) as [Hk|_].
      * destruct (it_Value it); apply triple_ret; intros w [[Hi _] Hp]; [done|..]; (split; [done|by exists it]).
      * destruct (it_Value it); apply triple_ret; intros w [[Hi _] _]; done.
Qed.

Section Iso.
Variables (h : Env) (k : string).

Lemma notifyStore_owned (r : RateLimitReq) (st : RateLimitReqState) (p : Ptr) :
  triple (owned h k p) (notifyStore r st p : M W _) (fun _ => owned h k p).
Proof. unfold notifyStore. triple_step; [auto with triple|]. by apply triple_ret. Qed.

Lemma countOverLimit_iso (st : RateLimitReqState) :
  triple (iso h k) (countOverLimit st : M W _) (fun _ => iso h k).
Proof. unfold countOverLimit, when. triple_step; [auto with triple|by apply triple_ret]. Qed.

Lemma countOverLimit_owned (st : RateLimitReqState) (p : Ptr) :
  triple (owned h k p) (countOverLimit st : M W _) (fun _ => owned h k p).
Proof. unfold countOverLimit, when. triple_step; [auto with triple|by apply triple_ret]. Qed.

Lemma setToken_owned (p : Ptr) (t : TokenBucketItem) :
  triple (owned h k p) (setToken p t : M W _) (fun _ => owned h k p).
Proof. unfold setToken. triple_step. triple_step. by apply owned_save. Qed.

Lemma dropItem_iso : triple (iso h k) (dropItem k : M W _) (fun _ => iso h k).
Proof. unfold dropItem. triple_step. apply sRemove_iso. Qed.

Lemma derefCreatedAt_run (r : RateLimitReq) (c : Z) (P : W -> Prop) : r_CreatedAt r = Some c ->
  triple P (derefCreatedAt r : M W _) (fun a w => a = c /\ P w).
Proof. intros Hc. unfold derefCreatedAt. rewrite Hc. apply triple_ret. done. Qed.

Hint Resolve notifyStore_owned countOverLimit_iso countOverLimit_owned setToken_owned dropItem_iso
  derefCreatedAt_run : triple.

Lemma tokenDecide_owned (p : Ptr) (t : TokenBucketItem) (rl : RateLimitResp) (r : RateLimitReq)
    (st : RateLimitReqState) :
  triple (owned h k p) (tokenDecide p t rl r st : M W _) (fun _ => owned h k p).
Proof. unfold tokenDecide. cbv zeta. triple_auto; done. Qed.

Lemma expiry_owned (r : RateLimitReq) (z : Z) (P : W -> Prop) :
  triple P (onEnv Now : M W _) (fun _ => P) ->
  triple P (if HasBehavior (r_Behavior r) DURATION_IS_GREGORIAN
            then now ← onEnv Now; mret (GregorianExpiration now (r_Duration r))
            else mret (Ok z) : M W _) (fun _ => P).
Proof. intros HN. triple_step; [eapply triple_bind; [exact HN|intros ?]|]; by apply triple_ret. Qed.

Lemma tokenRenew_owned (p : Ptr) (it : CacheItem) (t : TokenBucketItem) (rl : RateLimitResp)
    (r : RateLimitReq) (c : Z) : r_CreatedAt r = Some c -> it_Key it = k ->
  triple (owned h k p) (tokenRenew p it t rl r : M W _) (fun _ => owned h k p).
Proof.
  intros Hc Hk. unfold tokenRenew. triple_step; [by apply triple_ret|].
  eapply triple_bind; [apply expiry_owned; auto with triple|]. intros [expire|e]; cbv beta; [|by apply triple_ret].
  triple_auto; done.
Qed.

Hint Resolve tokenDecide_owned tokenRenew_owned : triple.

Lemma tokenUpdate_owned (p : Ptr) (it : CacheItem) (t : TokenBucketItem) (r : RateLimitReq)
    (st : RateLimitReqState) (c : Z) : r_CreatedAt r = Some c -> it_Key it = k ->
  triple (owned h k p) (tokenUpdate p it t r st : M W _) (fun _ => owned h k p).
Proof. intros Hc Hk. unfold tokenUpdate. cbv zeta. triple_auto; done. Qed.

Lemma tokenBucketNewItem_iso (r : RateLimitReq) (st : RateLimitReqState) (c : Z) :
  r_CreatedAt r = Some c -> HashKey r = k ->
  triple (iso h k) (tokenBucketNewItem r st : M W _) (fun _ => iso h k).
Proof.
  intros Hc Hk. unfold tokenBucketNewItem. cbv zeta. triple_step. triple_step.
  eapply triple_bind; [apply expiry_owned; auto with triple|]. intros [expire|e]; [|by apply triple_ret].
  apply (triple_bind _ _ _ (fun _ => iso h k)); [triple_auto; done|]. intros [t rl].
  triple_auto. by eapply owned_iso.
Qed.

Lemma countForgiven_owned (it : CacheItem) (p : Ptr) :
  triple (owned h k p) (countForgiven it : M W _) (fun _ => owned h k p).
Proof.
  unfold countForgiven. destruct (it_Value it); try by apply triple_ret.
  unfold when. triple_auto; [auto with triple|done].
Qed.
End Iso.

Lemma tokenBucket_iso (h : Env) (r : RateLimitReq) (st : RateLimitReqState) (c : Z) :
  r_CreatedAt r = Some c ->
  triple (iso h (HashKey r)) (tokenBucket r st : M W _) (fun _ => iso h (HashKey r)).
Proof.
  intros Hc. unfold tokenBucket.
  apply (triple_bind _ _ _ _ _ (fetchItem_iso h r)). intros [p|]; [|by eapply tokenBucketNewItem_iso].
  triple_step. triple_step.
  apply (triple_bind _ _ _ _ _ (countForgiven_owned h (HashKey r) a p)). intros _.
  pose proof (dropItem_iso h (HashKey r)) as Hdrop.
  pose proof (tokenBucketNewItem_iso h (HashKey r) r st c Hc eq_refl) as Hnew.
  triple_step.
  - eapply triple_pre; [apply owned_iso|]. apply (triple_bind _ _ _ _ _ Hdrop). intros _. by apply triple_ret.
  - destruct (it_Value a);
      try (eapply triple_pre; [apply owned_iso|]; apply (triple_bind _ _ _ _ _ Hdrop); intros _; exact Hnew).
    apply (triple_post _ _ (fun _ => owned h (HashKey r) p)); [intros _; apply owned_iso|].
    by eapply tokenUpdate_owned.
Qed.
End Run.

(** ** The arithmetic of a bucket *)

(** Between zero and the limit, at machine width. *)
Record token_wf (t : TokenBucketItem) : Prop := {
  tw_low : 0 <= tb_Remaining t;
  tw_high : tb_Remaining t <= tb_Limit t;
  tw_limit : in64 (tb_Limit t)
}.

(** Hits a response charged: those of an admitted request. *)
Definition charged (r : RateLimitReq) (rl : RateLimitResp) : Z :=
  if decide (rl_Status rl = UNDER_LIMIT) then r_Hits r else 0.

Lemma in64_between (a b : Z) : 0 <= a -> a <= b -> in64 b -> in64 a.
Proof. unfold in64, min_i64, max_i64. lia. Qed.

(** The decision on a positive request: admitted exactly when the tokens are there. *)
Lemma decide_token_hits (t : TokenBucketItem) (rl : RateLimitResp) (r : RateLimitReq) :
  0 <= tb_Remaining t -> in64 (tb_Remaining t) -> 0 < r_Hits r ->
  rl_Remaining rl = tb_Remaining t -> rl_Status rl = UNDER_LIMIT ->
  let '(t', rl') := decide_token t rl r in
  rl_Remaining rl' = tb_Remaining t' /\
  rl_Limit rl' = rl_Limit rl /\ rl_ResetTime rl' = rl_ResetTime rl /\
  tb_Limit t' = tb_Limit t /\ tb_Duration t' = tb_Duration t /\ tb_CreatedAt t' = tb_CreatedAt t /\
  if r_Hits r <=? tb_Remaining t
  then rl_Status rl' = UNDER_LIMIT /\ tb_Status t' = UNDER_LIMIT /\ tb_Remaining t' = tb_Remaining t - r_Hits r
  else rl_Status rl' = OVER_LIMIT /\
       tb_Remaining t' = if HasBehavior (r_Behavior r) DRAIN_OVER_LIMIT then 0 else tb_Remaining t.
Proof.
  intros H0 H64 Hh Hrl Hst. unfold decide_token. rewrite Hrl.
  assert ((r_Hits r =? 0) = false) as -> by lia. assert ((0 <? r_Hits r) = true) as -> by lia.
  rewrite andb_true_r. destruct (Z.eqb_spec (tb_Remaining t) 0) as [Hz|Hz].
  { replace (r_Hits r <=? tb_Remaining t) with false by lia. simpl. rewrite Hrl, Hz.
    by destruct (HasBehavior _ _). }
  destruct (Z.eqb_spec (tb_Remaining t) (r_Hits r)) as [He|He].
  { replace (r_Hits r <=? tb_Remaining t) with true by lia. simpl. rewrite Hst. repeat split. lia. }
  destruct (Z.ltb_spec (tb_Remaining t) (r_Hits r)) as [Hlt|Hge].
  { replace (r_Hits r <=? tb_Remaining t) with false by lia.
    by destruct (HasBehavior _ _); simpl. }
  replace (r_Hits r <=? tb_Remaining t) with true by lia. simpl. rewrite Hst.
  repeat split. apply sub64_id. unfold in64, min_i64, max_i64 in *. lia.
Qed.

(** A query charges nothing. *)
Lemma decide_token_query (t : TokenBucketItem) (rl : RateLimitResp) (r : RateLimitReq) :
  r_Hits r = 0 -> rl_Remaining rl = tb_Remaining t -> rl_Status rl = UNDER_LIMIT ->
  let '(t', rl') := decide_token t rl r in
  rl_Remaining rl' = tb_Remaining t /\ tb_Remaining t' = tb_Remaining t /\
  rl_Limit rl' = rl_Limit rl /\ rl_ResetTime rl' = rl_ResetTime rl /\
  tb_Limit t' = tb_Limit t /\ tb_Duration t' = tb_Duration t /\ tb_CreatedAt t' = tb_CreatedAt t /\
  rl_Status rl' = (if tb_Remaining t =? 0 then tb_Status t else UNDER_LIMIT) /\
  tb_Status t' = (if tb_Remaining t =? 0 then tb_Status t else UNDER_LIMIT).
Proof.
  intros Hh Hrl Hst. unfold decide_token. rewrite Hh, Hrl. simpl.
  destruct (tb_Remaining t =? 0); simpl; rewrite ?Hrl, ?Hst; done.
Qed.

(** What is charged is taken from the bucket, and nothing is handed back. *)
Lemma decide_token_charge (t : TokenBucketItem) (rl : RateLimitResp) (r : RateLimitReq) :
  0 <= tb_Remaining t -> in64 (tb_Remaining t) -> 0 <= r_Hits r ->
  rl_Remaining rl = tb_Remaining t -> rl_Status rl = UNDER_LIMIT ->
  let '(t', rl') := decide_token t rl r in
  0 <= tb_Remaining t' /\ 0 <= charged r rl' /\ charged r rl' + tb_Remaining t' <= tb_Remaining t /\
  tb_Limit t' = tb_Limit t /\ tb_Duration t' = tb_Duration t /\ tb_CreatedAt t' = tb_CreatedAt t /\
  (HasBehavior (r_Behavior r) DRAIN_OVER_LIMIT = false ->
   charged r rl' + tb_Remaining t' = tb_Remaining t).
Proof.
  intros H0 H64 Hh Hrl Hst. destruct (Z.eqb_spec (r_Hits r) 0) as [Hz|Hz].
  - pose proof (decide_token_query t rl r Hz Hrl Hst) as Hq.
    destruct (decide_token t rl r) as [t' rl']. destruct Hq as (_ & Hr & _ & _ & ? & ? & ? & _).
    unfold charged. rewrite Hz. destruct (decide _); repeat split; try done; lia.
  - pose proof (decide_token_hits t rl r H0 H64 ltac:(lia) Hrl Hst) as Hd.
    destruct (decide_token t rl r) as [t' rl']. destruct Hd as (_ & _ & _ & ? & ? & ? & Hd).
    unfold charged. destruct (Z.leb_spec (r_Hits r) (tb_Remaining t)).
    + destruct Hd as (-> & _ & Hr). rewrite decide_True by done. repeat split; try done; lia.
    + destruct Hd as (-> & Hr). rewrite decide_False by done.
      destruct (HasBehavior _ _); repeat split; try done; lia.
Qed.

Lemma adoptLimit_same (t : TokenBucketItem) (r : RateLimitReq) : tb_Limit t = r_Limit r -> adoptLimit t r = t.
Proof. intros E. unfold adoptLimit. by rewrite E, Z.eqb_refl. Qed.

(** Changing the limit keeps the number of tokens used, down to an empty bucket. *)
Lemma adoptLimit_remaining (t : TokenBucketItem) (r : RateLimitReq) : token_wf t ->
  0 <= r_Limit r -> in64 (r_Limit r) ->
  tb_Remaining (adoptLimit t r) = Z.max 0 (r_Limit r - (tb_Limit t - tb_Remaining t)) /\
  tb_Limit (adoptLimit t r) = r_Limit r /\ tb_Duration (adoptLimit t r) = tb_Duration t /\
  tb_CreatedAt (adoptLimit t r) = tb_CreatedAt t.
Proof.
  intros [Hl Hh H64] H0 Hr. unfold adoptLimit. destruct (Z.eqb_spec (tb_Limit t) (r_Limit r)) as [E|E].
  { repeat split; lia. }
  simpl. rewrite (sub64_id (r_Limit r)) by (unfold in64, min_i64, max_i64 in *; lia).
  rewrite add64_id by (unfold in64, min_i64, max_i64 in *; lia).
  destruct (Z.ltb_spec (tb_Remaining t + (r_Limit r - tb_Limit t)) 0); repeat split; lia.
Qed.

Lemma adoptLimit_wf (t : TokenBucketItem) (r : RateLimitReq) : token_wf t ->
  0 <= r_Limit r -> in64 (r_Limit r) -> token_wf (adoptLimit t r).
Proof.
  intros Ht H0 Hr. pose proof Ht as [Hl Hh _]. destruct (adoptLimit_remaining t r Ht H0 Hr) as (E1 & E2 & _).
  constructor; rewrite ?E1, ?E2; [lia|lia|done].
Qed.

Lemma renewed_wf (t : TokenBucketItem) (r : RateLimitReq) (expire createdAt : Z) :
  token_wf t -> token_wf (snd (renewed t r expire createdAt)).
Proof.
  intros [? ? ?]. unfold renewed. destruct (expire <=? createdAt); constructor; simpl; try done; lia.
Qed.

Lemma decided_wf (t : TokenBucketItem) (rl : RateLimitResp) (r : RateLimitReq) :
  token_wf t -> 0 <= r_Hits r -> rl_Remaining rl = tb_Remaining t -> rl_Status rl = UNDER_LIMIT ->
  token_wf (fst (decide_token t rl r)).
Proof.
  intros [Hl Hh H64] H0 Hrl Hst.
  pose proof (decide_token_charge t rl r Hl (in64_between _ _ Hl Hh H64) H0 Hrl Hst) as Hd.
  destruct (decide_token t rl r) as [t' rl']. destruct Hd as (? & ? & ? & E & _).
  constructor; simpl; rewrite ?E; try done; lia.
Qed.

(** Every branch of the update keeps the bucket within its limit. *)
Lemma token_update_wf (it : CacheItem) (t : TokenBucketItem) (r : RateLimitReq) (now : Time) (c : Z) :
  token_wf t -> 0 <= r_Hits r -> 0 <= r_Limit r -> in64 (r_Limit r) ->
  let u := token_update it t r now c in
  exists t', it_Value (fst u) = VToken t' /\ token_wf t' /\ tb_Limit t' = r_Limit r /\
    forall rl, snd u = Ok rl -> rl_Remaining rl = tb_Remaining t' /\ rl_Limit rl = r_Limit r.
Proof.
  intros Ht Hh Hl H64. unfold token_update.
  pose proof (adoptLimit_wf t r Ht Hl H64) as Hwf1.
  assert (tb_Limit (adoptLimit t r) = r_Limit r) as Hl1 by apply (adoptLimit_remaining t r Ht Hl H64).
  assert (forall x : Z * TokenBucketItem, token_renew it (adoptLimit t r) r now c = Ok x ->
    token_wf (snd x) /\ tb_Limit (snd x) = r_Limit r) as Hren.
  { intros x. unfold token_renew. destruct (_ =? _); [by intros [= <-]|].
    destruct (newExpiry _ _ _) as [expire|]; [|done]. intros [= <-].
    split; [by apply renewed_wf|]. unfold renewed. by destruct (expire <=? c). }
  destruct (token_renew it (adoptLimit t r) r now c) as [[expire t2]|e]; [|by eexists].
  destruct (Hren _ eq_refl) as [Hwf2 Hl2]. simpl in *. unfold decided.
  set (rl := tokenResp (with_ExpireAt expire it) t2 r).
  pose proof (decided_wf t2 rl r Hwf2 Hh eq_refl eq_refl) as Hwf3.
  assert (rl_Remaining (snd (decide_token t2 rl r)) = tb_Remaining (fst (decide_token t2 rl r)) /\
    rl_Limit (snd (decide_token t2 rl r)) = r_Limit r /\
    tb_Limit (fst (decide_token t2 rl r)) = tb_Limit t2) as (E1 & E2 & E3).
  { unfold decide_token. repeat case_match; by simplify_eq/=. }
  eexists. split; [done|]. split; [done|]. split; [congruence|]. intros rl' [= <-]. done.
Qed.
