(* ===== verification/TokenSpec.v ===== *)
(** * What the token bucket promises

    Properties of [tokenBucket] over any cache and store that keep the laws of
    [Runtime], each with an example on the LRU cache. *)

From stdpp Require Import base gmap strings list.
From Stdlib Require Import ZArith Lia.
From S2P Require Import Prelude Float64 Types GoTime Interval LeakyMath Runtime LRUCache Store Demo TokenBucket.

Local Open Scope Z_scope.

Import Gregorian.

Section Promises.
Context {C S : Type} `{CacheLaws C} `{StoreLaws S}.

Abbreviation W := (World C S).

(** A live token bucket [t] in item [p] under the key of request [r]. *)
Definition live_token (w : W) (r : RateLimitReq) (p : Ptr) (it : CacheItem) (t : TokenBucketItem) : Prop :=
  world_ok w /\ cached w (HashKey r) p it /\ it_Value it = VToken t /\
  expiredAt it (nowMs (w_env w)) = false.

(** A request the algorithm can evaluate: created, and not a reset. *)
Definition plain (r : RateLimitReq) : Prop :=
  is_Some (r_CreatedAt r) /\ HasBehavior (r_Behavior r) RESET_REMAINING = false.

(** A reset of a live item: it leaves the cache, and nothing is written. *)
Lemma reset_run (w : W) (r : RateLimitReq) (st : RateLimitReqState) (p : Ptr) (it : CacheItem) :
  world_ok w -> cached w (HashKey r) p it -> it_Value it <> VNil -> expiredAt it (nowMs (w_env w)) = false ->
  HasBehavior (r_Behavior r) RESET_REMAINING = true ->
  exists w', tokenBucket r st w = Ret (Ok (respOf UNDER_LIMIT (r_Limit r) (r_Limit r) 0), w') /\
    world_ok w' /\ c_view (w_cache w') = delete (HashKey r) (c_view (w_cache w)) /\ env_grow (w_env w) (w_env w').
Proof.
  intros Hw Hc Hnil Hx Hreset.
  destruct (fetchItem_live w r p it Hw Hc Hx Hnil) as (w1 & Hf & Hw1 & [_ Hp1] & Hq & _ & Hview & _).
  unfold tokenBucket. rewrite (bind_ret_run _ _ _ _ _ Hf), (bind_ret_run _ _ _ w1 it) by (by apply load_run).
  rewrite Hreset.
  destruct (countForgiven_run w1 it) as (e2 & Hd & Hq2).
  rewrite (bind_ret_run _ _ _ _ _ Hd).
  destruct (dropItem_run _ (HashKey r) (world_ok_quiet w1 e2 Hw1 Hq2)) as (w' & Hdr & Hok & Hg & Hv).
  rewrite (bind_ret_run _ _ _ _ _ Hdr). exists w'. split; [done|]. split; [done|]. split; [rewrite Hv; simpl; by rewrite Hview|].
  etransitivity; [apply env_quiet_grow, Hq|]. etransitivity; [apply env_quiet_grow, Hq2|done].
Qed.

(** What the documentation says of a token bucket, field by field: what a request [r]
    leaves of the live bucket [t] of item [it], [None] when it removes the item, and what
    it returns. [now] is the reading a Gregorian period is computed from. A changed limit
    moves the tokens left by the difference; a changed duration moves the end of the
    window, and a window that has ended starts again, full; hits are admitted when they
    fit, and a refusal takes nothing, or everything with DRAIN_OVER_LIMIT. *)
Definition token_spec (it : CacheItem) (t : TokenBucketItem) (r : RateLimitReq) (now : Time) (createdAt : Z)
    : option CacheItem * result RateLimitResp :=
  let item expire t := mkItem (it_Algorithm it) (it_Key it) (VToken t) expire (it_InvalidAt it) in
  let same := tb_Duration t =? r_Duration r in
  let kept := if tb_Limit t =? r_Limit r then tb_Remaining t
              else Z.max 0 (wrap64 (tb_Remaining t + (r_Limit r - tb_Limit t))) in
  let ends := if same then Ok (it_ExpireAt it)
              else if HasBehavior (r_Behavior r) DURATION_IS_GREGORIAN then GregorianExpiration now (r_Duration r)
              else Ok (wrap64 (tb_CreatedAt t + r_Duration r)) in
  if HasBehavior (r_Behavior r) RESET_REMAINING then (None, Ok (mkResp UNDER_LIMIT (r_Limit r) (r_Limit r) 0 "" ∅ 0))
  else
    match ends with
    | Err e => (Some (item (it_ExpireAt it) (mkToken (tb_Status t) (r_Limit r) (tb_Duration t) kept (tb_CreatedAt t))), Err e)
    | Ok ends =>
        let renew := negb same && (ends <=? createdAt) in
        let expire := if renew then wrap64 (createdAt + r_Duration r) else ends in
        let created := if renew then createdAt else tb_CreatedAt t in
        let tokens := if renew then r_Limit r else kept in
        let query := r_Hits r =? 0 in
        let fits := r_Hits r <=? tokens in
        let drain := HasBehavior (r_Behavior r) DRAIN_OVER_LIMIT in
        let left := if query then tokens else if fits then wrap64 (tokens - r_Hits r) else if drain then 0 else tokens in
        let answer := if query then (if tokens =? 0 then tb_Status t else UNDER_LIMIT)
                      else if fits then UNDER_LIMIT else OVER_LIMIT in
        let status := if query then answer else if (tokens =? 0) && (0 <? r_Hits r) then OVER_LIMIT else UNDER_LIMIT in
        (Some (item expire (mkToken status (r_Limit r) (r_Duration r) left created)),
         Ok (mkResp answer (r_Limit r) left expire "" ∅ 0))
    end.

Lemma adoptLimit_spec (t : TokenBucketItem) (r : RateLimitReq) :
  adoptLimit t r = mkToken (tb_Status t) (r_Limit r) (tb_Duration t)
    (if tb_Limit t =? r_Limit r then tb_Remaining t else Z.max 0 (wrap64 (tb_Remaining t + (r_Limit r - tb_Limit t))))
    (tb_CreatedAt t).
Proof.
  unfold adoptLimit. destruct (Z.eqb_spec (tb_Limit t) (r_Limit r)) as [<-|_]; [by destruct t|].
  unfold add64, sub64. rewrite (Z.add_comm (tb_Remaining t)), wrap64_add_l, (Z.add_comm (r_Limit r - _)).
  f_equal. destruct (Z.ltb_spec (wrap64 (tb_Remaining t + (r_Limit r - tb_Limit t))) 0); lia.
Qed.

Lemma decide_token_spec (t : TokenBucketItem) (it : CacheItem) (r : RateLimitReq) :
  let tokens := tb_Remaining t in
  let query := r_Hits r =? 0 in
  let fits := r_Hits r <=? tokens in
  let left := if query then tokens else if fits then wrap64 (tokens - r_Hits r)
              else if HasBehavior (r_Behavior r) DRAIN_OVER_LIMIT then 0 else tokens in
  let answer := if query then (if tokens =? 0 then tb_Status t else UNDER_LIMIT) else if fits then UNDER_LIMIT else OVER_LIMIT in
  let status := if query then answer else if (tokens =? 0) && (0 <? r_Hits r) then OVER_LIMIT else UNDER_LIMIT in
  decide_token t (tokenResp it t r) r =
    (mkToken status (tb_Limit t) (tb_Duration t) left (tb_CreatedAt t), mkResp answer (r_Limit r) left (it_ExpireAt it) "" ∅ 0).
Proof.
  intros tokens query fits left answer status. unfold decide_token, status, answer, left, fits, query, tokens. cbn [rl_Remaining tokenResp respOf].
  destruct (Z.eqb_spec (r_Hits r) 0); [destruct (Z.eqb_spec (tb_Remaining t) 0); by destruct t|].
  destruct (Z.eqb_spec (tb_Remaining t) 0) as [Hz|Hz]; cbn [andb].
  { rewrite Hz in *. destruct (Z.ltb_spec 0 (r_Hits r)), (Z.leb_spec (r_Hits r) 0); try lia.
    - destruct t; simpl in *; subst. by destruct (HasBehavior _ _).
    - destruct (Z.eqb_spec 0 (r_Hits r)); [lia|]. destruct (Z.ltb_spec 0 (r_Hits r)); [lia|]. done. }
  destruct (Z.eqb_spec (tb_Remaining t) (r_Hits r)) as [He|He].
  { rewrite <- He, Z.leb_refl, Z.sub_diag. done. }
  destruct (Z.ltb_spec (tb_Remaining t) (r_Hits r)), (Z.leb_spec (r_Hits r) (tb_Remaining t)); try lia; [|done].
  by destruct (HasBehavior _ _).
Qed.

(** The function the code computes on a live bucket is the documented one. *)
Lemma token_update_spec (it : CacheItem) (t : TokenBucketItem) (r : RateLimitReq) (now : Time) (createdAt : Z) :
  HasBehavior (r_Behavior r) RESET_REMAINING = false ->
  token_spec it t r now createdAt =
    (Some (fst (token_update it t r now createdAt)), snd (token_update it t r now createdAt)).
Proof.
  intros Hr. unfold token_spec, token_update, token_renew, newExpiry. rewrite Hr, adoptLimit_spec. cbn [tb_Duration tb_CreatedAt].
  destruct (Z.eqb_spec (tb_Duration t) (r_Duration r)) as [Hd|_]; cbn [negb andb].
  { unfold decided. rewrite decide_token_spec. cbn [tb_Remaining tb_Status tb_Limit tb_Duration tb_CreatedAt]. by rewrite Hd. }
  destruct (if HasBehavior (r_Behavior r) DURATION_IS_GREGORIAN then _ else _) as [ends|e]; [|done].
  unfold renewed. destruct (ends <=? createdAt); unfold decided; rewrite decide_token_spec; reflexivity.
Qed.

(** C1: On a live bucket [tokenBucket] does what [token_spec] says, for every request with
    a creation time: it returns that response or the error of the Gregorian duration;
    where the bucket stays, exactly that item is written back and stays cached under its
    key, and nothing else changes but the clock, the counters and what the store
    allocates; a reset takes the key out of the cache and changes no item. *)
Theorem token_bucket_computes (w : W) (r : RateLimitReq) (st : RateLimitReqState) (p : Ptr)
    (it : CacheItem) (t : TokenBucketItem) (createdAt : Z)
    (Hlive : live_token w r p it t) (Hcr : r_CreatedAt r = Some createdAt) :
  let u := token_spec it t r (reading 1 (w_env w)) createdAt in
  exists w', tokenBucket r st w = Ret (snd u, w') /\
    match fst u with
    | Some it' => touched w p it' w' /\ cached w' (HashKey r) p it'
    | None => world_ok w' /\ c_view (w_cache w') = delete (HashKey r) (c_view (w_cache w)) /\ env_grow (w_env w) (w_env w')
    end.
Proof.
  destruct Hlive as (Hw & Hc & Ht & Hx). intros u. subst u.
  destruct (HasBehavior (r_Behavior r) RESET_REMAINING) eqn:Hreset.
  - destruct (reset_run w r st p it Hw Hc) as (w' & Hr & Hrest); [by rewrite Ht|done..|].
    exists w'. unfold token_spec. rewrite Hreset. by split.
  - rewrite token_update_spec by done.
    destruct (tokenBucket_live w r st p it t createdAt Hw Hc Hx Ht Hcr Hreset) as (w' & Hr & Htc).
    exists w'. split; [done|]. split; [done|]. by eapply touched_cached.
Qed.

(** The run on a live bucket when limit and duration are those of the bucket. *)
Lemma same_config_run (w : W) (r : RateLimitReq) (st : RateLimitReqState) (p : Ptr)
    (it : CacheItem) (t : TokenBucketItem) :
  live_token w r p it t -> plain r -> tb_Limit t = r_Limit r -> tb_Duration t = r_Duration r ->
  let d := decide_token t (tokenResp it t r) r in
  exists w', tokenBucket r st w = Ret (Ok (snd d), w') /\
    touched w p (with_Value (VToken (fst d)) it) w' /\
    cached w' (HashKey r) p (with_Value (VToken (fst d)) it).
Proof.
  intros (Hw & Hc & Ht & Hx) ([c Hcr] & Hreset) Hl Hd d.
  destruct (tokenBucket_live w r st p it t c Hw Hc Hx Ht Hcr Hreset) as (w' & Hr & Htc).
  unfold token_update, token_renew in Hr, Htc.
  rewrite (adoptLimit_same t r Hl), Hd, Z.eqb_refl in Hr, Htc.
  replace (with_ExpireAt (it_ExpireAt it) it) with it in Hr, Htc by (by destruct it).
  exists w'. split; [done|]. split; [done|]. by eapply touched_cached.
Qed.

(** A request for a positive number of hits is admitted exactly when the bucket
    holds that many tokens. Admission takes them; a refusal takes nothing, or all
    that is left with DRAIN_OVER_LIMIT. The response carries the tokens left and
    the expiry of the bucket. *)
Theorem token_admission (w : W) (r : RateLimitReq) (st : RateLimitReqState) (p : Ptr)
    (it : CacheItem) (t : TokenBucketItem)
    (Hlive : live_token w r p it t) (Hplain : plain r)
    (Hl : tb_Limit t = r_Limit r) (Hd : tb_Duration t = r_Duration r)
    (Hrem : 0 <= tb_Remaining t) (H64 : in64 (tb_Remaining t)) (Hhits : 0 < r_Hits r) :
  exists w' t' rl, tokenBucket r st w = Ret (Ok rl, w') /\
    cached w' (HashKey r) p (with_Value (VToken t') it) /\
    rl_Limit rl = r_Limit r /\ rl_ResetTime rl = it_ExpireAt it /\ rl_Remaining rl = tb_Remaining t' /\
    tb_Limit t' = tb_Limit t /\ tb_Duration t' = tb_Duration t /\ tb_CreatedAt t' = tb_CreatedAt t /\
    if r_Hits r <=? tb_Remaining t
    then rl_Status rl = UNDER_LIMIT /\ tb_Remaining t' = tb_Remaining t - r_Hits r
    else rl_Status rl = OVER_LIMIT /\
         tb_Remaining t' = if HasBehavior (r_Behavior r) DRAIN_OVER_LIMIT then 0 else tb_Remaining t.
Proof.
  destruct (same_config_run w r st p it t Hlive Hplain Hl Hd) as (w' & Hr & _ & Hc).
  pose proof (decide_token_hits t (tokenResp it t r) r Hrem H64 Hhits eq_refl eq_refl) as Hdec.
  destruct (decide_token t (tokenResp it t r) r) as [t' rl].
  destruct Hdec as (? & ? & ? & ? & ? & ? & Hcase).
  exists w', t', rl. do 8 (split; [done|]). destruct (_ <=? _); [|done]. destruct Hcase as (? & _ & ?). done.
Qed.

(** A query (hits = 0) charges nothing: the bucket keeps its tokens and the
    response reports them; the status is the last decision while the bucket is
    empty, and UNDER_LIMIT otherwise. *)
Theorem token_query (w : W) (r : RateLimitReq) (st : RateLimitReqState) (p : Ptr)
    (it : CacheItem) (t : TokenBucketItem)
    (Hlive : live_token w r p it t) (Hplain : plain r)
    (Hl : tb_Limit t = r_Limit r) (Hd : tb_Duration t = r_Duration r) (Hhits : r_Hits r = 0) :
  exists w' t' rl, tokenBucket r st w = Ret (Ok rl, w') /\
    cached w' (HashKey r) p (with_Value (VToken t') it) /\
    rl_Remaining rl = tb_Remaining t /\ tb_Remaining t' = tb_Remaining t /\
    rl_ResetTime rl = it_ExpireAt it /\
    rl_Status rl = (if tb_Remaining t =? 0 then tb_Status t else UNDER_LIMIT) /\
    tb_Status t' = rl_Status rl.
Proof.
  destruct (same_config_run w r st p it t Hlive Hplain Hl Hd) as (w' & Hr & _ & Hc).
  pose proof (decide_token_query t (tokenResp it t r) r Hhits eq_refl eq_refl) as Hdec.
  destruct (decide_token t (tokenResp it t r) r) as [t' rl].
  destruct Hdec as (? & ? & ? & ? & ? & ? & ? & ? & ?).
  exists w', t', rl. repeat (split; [done|]). congruence.
Qed.

(** When a query changes the limit, the tokens already used stay used: the bucket keeps
    [limit - used] tokens, or none when more were used than the new limit allows. *)
Theorem token_limit_change (w : W) (r : RateLimitReq) (st : RateLimitReqState) (p : Ptr)
    (it : CacheItem) (t : TokenBucketItem)
    (Hlive : live_token w r p it t) (Hplain : plain r) (Hwf : token_wf t)
    (Hd : tb_Duration t = r_Duration r) (Hhits : r_Hits r = 0)
    (Hlim : 0 <= r_Limit r) (H64 : in64 (r_Limit r)) :
  exists w' t' rl, tokenBucket r st w = Ret (Ok rl, w') /\
    cached w' (HashKey r) p (with_Value (VToken t') it) /\
    tb_Limit t' = r_Limit r /\
    tb_Remaining t' = Z.max 0 (r_Limit r - (tb_Limit t - tb_Remaining t)) /\
    rl_Remaining rl = tb_Remaining t' /\ rl_Limit rl = r_Limit r /\ rl_ResetTime rl = it_ExpireAt it.
Proof.
  destruct Hlive as (Hw & Hc & Ht & Hx), Hplain as ([c Hcr] & Hreset).
  destruct (tokenBucket_live w r st p it t c Hw Hc Hx Ht Hcr Hreset) as (w' & Hr & Htc).
  pose proof (touched_cached _ _ _ _ _ _ Hc Htc) as Hc'.
  destruct (adoptLimit_remaining t r Hwf Hlim H64) as (E1 & E2 & E3 & _).
  unfold token_update, token_renew in Hr, Hc'. rewrite E3, Hd, Z.eqb_refl in Hr, Hc'.
  replace (with_ExpireAt (it_ExpireAt it) it) with it in Hr, Hc' by (by destruct it).
  pose proof (decide_token_query (adoptLimit t r) (tokenResp it (adoptLimit t r) r) r Hhits eq_refl eq_refl) as Hq.
  unfold decided in Hr, Hc'. destruct (decide_token _ _ r) as [t' rl].
  destruct Hq as (? & ? & ? & ? & ? & _). exists w', t', rl. repeat (split; [done || congruence|]). done.
Qed.

(** C15: A live token bucket with between zero and [limit] tokens stays so under any
    request with non-negative hits and limit, whatever else changed with it: a new
    limit, a new duration, a renewal, even a rejected Gregorian duration. *)
Theorem token_bucket_invariant (w : W) (r : RateLimitReq) (st : RateLimitReqState) (p : Ptr)
    (it : CacheItem) (t : TokenBucketItem)
    (Hlive : live_token w r p it t) (Hplain : plain r) (Hwf : token_wf t)
    (Hhits : 0 <= r_Hits r) (Hlim : 0 <= r_Limit r) (H64 : in64 (r_Limit r)) :
  exists w' it' t' res, tokenBucket r st w = Ret (res, w') /\
    cached w' (HashKey r) p it' /\ it_Value it' = VToken t' /\
    token_wf t' /\ tb_Limit t' = r_Limit r /\
    forall rl, res = Ok rl -> rl_Remaining rl = tb_Remaining t' /\ rl_Limit rl = r_Limit r.
Proof.
  destruct Hlive as (Hw & Hc & Ht & Hx), Hplain as ([c Hcr] & Hreset).
  destruct (tokenBucket_live w r st p it t c Hw Hc Hx Ht Hcr Hreset) as (w' & Hr & Htc).
  pose proof (touched_cached _ _ _ _ _ _ Hc Htc) as Hc'.
  destruct (token_update_wf it t r (reading 1 (w_env w)) c Hwf Hhits Hlim H64) as (t' & Hv & Hwf' & Hl & Hres).
  eexists w', _, t', _. by split.
Qed.

(** The first request on a key (nothing cached, no store, a duration in
    milliseconds) starts a bucket of [limit] tokens less the hits, which expires a duration after the request was
    created, unless it asks for more than the limit: then it is refused and the
    bucket starts full. *)
Theorem token_first_request (w : W) (r : RateLimitReq) (st : RateLimitReqState) (createdAt : Z)
    (Hw : world_ok w) (Habs : absent w (HashKey r)) (Hst : w_store w = None)
    (Hcr : r_CreatedAt r = Some createdAt)
    (Hgreg : HasBehavior (r_Behavior r) DURATION_IS_GREGORIAN = false)
    (Hhits : 0 <= r_Hits r) (Hlim : 0 <= r_Limit r) (H64 : in64 (r_Limit r)) :
  let over := r_Limit r <? r_Hits r in
  let left := if over then r_Limit r else r_Limit r - r_Hits r in
  let expire := wrap64 (createdAt + r_Duration r) in
  exists w' p, tokenBucket r st w =
      Ret (Ok (respOf (if over then OVER_LIMIT else UNDER_LIMIT) (r_Limit r) left expire), w') /\
    world_ok w' /\
    cached w' (HashKey r) p
      (mkItem TOKEN_BUCKET (HashKey r)
         (VToken (mkToken UNDER_LIMIT (r_Limit r) (r_Duration r) left createdAt)) expire 0).
Proof.
  intros over left expire.
  destruct (fetchItem_absent w r Hw Habs Hst) as (w1 & Hf & Hw1 & Hq & _).
  unfold tokenBucket. rewrite (bind_ret_run _ _ _ _ _ Hf).
  pose proof (tokenBucketNewItem_run w1 r st createdAt Hw1 Hcr) as Hnew.
  unfold token_new, newExpiry in Hnew. rewrite Hgreg in Hnew. destruct Hnew as (p & w' & Hr & Hcrt).
  assert ((if r_Limit r <? r_Hits r then r_Limit r else (r_Limit r -i r_Hits r)%go) = left) as Hleft.
  { unfold left, over. destruct (Z.ltb_spec (r_Limit r) (r_Hits r)); [done|].
    apply sub64_id. unfold in64, min_i64, max_i64 in *. lia. }
  exists w', p. rewrite Hr, Hleft. split; [done|]. split; [apply Hcrt|].
  pose proof (cr_cached _ _ _ _ Hcrt) as Hca. simpl in Hca. by rewrite Hleft in Hca.
Qed.

(** RESET_REMAINING on a live item of either algorithm removes it from the
    cache and answers with the full limit, charging no hits. *)
Theorem token_reset (w : W) (r : RateLimitReq) (st : RateLimitReqState) (p : Ptr) (it : CacheItem)
    (Hw : world_ok w) (Hc : cached w (HashKey r) p it) (Hnil : it_Value it <> VNil)
    (Hx : expiredAt it (nowMs (w_env w)) = false)
    (Hreset : HasBehavior (r_Behavior r) RESET_REMAINING = true) :
  exists w', tokenBucket r st w = Ret (Ok (respOf UNDER_LIMIT (r_Limit r) (r_Limit r) 0), w') /\
    world_ok w' /\ c_view (w_cache w') = delete (HashKey r) (c_view (w_cache w)).
Proof. destruct (reset_run w r st p it Hw Hc Hnil Hx Hreset) as (w' & ? & ? & ? & _). by exists w'. Qed.

(** When a query changes the duration (in milliseconds), the bucket expires a new duration after it was
    created. If that moment has already passed the bucket is renewed: it is full
    again and its window starts with the request. *)
Theorem token_duration_change (w : W) (r : RateLimitReq) (st : RateLimitReqState) (p : Ptr)
    (it : CacheItem) (t : TokenBucketItem) (createdAt : Z)
    (Hlive : live_token w r p it t) (Hcr : r_CreatedAt r = Some createdAt)
    (Hreset : HasBehavior (r_Behavior r) RESET_REMAINING = false)
    (Hgreg : HasBehavior (r_Behavior r) DURATION_IS_GREGORIAN = false)
    (Hl : tb_Limit t = r_Limit r) (Hd : tb_Duration t <> r_Duration r) (Hhits : r_Hits r = 0)
    (H64 : in64 (tb_CreatedAt t + r_Duration r)) (H64' : in64 (createdAt + r_Duration r)) :
  let passed := tb_CreatedAt t + r_Duration r <=? createdAt in
  let expire := (if passed then createdAt else tb_CreatedAt t) + r_Duration r in
  exists w' t' rl, tokenBucket r st w = Ret (Ok rl, w') /\
    cached w' (HashKey r) p (with_ExpireAt expire (with_Value (VToken t') it)) /\
    tb_Duration t' = r_Duration r /\ rl_ResetTime rl = expire /\ rl_Remaining rl = tb_Remaining t' /\
    (if passed then tb_Remaining t' = tb_Limit t /\ tb_CreatedAt t' = createdAt
     else tb_Remaining t' = tb_Remaining t /\ tb_CreatedAt t' = tb_CreatedAt t).
Proof.
  intros passed expire. destruct Hlive as (Hw & Hc & Ht & Hx).
  destruct (tokenBucket_live w r st p it t createdAt Hw Hc Hx Ht Hcr Hreset) as (w' & Hr & Htc).
  pose proof (touched_cached _ _ _ _ _ _ Hc Htc) as Hc'.
  unfold token_update, token_renew, newExpiry in Hr, Hc'.
  rewrite (adoptLimit_same t r Hl), Hgreg in Hr, Hc'.
  replace (tb_Duration t =? r_Duration r) with false in Hr, Hc' by lia.
  unfold renewed in Hr, Hc'. rewrite (add64_id (tb_CreatedAt t)), add64_id in Hr, Hc' by done.
  unfold expire. fold passed in Hr, Hc'.
  destruct passed; unfold decided in Hr, Hc'.
  all: match type of Hr with context [decide_token ?t1 ?rl1 ?r1] =>
    pose proof (decide_token_query t1 rl1 r1 Hhits eq_refl eq_refl) as Hq;
    destruct (decide_token t1 rl1 r1) as [t' rl'] end.
  all: destruct Hq as (? & ? & ? & ? & ? & ? & ? & _); exists w', t', rl'; simpl in *.
  all: do 5 (split; [done || congruence|]); split; congruence.
Qed.

(** [tokenBucket] always returns when the request carries a creation time,
    whatever is cached or stored for the key (nothing, an expired item, a bucket of
    either algorithm, a corrupt item), and never changes an item of another key. *)
Theorem token_isolation (w : W) (r : RateLimitReq) (st : RateLimitReqState)
    (Hw : world_ok w) (Hcr : is_Some (r_CreatedAt r)) :
  exists res w', tokenBucket r st w = Ret (res, w') /\ world_ok w' /\
    forall p it, e_heap (w_env w) !! p = Some it -> it_Key it <> HashKey r ->
      e_heap (w_env w') !! p = Some it.
Proof.
  destruct Hcr as [c Hcr].
  destruct (tokenBucket_iso (w_env w) r st c Hcr w (iso_start _ w Hw)) as (res & w' & Hr & Hi).
  exists res, w'. split; [done|]. split; [apply Hi|]. intros p it. by apply (iso_other _ _ _ _ _ Hi).
Qed.

(** A request without a creation time is a nil dereference once no live item is found. *)
Lemma token_needs_creation_time (w : W) (r : RateLimitReq) (st : RateLimitReqState) :
  world_ok w -> absent w (HashKey r) -> w_store w = None -> r_CreatedAt r = None ->
  tokenBucket r st w = Panic "invalid memory address or nil pointer dereference".
Proof.
  intros Hw Ha Hs Hcr. destruct (fetchItem_absent w r Hw Ha Hs) as (w1 & Hf & _).
  unfold tokenBucket. rewrite (bind_ret_run _ _ _ _ _ Hf).
  unfold tokenBucketNewItem, derefCreatedAt. by rewrite Hcr.
Qed.
End Promises.

(** ** Examples *)

(** A world with a live token bucket: three of ten hits taken at millisecond 1000. *)
Definition tokenWorld : World LRUCache MockStore :=
  after (tokenBucket (demoReq TOKEN_BUCKET 3 1000) owner) (demoWorld 1000 (Some NewMockStore)).

Definition tokenItem : CacheItem :=
  mkItem TOKEN_BUCKET "requests_per_min_account:1234"
    (VToken (mkToken UNDER_LIMIT 10 60000 7 1000)) 61000 0.

Lemma tokenWorld_live (r : RateLimitReq) : HashKey r = "requests_per_min_account:1234" ->
  live_token tokenWorld r 0%nat tokenItem (mkToken UNDER_LIMIT 10 60000 7 1000).
Proof.
  intros Hk. split; [|rewrite Hk; split; [split; vm_compute; reflexivity|split; vm_compute; reflexivity]].
  eapply (after_triple _ _ _ world_ok); [by apply (tokenBucket_iso (demoEnv 1000) _ _ 1000)| |by intros ? ? []].
  apply (iso_start _ (demoWorld 1000 (Some NewMockStore))), demoWorld_store_ok.
Qed.

Lemma demo_plain (alg hits at_ms : Z) : plain (demoReq alg hits at_ms).
Proof. split; [by eexists|done]. Qed.

Lemma token_bucket_computes_witness : exists w',
  tokenBucket (demoReq TOKEN_BUCKET 4 2000) owner tokenWorld =
  Ret (Ok (respOf UNDER_LIMIT 10 3 61000), w').
Proof.
  destruct (token_bucket_computes tokenWorld (demoReq TOKEN_BUCKET 4 2000) owner 0%nat tokenItem _ 2000
    (tokenWorld_live (demoReq TOKEN_BUCKET 4 2000) eq_refl) eq_refl) as (w' & Hr & _).
  exists w'. exact Hr.
Defined.

Lemma token_admission_witness : exists w' t' rl,
  tokenBucket (demoReq TOKEN_BUCKET 8 2000) owner tokenWorld = Ret (Ok rl, w') /\
  rl_Status rl = OVER_LIMIT /\ tb_Remaining t' = 7.
Proof.
  destruct (token_admission tokenWorld (demoReq TOKEN_BUCKET 8 2000) owner 0%nat tokenItem _
    (tokenWorld_live (demoReq TOKEN_BUCKET 8 2000) eq_refl) (demo_plain _ _ _) eq_refl eq_refl ltac:(done) ltac:(done) ltac:(done))
    as (w' & t' & rl & Hr & _ & _ & _ & _ & _ & _ & _ & Hs & Ht).
  exists w', t', rl. done.
Defined.

Lemma token_query_witness : exists w' rl,
  tokenBucket (demoReq TOKEN_BUCKET 0 2000) owner tokenWorld = Ret (Ok rl, w') /\ rl_Remaining rl = 7.
Proof.
  destruct (token_query tokenWorld (demoReq TOKEN_BUCKET 0 2000) owner 0%nat tokenItem _
    (tokenWorld_live (demoReq TOKEN_BUCKET 0 2000) eq_refl) (demo_plain _ _ _) eq_refl eq_refl eq_refl)
    as (w' & t' & rl & Hr & _ & Hrem & _).
  exists w', rl. done.
Defined.

Lemma demo_token_wf : token_wf (mkToken UNDER_LIMIT 10 60000 7 1000).
Proof. by constructor. Qed.

Definition lowerReq : RateLimitReq :=
  mkReq "requests_per_min" "account:1234" 0 2 60000 TOKEN_BUCKET BATCHING 0 ∅ (Some 2000) 0.

Lemma token_limit_change_witness : exists w' t' rl,
  tokenBucket lowerReq owner tokenWorld = Ret (Ok rl, w') /\ tb_Remaining t' = 0.
Proof.
  destruct (token_limit_change tokenWorld
    lowerReq owner 0%nat tokenItem _ (tokenWorld_live lowerReq eq_refl) (conj (mk_is_Some _ _ eq_refl) eq_refl)
    demo_token_wf eq_refl eq_refl ltac:(done) ltac:(done))
    as (w' & t' & rl & Hr & _ & _ & Ht & _).
  exists w', t', rl. split; [exact Hr|exact Ht].
Defined.

Lemma token_bucket_invariant_witness : exists w' t' res,
  tokenBucket (demoReq TOKEN_BUCKET 4 2000) replica tokenWorld = Ret (res, w') /\ token_wf t'.
Proof.
  destruct (token_bucket_invariant tokenWorld (demoReq TOKEN_BUCKET 4 2000) replica 0%nat tokenItem _
    (tokenWorld_live (demoReq TOKEN_BUCKET 4 2000) eq_refl) (demo_plain _ _ _) demo_token_wf ltac:(done) ltac:(done) ltac:(done))
    as (w' & it' & t' & res & Hr & _ & _ & Ht & _).
  exists w', t', res. done.
Defined.

Lemma token_first_request_witness : exists w',
  tokenBucket (demoReq TOKEN_BUCKET 3 1000) owner (demoWorld 1000 None) =
  Ret (Ok (respOf UNDER_LIMIT 10 7 61000), w').
Proof.
  destruct (token_first_request (demoWorld 1000 None) (demoReq TOKEN_BUCKET 3 1000) owner 1000
    (demoWorld_ok 1000) I eq_refl eq_refl eq_refl ltac:(done) ltac:(done) ltac:(done)) as (w' & p & Hr & _).
  exists w'. exact Hr.
Defined.

Definition resetReq : RateLimitReq :=
  mkReq "requests_per_min" "account:1234" 1 10 60000 TOKEN_BUCKET RESET_REMAINING 0 ∅ (Some 2000) 0.

Lemma token_reset_witness : exists w',
  tokenBucket resetReq owner tokenWorld = Ret (Ok (respOf UNDER_LIMIT 10 10 0), w').
Proof.
  destruct (tokenWorld_live resetReq eq_refl) as (Hw & Hc & Hv & Hx).
  destruct (token_reset tokenWorld resetReq owner 0%nat tokenItem Hw Hc ltac:(done) Hx eq_refl) as (w' & Hr & _).
  exists w'. exact Hr.
Defined.

(** Half a second instead of a minute: the old window is over. *)
Definition shorterReq : RateLimitReq :=
  mkReq "requests_per_min" "account:1234" 0 10 500 TOKEN_BUCKET BATCHING 0 ∅ (Some 2000) 0.

Lemma token_duration_change_witness : exists w' t' rl,
  tokenBucket shorterReq owner tokenWorld = Ret (Ok rl, w') /\ rl_ResetTime rl = 2500 /\ tb_Remaining t' = 10.
Proof.
  destruct (token_duration_change tokenWorld shorterReq owner 0%nat tokenItem _ 2000
    (tokenWorld_live shorterReq eq_refl) eq_refl eq_refl eq_refl eq_refl ltac:(done) eq_refl ltac:(done) ltac:(done))
    as (w' & t' & rl & Hr & _ & _ & Hreset & _ & Hrem & _).
  exists w', t', rl. split; [exact Hr|]. split; [exact Hreset|exact Hrem].
Defined.

Lemma token_isolation_witness : exists res w',
  tokenBucket (demoReq TOKEN_BUCKET 4 2000) owner tokenWorld = Ret (res, w') /\ world_ok w'.
Proof.
  destruct (tokenWorld_live (demoReq TOKEN_BUCKET 4 2000) eq_refl) as (Hw & _).
  destruct (token_isolation tokenWorld (demoReq TOKEN_BUCKET 4 2000) owner Hw (mk_is_Some _ _ eq_refl))
    as (res & w' & Hr & Hok & _).
  exists res, w'. done.
Defined.
