(* ===== verification/LRUSpec.v ===== *)
(** * What the LRU cache promises

    The doubly linked list and the map of [lrucache.go] implement a list of keys in
    order of use: [GetItem] and [Add] are the abstract operations on it, the capacity
    holds after every operation, and only the item used least recently is evicted. *)

From stdpp Require Import base gmap strings list.
From Stdlib Require Import ZArith Lia.
From S2P Require Import Prelude Float64 Types GoTime Runtime LRUCache Store Demo TokenBucket TokenSpec.

Local Open Scope Z_scope.

(** The keys of the cache, most recently used first, after a lookup of [k]. *)
Definition spec_get (e : Env) (k : string) (l : list (string * Ptr)) : option Ptr * list (string * Ptr) :=
  match (list_to_map l : gmap string Ptr) !! k with
  | None => (None, l)
  | Some p =>
      match e_heap e !! p with
      | None => (None, l)
      | Some it => if expiredAt it (nowMs e) then (None, filter (fun kp => kp.1 <> k) l)
                   else (Some p, spec_touch k p l)
      end
  end.

Lemma GetItem_absent (e : Env) (c : LRUCache) (k : string) : lru_wf e c -> lc_cache c !! k = None ->
  exists e', GetItem k (e, c) = Ret (None, (e', c)) /\ e_heap e' = e_heap e.
Proof.
  intros Hw Hk. unfold GetItem, cacheGet, gets, mbind, M_bind. simpl. rewrite Hk. eexists. split; [reflexivity|done].
Qed.

Lemma recency_heap (e e' : Env) (c : LRUCache) : e_heap e' = e_heap e -> recency e' c = recency e c.
Proof. intros He. unfold recency. apply omap_ext_in. intros x _. unfold entry_of. by rewrite He. Qed.

Lemma recency_nodup (e : Env) (c : LRUCache) : lru_core e c -> NoDup (recency e c).*1.
Proof.
  intros Hc. unfold recency. pose proof (wf_nodup _ _ Hc) as Hnd.
  assert (forall id, id ∈ lc_ll c -> id ∈ lc_ll c) as Hsub by done. revert Hnd Hsub.
  generalize (lc_ll c) at 1 2 4. induction l as [|id l IH]; intros Hnd Hsub; [constructor|].
  apply NoDup_cons in Hnd as [Hid Hnd]. rewrite omap_cons.
  assert (forall x, x ∈ l -> x ∈ lc_ll c) as Hsub' by (intros x Hx; apply Hsub, elem_of_cons; by right).
  destruct (core_entry e c id Hc) as (k & p & He & Hk & _); [apply Hsub, elem_of_cons; by left|].
  rewrite He, fmap_cons. apply NoDup_cons. split; [|by apply IH].
  intros ([k' q] & Hkk & Hin)%list_elem_of_fmap. simpl in Hkk. subst k'.
  apply list_elem_of_omap in Hin as (id' & Hid' & He').
  destruct (core_entry e c id' Hc (Hsub' _ Hid')) as (k2 & p2 & He2 & Hk2 & _). congruence.
Qed.

(** The view of the cache is its list as a map. *)
Lemma recency_view (e : Env) (c : LRUCache) (k : string) : lru_core e c ->
  (list_to_map (recency e c) : gmap string Ptr) !! k = lru_view c !! k.
Proof.
  intros Hc. apply option_eq. intros p. rewrite lru_view_lookup.
  assert (NoDup (recency e c).*1) as Hnd by (by apply recency_nodup).
  rewrite <- elem_of_list_to_map by done. unfold recency. rewrite list_elem_of_omap. split.
  - intros (id & Hid & He). unfold entry_of in He. destruct (lc_elems c !! id) as [q|] eqn:Eq; [|done]. simpl in He.
    destruct (e_heap e !! q) as [it|] eqn:Ei; [|done]. injection He as <- <-.
    destruct (wf_elems _ _ Hc _ _ Eq) as (it' & Hit' & Hk). assert (it' = it) as -> by congruence. by rewrite Hk.
  - destruct (lc_cache c !! k) as [id|] eqn:E; [|done]. simpl. intros Hp.
    destruct (wf_cache _ _ Hc _ _ E) as (q & it & Hq & Hit & Hk). assert (q = p) as -> by congruence.
    exists id. split; [by apply (wf_ll _ _ Hc); eexists|]. unfold entry_of. rewrite Hq. simpl. rewrite Hit. by subst.
Qed.

(** C20: [GetItem] is a lookup in the list of keys in order of use: it finds an item
    exactly when the key is cached and has not expired, moves it to the front, and drops
    an expired one; a missing key changes nothing. *)
Theorem lru_get_refines (e : Env) (c : LRUCache) (k : string) (Hwf : lru_wf e c) :
  exists res e' c', GetItem k (e, c) = Ret (res, (e', c')) /\ lru_wf e' c' /\
    (res, recency e' c') = spec_get e k (recency e c).
Proof.
  pose proof (wf_core _ _ Hwf) as Hc. unfold spec_get. rewrite recency_view by done.
  destruct (GetItem_spec e c k Hwf) as (res & e' & c' & Hr & Hq & Hwf' & Hcase).
  exists res, e', c'. split; [done|]. split; [done|].
  destruct (lc_cache c !! k) as [id|] eqn:Hk.
  - pose proof (GetItem_recency e c k id Hwf Hk _ _ _ Hr) as Hrec.
    destruct (wf_cache _ _ Hc _ _ Hk) as (p & it & Hp & Hit & _).
    rewrite lru_view_lookup, Hk in *. simpl in *. rewrite Hp in *. rewrite Hit.
    destruct Hcase as (it' & Hit' & _ & Hcase). assert (it' = it) as -> by congruence. fold (nowMs e) in Hcase.
    destruct (expiredAt it (nowMs e)); destruct Hcase as [-> _]; by rewrite Hrec.
  - destruct (GetItem_absent e c k Hwf Hk) as (e2 & Hr2 & He2). rewrite Hr in Hr2. injection Hr2 as -> -> ->.
    rewrite lru_view_lookup, Hk. simpl. by rewrite (recency_heap e e2).
Qed.

(** C19: [Add] is the insertion into the list of keys in order of use: the key goes to the
    front, the key used least recently is dropped when the capacity is exceeded, and
    never another one. The capacity holds afterwards. *)
Theorem lru_add_refines (e : Env) (c : LRUCache) (p : Ptr) (it : CacheItem)
    (Hwf : lru_wf e c) (Hp : e_heap e !! p = Some it) :
  exists b e' c', Add p (e, c) = Ret (b, (e', c')) /\ lru_wf e' c' /\
    recency e' c' = spec_add (lc_cacheSize c) (it_Key it) p (recency e c) /\
    lc_cacheSize c' = lc_cacheSize c /\
    (lc_cacheSize c <> 0 -> Z.of_nat (length (recency e' c')) <= lc_cacheSize c) /\
    b = bool_decide (it_Key it ∈ (recency e c).*1).
Proof.
  destruct (Add_recency e c p it Hwf Hp) as (b & e' & c' & Hr & Hrec).
  pose proof (recency_key e c (it_Key it) (wf_core _ _ Hwf)) as Hkey.
  assert (lru_wf e' c' /\ lc_cacheSize c' = lc_cacheSize c /\ b = bool_decide (it_Key it ∈ (recency e c).*1))
    as (Hwf' & Hsz & Hb).
  { destruct (lc_cache c !! it_Key it) as [id|] eqn:Hk.
    - destruct (Add_hit e c p it id Hwf Hp Hk) as (Ha & Hw' & _). rewrite Hr in Ha. injection Ha as -> -> ->.
      split; [done|]. split; [done|]. symmetry. apply bool_decide_eq_true_2, Hkey. by eexists.
    - destruct (Add_miss e c p it Hwf Hp Hk) as (e2 & c2 & Ha & _ & Hw' & Hcase).
      rewrite Hr in Ha. injection Ha as -> -> ->. split; [done|]. split.
      + by destruct Hcase as [(_ & _ & ->)|(? & ? & ? & _ & _ & _ & _ & _ & _ & ->)].
      + symmetry. apply bool_decide_eq_false_2. rewrite Hkey. by intros []. }
  exists b, e', c'. do 4 (split; [done|]). split; [|done]. intros Hcap.
  rewrite (recency_length _ _ (wf_core _ _ Hwf')), <- Hsz. apply (wf_bound _ _ Hwf'). by rewrite Hsz.
Qed.

(** ** Examples *)

Definition aKey : string := "requests_per_min_account:1234".

Lemma tokenWorld_lru : lru_wf (w_env tokenWorld) (w_cache tokenWorld).
Proof. by destruct (tokenWorld_live (demoReq TOKEN_BUCKET 4 2000) eq_refl) as ([_ Hw _] & _). Qed.

Lemma lru_get_refines_witness : exists e' c',
  GetItem aKey (w_env tokenWorld, w_cache tokenWorld) = Ret (Some 0%nat, (e', c')) /\
  recency e' c' = [(aKey, 0%nat)].
Proof.
  destruct (lru_get_refines (w_env tokenWorld) (w_cache tokenWorld) aKey tokenWorld_lru) as (res & e' & c' & Hr & _ & Hs).
  replace (spec_get _ _ _) with (Some 0%nat, [(aKey, 0%nat)]) in Hs by (vm_compute; reflexivity).
  injection Hs as -> Hs. by exists e', c'.
Defined.

(** A cache of one item: the second key evicts the first. *)
Definition twoItems : Env :=
  mkEnv {[ 0%nat := mkItem TOKEN_BUCKET "a" VNil 0 0; 1%nat := mkItem TOKEN_BUCKET "b" VNil 0 0 ]} 2
    (fun _ => 0) 0 UTC ∅ fzero.

Definition onlyA : LRUCache := mkLRU {[ "a" := 0%nat ]} {[ 0%nat := 0%nat ]} [0%nat] 1 1 1 false.

Lemma onlyA_wf : lru_wf twoItems onlyA.
Proof.
  constructor; [constructor; simpl|done|done]; try done.
  - apply NoDup_singleton.
  - intros id. rewrite list_elem_of_singleton, lookup_singleton_is_Some. naive_solver.
  - intros k id [<- <-]%lookup_singleton_Some. eexists _, _. split; [apply lookup_singleton_eq|]. by vm_compute.
  - intros id p [<- <-]%lookup_singleton_Some. eexists. by split; vm_compute.
  - intros id Hid%lookup_singleton_is_Some. lia.
Qed.

Lemma lru_add_refines_witness : exists e' c',
  Add 1%nat (twoItems, onlyA) = Ret (false, (e', c')) /\ recency e' c' = [("b", 1%nat)].
Proof.
  destruct (lru_add_refines twoItems onlyA 1%nat _ onlyA_wf eq_refl) as (b & e' & c' & Hr & _ & Hrec & _ & _ & ->).
  exists e', c'. split; [exact Hr|]. rewrite Hrec. vm_compute. reflexivity.
Defined.
