(* ===== verification/LeakyBucket.v ===== *)
(** * The leaky bucket ([algorithms.go])

    [leakyBucket], [leakyBucketNewItem], [scheduleHits] and [extendDebtExpiry],
    over any cache and store.  Balances are IEEE doubles, computed bit by bit. *)

From stdpp Require Import base gmap strings list.
From Stdlib Require Import ZArith Lia SpecFloat.
From S2P Require Import Prelude Float64 Types GoTime Interval LeakyMath Runtime TokenBucket.

Local Open Scope Z_scope.
Local Open Scope go_scope.

Import Gregorian.

(** [if r.Burst == 0 { r.Burst = r.Limit }], on the caller's request. *)
Definition leakyReq (r : RateLimitReq) : RateLimitReq :=
  if r_Burst r =? 0 then with_Burst (r_Limit r) r else r.

Lemma leakyReq_fields (r : RateLimitReq) :
  r_Hits (leakyReq r) = r_Hits r /\ r_Limit (leakyReq r) = r_Limit r /\
  r_Duration (leakyReq r) = r_Duration r /\ r_Behavior (leakyReq r) = r_Behavior r /\
  r_MaxWait (leakyReq r) = r_MaxWait r /\ r_CreatedAt (leakyReq r) = r_CreatedAt r /\
  HashKey (leakyReq r) = HashKey r.
Proof. unfold leakyReq. by destruct (r_Burst r =? 0). Qed.

(** ** What a request does to the balance before it is decided *)

(** Credit of the elapsed time at [creditRate], then the rescaling of a debt that
    is still owed to the new rate. *)
Definition creditBalance (b : LeakyBucketItem) (createdAt : Z) (creditRate storedRate rate : f64)
    (rescale : bool) : LeakyBucketItem :=
  let b := if lb_UpdatedAt b <? createdAt
           then with_lbUpdatedAt createdAt
                  (with_lbRemaining (fadd (lb_Remaining b) (creditedLeak b createdAt creditRate)) b)
           else b in
  if rescale && flt (snapToZero (lb_Remaining b)) fzero
  then with_lbRemaining (fmul (lb_Remaining b) (fdiv storedRate rate)) b
  else b.

(** A burst change shifts a balance that is not in debt. *)
Definition shiftBurst (b : LeakyBucketItem) (burst : Z) : LeakyBucketItem :=
  if lb_Burst b =? burst then b
  else
    let b := if fge (snapToZero (lb_Remaining b)) fzero
             then with_lbRemaining
                    (Max fzero (fadd (lb_Remaining b) (f64_of_int (burst -i lb_Burst b)))) b
             else b in
    with_lbBurst burst b.

(** RESET_REMAINING fills to the burst; the balance never exceeds the burst. *)
Definition resetAndClamp (b : LeakyBucketItem) (burst : Z) (reset : bool) : LeakyBucketItem :=
  let b := if reset then with_lbRemaining (f64_of_int burst) b else b in
  with_lbRemaining (snapToZero (Min (f64_of_int (lb_Burst b)) (lb_Remaining b))) b.

(** The configuration decisions at the head of [leakyBucket]. *)
Record LeakyPlan : Type := mkPlan {
  pl_storedRate : f64;
  pl_configChanged : bool;
  pl_keepStored : bool;
  pl_rescale : bool;
  pl_burst : Z
}.

Definition leakyPlan (b : LeakyBucketItem) (r : RateLimitReq) (createdAt : Z) : LeakyPlan :=
  let rate := rateOf (r_Duration r) (r_Limit r) in
  let gregorian := HasBehavior (r_Behavior r) DURATION_IS_GREGORIAN in
  let storedRate := rateOf (lb_Duration b) (lb_Limit b) in
  let storedUsable := negb (unusableRate storedRate) in
  let requestUsable := (0 <? r_Limit r) && (0 <? r_Duration r) && negb (unusableRate rate) in
  let configChanged := negb (lb_Limit b =? r_Limit r) || negb (lb_Duration b =? r_Duration r) in
  let inDebt := flt (lb_Remaining b) fzero in
  let keepStored := (gregorian || negb requestUsable) && inDebt && storedUsable in
  let rescale := negb gregorian && requestUsable && inDebt && configChanged && storedUsable in
  let burst :=
    if debtAt b createdAt &&
       ((r_Burst r <? 0) || ((r_Burst r =? 0) && negb (HasBehavior (r_Behavior r) RESET_REMAINING)))
    then lb_Burst b else r_Burst r in
  mkPlan storedRate configChanged keepStored rescale burst.

(** The balance after leak, rescaling and burst change. *)
Definition leakyCredit (b : LeakyBucketItem) (r : RateLimitReq) (createdAt : Z) (requestRate : f64)
    : LeakyBucketItem :=
  let plan := leakyPlan b r createdAt in
  let rate := if pl_keepStored plan then pl_storedRate plan else requestRate in
  let creditRate := if pl_rescale plan then pl_storedRate plan else rate in
  let b := creditBalance b createdAt creditRate (pl_storedRate plan) rate (pl_rescale plan) in
  shiftBurst b (pl_burst plan).

(** The balance a request is decided on, with the rate in force: the request's
    configuration is adopted unless a debt still owed keeps the stored one. *)
Definition leakySettle (b : LeakyBucketItem) (r : RateLimitReq) (createdAt : Z) (requestRate : f64)
    : LeakyBucketItem * f64 :=
  let plan := leakyPlan b r createdAt in
  let rate := if pl_keepStored plan then pl_storedRate plan else requestRate in
  let b := leakyCredit b r createdAt requestRate in
  let b := resetAndClamp b (pl_burst plan) (HasBehavior (r_Behavior r) RESET_REMAINING) in
  if negb (pl_keepStored plan) || fge (lb_Remaining b) fzero
  then (with_lbConfig (r_Limit r) (r_Duration r) b, requestRate)
  else (b, rate).

(** The response to a query. *)
Definition leakyReport `{Arch} (b : LeakyBucketItem) (createdAt : Z) (rate : f64) : RateLimitResp :=
  respOf UNDER_LIMIT (lb_Limit b) (spendableTokens (lb_Remaining b))
    (if flt (lb_Remaining b) fzero then fullAt b rate
     else createdAt +i (lb_Limit b -i wholeTokens (lb_Remaining b)) *i int64_of_f rate).

Section Algorithm.
Context `{Arch} {C S : Type} `{CacheOps C} `{StoreOps S}.

Abbreviation W := (World C S).

(** Writing the bucket of an item in place. *)
Definition setLeaky (p : Ptr) (b : LeakyBucketItem) : M W unit :=
  item ← onEnv (load p); onEnv (save p (with_Value (VLeaky b) item)).

(** [extendDebtExpiry]: the bucket is the one the item points to. *)
Definition extendDebtExpiry (p : Ptr) (now duration : Z) (rate : f64) : M W unit :=
  item ← onEnv (load p);
  match it_Value item with
  | VLeaky b =>
      onCache (c_UpdateExpiration (it_Key item)
                 (Z.max (Z.max (it_ExpireAt item) (now +i duration)) (fullAt b rate)));;
      mret tt
  | _ => panic "not a leaky bucket"
  end.

(** The wait a booking of [hits] needs, in milliseconds. *)
Definition bookingWait (b : LeakyBucketItem) (hits now : Z) (rate : f64) : Z :=
  Z.max 1 (millis (Ceil (fsub (fadd (f64_of_int (Z.max (lb_UpdatedAt b) now -i now))
                                    (fmul (fsub (f64_of_int hits) (lb_Remaining b)) rate)) c1em6))).

Definition scheduleHits (p : Ptr) (b : LeakyBucketItem) (r : RateLimitReq) (st : RateLimitReqState)
    (rl : RateLimitResp) (now duration : Z) (rate : f64) (wasInDebt : bool) : M W RateLimitResp :=
  if (lb_Burst b <? r_Hits r) || unusableRate rate then
    countOverLimit st;;
    mret (with_Status NEVER_FITS rl)
  else if r_Hits r <=? wholeTokens (lb_Remaining b) then
    let b := with_lbRemaining (snapToZero (fsub (lb_Remaining b) (f64_of_int (r_Hits r)))) b in
    setLeaky p b;;
    let rl := with_Remaining (spendableTokens (lb_Remaining b)) rl in
    let rl := with_ResetTime (now +i (rl_Limit rl -i rl_Remaining rl) *i int64_of_f rate) rl in
    when wasInDebt (extendDebtExpiry p now duration rate);;
    mret rl
  else
    let wait := bookingWait b (r_Hits r) now rate in
    let ceiling := Milliseconds (WaitCeiling st) in
    if Z.min (r_MaxWait r) ceiling <? wait then
      countOverLimit st;;
      when (IsOwner st && ((ceiling <? wait) && (wait <=? r_MaxWait r)))
        (onEnv (incr "gubernator_scheduled_ceiling_refused_count"));;
      mret (with_RetryAfter wait (with_Status OVER_LIMIT rl))
    else
      let b := with_lbRemaining (fsub (lb_Remaining b) (f64_of_int (r_Hits r))) b in
      setLeaky p b;;
      let rl := with_ResetTime (fullAt b rate)
                  (with_Remaining 0 (with_RetryAfter wait (with_Status SCHEDULED rl))) in
      when (IsOwner st) (onEnv (incr "gubernator_scheduled_count"));;
      extendDebtExpiry p now duration rate;;
      mret rl.

(** The last part of [leakyBucket]: report, schedule, refund, refuse or admit. *)
Definition leakyDecide (p : Ptr) (b : LeakyBucketItem) (r : RateLimitReq) (st : RateLimitReqState)
    (rl : RateLimitResp) (createdAt duration : Z) (rate : f64) (wasInDebt : bool) : M W RateLimitResp :=
  if r_Hits r =? 0 then mret rl
  else if 0 <? r_MaxWait r then
    scheduleHits p b r st rl createdAt duration rate wasInDebt
  else if (r_Hits r <? 0) && flt (lb_Remaining b) fzero then
    extendDebtExpiry p createdAt duration rate;;
    mret rl
  else if wholeTokens (lb_Remaining b) <? r_Hits r then
    countOverLimit st;;
    let rl := with_Status OVER_LIMIT rl in
    if HasBehavior (r_Behavior r) DRAIN_OVER_LIMIT then
      setLeaky p (with_lbRemaining (Min (lb_Remaining b) fzero) b);;
      mret (with_Remaining 0 rl)
    else mret rl
  else
    let b := with_lbRemaining
               (snapToZero (Min (f64_of_int (lb_Burst b)) (fsub (lb_Remaining b) (f64_of_int (r_Hits r))))) b in
    setLeaky p b;;
    let rl := with_Remaining (wholeTokens (lb_Remaining b)) rl in
    let rl := with_ResetTime (createdAt +i (rl_Limit rl -i rl_Remaining rl) *i int64_of_f rate) rl in
    when wasInDebt (extendDebtExpiry p createdAt duration rate);;
    mret rl.

(** Called by [leakyBucket] when adding a new item. *)
Definition leakyBucketNewItem (r : RateLimitReq) (st : RateLimitReqState) : M W (result RateLimitResp) :=
  createdAt ← derefCreatedAt r;
  createdAt ← (if 0 <? r_MaxWait r then now ← onEnv Now; mret (epochMillis now) else mret createdAt);
  let rate := rateOf (r_Duration r) (r_Limit r) in
  duration ←
    (if HasBehavior (r_Behavior r) DURATION_IS_GREGORIAN then
       n ← onEnv Now;
       mret (match GregorianExpiration n (r_Duration r) with
             | Err e => Err e
             | Ok expire => Ok (expire -i quot64 (UnixNano n) 1000000)
             end)
     else mret (Ok (r_Duration r)));
  match duration with
  | Err e => mret (Err e)
  | Ok duration =>
      if (0 <? r_MaxWait r) && (r_Burst r <? r_Hits r) then
        countOverLimit st;;
        mret (Ok (respOf NEVER_FITS (r_Limit r) (r_Burst r)
                    (createdAt +i (r_Limit r -i r_Burst r) *i int64_of_f rate)))
      else
        let remaining := Z.min (r_Burst r) (r_Burst r -i r_Hits r) in
        let b := mkLeaky (r_Limit r) duration (f64_of_int remaining) createdAt (r_Burst r) in
        let rl := respOf UNDER_LIMIT (r_Limit r) remaining
                    (createdAt +i (r_Limit r -i remaining) *i int64_of_f rate) in
        tr ← (if r_Burst r <? r_Hits r then
                countOverLimit st;;
                mret (with_lbRemaining fzero b,
                      with_ResetTime (createdAt +i (r_Limit r -i 0) *i int64_of_f rate)
                        (with_Remaining 0 (with_Status OVER_LIMIT rl)))
              else mret (b, rl));
        let '(b, rl) := tr in
        p ← onEnv (alloc (mkItem (r_Algorithm r) (HashKey r) (VLeaky b) (createdAt +i duration) 0));
        onCache (c_Add p);;
        notifyStore r st p;;
        mret (Ok rl)
  end.

(** The rate and the duration of the request, and the duration's end of a Gregorian one. *)
Definition leakyRate (r : RateLimitReq) : M W (result (f64 * Z)) :=
  if HasBehavior (r_Behavior r) DURATION_IS_GREGORIAN then
    now ← onEnv Now;
    match GregorianDuration now (r_Duration r) with
    | Err e => mret (Err e)
    | Ok d =>
        n ← onEnv Now;
        match GregorianExpiration n (r_Duration r) with
        | Err e => mret (Err e)
        | Ok expire => mret (Ok (rateOf d (r_Limit r), expire -i quot64 (UnixNano n) 1000000))
        end
    end
  else mret (Ok (rateOf (r_Duration r) (r_Limit r), r_Duration r)).

(** [leakyBucket] once the request is timed and its rate and duration known. *)
Definition leakyApply (p : Ptr) (b : LeakyBucketItem) (r : RateLimitReq) (st : RateLimitReqState)
    (createdAt duration : Z) (requestRate : f64) : M W (result RateLimitResp) :=
  let plan := leakyPlan b r createdAt in
  let reset := HasBehavior (r_Behavior r) RESET_REMAINING in
  let wasInDebt := flt (lb_Remaining b) fzero && negb reset in
  let burstChanged := negb (lb_Burst b =? pl_burst plan) in
  when (negb (r_Hits r =? 0) && negb wasInDebt)
    (onCache (c_UpdateExpiration (HashKey r) (createdAt +i duration));; mret tt);;
  when (reset && flt (snapToZero (lb_Remaining (leakyCredit b r createdAt requestRate))) fzero)
    (onEnv (incr "gubernator_scheduled_debt_reset_count"));;
  let '(b, rate) := leakySettle b r createdAt requestRate in
  setLeaky p b;;
  let rl := leakyReport b createdAt rate in
  rl ← leakyDecide p b r st rl createdAt duration rate wasInDebt;
  (* deferred, last in first out *)
  when (wasInDebt && (burstChanged || pl_configChanged plan) && negb (unusableRate rate))
    (extendDebtExpiry p createdAt duration rate);;
  notifyStore r st p;;
  mret (Ok rl).

(** [leakyBucket] from the type assertion on: [b] is the bucket of item [p]. A
    max_wait request and a key in debt are timed by the owner's clock. *)
Definition ownerTimed (b : LeakyBucketItem) (r : RateLimitReq) : bool :=
  (0 <? r_MaxWait r) || flt (lb_Remaining b) fzero.

Definition leakyUpdate (p : Ptr) (b : LeakyBucketItem) (r : RateLimitReq) (st : RateLimitReqState)
    (createdAt : Z) : M W (result RateLimitResp) :=
  createdAt ← (if ownerTimed b r then now ← onEnv Now; mret (epochMillis now) else mret createdAt);
  found ← leakyRate r;
  match found with
  | Err e => mret (Err e)
  | Ok (requestRate, duration) => leakyApply p b r st createdAt duration requestRate
  end.

(** [leakyBucket]; the caller's request becomes [leakyReq r]. *)
Definition leakyBucket (r : RateLimitReq) (st : RateLimitReqState) : M W (result RateLimitResp) :=
  let r := leakyReq r in
  createdAt ← derefCreatedAt r;
  found ← fetchItem r;
  match found with
  | None => leakyBucketNewItem r st
  | Some p =>
      item ← onEnv (load p);
      match it_Value item with
      | VLeaky b => leakyUpdate p b r st createdAt
      | _ => dropItem (HashKey r);; leakyBucketNewItem r st
      end
  end.
End Algorithm.

(** ** Isolation

    [leakyBucket] never panics on a request with a creation time, and changes no
    item of another key. *)

Section Iso.
Context `{Arch} {C S : Type} `{CacheLaws C} `{StoreLaws S}.
Variables (h : Env) (k : string).

Abbreviation W := (World C S).

(** The handler's own item, holding a leaky bucket. *)
Definition leakyOwned (p : Ptr) (w : W) : Prop :=
  iso h k w /\ exists it b, e_heap (w_env w) !! p = Some it /\ it_Key it = k /\ it_Value it = VLeaky b.

Lemma leakyOwned_owned (p : Ptr) (w : W) : leakyOwned p w -> owned h k p w.
Proof. intros [Hi (it & b & Hp & Hk & _)]. split; [done|by exists it]. Qed.

Lemma leakyOwned_step (p : Ptr) (w w' : W) :
  leakyOwned p w -> world_ok w' -> env_grow (w_env w) (w_env w') -> leakyOwned p w'.
Proof.
  intros [Hi (it & b & Hp & Hk)] Hok Hg. split; [by apply (iso_step h k w)|].
  exists it, b. split; [|done]. eapply lookup_weaken; [done|apply Hg].
Qed.

Lemma leakyOwned_quiet {A} (p : Ptr) (m : M Env A) :
  (forall e, exists a e', m e = Ret (a, e') /\ env_quiet e e') ->
  triple (leakyOwned p) (onEnv m : M W A) (fun _ => leakyOwned p).
Proof.
  intros Hm w Hi. destruct (onEnv_quiet_run m w (proj1 (proj1 Hi)) Hm) as (a & w' & Hr & Hok & Hg).
  exists a, w'. split; [done|by eapply leakyOwned_step].
Qed.

Lemma setLeaky_owned (p : Ptr) (b : LeakyBucketItem) :
  triple (owned h k p) (setLeaky p b : M W _) (fun _ => leakyOwned p).
Proof.
  unfold setLeaky. apply (triple_bind _ _ _ _ _ (owned_load h k p)). intros it. cbv beta.
  apply triple_pure. intros Hk w Ho.
  destruct (owned_save h k p (with_Value (VLeaky b) it) Hk w Ho) as ([] & w' & Hr & [Hi _]).
  exists tt, w'. split; [done|]. split; [done|]. injection Hr as <-. simpl.
  eexists _, b. split; [apply lookup_insert_eq|done].
Qed.

Lemma UpdateExpiration_leaky (p : Ptr) (t : Z) :
  triple (leakyOwned p) (onCache (c_UpdateExpiration k t) : M W _) (fun _ => leakyOwned p).
Proof.
  intros w Ho. pose proof Ho as [[Hok _] (it & b & Hp & Hk & Hv)].
  destruct (UpdateExpiration_owned h k p t w (leakyOwned_owned p w Ho)) as (x & w' & Hr & [Hi' _]).
  exists x, w'. split; [done|]. split; [done|].
  destruct (c_UpdateExpiration_ok (w_env w) (w_cache w) k t (wo_cache _ Hok)) as (x' & e' & Hr' & _ & Hm).
  rewrite (onCache_run _ _ _ _ _ Hr') in Hr. injection Hr as <- <-. simpl.
  destruct (c_view (w_cache w) !! k) as [q|]; destruct Hm as [_ Hm]; [|subst e'; by exists it, b].
  destruct Hm as (iq & Hq & ->). simpl. destruct (decide (q = p)) as [->|Hne].
  - simplify_eq. rewrite lookup_insert_eq. by eexists _, b.
  - rewrite lookup_insert_ne by done. by exists it, b.
Qed.

Lemma extendDebtExpiry_leaky (p : Ptr) (now duration : Z) (rate : f64) :
  triple (leakyOwned p) (extendDebtExpiry p now duration rate : M W _) (fun _ => leakyOwned p).
Proof.
  intros w Ho. pose proof Ho as [_ (it & b & Hp & Hk & Hv)]. unfold extendDebtExpiry.
  rewrite (bind_ret_run _ _ _ w it) by (by apply load_run). rewrite Hv, Hk.
  assert (triple (leakyOwned p) (onCache (c_UpdateExpiration k
    (Z.max (Z.max (it_ExpireAt it) (now +i duration)) (fullAt b rate)));; mret tt) (fun _ : unit => leakyOwned p)) as Ht;
    [|by apply Ht].
  eapply triple_bind; [apply UpdateExpiration_leaky|]. intros ?. by apply triple_ret.
Qed.

Lemma notifyStore_leaky (r : RateLimitReq) (st : RateLimitReqState) (p : Ptr) :
  triple (leakyOwned p) (notifyStore r st p : M W _) (fun _ => leakyOwned p).
Proof.
  intros w Ho. pose proof Ho as [_ (it & b & Hp & _)].
  destruct (notifyStore_run w r st p (proj1 (proj1 Ho))) as (e' & s' & Hr & Hg & Hok); [by eexists|].
  exists tt, (mkWorld e' (w_cache w) s'). split; [done|by apply (leakyOwned_step p w)].
Qed.

Lemma countOverLimit_leaky (st : RateLimitReqState) (p : Ptr) :
  triple (leakyOwned p) (countOverLimit st : M W _) (fun _ => leakyOwned p).
Proof.
  unfold countOverLimit, when. triple_step; [|by apply triple_ret]. apply leakyOwned_quiet, incr_calm.
Qed.

Lemma setLeaky_leaky (p : Ptr) (b : LeakyBucketItem) :
  triple (leakyOwned p) (setLeaky p b : M W _) (fun _ => leakyOwned p).
Proof. eapply triple_pre; [apply leakyOwned_owned|apply setLeaky_owned]. Qed.

Lemma when_leaky (b : bool) (p : Ptr) (m : M W unit) : triple (leakyOwned p) m (fun _ => leakyOwned p) ->
  triple (leakyOwned p) (when b m) (fun _ => leakyOwned p).
Proof. intros Hm. destruct b; [done|by apply triple_ret]. Qed.
End Iso.

#[export] Hint Resolve leakyOwned_quiet setLeaky_leaky extendDebtExpiry_leaky notifyStore_leaky
  countOverLimit_leaky when_leaky : triple.

Section Iso2.
Context `{Arch} {C S : Type} `{CacheLaws C} `{StoreLaws S}.
Variables (h : Env) (k : string).

Abbreviation W := (World C S).

Lemma leakyDecide_leaky (p : Ptr) (b : LeakyBucketItem) (r : RateLimitReq) (st : RateLimitReqState)
    (rl : RateLimitResp) (createdAt duration : Z) (rate : f64) (wasInDebt : bool) :
  triple (leakyOwned h k p) (leakyDecide p b r st rl createdAt duration rate wasInDebt : M W _)
    (fun _ => leakyOwned h k p).
Proof. unfold leakyDecide, scheduleHits. cbv zeta. triple_auto; done. Qed.

Lemma nowMillis_triple (b : bool) (z : Z) (P : W -> Prop) :
  triple P (onEnv Now : M W _) (fun _ => P) ->
  triple P (if b then now ← onEnv Now; mret (epochMillis now) else mret z : M W _) (fun _ => P).
Proof.
  intros HN. destruct b; [|by apply triple_ret]. eapply triple_bind; [exact HN|]. intros ?. by apply triple_ret.
Qed.

Lemma leakyRate_triple (r : RateLimitReq) (P : W -> Prop) : triple P (onEnv Now : M W _) (fun _ => P) ->
  triple P (leakyRate r : M W _) (fun _ => P).
Proof.
  intros HN. unfold leakyRate. destruct (HasBehavior _ _); [|by apply triple_ret].
  eapply triple_bind; [exact HN|]. intros ?. destruct (GregorianDuration _ _); [|by apply triple_ret].
  eapply triple_bind; [exact HN|]. intros ?. destruct (GregorianExpiration _ _); by apply triple_ret.
Qed.

Lemma leakyApply_owned (p : Ptr) (b : LeakyBucketItem) (r : RateLimitReq) (st : RateLimitReqState)
    (createdAt duration : Z) (rate : f64) : HashKey r = k ->
  triple (owned h k p) (leakyApply p b r st createdAt duration rate : M W _) (fun _ => owned h k p).
Proof.
  intros Hk. unfold leakyApply. cbv zeta.
  apply (triple_bind _ _ _ (fun _ => owned h k p)).
  { unfold when. destruct (_ && _); [|by apply triple_ret]. rewrite Hk. triple_auto; done. }
  intros _. apply (triple_bind _ _ _ (fun _ => owned h k p)).
  { unfold when. destruct (_ && _); [auto with triple|by apply triple_ret]. }
  intros _. destruct (leakySettle b r createdAt rate) as [b' rate'].
  eapply triple_bind; [apply setLeaky_owned|]. intros ?. cbv beta.
  eapply triple_bind; [apply leakyDecide_leaky|]. intros rl. cbv beta.
  apply (triple_post _ _ (fun _ => leakyOwned h k p)); [intros _; apply leakyOwned_owned|].
  triple_auto; done.
Qed.

Lemma leakyUpdate_owned (p : Ptr) (b : LeakyBucketItem) (r : RateLimitReq) (st : RateLimitReqState)
    (createdAt : Z) : HashKey r = k ->
  triple (owned h k p) (leakyUpdate p b r st createdAt : M W _) (fun _ => owned h k p).
Proof.
  intros Hk. unfold leakyUpdate.
  eapply triple_bind; [apply nowMillis_triple; auto with triple|]. intros now. cbv beta.
  eapply triple_bind; [apply leakyRate_triple; auto with triple|]. intros [[rate duration]|e];
    [|by apply triple_ret]. by apply leakyApply_owned.
Qed.

Lemma leakyBucketNewItem_iso (r : RateLimitReq) (st : RateLimitReqState) (c : Z) :
  r_CreatedAt r = Some c -> HashKey r = k ->
  triple (iso h k) (leakyBucketNewItem r st : M W _) (fun _ => iso h k).
Proof.
  intros Hc Hk. unfold leakyBucketNewItem.
  eapply triple_bind; [by apply derefCreatedAt_run|]. intros a. cbv beta. apply triple_pure. intros ->.
  eapply triple_bind; [apply nowMillis_triple; auto with triple|]. intros now. cbv zeta.
  apply (triple_bind _ _ _ (fun _ => iso h k)).
  { destruct (HasBehavior _ _); [|by apply triple_ret]. triple_auto; done. }
  pose proof (countOverLimit_iso (C := C) (S := S) h k st) as Hover.
  intros [duration|e]; [|by apply triple_ret]. destruct (_ && _).
  { eapply triple_bind; [exact Hover|]. intros ?. cbv beta. by apply triple_ret. }
  apply (triple_bind _ _ _ (fun _ => iso h k)).
  { destruct (_ <? _); [|by apply triple_ret]. eapply triple_bind; [exact Hover|]. intros ?. cbv beta. by apply triple_ret. }
  intros [b rl]. eapply triple_bind; [by apply (owned_alloc h k)|]. intros p. cbv beta.
  eapply triple_bind; [apply Add_owned|]. intros ?. cbv beta.
  eapply triple_bind; [apply notifyStore_owned|]. intros ?. cbv beta. apply triple_ret. intros w. apply owned_iso.
Qed.

Lemma leakyReq_key (r : RateLimitReq) : HashKey (leakyReq r) = HashKey r.
Proof. unfold leakyReq. by destruct (_ =? _). Qed.

Lemma leakyReq_createdAt (r : RateLimitReq) : r_CreatedAt (leakyReq r) = r_CreatedAt r.
Proof. unfold leakyReq. by destruct (_ =? _). Qed.
End Iso2.

Lemma leakyBucket_iso `{Arch} {C S : Type} `{CacheLaws C} `{StoreLaws S} (h : Env)
    (r : RateLimitReq) (st : RateLimitReqState) (c : Z) :
  r_CreatedAt r = Some c ->
  triple (iso h (HashKey r)) (leakyBucket r st : M (World C S) _) (fun _ => iso h (HashKey r)).
Proof.
  intros Hc. unfold leakyBucket. rewrite <- (leakyReq_key r).
  rewrite <- (leakyReq_createdAt r) in Hc. set (r' := leakyReq r) in *.
  eapply triple_bind; [by apply derefCreatedAt_run|]. intros a. cbv beta. apply triple_pure. intros ->.
  apply (triple_bind _ _ _ _ _ (fetchItem_iso h r')).
  pose proof (leakyBucketNewItem_iso (C := C) (S := S) h (HashKey r') r' st c Hc eq_refl) as Hnew.
  intros [p|]; [|exact Hnew].
  eapply triple_bind; [apply owned_load|]. intros it. cbv beta. apply triple_pure. intros Hk.
  pose proof (dropItem_iso (C := C) (S := S) h (HashKey r')) as Hdrop.
  destruct (it_Value it) as [| |b|];
    try (eapply triple_pre; [apply owned_iso|]; apply (triple_bind _ _ _ _ _ Hdrop); intros _; exact Hnew).
  apply (triple_post _ _ (fun _ => owned h (HashKey r') p)); [intros _; apply owned_iso|].
  by apply leakyUpdate_owned.
Qed.

(** ** The algorithm as a function

    What [leakyBucket] does to the bucket and the expiry of a live item, and the
    response, without the heap. *)

Section Function.
Context `{Arch}.

(** Bucket, expiry of its item, response. *)
Definition Outcome : Type := LeakyBucketItem * Z * RateLimitResp.

Definition extended (b : LeakyBucketItem) (exp now duration : Z) (rate : f64) : Z :=
  Z.max (Z.max exp (now +i duration)) (fullAt b rate).

Definition spend (b : LeakyBucketItem) (f : f64) : LeakyBucketItem := with_lbRemaining f b.

Definition schedule_hits (b : LeakyBucketItem) (exp : Z) (r : RateLimitReq) (st : RateLimitReqState)
    (rl : RateLimitResp) (now duration : Z) (rate : f64) (wasInDebt : bool) : Outcome :=
  if (lb_Burst b <? r_Hits r) || unusableRate rate then (b, exp, with_Status NEVER_FITS rl)
  else if r_Hits r <=? wholeTokens (lb_Remaining b) then
    let b := spend b (snapToZero (fsub (lb_Remaining b) (f64_of_int (r_Hits r)))) in
    let rl := with_Remaining (spendableTokens (lb_Remaining b)) rl in
    (b, if wasInDebt then extended b exp now duration rate else exp,
     with_ResetTime (now +i (rl_Limit rl -i rl_Remaining rl) *i int64_of_f rate) rl)
  else
    let wait := bookingWait b (r_Hits r) now rate in
    if Z.min (r_MaxWait r) (Milliseconds (WaitCeiling st)) <? wait
    then (b, exp, with_RetryAfter wait (with_Status OVER_LIMIT rl))
    else
      let b := spend b (fsub (lb_Remaining b) (f64_of_int (r_Hits r))) in
      (b, extended b exp now duration rate,
       with_ResetTime (fullAt b rate) (with_Remaining 0 (with_RetryAfter wait (with_Status SCHEDULED rl)))).

Definition leaky_decide (b : LeakyBucketItem) (exp : Z) (r : RateLimitReq) (st : RateLimitReqState)
    (rl : RateLimitResp) (createdAt duration : Z) (rate : f64) (wasInDebt : bool) : Outcome :=
  if r_Hits r =? 0 then (b, exp, rl)
  else if 0 <? r_MaxWait r then schedule_hits b exp r st rl createdAt duration rate wasInDebt
  else if (r_Hits r <? 0) && flt (lb_Remaining b) fzero then
    (b, extended b exp createdAt duration rate, rl)
  else if wholeTokens (lb_Remaining b) <? r_Hits r then
    let rl := with_Status OVER_LIMIT rl in
    if HasBehavior (r_Behavior r) DRAIN_OVER_LIMIT
    then (spend b (Min (lb_Remaining b) fzero), exp, with_Remaining 0 rl)
    else (b, exp, rl)
  else
    let b := spend b (snapToZero (Min (f64_of_int (lb_Burst b))
                                      (fsub (lb_Remaining b) (f64_of_int (r_Hits r))))) in
    let rl := with_Remaining (wholeTokens (lb_Remaining b)) rl in
    (b, if wasInDebt then extended b exp createdAt duration rate else exp,
     with_ResetTime (createdAt +i (rl_Limit rl -i rl_Remaining rl) *i int64_of_f rate) rl).

Definition leaky_update (b : LeakyBucketItem) (exp : Z) (r : RateLimitReq) (st : RateLimitReqState)
    (createdAt duration : Z) (requestRate : f64) : Outcome :=
  let plan := leakyPlan b r createdAt in
  let wasInDebt := flt (lb_Remaining b) fzero && negb (HasBehavior (r_Behavior r) RESET_REMAINING) in
  let burstChanged := negb (lb_Burst b =? pl_burst plan) in
  let exp := if negb (r_Hits r =? 0) && negb wasInDebt then createdAt +i duration else exp in
  let '(b, rate) := leakySettle b r createdAt requestRate in
  let '(b, exp, rl) := leaky_decide b exp r st (leakyReport b createdAt rate) createdAt duration rate wasInDebt in
  (b, if wasInDebt && (burstChanged || pl_configChanged plan) && negb (unusableRate rate)
      then extended b exp createdAt duration rate else exp, rl).
End Function.

(** ** Running the algorithm *)

Section Run.
Context `{Arch} {C S : Type} `{CacheLaws C} `{StoreLaws S}.

Abbreviation W := (World C S).

(** The item [it] holding bucket [b] until [exp]. *)
Definition leakyItem (it : CacheItem) (b : LeakyBucketItem) (exp : Z) : CacheItem :=
  mkItem (it_Algorithm it) (it_Key it) (VLeaky b) exp (it_InvalidAt it).

Section At.
Variables (w0 : W) (p : Ptr) (it : CacheItem) (k : string).
Hypotheses (Hw0 : world_ok w0) (Hc0 : cached w0 k p it).

(** As [w0], but item [p] holds [b] until [exp]. *)
Definition At (b : LeakyBucketItem) (exp : Z) (w : W) : Prop := wrote w0 p (leakyItem it b exp) w.

Lemma At_heap (b : LeakyBucketItem) (exp : Z) (w : W) : At b exp w ->
  e_heap (w_env w) !! p = Some (leakyItem it b exp).
Proof. intros Ha. rewrite (wrote_heap _ _ _ _ Ha). apply lookup_insert_eq. Qed.

Lemma At_ok (b : LeakyBucketItem) (exp : Z) (w : W) : At b exp w -> world_ok w.
Proof. intros Ha. exact (wrote_ok w0 w p it (leakyItem it b exp) Hw0 (proj2 Hc0) eq_refl Ha). Qed.

Lemma At_quiet {A} (b : LeakyBucketItem) (exp : Z) (m : M Env A) :
  (forall e, exists a e', m e = Ret (a, e') /\ env_quiet e e') ->
  triple (At b exp) (onEnv m : M W A) (fun _ => At b exp).
Proof.
  intros Hm w Ha. destruct (Hm (w_env w)) as (a & e' & Hr & Hq).
  exists a, (mkWorld e' (w_cache w) (w_store w)). split; [by apply onEnv_run|].
  eapply wrote_trans; [exact Ha|]. apply wrote_same; [by apply At_heap|done].
Qed.

Lemma At_set (b b' : LeakyBucketItem) (exp : Z) :
  triple (At b exp) (setLeaky p b' : M W _) (fun _ => At b' exp).
Proof.
  intros w Ha. eexists tt, _. unfold setLeaky.
  rewrite (bind_ret_run _ _ _ w (leakyItem it b exp)) by (apply load_run; by apply At_heap).
  split; [done|]. eapply wrote_trans; [exact Ha|apply wrote_set].
Qed.

Lemma At_update (b : LeakyBucketItem) (exp exp' : Z) :
  triple (At b exp) (onCache (c_UpdateExpiration k exp') : M W _) (fun _ => At b exp').
Proof.
  intros w Ha. pose proof (At_ok _ _ _ Ha) as Hok.
  destruct (c_UpdateExpiration_ok (w_env w) (w_cache w) k exp' (wo_cache _ Hok)) as (x & e' & Hr & _ & Hm).
  assert (w_cache w = w_cache w0) as Hcache by apply Ha.
  rewrite Hcache, (proj1 Hc0) in Hm. destruct Hm as (_ & it' & Hp & ->).
  rewrite (At_heap _ _ _ Ha) in Hp. injection Hp as <-.
  eexists x, _. split; [by apply onCache_run|]. eapply wrote_trans; [exact Ha|apply wrote_set].
Qed.

Lemma At_extend (b : LeakyBucketItem) (exp now duration : Z) (rate : f64) :
  triple (At b exp) (extendDebtExpiry p now duration rate : M W _)
    (fun _ => At b (extended b exp now duration rate)).
Proof.
  intros w Ha. unfold extendDebtExpiry.
  rewrite (bind_ret_run _ _ _ w (leakyItem it b exp)) by (apply load_run; by apply At_heap). simpl.
  rewrite (cached_key w0 k p it Hw0 Hc0).
  destruct (At_update b exp (extended b exp now duration rate) w Ha) as (x & w' & Hr & Ha').
  rewrite (bind_ret_run _ _ _ _ _ Hr). by exists tt, w'.
Qed.

Lemma At_over (b : LeakyBucketItem) (exp : Z) (st : RateLimitReqState) :
  triple (At b exp) (countOverLimit st : M W _) (fun _ => At b exp).
Proof. unfold countOverLimit, when. destruct (IsOwner st); [|by apply triple_ret]. apply At_quiet, incr_calm. Qed.

Lemma At_when_count (b : LeakyBucketItem) (exp : Z) (c : bool) (n : string) :
  triple (At b exp) (when c (onEnv (incr n)) : M W _) (fun _ => At b exp).
Proof. destruct c; [|by apply triple_ret]. apply At_quiet, incr_calm. Qed.

Lemma At_when_extend (b : LeakyBucketItem) (exp now duration : Z) (rate : f64) (c : bool) :
  triple (At b exp) (when c (extendDebtExpiry p now duration rate) : M W _)
    (fun _ => At b (if c then extended b exp now duration rate else exp)).
Proof. destruct c; [|by apply triple_ret]. apply At_extend. Qed.

(** An outcome is reached. *)
Definition reached (o : Outcome) (rl : RateLimitResp) (w : W) : Prop :=
  rl = snd o /\ At (fst (fst o)) (snd (fst o)) w.

Ltac at_step := eapply triple_bind;
  [first [apply At_over|apply At_set|apply At_when_count|apply At_when_extend|apply At_extend]|
   intros ?; cbv beta].

Lemma scheduleHits_run (b : LeakyBucketItem) (exp : Z) (r : RateLimitReq) (st : RateLimitReqState)
    (rl : RateLimitResp) (now duration : Z) (rate : f64) (wasInDebt : bool) :
  triple (At b exp) (scheduleHits p b r st rl now duration rate wasInDebt : M W _)
    (reached (schedule_hits b exp r st rl now duration rate wasInDebt)).
Proof.
  unfold scheduleHits, schedule_hits. cbv zeta. destruct (_ || _); [|destruct (_ <=? _); [|destruct (_ <? _)]].
  all: repeat at_step; apply triple_ret; intros w Ha; by split.
Qed.

Lemma leakyDecide_run (b : LeakyBucketItem) (exp : Z) (r : RateLimitReq) (st : RateLimitReqState)
    (rl : RateLimitResp) (createdAt duration : Z) (rate : f64) (wasInDebt : bool) :
  triple (At b exp) (leakyDecide p b r st rl createdAt duration rate wasInDebt : M W _)
    (reached (leaky_decide b exp r st rl createdAt duration rate wasInDebt)).
Proof.
  unfold leakyDecide, leaky_decide. cbv zeta. destruct (_ =? _); [by apply triple_ret|].
  destruct (_ <? r_MaxWait r); [apply scheduleHits_run|]. destruct (_ && _).
  { repeat at_step. by apply triple_ret. }
  destruct (_ <? _); [|repeat at_step; by apply triple_ret].
  destruct (HasBehavior _ _); repeat at_step; by apply triple_ret.
Qed.
End At.

(** The moment the request is timed by. *)
Definition leakyNow (b : LeakyBucketItem) (r : RateLimitReq) (c : Z) (n : nat) (e : Env) : Z :=
  if ownerTimed b r then epochMillis (reading n e) else c.

(** Rate and duration of the request, from the readings [n] on. *)
Definition leakyTimes (r : RateLimitReq) (n : nat) (e : Env) : result (f64 * Z) :=
  if HasBehavior (r_Behavior r) DURATION_IS_GREGORIAN then
    match GregorianDuration (reading n e) (r_Duration r) with
    | Err err => Err err
    | Ok d =>
        match GregorianExpiration (reading (Datatypes.S n) e) (r_Duration r) with
        | Err err => Err err
        | Ok expire => Ok (rateOf d (r_Limit r),
                           expire -i quot64 (UnixNano (reading (Datatypes.S n) e)) 1000000)
        end
    end
  else Ok (rateOf (r_Duration r) (r_Limit r), r_Duration r).

Lemma leakyRate_run (w : W) (r : RateLimitReq) :
  exists e', leakyRate r w = Ret (leakyTimes r 0 (w_env w), mkWorld e' (w_cache w) (w_store w)) /\
    env_quiet (w_env w) e'.
Proof.
  unfold leakyRate, leakyTimes. destruct (HasBehavior _ _); [|by exists (w_env w); destruct w].
  set (e1 := with_tick (Datatypes.S (e_tick (w_env w))) (w_env w)).
  rewrite (bind_ret_run _ _ _ (mkWorld e1 (w_cache w) (w_store w)) (reading 0 (w_env w))) by done.
  destruct (GregorianDuration _ _); [|exists e1; split; [done|apply Now_quiet]].
  set (e2 := with_tick (Datatypes.S (e_tick e1)) e1).
  rewrite (bind_ret_run _ _ _ (mkWorld e2 (w_cache w) (w_store w)) (reading 1 (w_env w))) by done.
  assert (env_quiet (w_env w) e2) by (by etransitivity; apply Now_quiet).
  exists e2. by destruct (GregorianExpiration _ _).
Qed.

Lemma ownerTime_run (w : W) (b : bool) (c : Z) :
  exists e', (if b then now ← onEnv Now; mret (epochMillis now) else mret c : M W Z) w =
    Ret (if b then epochMillis (reading 0 (w_env w)) else c, mkWorld e' (w_cache w) (w_store w)) /\
    env_quiet (w_env w) e' /\ e_tick e' = ((if b then 1 else 0) + e_tick (w_env w))%nat.
Proof.
  destruct b; [|by exists (w_env w); destruct w].
  exists (with_tick (Datatypes.S (e_tick (w_env w))) (w_env w)). split; [done|]. split; [apply Now_quiet|done].
Qed.

(** [leakyApply] computes [leaky_update]. *)
Lemma leakyApply_run (w w1 : W) (p : Ptr) (it : CacheItem) (b : LeakyBucketItem) (r : RateLimitReq)
    (st : RateLimitReqState) (createdAt duration : Z) (requestRate : f64) :
  world_ok w -> cached w (HashKey r) p it -> At w p it b (it_ExpireAt it) w1 ->
  let o := leaky_update b (it_ExpireAt it) r st createdAt duration requestRate in
  exists w', leakyApply p b r st createdAt duration requestRate w1 = Ret (Ok (snd o), w') /\
  touched w p (leakyItem it (fst (fst o)) (snd (fst o))) w'.
Proof.
  intros Hw Hc Ha o.
  assert (triple (At w p it b (it_ExpireAt it)) (leakyApply p b r st createdAt duration requestRate : M W _)
    (fun res w' => res = Ok (snd o) /\ touched w p (leakyItem it (fst (fst o)) (snd (fst o))) w')) as Ht;
    [|destruct (Ht w1 Ha) as (res & w' & Hr & -> & Htc); by exists w'].
  subst o. clear w1 Ha. unfold leakyApply, leaky_update. cbv zeta.
  set (wasInDebt := flt (lb_Remaining b) fzero && _).
  set (exp1 := if _ && negb wasInDebt then _ else _).
  apply (triple_bind _ _ _ (fun _ => At w p it b exp1)).
  { unfold exp1, when. destruct (negb (r_Hits r =? 0) && negb wasInDebt); [|by apply triple_ret].
    eapply triple_bind; [by apply At_update|]. intros ?. by apply triple_ret. }
  intros []. eapply triple_bind; [apply At_when_count|]. intros []. cbv beta.
  destruct (leakySettle b r createdAt requestRate) as [b' rate].
  eapply triple_bind; [apply At_set|]. intros []. cbv beta.
  eapply triple_bind; [by eapply leakyDecide_run|].
  destruct (leaky_decide _ _ _ _ _ _ _ _ _) as [[b2 exp2] rl2].
  intros rl. unfold reached. apply triple_pure. intros ->. simpl.
  eapply triple_bind; [by eapply At_when_extend|]. intros []. cbv beta. intros w2 Ha2.
  destruct (notifyStore_run w2 r st p (At_ok w p it _ Hw Hc _ _ _ Ha2)) as (e3 & s3 & Hn & Hg & Hok);
    [eexists; by apply (At_heap w)|].
  rewrite (bind_ret_run _ _ _ _ _ Hn). eexists _, _. split; [done|]. split; [done|].
  destruct Ha2 as (Hq & Hcache & _). constructor; simpl; [done|by rewrite Hcache|].
  etransitivity; [apply env_quiet_grow, Hq|done].
Qed.

Lemma reading_shift (e e' : Env) (n m : nat) : env_quiet e e' -> e_tick e' = (m + e_tick e)%nat ->
  reading n e' = reading (n + m) e.
Proof. intros [_ _ Hc Hl _] Ht. unfold reading. by rewrite Hc, Hl, Ht, Nat.add_assoc. Qed.

Lemma leakyTimes_shift (e e' : Env) (r : RateLimitReq) (n m : nat) : env_quiet e e' ->
  e_tick e' = (m + e_tick e)%nat -> leakyTimes r n e' = leakyTimes r (n + m) e.
Proof. intros Hq Ht. unfold leakyTimes. by rewrite !(reading_shift e e' _ m Hq Ht). Qed.

(** How many readings the lookup and the timing of the request take. *)
Definition timedBy (b : LeakyBucketItem) (r : RateLimitReq) : nat := if ownerTimed b r then 2 else 1.

Lemma leakyBucket_live (w : W) (r : RateLimitReq) (st : RateLimitReqState) (p : Ptr)
    (it : CacheItem) (b : LeakyBucketItem) (c : Z) :
  world_ok w -> cached w (HashKey r) p it -> expiredAt it (nowMs (w_env w)) = false ->
  it_Value it = VLeaky b -> r_CreatedAt r = Some c ->
  let r' := leakyReq r in
  match leakyTimes r' (timedBy b r') (w_env w) with
  | Err e => exists w', leakyBucket r st w = Ret (Err e, w') /\ world_ok w' /\
               cached w' (HashKey r) p it /\ env_quiet (w_env w) (w_env w')
  | Ok (rate, duration) =>
      let o := leaky_update b (it_ExpireAt it) r' st (leakyNow b r' c 1 (w_env w)) duration rate in
      exists w', leakyBucket r st w = Ret (Ok (snd o), w') /\
        touched w p (leakyItem it (fst (fst o)) (snd (fst o))) w'
  end.
Proof.
  intros Hw Hc Hx Hb Hcr r'. rewrite <- (leakyReq_key r) in Hc. fold r' in Hc.
  destruct (fetchItem_live w r' p it Hw Hc Hx) as (w1 & Hf & Hw1 & Hc1 & Hq1 & Ht1 & Hview & Hs);
    [by rewrite Hb|].
  unfold leakyBucket. rewrite <- (leakyReq_createdAt r) in Hcr. fold r' in Hcr. fold r'.
  rewrite (bind_ret_run _ _ _ w c) by (unfold derefCreatedAt; by rewrite Hcr).
  rewrite (bind_ret_run _ _ _ _ _ Hf), (bind_ret_run _ _ _ w1 it) by (apply load_run, Hc1).
  rewrite Hb. unfold leakyUpdate.
  destruct (ownerTime_run w1 (ownerTimed b r') c) as (e2 & Hr2 & Hq2 & Ht2).
  rewrite (bind_ret_run _ _ _ _ _ Hr2). set (w2 := mkWorld e2 _ _).
  destruct (leakyRate_run w2 r') as (e3 & Hr3 & Hq3). rewrite (bind_ret_run _ _ _ _ _ Hr3).
  assert (leakyTimes r' 0 (w_env w2) = leakyTimes r' (timedBy b r') (w_env w)) as ->.
  { apply (leakyTimes_shift (w_env w) (w_env w2) r' 0 (timedBy b r')); [by etransitivity|]. simpl. rewrite Ht2, Ht1. unfold timedBy.
    by destruct (ownerTimed b r'). }
  assert ((if ownerTimed b r' then epochMillis (reading 0 (w_env w1)) else c) = leakyNow b r' c 1 (w_env w)) as ->.
  { unfold leakyNow. destruct (ownerTimed b r'); [|done]. by rewrite (reading_shift (w_env w) _ 0 1 Hq1 Ht1). }
  assert (env_quiet (w_env w1) e3) as Hq13 by (by etransitivity).
  destruct (leakyTimes r' (timedBy b r') (w_env w)) as [[rate duration]|e].
  - destruct (leakyApply_run w1 (mkWorld e3 (w_cache w2) (w_store w2)) p it b r' st
      (leakyNow b r' c 1 (w_env w)) duration rate Hw1 Hc1) as (w' & Hr & Htc).
    { unfold At. assert (leakyItem it b (it_ExpireAt it) = it) as -> by (destruct it; simpl in *; by subst).
      apply (wrote_same w1); [apply Hc1|done]. }
    exists w'. split; [done|]. by eapply quiet_touched.
  - eexists. split; [done|]. split; [by apply (world_ok_quiet w1)|]. split; [|by etransitivity].
    unfold r' in Hc1. rewrite (leakyReq_key r) in Hc1. destruct Hc1 as [Hv1 Hp1]. split; [done|]. simpl. by rewrite (eq_heap _ _ Hq13).
Qed.

(** The bucket a first request leaves, its item and the response; [None] when the
    request can never fit and creates no bucket. *)
Definition leaky_new (r : RateLimitReq) (createdAt duration : Z) : option CacheItem * RateLimitResp :=
  let rate := int64_of_f (rateOf (r_Duration r) (r_Limit r)) in
  let resetAt remaining := createdAt +i (r_Limit r -i remaining) *i rate in
  if (0 <? r_MaxWait r) && (r_Burst r <? r_Hits r) then
    (None, respOf NEVER_FITS (r_Limit r) (r_Burst r) (resetAt (r_Burst r)))
  else
    let over := r_Burst r <? r_Hits r in
    let remaining := if over then 0 else Z.min (r_Burst r) (r_Burst r -i r_Hits r) in
    let b := mkLeaky (r_Limit r) duration (if over then fzero else f64_of_int remaining) createdAt (r_Burst r) in
    (Some (mkItem (r_Algorithm r) (HashKey r) (VLeaky b) (createdAt +i duration) 0),
     respOf (if over then OVER_LIMIT else UNDER_LIMIT) (r_Limit r) remaining (resetAt remaining)).

Lemma leakyBucketNewItem_run (w : W) (r : RateLimitReq) (st : RateLimitReqState) (c : Z) :
  world_ok w -> r_CreatedAt r = Some c -> HasBehavior (r_Behavior r) DURATION_IS_GREGORIAN = false ->
  let createdAt := if 0 <? r_MaxWait r then epochMillis (reading 0 (w_env w)) else c in
  match leaky_new r createdAt (r_Duration r) with
  | (None, rl) => exists e', leakyBucketNewItem r st w = Ret (Ok rl, mkWorld e' (w_cache w) (w_store w)) /\
                    env_quiet (w_env w) e'
  | (Some it, rl) => exists p w', leakyBucketNewItem r st w = Ret (Ok rl, w') /\ created w p it w'
  end.
Proof.
  intros Hw Hcr Hg createdAt. unfold leakyBucketNewItem, leaky_new.
  rewrite (bind_ret_run _ _ _ w c) by (unfold derefCreatedAt; by rewrite Hcr).
  destruct (ownerTime_run w (0 <? r_MaxWait r) c) as (e1 & Hr1 & Hq1 & _).
  rewrite (bind_ret_run _ _ _ _ _ Hr1). fold createdAt. set (w1 := mkWorld e1 _ _) in *.
  assert (world_ok w1) as Hw1 by (by apply world_ok_quiet).
  rewrite Hg, (bind_ret_run _ _ _ _ _ (mret_run _ _)).
  destruct (countOverLimit_run st w1) as (e2 & Hr2 & Hq2 & _).
  assert (env_quiet (w_env w) e2) as Hq by (by etransitivity).
  destruct ((0 <? r_MaxWait r) && (r_Burst r <? r_Hits r)).
  { rewrite (bind_ret_run _ _ _ _ _ Hr2). by exists e2. }
  cbv zeta. destruct (r_Burst r <? r_Hits r).
  - rewrite bind_assoc, (bind_ret_run _ _ _ _ _ Hr2), (bind_ret_run _ _ _ _ _ (mret_run _ _)).
    match goal with |- exists p w', (onEnv (alloc ?i) ≫= _) ?wx = Ret (Ok ?rl, _) /\ _ =>
      destruct (create_run wx i r st rl) as (p & w' & Hrun & Hcr'); [by apply world_ok_quiet|] end.
    exists p, w'. split; [exact Hrun|]. refine (quiet_created w _ w' p _ _ _ Hcr'); [|by left].
    by apply env_quiet_grow.
  - rewrite (bind_ret_run _ _ _ _ _ (mret_run _ _)).
    match goal with |- exists p w', (onEnv (alloc ?i) ≫= _) ?wx = Ret (Ok ?rl, _) /\ _ =>
      destruct (create_run wx i r st rl Hw1) as (p & w' & Hrun & Hcr') end.
    exists p, w'. split; [exact Hrun|]. refine (quiet_created w _ w' p _ _ _ Hcr'); [|by left].
    by apply env_quiet_grow.
Qed.
End Run.
