(* ===== verification/LeakySpec.v ===== *)
(** * What the leaky bucket promises

    Properties of [leakyBucket] over any cache and store that keep the laws of
    [Runtime] and any architecture, each with an example on the LRU cache. *)

From stdpp Require Import base gmap strings list.
From Stdlib Require Import ZArith Lia SpecFloat.
From S2P Require Import Prelude Float64 Types GoTime Interval LeakyMath Runtime LRUCache Store Demo TokenBucket TokenSpec LeakyBucket.

Local Open Scope Z_scope.
Local Open Scope go_scope.

Import Gregorian.

Section Promises.
Context `{Arch} {C S : Type} `{CacheLaws C} `{StoreLaws S}.

Abbreviation W := (World C S).

(** A live leaky bucket [b] in item [p] under the key of request [r]. *)
Definition live_leaky (w : W) (r : RateLimitReq) (p : Ptr) (it : CacheItem) (b : LeakyBucketItem) : Prop :=
  world_ok w /\ cached w (HashKey r) p it /\ it_Value it = VLeaky b /\
  expiredAt it (nowMs (w_env w)) = false.

(** C2: On a live bucket [leakyBucket] computes the function [leaky_update] of the
    bucket, its expiry, the request and the clock, and writes bucket and expiry back
    to the item; a Gregorian duration that is not one is an error that leaves the
    item as it was. *)
Theorem leaky_bucket_computes (w : W) (r : RateLimitReq) (st : RateLimitReqState) (p : Ptr)
    (it : CacheItem) (b : LeakyBucketItem) (c : Z)
    (Hlive : live_leaky w r p it b) (Hcr : r_CreatedAt r = Some c) :
  let r' := leakyReq r in
  (forall e, leakyTimes r' (timedBy b r') (w_env w) = Err e ->
   exists w', leakyBucket r st w = Ret (Err e, w') /\ cached w' (HashKey r) p it) /\
  (forall rate duration, leakyTimes r' (timedBy b r') (w_env w) = Ok (rate, duration) ->
   let o := leaky_update b (it_ExpireAt it) r' st (leakyNow b r' c 1 (w_env w)) duration rate in
   let it' := leakyItem it (fst (fst o)) (snd (fst o)) in
   exists w', leakyBucket r st w = Ret (Ok (snd o), w') /\ touched w p it' w' /\ cached w' (HashKey r) p it').
Proof.
  intros r'. destruct Hlive as (Hw & Hc & Hb & Hx).
  pose proof (leakyBucket_live w r st p it b c Hw Hc Hx Hb Hcr) as Hrun. cbv zeta in Hrun. fold r' in Hrun.
  split.
  - intros e He. rewrite He in Hrun. destruct Hrun as (w' & Hr & _ & Hc' & _). by exists w'.
  - intros rate duration He. rewrite He in Hrun. destruct Hrun as (w' & Hr & Htc).
    exists w'. split; [done|]. split; [done|]. by eapply touched_cached.
Qed.

(** The run on a live bucket of a request whose duration is in milliseconds. *)
Lemma leaky_run (w : W) (r : RateLimitReq) (st : RateLimitReqState) (p : Ptr)
    (it : CacheItem) (b : LeakyBucketItem) (c : Z) :
  live_leaky w r p it b -> r_CreatedAt r = Some c ->
  HasBehavior (r_Behavior r) DURATION_IS_GREGORIAN = false ->
  exists w', let '(b', exp', rl) :=
      leaky_update b (it_ExpireAt it) (leakyReq r) st (leakyNow b (leakyReq r) c 1 (w_env w))
        (r_Duration r) (rateOf (r_Duration r) (r_Limit r)) in
    leakyBucket r st w = Ret (Ok rl, w') /\ cached w' (HashKey r) p (leakyItem it b' exp').
Proof.
  intros (Hw & Hc & Hb & Hx) Hcr Hg.
  pose proof (leakyBucket_live w r st p it b c Hw Hc Hx Hb Hcr) as Hrun. cbv zeta in Hrun.
  destruct (leakyReq_fields r) as (_ & El & Ed & Eb & _).
  unfold leakyTimes in Hrun. rewrite Eb, Hg, Ed, El in Hrun. destruct Hrun as (w' & Hr & Htc). exists w'.
  destruct (leaky_update _ _ _ _ _ _ _) as [[b' exp'] rl]. split; [done|]. by eapply touched_cached.
Qed.

(** What a max_wait request for a positive number of hits may do to a settled bucket
    [b]: the outcomes by status. *)
Definition scheduled_outcome (b b' : LeakyBucketItem) (exp' : Z) (r : RateLimitReq)
    (st : RateLimitReqState) (rate : f64) (rl : RateLimitResp) : Prop :=
  match rl_Status rl with
  | NEVER_FITS => (lb_Burst b < r_Hits r \/ unusableRate rate = true) /\ b' = b /\ rl_RetryAfter rl = 0
  | UNDER_LIMIT => r_Hits r <= lb_Burst b /\ r_Hits r <= wholeTokens (lb_Remaining b) /\
      b' = with_lbRemaining (snapToZero (fsub (lb_Remaining b) (f64_of_int (r_Hits r)))) b /\
      rl_Remaining rl = spendableTokens (lb_Remaining b') /\ rl_RetryAfter rl = 0
  | OVER_LIMIT => wholeTokens (lb_Remaining b) < r_Hits r /\ b' = b /\
      1 <= rl_RetryAfter rl /\
      (r_MaxWait r < rl_RetryAfter rl \/ Milliseconds (WaitCeiling st) < rl_RetryAfter rl)
  | SCHEDULED => r_Hits r <= lb_Burst b /\ wholeTokens (lb_Remaining b) < r_Hits r /\
      b' = with_lbRemaining (fsub (lb_Remaining b) (f64_of_int (r_Hits r))) b /\
      1 <= rl_RetryAfter rl <= r_MaxWait r /\ rl_RetryAfter rl <= Milliseconds (WaitCeiling st) /\
      rl_Remaining rl = 0 /\ rl_ResetTime rl = fullAt b' rate /\ fullAt b' rate <= exp'
  end.

Lemma schedule_hits_cases (b : LeakyBucketItem) (exp : Z) (r : RateLimitReq) (st : RateLimitReqState)
    (rl0 : RateLimitResp) (now duration : Z) (rate : f64) (wasInDebt : bool) :
  rl_Status rl0 = UNDER_LIMIT -> rl_RetryAfter rl0 = 0 ->
  let '(b', exp', rl) := schedule_hits b exp r st rl0 now duration rate wasInDebt in
  exp <= exp' /\ scheduled_outcome b b' exp' r st rate rl.
Proof.
  intros Hst Hretry. unfold schedule_hits, scheduled_outcome.
  destruct (Z.ltb_spec (lb_Burst b) (r_Hits r)) as [Hb|Hb]; simpl.
  { split; [lia|]. split; [by left|done]. }
  destruct (unusableRate rate) eqn:Hu; simpl; [split; [lia|]; split; [by right|done]|].
  destruct (Z.leb_spec (r_Hits r) (wholeTokens (lb_Remaining b))) as [Hw|Hw]; simpl.
  { rewrite Hst. unfold extended. destruct wasInDebt; repeat split; try done; lia. }
  set (wait := bookingWait b (r_Hits r) now rate).
  assert (1 <= wait) by (unfold wait, bookingWait; lia).
  destruct (Z.ltb_spec (Z.min (r_MaxWait r) (Milliseconds (WaitCeiling st))) wait); simpl.
  - repeat split; try done; lia.
  - unfold extended. repeat split; try done; lia.
Qed.

Lemma scheduled_outcome_mono (b b' : LeakyBucketItem) (e1 e2 : Z) (r : RateLimitReq)
    (st : RateLimitReqState) (rate : f64) (rl : RateLimitResp) : e1 <= e2 ->
  scheduled_outcome b b' e1 r st rate rl -> scheduled_outcome b b' e2 r st rate rl.
Proof. intros He. unfold scheduled_outcome. destruct (rl_Status rl); try done. intros (? & ? & ? & ? & ? & ? & ? & ?). repeat split; try done; lia. Qed.

(** C14: A max_wait request, with its duration in milliseconds, for a positive number
    of hits on a live bucket. NEVER_FITS and OVER_LIMIT charge nothing; UNDER_LIMIT takes the hits from tokens that are
    there and asks for no wait; SCHEDULED books them as debt, with a wait of at least
    one millisecond that is within the caller's max_wait and within the owner's
    ceiling, and the item is kept at least until the bucket is full again. *)
Theorem leaky_scheduling (w : W) (r : RateLimitReq) (st : RateLimitReqState) (p : Ptr)
    (it : CacheItem) (b : LeakyBucketItem)
    (Hlive : live_leaky w r p it b) (Hcr : is_Some (r_CreatedAt r))
    (Hgreg : HasBehavior (r_Behavior r) DURATION_IS_GREGORIAN = false)
    (Hhits : 0 < r_Hits r) (Hwait : 0 < r_MaxWait r) :
  let now := epochMillis (reading 1 (w_env w)) in
  let settled := leakySettle b (leakyReq r) now (rateOf (r_Duration r) (r_Limit r)) in
  exists w' b' exp' rl, leakyBucket r st w = Ret (Ok rl, w') /\
    cached w' (HashKey r) p (leakyItem it b' exp') /\
    scheduled_outcome (fst settled) b' exp' r st (snd settled) rl.
Proof.
  intros now settled. destruct Hcr as [c Hcr], (leakyReq_fields r) as (Eh & _ & _ & _ & Em & _).
  destruct (leaky_run w r st p it b c Hlive Hcr Hgreg) as (w' & Hrun).
  assert (leakyNow b (leakyReq r) c 1 (w_env w) = now) as Hnow
    by (unfold leakyNow, ownerTimed; rewrite Em; by replace (0 <? r_MaxWait r) with true by lia).
  rewrite Hnow in Hrun. unfold leaky_update, leaky_decide in Hrun.
  rewrite Eh, Em in Hrun.
  replace (r_Hits r =? 0) with false in Hrun by lia. replace (0 <? r_MaxWait r) with true in Hrun by lia.
  fold settled in Hrun. destruct settled as [bs rate]. cbn [fst snd].
  match type of Hrun with context [schedule_hits bs ?e ?r' st ?rl now ?d rate ?i] =>
    pose proof (schedule_hits_cases bs e r' st rl now d rate i eq_refl eq_refl) as Hcases;
    destruct (schedule_hits bs e r' st rl now d rate i) as [[b' exp1] rl'] end.
  destruct Hcases as [He Hcases], Hrun as [Hr Hc].
  eexists w', b', _, rl'. split; [exact Hr|]. split; [exact Hc|].
  assert (scheduled_outcome bs b' exp1 r st rate rl') as Ho
    by (unfold leakyReq in Hcases; by destruct (r_Burst r =? 0)).
  eapply scheduled_outcome_mono; [|exact Ho]. destruct (_ && _); [|done]. unfold extended. lia.
Qed.

(** The decision on a request without max_wait: by hits and settled balance. *)
Definition plain_outcome (b b' : LeakyBucketItem) (r : RateLimitReq) (rl : RateLimitResp) : Prop :=
  rl_RetryAfter rl = 0 /\ rl_Limit rl = lb_Limit b /\
  if r_Hits r =? 0 then
    b' = b /\ rl_Status rl = UNDER_LIMIT /\ rl_Remaining rl = spendableTokens (lb_Remaining b)
  else if (r_Hits r <? 0) && flt (lb_Remaining b) fzero then
    b' = b /\ rl_Status rl = UNDER_LIMIT /\ rl_Remaining rl = spendableTokens (lb_Remaining b)
  else if wholeTokens (lb_Remaining b) <? r_Hits r then
    rl_Status rl = OVER_LIMIT /\
    if HasBehavior (r_Behavior r) DRAIN_OVER_LIMIT
    then b' = with_lbRemaining (Min (lb_Remaining b) fzero) b /\ rl_Remaining rl = 0
    else b' = b /\ rl_Remaining rl = spendableTokens (lb_Remaining b)
  else
    b' = with_lbRemaining (snapToZero (Min (f64_of_int (lb_Burst b))
           (fsub (lb_Remaining b) (f64_of_int (r_Hits r))))) b /\
    rl_Status rl = UNDER_LIMIT /\ rl_Remaining rl = wholeTokens (lb_Remaining b').

Lemma leaky_decide_plain (b : LeakyBucketItem) (exp : Z) (r : RateLimitReq) (st : RateLimitReqState)
    (createdAt duration : Z) (rate : f64) (wasInDebt : bool) : r_MaxWait r <= 0 ->
  let '(b', exp', rl) := leaky_decide b exp r st (leakyReport b createdAt rate) createdAt duration rate wasInDebt in
  plain_outcome b b' r rl /\ exp <= exp'.
Proof.
  intros Hm. unfold leaky_decide, plain_outcome. replace (0 <? r_MaxWait r) with false by lia.
  destruct (r_Hits r =? 0); [split; [done|lia]|]. destruct (_ && _).
  { split; [done|]. unfold extended. lia. }
  destruct (_ <? _); [destruct (HasBehavior _ _); (split; [done|lia])|].
  split; [done|]. unfold extended. destruct wasInDebt; lia.
Qed.

(** C26: A request without max_wait, with its duration in milliseconds, on a live
    bucket is never SCHEDULED or NEVER_FITS
    and carries no retry_after. It is refused exactly when it asks for more whole
    tokens than the settled balance holds, a refusal leaves the balance alone (with
    DRAIN_OVER_LIMIT it takes what is left, but never raises a debt), a query leaves
    it alone, and negative hits refund tokens but never pay off booked debt. *)
Theorem leaky_plain_requests (w : W) (r : RateLimitReq) (st : RateLimitReqState) (p : Ptr)
    (it : CacheItem) (b : LeakyBucketItem) (c : Z)
    (Hlive : live_leaky w r p it b) (Hcr : r_CreatedAt r = Some c)
    (Hgreg : HasBehavior (r_Behavior r) DURATION_IS_GREGORIAN = false) (Hwait : r_MaxWait r = 0) :
  let now := if flt (lb_Remaining b) fzero then epochMillis (reading 1 (w_env w)) else c in
  let bs := fst (leakySettle b (leakyReq r) now (rateOf (r_Duration r) (r_Limit r))) in
  exists w' b' exp' rl, leakyBucket r st w = Ret (Ok rl, w') /\
    cached w' (HashKey r) p (leakyItem it b' exp') /\ plain_outcome bs b' r rl.
Proof.
  intros now bs. destruct (leaky_run w r st p it b c Hlive Hcr Hgreg) as (w' & Hrun).
  destruct (leakyReq_fields r) as (Eh & _ & _ & Eb & Em & _).
  assert (leakyNow b (leakyReq r) c 1 (w_env w) = now) as Hnow
    by (unfold leakyNow, ownerTimed; by rewrite Em, Hwait).
  rewrite Hnow in Hrun. unfold leaky_update in Hrun. unfold bs.
  destruct (leakySettle b (leakyReq r) now _) as [b1 rate]. simpl.
  match type of Hrun with context [leaky_decide b1 ?e ?r' st _ now ?d rate ?i] =>
    pose proof (leaky_decide_plain b1 e r' st now d rate i ltac:(lia)) as Hcases;
    destruct (leaky_decide b1 e r' st _ now d rate i) as [[b' exp1] rl] end.
  destruct Hrun as [Hr Hc]. eexists w', b', _, rl. split; [exact Hr|]. split; [exact Hc|].
  unfold plain_outcome in *. rewrite Eh, Eb in Hcases. apply Hcases.
Qed.

(** No decision shortens the expiry. *)
Lemma leaky_decide_expiry (b : LeakyBucketItem) (exp : Z) (r : RateLimitReq) (st : RateLimitReqState)
    (rl : RateLimitResp) (createdAt duration : Z) (rate : f64) (wasInDebt : bool) :
  exp <= snd (fst (leaky_decide b exp r st rl createdAt duration rate wasInDebt)).
Proof. unfold leaky_decide, schedule_hits, extended. repeat case_match; simpl; lia. Qed.

(** The update reads the creation time only through the moment it is given. *)
Lemma leaky_update_createdAt (b : LeakyBucketItem) (exp : Z) (r : RateLimitReq) (st : RateLimitReqState)
    (now duration : Z) (rate : f64) (c : option Z) :
  leaky_update b exp (leakyReq (with_CreatedAt c r)) st now duration rate =
  leaky_update b exp (leakyReq r) st now duration rate.
Proof. unfold leakyReq. simpl. by destruct (r_Burst r =? 0). Qed.

(** While a key is in debt its expiry never moves to an earlier time: no request
    on it that is not a reset or on a Gregorian duration makes the cache forget a
    booking sooner, whatever its hits, limit, duration and max_wait. *)
Theorem leaky_debt_expiry (w : W) (r : RateLimitReq) (st : RateLimitReqState) (p : Ptr)
    (it : CacheItem) (b : LeakyBucketItem) (c : Z)
    (Hlive : live_leaky w r p it b) (Hcr : r_CreatedAt r = Some c)
    (Hgreg : HasBehavior (r_Behavior r) DURATION_IS_GREGORIAN = false)
    (Hreset : HasBehavior (r_Behavior r) RESET_REMAINING = false)
    (Hdebt : flt (lb_Remaining b) fzero = true) :
  exists w' b' exp' rl, leakyBucket r st w = Ret (Ok rl, w') /\
    cached w' (HashKey r) p (leakyItem it b' exp') /\ it_ExpireAt it <= exp'.
Proof.
  destruct (leaky_run w r st p it b c Hlive Hcr Hgreg) as (w' & Hrun).
  unfold leaky_update in Hrun. destruct (leakyReq_fields r) as (_ & _ & _ & Eb & _).
  rewrite Eb, Hdebt, Hreset in Hrun. cbn [negb andb] in Hrun. rewrite andb_false_r in Hrun.
  destruct (leakySettle b _ _ _) as [b1 rate].
  match type of Hrun with context [leaky_decide b1 ?e ?r' st ?rl ?n ?d rate ?i] =>
    assert (e <= snd (fst (leaky_decide b1 e r' st rl n d rate i))) as Hle by apply leaky_decide_expiry;
    destruct (leaky_decide b1 e r' st rl n d rate i) as [[b' exp1] rl'] end.
  destruct Hrun as [Hr Hc]. eexists w', b', _, rl'. split; [exact Hr|]. split; [exact Hc|].
  simpl in Hle. destruct (_ && _); [unfold extended|]; lia.
Qed.

(** A max_wait request, and any request on a key in debt, with the duration in
    milliseconds, is timed by the owner's
    clock: the created_at the client sent changes neither the response nor the bucket. *)
Theorem leaky_owner_timed (w : W) (r : RateLimitReq) (st : RateLimitReqState) (p : Ptr)
    (it : CacheItem) (b : LeakyBucketItem) (c1 c2 : Z)
    (Hlive : live_leaky w r p it b)
    (Hgreg : HasBehavior (r_Behavior r) DURATION_IS_GREGORIAN = false)
    (Hown : 0 < r_MaxWait r \/ flt (lb_Remaining b) fzero = true) :
  exists rl b' exp' w1 w2,
    leakyBucket (with_CreatedAt (Some c1) r) st w = Ret (Ok rl, w1) /\
    leakyBucket (with_CreatedAt (Some c2) r) st w = Ret (Ok rl, w2) /\
    cached w1 (HashKey r) p (leakyItem it b' exp') /\ cached w2 (HashKey r) p (leakyItem it b' exp').
Proof.
  assert (forall c, exists w', let '(b', exp', rl) := leaky_update b (it_ExpireAt it)
      (leakyReq (with_CreatedAt None r)) st (epochMillis (reading 1 (w_env w))) (r_Duration r)
      (rateOf (r_Duration r) (r_Limit r)) in
    leakyBucket (with_CreatedAt (Some c) r) st w = Ret (Ok rl, w') /\
    cached w' (HashKey r) p (leakyItem it b' exp')) as Hrun.
  { intros c. destruct (leaky_run w (with_CreatedAt (Some c) r) st p it b c Hlive eq_refl Hgreg) as (w' & Hr).
    exists w'. replace (leakyNow _ _ _ _ _) with (epochMillis (reading 1 (w_env w))) in Hr.
    - rewrite leaky_update_createdAt. by rewrite leaky_update_createdAt in Hr.
    - unfold leakyNow, ownerTimed. destruct (leakyReq_fields (with_CreatedAt (Some c) r)) as (_ & _ & _ & _ & -> & _).
      simpl. destruct Hown as [Hm| ->]; [by replace (0 <? r_MaxWait r) with true by lia|by rewrite orb_true_r]. }
  destruct (Hrun c1) as (w1 & Hr1), (Hrun c2) as (w2 & Hr2).
  destruct (leaky_update _ _ _ _ _ _ _) as [[b' exp'] rl]. destruct Hr1, Hr2. by exists rl, b', exp', w1, w2.
Qed.

(** The run on an absent key, without a store. *)
Lemma leaky_absent_run (w : W) (r : RateLimitReq) (st : RateLimitReqState) (c : Z) :
  world_ok w -> absent w (HashKey r) -> w_store w = None -> r_CreatedAt r = Some c ->
  exists w1, leakyBucket r st w = leakyBucketNewItem (leakyReq r) st w1 /\ world_ok w1 /\
    env_quiet (w_env w) (w_env w1) /\ c_view (w_cache w1) = delete (HashKey r) (c_view (w_cache w)).
Proof.
  intros Hw Ha Hs Hcr. destruct (leakyReq_fields r) as (_ & _ & _ & _ & _ & Ec & Ek).
  destruct (fetchItem_absent w (leakyReq r) Hw) as (w1 & Hf & Hw1 & Hq & Hv & _); [by rewrite Ek|done|].
  exists w1. rewrite Ek in Hv. split; [|done]. unfold leakyBucket.
  rewrite (bind_ret_run _ _ _ w c) by (unfold derefCreatedAt; by rewrite Ec, Hcr).
  by rewrite (bind_ret_run _ _ _ _ _ Hf).
Qed.

(** The first request on a key (nothing cached, no store), without max_wait and
    with its duration in milliseconds, starts a bucket of [burst] tokens less the hits, or an empty one when it asks for more than the
    burst, in which case it is refused. The bucket expires a duration later. *)
Theorem leaky_first_request (w : W) (r : RateLimitReq) (st : RateLimitReqState) (c : Z)
    (Hw : world_ok w) (Habs : absent w (HashKey r)) (Hst : w_store w = None)
    (Hcr : r_CreatedAt r = Some c) (Hwait : r_MaxWait r = 0)
    (Hgreg : HasBehavior (r_Behavior r) DURATION_IS_GREGORIAN = false)
    (Hhits : 0 <= r_Hits r) (Hburst : 0 <= r_Burst (leakyReq r)) (H64 : in64 (r_Burst (leakyReq r))) :
  let burst := r_Burst (leakyReq r) in
  let left := Z.max 0 (burst - r_Hits r) in
  exists w' p rl, leakyBucket r st w = Ret (Ok rl, w') /\ world_ok w' /\
    rl_Status rl = (if burst <? r_Hits r then OVER_LIMIT else UNDER_LIMIT) /\
    rl_Remaining rl = left /\ rl_Limit rl = r_Limit r /\
    cached w' (HashKey r) p
      (mkItem (r_Algorithm r) (HashKey r)
         (VLeaky (mkLeaky (r_Limit r) (r_Duration r) (f64_of_int left) c burst))
         (wrap64 (c + r_Duration r)) 0).
Proof.
  intros burst left. destruct (leaky_absent_run w r st c Hw Habs Hst Hcr) as (w1 & -> & Hw1 & _ & _).
  destruct (leakyReq_fields r) as (Eh & El & Ed & Eb & Em & Ec & Ek).
  assert (r_Algorithm (leakyReq r) = r_Algorithm r) as Ea by (unfold leakyReq; by destruct (r_Burst r =? 0)).
  pose proof (leakyBucketNewItem_run w1 (leakyReq r) st c Hw1) as Hnew. cbv zeta in Hnew. unfold leaky_new in Hnew.
  rewrite Ec, Eb, Em, Hwait, Eh, El, Ed, Ek, Ea in Hnew. fold burst in Hnew, H64. simpl in Hnew.
  destruct (Hnew Hcr Hgreg) as (p & w' & Hr & Hcrt). exists w', p. eexists. split; [exact Hr|].
  split; [apply Hcrt|]. simpl. split; [done|].
  pose proof (cr_cached _ _ _ _ Hcrt) as Hca. simpl in Hca.
  assert ((if burst <? r_Hits r then 0 else Z.min burst (burst -i r_Hits r)) = left) as Hl.
  { unfold left. destruct (Z.ltb_spec burst (r_Hits r)); [lia|].
    rewrite sub64_id by (unfold in64, min_i64, max_i64 in *; lia). lia. }
  assert ((if burst <? r_Hits r then fzero else f64_of_int (if burst <? r_Hits r then 0 else Z.min burst (burst -i r_Hits r)))
    = f64_of_int left) as Hf by (rewrite Hl; unfold left; destruct (Z.ltb_spec burst (r_Hits r)); [by rewrite Z.max_l by lia|done]).
  rewrite Hl. split; [done|]. split; [done|]. by rewrite Hf in Hca.
Qed.

(** A max_wait request (duration in milliseconds, no store) that can never fit on
    an absent key creates no bucket: the
    key stays absent, so the next caller finds it full. *)
Theorem leaky_never_fits_creates_nothing (w : W) (r : RateLimitReq) (st : RateLimitReqState) (c : Z)
    (Hw : world_ok w) (Habs : absent w (HashKey r)) (Hst : w_store w = None)
    (Hcr : r_CreatedAt r = Some c) (Hwait : 0 < r_MaxWait r)
    (Hgreg : HasBehavior (r_Behavior r) DURATION_IS_GREGORIAN = false)
    (Hfit : r_Burst (leakyReq r) < r_Hits r) :
  exists w' rl, leakyBucket r st w = Ret (Ok rl, w') /\ rl_Status rl = NEVER_FITS /\
    rl_Remaining rl = r_Burst (leakyReq r) /\ world_ok w' /\
    c_view (w_cache w') = delete (HashKey r) (c_view (w_cache w)) /\
    e_heap (w_env w') = e_heap (w_env w).
Proof.
  destruct (leaky_absent_run w r st c Hw Habs Hst Hcr) as (w1 & -> & Hw1 & Hq & Hv).
  destruct (leakyReq_fields r) as (Eh & El & Ed & Eb & Em & Ec & Ek).
  pose proof (leakyBucketNewItem_run w1 (leakyReq r) st c Hw1) as Hnew. cbv zeta in Hnew. unfold leaky_new in Hnew.
  rewrite Ec, Eb, Em, Eh in Hnew. replace (0 <? r_MaxWait r) with true in Hnew by lia.
  replace (r_Burst (leakyReq r) <? r_Hits r) with true in Hnew by lia. simpl in Hnew.
  destruct (Hnew Hcr Hgreg) as (e' & Hr & Hq'). eexists _, _. split; [exact Hr|]. simpl.
  repeat split; try done; [by apply (world_ok_quiet w1)..|].
  rewrite (eq_heap _ _ Hq'). apply Hq.
Qed.

(** [leakyBucket] always returns when the request carries a creation time,
    whatever is cached or stored for the key, and never changes an item of another
    key. *)
Theorem leaky_isolation (w : W) (r : RateLimitReq) (st : RateLimitReqState)
    (Hw : world_ok w) (Hcr : is_Some (r_CreatedAt r)) :
  exists res w', leakyBucket r st w = Ret (res, w') /\ world_ok w' /\
    forall p it, e_heap (w_env w) !! p = Some it -> it_Key it <> HashKey r ->
      e_heap (w_env w') !! p = Some it.
Proof.
  destruct Hcr as [c Hcr].
  destruct (leakyBucket_iso (w_env w) r st c Hcr w (iso_start _ w Hw)) as (res & w' & Hr & Hi).
  exists res, w'. split; [done|]. split; [apply Hi|]. intros p it. by apply (iso_other _ _ _ _ _ Hi).
Qed.
End Promises.

(** ** Examples, on amd64 *)

#[local] Existing Instance amd64.

(** Three of ten hits taken at millisecond 1000, the clock still there. *)
Definition leakyWorld : World LRUCache MockStore :=
  after (leakyBucket (demoReq LEAKY_BUCKET 3 1000) owner) (demoWorld 1000 (Some NewMockStore)).

Definition leakyDemo : LeakyBucketItem := mkLeaky 10 60000 (f64_of_int 7) 1000 10.

Definition leakyDemoItem : CacheItem :=
  mkItem LEAKY_BUCKET "requests_per_min_account:1234" (VLeaky leakyDemo) 61000 0.

Lemma leakyWorld_live (r : RateLimitReq) : HashKey r = "requests_per_min_account:1234" ->
  live_leaky leakyWorld r 0%nat leakyDemoItem leakyDemo.
Proof.
  intros Hk. split; [|rewrite Hk; split; [split; vm_compute; reflexivity|split; vm_compute; reflexivity]].
  eapply (after_triple _ _ _ world_ok); [by apply (leakyBucket_iso (demoEnv 1000) _ _ 1000)| |by intros ? ? []].
  apply (iso_start _ (demoWorld 1000 (Some NewMockStore))), demoWorld_store_ok.
Qed.

(** A caller that takes nine tokens and would wait up to twenty seconds for them. *)
Definition patientReq (hits : Z) : RateLimitReq :=
  mkReq "requests_per_min" "account:1234" hits 10 60000 LEAKY_BUCKET BATCHING 0 ∅ (Some 1000) 20000.

(** The owner lets no one wait longer than a minute. *)
Definition patientOwner : RateLimitReqState := mkReqState true 60000000000.

(** In debt: nine tokens booked where seven were left. *)
Definition debtWorld : World LRUCache MockStore := after (leakyBucket (patientReq 9) patientOwner) leakyWorld.

Definition debtDemo : LeakyBucketItem := mkLeaky 10 60000 (f64_of_int (-2)) 1000 10.

Definition debtDemoItem : CacheItem :=
  mkItem LEAKY_BUCKET "requests_per_min_account:1234" (VLeaky debtDemo) 73000 0.

Lemma debtWorld_live (r : RateLimitReq) : HashKey r = "requests_per_min_account:1234" ->
  live_leaky debtWorld r 0%nat debtDemoItem debtDemo.
Proof.
  intros Hk. split; [|rewrite Hk; split; [split; vm_compute; reflexivity|split; vm_compute; reflexivity]].
  eapply (after_triple _ _ _ world_ok); [by apply (leakyBucket_iso (w_env leakyWorld) _ _ 1000)| |by intros ? ? []].
  apply iso_start, (leakyWorld_live (patientReq 9) eq_refl).
Qed.

Lemma leaky_bucket_computes_witness : exists w' rl,
  leakyBucket (demoReq LEAKY_BUCKET 4 1000) owner leakyWorld = Ret (Ok rl, w') /\ rl_Remaining rl = 3.
Proof.
  destruct (leaky_bucket_computes leakyWorld (demoReq LEAKY_BUCKET 4 1000) owner 0%nat leakyDemoItem leakyDemo
    1000 (leakyWorld_live (demoReq LEAKY_BUCKET 4 1000) eq_refl) eq_refl) as [_ Hr].
  destruct (Hr _ _ eq_refl) as (w' & Hrun & _). eexists w', _. split; [exact Hrun|vm_compute; reflexivity].
Defined.

Lemma leaky_scheduling_witness : exists w' b' exp' rl,
  leakyBucket (patientReq 9) patientOwner leakyWorld = Ret (Ok rl, w') /\
  scheduled_outcome leakyDemo b' exp' (patientReq 9) patientOwner (f64_of_int 6000) rl.
Proof.
  destruct (leaky_scheduling leakyWorld (patientReq 9) patientOwner 0%nat leakyDemoItem leakyDemo
    (leakyWorld_live (patientReq 9) eq_refl) (mk_is_Some _ _ eq_refl) eq_refl ltac:(done) ltac:(done))
    as (w' & b' & exp' & rl & Hr & _ & Ho).
  exists w', b', exp', rl. split; [exact Hr|exact Ho].
Defined.

Lemma leaky_plain_requests_witness : exists w' b' rl,
  leakyBucket (demoReq LEAKY_BUCKET 8 1000) owner leakyWorld = Ret (Ok rl, w') /\
  plain_outcome leakyDemo b' (demoReq LEAKY_BUCKET 8 1000) rl.
Proof.
  destruct (leaky_plain_requests leakyWorld (demoReq LEAKY_BUCKET 8 1000) owner 0%nat leakyDemoItem leakyDemo
    1000 (leakyWorld_live (demoReq LEAKY_BUCKET 8 1000) eq_refl) eq_refl eq_refl eq_refl)
    as (w' & b' & exp' & rl & Hr & _ & Ho).
  exists w', b', rl. split; [exact Hr|exact Ho].
Defined.

Lemma leaky_debt_expiry_witness : exists w' exp' rl,
  leakyBucket (demoReq LEAKY_BUCKET 1 1000) owner debtWorld = Ret (Ok rl, w') /\ 73000 <= exp'.
Proof.
  destruct (leaky_debt_expiry debtWorld (demoReq LEAKY_BUCKET 1 1000) owner 0%nat debtDemoItem debtDemo 1000
    (debtWorld_live (demoReq LEAKY_BUCKET 1 1000) eq_refl) eq_refl eq_refl eq_refl ltac:(vm_compute; reflexivity))
    as (w' & b' & exp' & rl & Hr & _ & He).
  exists w', exp', rl. split; [exact Hr|exact He].
Defined.

Lemma leaky_owner_timed_witness : exists rl w1 w2,
  leakyBucket (with_CreatedAt (Some 5) (patientReq 2)) patientOwner debtWorld = Ret (Ok rl, w1) /\
  leakyBucket (with_CreatedAt (Some 99999) (patientReq 2)) patientOwner debtWorld = Ret (Ok rl, w2).
Proof.
  destruct (leaky_owner_timed debtWorld (patientReq 2) patientOwner 0%nat debtDemoItem debtDemo 5 99999
    (debtWorld_live (patientReq 2) eq_refl) eq_refl (or_introl eq_refl))
    as (rl & b' & exp' & w1 & w2 & Hr1 & Hr2 & _).
  exists rl, w1, w2. split; [exact Hr1|exact Hr2].
Defined.

Lemma leaky_first_request_witness : exists w' rl,
  leakyBucket (demoReq LEAKY_BUCKET 3 1000) owner (demoWorld 1000 None) = Ret (Ok rl, w') /\ rl_Remaining rl = 7.
Proof.
  destruct (leaky_first_request (demoWorld 1000 None) (demoReq LEAKY_BUCKET 3 1000) owner 1000
    (demoWorld_ok 1000) I eq_refl eq_refl eq_refl eq_refl ltac:(done) ltac:(done) ltac:(done))
    as (w' & p & rl & Hr & _ & _ & Hrem & _).
  exists w', rl. split; [exact Hr|exact Hrem].
Defined.

Lemma leaky_never_fits_witness : exists w' rl,
  leakyBucket (patientReq 11) patientOwner (demoWorld 1000 None) = Ret (Ok rl, w') /\ rl_Status rl = NEVER_FITS.
Proof.
  destruct (leaky_never_fits_creates_nothing (demoWorld 1000 None) (patientReq 11) patientOwner 1000
    (demoWorld_ok 1000) I eq_refl eq_refl ltac:(done) eq_refl ltac:(done))
    as (w' & rl & Hr & Hs & _).
  exists w', rl. split; [exact Hr|exact Hs].
Defined.

Lemma leaky_isolation_witness : exists res w',
  leakyBucket (patientReq 2) patientOwner debtWorld = Ret (res, w') /\ world_ok w'.
Proof.
  destruct (debtWorld_live (patientReq 2) eq_refl) as (Hw & _).
  destruct (leaky_isolation debtWorld (patientReq 2) patientOwner Hw (mk_is_Some _ _ eq_refl))
    as (res & w' & Hr & Hok & _).
  exists res, w'. split; [exact Hr|exact Hok].
Defined.
