(* ===== verification/Workers.v ===== *)
(** * The worker pool ([workers.go])

    Keys are sharded over workers by a 63-bit hash; each worker owns one cache and
    executes commands one at a time.  The commands of a worker ([handleGetRateLimit],
    [handleAddCacheItem], [handleGetCacheItem], [handleLoad], [handleStore]) run on
    the worker's cache and the process's shared state; the pool's methods pick the
    worker, hand over the command and wait for the answer or for the caller's
    context, modelled as the steps of a transition relation. *)

From stdpp Require Import base gmap strings list pretty.
From Stdlib Require Import ZArith Lia.
From S2P Require Import Prelude Float64 Types GoTime LeakyMath Runtime LRUCache TokenBucket LeakyBucket.

Local Open Scope Z_scope.

(** ** Hashing and sharding *)

(** [xxhash.ChecksumString64S(s, 0)], a 64-bit checksum of another module. *)
Class Hash64 : Type := {
  hash64 : string -> Z;
  hash64_range : forall s, 0 <= hash64 s < 2 ^ 64
}.

Definition ComputeHash63 `{Hash64} (input : string) : Z := Z.shiftr (hash64 input) 1.

(** The parts of [Config] the pool reads. *)
Record PoolConf : Type := mkPoolConf {
  pc_Workers : Z;
  pc_CacheSize : Z;
  pc_ScheduleMaxWait : Z        (* a time.Duration, in nanoseconds *)
}.

Record WorkerPool (C S : Type) : Type := mkPool {
  po_env : Env;                 (* the process *)
  po_workers : list C;          (* the cache of each worker *)
  po_store : option S;
  po_hashRingStep : Z;
  po_conf : PoolConf
}.
Arguments mkPool {C S}.
Arguments po_env {C S}.
Arguments po_workers {C S}.
Arguments po_store {C S}.
Arguments po_hashRingStep {C S}.
Arguments po_conf {C S}.

(** [NewWorkerPool]: a division by zero or a negative slice length panics. *)
Definition NewWorkerPool {C S} (factory : Z -> C) (conf : PoolConf) (e : Env) (s : option S)
    : outcome (WorkerPool C S) :=
  let cacheSize := SetDefaultZ (pc_CacheSize conf) 50000 in
  if pc_Workers conf <? 0 then Panic "makeslice: len out of range"
  else if pc_Workers conf =? 0 then Panic "integer divide by zero"
  else
    let workerCacheSize := Z.quot cacheSize (pc_Workers conf) in
    Ret (mkPool e (replicate (Z.to_nat (pc_Workers conf)) (factory workerCacheSize)) s
           (2 ^ 63 / pc_Workers conf)
           (mkPoolConf (pc_Workers conf) cacheSize (pc_ScheduleMaxWait conf))).

(** [hash / p.hashRingStep] *)
Definition workerIndex `{Hash64} (step : Z) (key : string) : nat := Z.to_nat (ComputeHash63 key / step).

(** [getWorker]: the index of the worker; past the end of the slice it panics. *)
Definition getWorker `{Hash64} {C S} (key : string) : M (WorkerPool C S) nat := fun po =>
  let idx := workerIndex (po_hashRingStep po) key in
  if decide (idx < length (po_workers po))%nat then Ret (idx, po) else Panic "index out of range".

(** Running a command on worker [i]. *)
Definition onWorker {C S A} (i : nat) (m : M (World C S) A) : M (WorkerPool C S) A := fun po =>
  match po_workers po !! i with
  | None => Panic "index out of range"
  | Some c =>
      match m (mkWorld (po_env po) c (po_store po)) with
      | Ret (a, w) => Ret (a, mkPool (w_env w) (<[i := w_cache w]> (po_workers po)) (w_store w)
                              (po_hashRingStep po) (po_conf po))
      | Panic why => Panic why
      end
  end.

Section Handlers.
Context `{Arch} {C S : Type} `{CacheOps C} `{StoreOps S}.

Abbreviation W := (World C S).

(** [countError], one label per kind of error. *)
Definition countErrorLabel (err : gerror) (defaultType : string) : string :=
  if err_is_deadline err then "Timeout" else defaultType.

Definition countError (err : gerror) (defaultType : string) : M Env unit :=
  incr ("gubernator_check_error_counter/" +:+ countErrorLabel err defaultType).

(** [%d] of the algorithm number: the decimal digits. *)
Definition showZ (z : Z) : string := pretty z.

Definition wrapError (msg : string) (res : result RateLimitResp) : M W (result RateLimitResp) :=
  match res with
  | Ok rl => mret (Ok rl)
  | Err e => onEnv (countError e msg);; mret (Err (ErrWrap msg e))
  end.

(** [handleGetRateLimit]; a leaky bucket request leaves the pool with its burst
    defaulted ([leakyReq]). *)
Definition handleGetRateLimit (ceiling : Z) (req : RateLimitReq) (st : RateLimitReqState)
    : M W (result RateLimitResp) :=
  if r_Algorithm req =? TOKEN_BUCKET then
    res ← tokenBucket req st; wrapError "Error in tokenBucket" res
  else if r_Algorithm req =? LEAKY_BUCKET then
    res ← leakyBucket req (mkReqState (IsOwner st) ceiling); wrapError "Error in leakyBucket" res
  else
    onEnv (incr "gubernator_check_error_counter/Invalid algorithm");;
    mret (Err (ErrNew ("Invalid rate limit algorithm '" +:+ showZ (r_Algorithm req) +:+ "'"))).

(** The request as the caller sees it afterwards. *)
Definition handledReq (req : RateLimitReq) : RateLimitReq :=
  if r_Algorithm req =? TOKEN_BUCKET then req
  else if r_Algorithm req =? LEAKY_BUCKET then leakyReq req
  else req.

Definition handleAddCacheItem (item : Ptr) : M W bool := onCache (c_Add item).

Definition handleGetCacheItem (key : string) : M W (option Ptr) := onCache (c_GetItem key).
End Handlers.

(** ** Commands *)

(** The calls other parts of the program make on the pool. *)
Inductive Command : Type :=
  | CGetRateLimit (r : RateLimitReq) (st : RateLimitReqState)
  | CAddCacheItem (key : string) (item : Ptr)
  | CGetCacheItem (key : string).

Inductive Reply : Type :=
  | RRateLimit (res : result RateLimitResp)
  | RAdded
  | RItem (item : option Ptr).

Definition cmdKey (c : Command) : string :=
  match c with
  | CGetRateLimit r _ => HashKey r
  | CAddCacheItem key _ => key
  | CGetCacheItem key => key
  end.

Section Pool.
Context `{Arch} `{Hash64} {C S : Type} `{CacheOps C} `{StoreOps S}.

Abbreviation P := (WorkerPool C S).

(** One arm of the [select] in [dispatch]: a worker takes the command and answers. *)
Definition dispatch (ceiling : Z) (c : Command) : M (World C S) Reply :=
  match c with
  | CGetRateLimit r st =>
      res ← handleGetRateLimit ceiling r st;
      onEnv (incr "gubernator_command_counter/GetRateLimit");; mret (RRateLimit res)
  | CAddCacheItem _ item =>
      handleAddCacheItem item;;
      onEnv (incr "gubernator_command_counter/AddCacheItem");; mret RAdded
  | CGetCacheItem key =>
      o ← handleGetCacheItem key;
      onEnv (incr "gubernator_command_counter/GetCacheItem");; mret (RItem o)
  end.

(** A command on the worker of its key. *)
Definition runCommand (c : Command) : M P Reply :=
  i ← getWorker (cmdKey c);
  ceiling ← gets (fun po => pc_ScheduleMaxWait (po_conf po));
  onWorker i (dispatch ceiling c).

(** The methods of the pool. [gaveUp]: the caller's context ended the call, and whether
    the worker had taken the command by then; a command that was taken is executed. *)
Definition callPool (gaveUp : option (bool * gerror)) (c : Command) : M P (result Reply) :=
  match gaveUp with
  | None => rep ← runCommand c; mret (Ok rep)
  | Some (true, e) => runCommand c;; mret (Err e)
  | Some (false, e) => getWorker (cmdKey c);; mret (Err e)
  end.

Definition GetRateLimit (gaveUp : option (bool * gerror)) (r : RateLimitReq) (st : RateLimitReqState)
    : M P (result RateLimitResp) :=
  res ← callPool gaveUp (CGetRateLimit r st);
  match res with
  | Ok (RRateLimit res) => mret res
  | Ok _ => panic "unexpected reply"
  | Err e => mret (Err e)
  end.

Definition AddCacheItem (gaveUp : option (bool * gerror)) (key : string) (item : Ptr) : M P (result unit) :=
  res ← callPool gaveUp (CAddCacheItem key item);
  mret (match res with Ok _ => Ok tt | Err e => Err e end).

Definition GetCacheItem (gaveUp : option (bool * gerror)) (key : string) : M P (result (option Ptr)) :=
  res ← callPool gaveUp (CGetCacheItem key);
  match res with
  | Ok (RItem o) => mret (Ok o)
  | Ok _ => panic "unexpected reply"
  | Err e => mret (Err e)
  end.

End Pool.
