(* ===== verification/WorkersSpec.v ===== *)
(** * What the worker pool promises

    Sharding stays within the workers, commands on other keys leave a key alone, and the
    limit of a token bucket holds over every sequence of commands. *)

From stdpp Require Import base gmap strings list relations.
From Stdlib Require Import ZArith Lia.
From S2P Require Import Prelude Float64 Types GoTime LeakyMath Runtime LRUCache Store Demo TokenBucket TokenSpec LeakyBucket Workers.

Local Open Scope Z_scope.

(** ** Sharding *)

Section Sharding.
Context `{Hash64} {C S : Type}.

Lemma ComputeHash63_range (s : string) : 0 <= ComputeHash63 s < 2 ^ 63.
Proof.
  unfold ComputeHash63. rewrite Z.shiftr_div_pow2 by lia. pose proof (hash64_range s).
  split; [apply Z.div_pos; lia|]. apply Z.div_lt_upper_bound; lia.
Qed.

Lemma new_pool_fields (factory : Z -> C) (conf : PoolConf) (e : Env) (s : option S) (po : WorkerPool C S) :
  NewWorkerPool factory conf e s = Ret po ->
  0 < pc_Workers conf /\ length (po_workers po) = Z.to_nat (pc_Workers conf) /\
  po_hashRingStep po = 2 ^ 63 / pc_Workers conf.
Proof.
  unfold NewWorkerPool. destruct (Z.ltb_spec (pc_Workers conf) 0); [done|].
  destruct (Z.eqb_spec (pc_Workers conf) 0); [done|]. intros [= <-]. simpl.
  rewrite length_replicate. split; [lia|done].
Qed.

(** When the number of workers divides 2^63 every key has a worker. *)
Lemma worker_in_range (factory : Z -> C) (conf : PoolConf) (e : Env) (s : option S)
    (po : WorkerPool C S) (key : string)
    (Hnew : NewWorkerPool factory conf e s = Ret po) (Hdiv : (pc_Workers conf | 2 ^ 63)) :
  exists i, getWorker key po = Ret (i, po) /\ (i < length (po_workers po))%nat.
Proof.
  destruct (new_pool_fields _ _ _ _ _ Hnew) as (Hw & Hlen & Hstep).
  destruct Hdiv as [q Hq]. assert (2 ^ 63 / pc_Workers conf = q) as Hs by (rewrite Hq; apply Z.div_mul; lia).
  pose proof (ComputeHash63_range key) as Hr. assert (0 < q) by nia.
  assert (ComputeHash63 key / q < pc_Workers conf) by (apply Z.div_lt_upper_bound; nia).
  assert (0 <= ComputeHash63 key / q) by (apply Z.div_pos; lia).
  exists (workerIndex (po_hashRingStep po) key). unfold getWorker, workerIndex. rewrite Hstep, Hs, Hlen.
  rewrite decide_True by lia. split; [done|lia].
Qed.

(** With any other number of workers the top of the hash space belongs to no worker. *)
Lemma worker_out_of_range (factory : Z -> C) (conf : PoolConf) (e : Env) (s : option S)
    (po : WorkerPool C S) (key : string)
    (Hnew : NewWorkerPool factory conf e s = Ret po) (Hdiv : ~ (pc_Workers conf | 2 ^ 63))
    (Hmax : pc_Workers conf < 2 ^ 63) (Hkey : ComputeHash63 key = 2 ^ 63 - 1) :
  getWorker key po = Panic "index out of range".
Proof.
  destruct (new_pool_fields _ _ _ _ _ Hnew) as (Hw & Hlen & Hstep).
  set (n := pc_Workers conf) in *. set (q := 2 ^ 63 / n) in *.
  assert (n * q <= 2 ^ 63 - 1) as Hle.
  { pose proof (Z.mul_div_le (2 ^ 63) n Hw). fold q in H0.
    destruct (Z.eq_dec (n * q) (2 ^ 63)) as [E|]; [|lia]. exfalso. apply Hdiv. exists q. lia. }
  assert (0 < q) by (apply Z.div_str_pos; lia).
  assert (n <= (2 ^ 63 - 1) / q) by (apply Z.div_le_lower_bound; lia).
  unfold getWorker, workerIndex. rewrite Hstep, Hkey, Hlen. apply decide_False. lia.
Qed.

(** Keys are sharded within the pool exactly when the number of workers divides
    2^63, that is, is a power of two: then every key has a worker; with any other number
    a key that hashes to the top of the hash space makes [getWorker] index past the end
    of the slice and panic. *)
Theorem worker_sharding (factory : Z -> C) (conf : PoolConf) (e : Env) (s : option S) (po : WorkerPool C S)
    (Hnew : NewWorkerPool factory conf e s = Ret po) (Hmax : pc_Workers conf < 2 ^ 63) :
  ((pc_Workers conf | 2 ^ 63) ->
     forall key, exists i, getWorker key po = Ret (i, po) /\ (i < length (po_workers po))%nat) /\
  (~ (pc_Workers conf | 2 ^ 63) ->
     forall key, ComputeHash63 key = 2 ^ 63 - 1 -> getWorker key po = Panic "index out of range").
Proof.
  split; intros Hdiv key; [by apply (worker_in_range factory conf e s)|].
  by apply (worker_out_of_range factory conf e s).
Qed.
End Sharding.

(** ** The pool keeps its invariant *)

Section PoolOk.
Context `{Arch} `{Hash64} {C S : Type} `{CacheLaws C} `{StoreLaws S}.

Abbreviation P := (WorkerPool C S).

Record pool_ok (po : P) : Prop := {
  pk_env : env_ok (po_env po);
  pk_workers : forall i c, po_workers po !! i = Some c -> c_wf (po_env po) c;
  pk_store : store_wf (po_env po) (po_store po)
}.

(** Worker [i]'s view of the process. *)
Definition workerWorld (po : P) (c : C) : World C S := mkWorld (po_env po) c (po_store po).

Lemma workerWorld_ok (po : P) (i : nat) (c : C) : pool_ok po -> po_workers po !! i = Some c ->
  world_ok (workerWorld po c).
Proof. intros [He Hw Hs] Hi. constructor; simpl; [done|by eapply Hw|done]. Qed.

Lemma onWorker_run {A} (po : P) (i : nat) (c : C) (m : M (World C S) A) (a : A) (w : World C S) :
  pool_ok po -> po_workers po !! i = Some c -> m (workerWorld po c) = Ret (a, w) ->
  world_ok w -> keys_kept (po_env po) (w_env w) ->
  let po' := mkPool (w_env w) (<[i := w_cache w]> (po_workers po)) (w_store w) (po_hashRingStep po) (po_conf po) in
  onWorker i m po = Ret (a, po') /\ pool_ok po'.
Proof.
  intros [He Hw Hs] Hi Hm Hok Hk po'. split; [unfold onWorker; unfold workerWorld in Hm; by rewrite Hi, Hm|].
  constructor; simpl; [apply Hok| |apply Hok]. intros j c' Hj.
  destruct (decide (i = j)) as [<-|Hne].
  - rewrite list_lookup_insert_eq in Hj by (by eapply lookup_lt_Some). injection Hj as <-. apply Hok.
  - rewrite list_lookup_insert_ne in Hj by done. eapply c_wf_env; [by eapply Hw|done].
Qed.

Lemma same_but_keys (h : Env) (k : string) (e : Env) : same_but h k e -> keys_kept h e.
Proof. intros Hs p it Hp. destruct (sb_items _ _ _ Hs p it Hp) as (it' & ? & ? & _). by exists it'. Qed.

Lemma dispatch_iso (h : Env) (r : RateLimitReq) (st : RateLimitReqState) (c ceiling : Z) :
  r_CreatedAt r = Some c ->
  triple (iso h (HashKey r)) (dispatch ceiling (CGetRateLimit r st) : M (World C S) _)
    (fun _ => iso h (HashKey r)).
Proof.
  intros Hc. simpl. apply (triple_bind _ _ _ (fun _ => iso h (HashKey r))); [|intros res; triple_auto; done].
  unfold handleGetRateLimit, wrapError.
  destruct (_ =? _); [|destruct (_ =? _)].
  - eapply triple_bind; [by eapply tokenBucket_iso|]. intros [rl|e]; cbv beta; [by apply triple_ret|].
    eapply triple_bind; [apply iso_quiet, incr_calm|]. intros ?. by apply triple_ret.
  - eapply triple_bind; [by eapply leakyBucket_iso|]. intros [rl|e]; cbv beta; [by apply triple_ret|].
    eapply triple_bind; [apply iso_quiet, incr_calm|]. intros ?. by apply triple_ret.
  - eapply triple_bind; [apply iso_quiet, incr_calm|]. intros ?. by apply triple_ret.
Qed.

(** The command runs on the worker its key is assigned to. *)
Lemma runCommand_worker (po : P) (c : Command) :
  (workerIndex (po_hashRingStep po) (cmdKey c) < length (po_workers po))%nat ->
  runCommand c po = onWorker (workerIndex (po_hashRingStep po) (cmdKey c))
                      (dispatch (pc_ScheduleMaxWait (po_conf po)) c) po.
Proof.
  intros Hi. unfold runCommand, getWorker. unfold mbind at 1, M_bind at 1. by rewrite decide_True.
Qed.

(** The reply to a rate limit command is a rate limit. *)
Lemma runCommand_reply (po : P) (r : RateLimitReq) (st : RateLimitReqState) (rep : Reply) (po' : P) :
  runCommand (CGetRateLimit r st) po = Ret (rep, po') -> exists res, rep = RRateLimit res.
Proof.
  unfold runCommand. intros Hr. apply bind_ret_inv in Hr as (i & po1 & _ & Hr).
  apply bind_ret_inv in Hr as (c & po2 & _ & Hr). unfold onWorker in Hr.
  destruct (po_workers po2 !! i) as [cache|]; [|discriminate].
  destruct (dispatch _ _ _) as [[rep' w]|] eqn:Hd; [|discriminate]. injection Hr as <- _.
  simpl in Hd. apply bind_ret_inv in Hd as (res & w1 & _ & Hd). apply bind_ret_inv in Hd as (? & w2 & _ & Hd).
  injection Hd as <- _. by exists res.
Qed.

(** A rate limit command runs to completion and leaves items of other keys alone. *)
Lemma runCommand_iso (po : P) (r : RateLimitReq) (st : RateLimitReqState) (c : Z) :
  pool_ok po -> r_CreatedAt r = Some c ->
  (workerIndex (po_hashRingStep po) (HashKey r) < length (po_workers po))%nat ->
  exists rep po', runCommand (CGetRateLimit r st) po = Ret (rep, po') /\ pool_ok po' /\
    same_but (po_env po) (HashKey r) (po_env po') /\ po_hashRingStep po' = po_hashRingStep po /\
    po_conf po' = po_conf po /\
    length (po_workers po') = length (po_workers po).
Proof.
  intros Hok Hc Hi. rewrite runCommand_worker by done. simpl cmdKey.
  set (i := workerIndex _ _) in *. destruct (lookup_lt_is_Some_2 _ _ Hi) as [cache Hcache].
  pose proof (workerWorld_ok po i cache Hok Hcache) as Hw.
  destruct (dispatch_iso (po_env po) r st c (pc_ScheduleMaxWait (po_conf po)) Hc _ (iso_start _ _ Hw))
    as (rep & w & Hr & Hwok & Hsame).
  destruct (onWorker_run po i cache _ rep w Hok Hcache Hr Hwok (same_but_keys _ _ _ Hsame)) as [Hrun Hok'].
  eexists rep, _. split; [exact Hrun|]. split; [done|]. simpl. split; [done|]. split; [done|].
  split; [done|]. apply length_insert.
Qed.

(** A rate limit request concerns its own key alone: it runs to completion on the
    worker of its key, leaves the caches of all other workers as they were, and changes
    no item of another key anywhere in the process. *)
Theorem pool_isolation (po : P) (r : RateLimitReq) (st : RateLimitReqState)
    (Hok : pool_ok po) (Hc : is_Some (r_CreatedAt r))
    (Hw : (workerIndex (po_hashRingStep po) (HashKey r) < length (po_workers po))%nat) :
  exists res po', runCommand (CGetRateLimit r st) po = Ret (RRateLimit res, po') /\ pool_ok po' /\
    (forall p it, e_heap (po_env po) !! p = Some it -> it_Key it <> HashKey r -> e_heap (po_env po') !! p = Some it) /\
    (forall i, i <> workerIndex (po_hashRingStep po) (HashKey r) -> po_workers po' !! i = po_workers po !! i).
Proof.
  destruct Hc as [c Hc]. destruct (runCommand_iso po r st c Hok Hc Hw) as (rep & po' & Hrun & Hok' & Hsame & _).
  destruct (runCommand_reply po r st rep po' Hrun) as [res ->]. exists res, po'. do 2 (split; [done|]). split.
  - intros p it Hp Hk. destruct (sb_items _ _ _ Hsame p it Hp) as (it' & -> & _ & ->); done.
  - intros i Hi. rewrite runCommand_worker in Hrun by done. unfold onWorker in Hrun. simpl cmdKey in Hrun.
    destruct (po_workers po !! _); [|discriminate]. destruct (dispatch _ _ _) as [[? w]|]; [|discriminate].
    injection Hrun as _ <-. simpl. by apply list_lookup_insert_ne.
Qed.
End PoolOk.

(** ** The limit over any interleaving *)

Section Window.
Context `{Arch} `{Hash64} {C S : Type} `{CacheLaws C} `{StoreLaws S}.

Abbreviation P := (WorkerPool C S).

(** Item [p] with contents [it] is cached for key [k] on the worker of [k]. *)
Definition at_key (po : P) (k : string) (p : Ptr) (it : CacheItem) : Prop :=
  exists c, po_workers po !! workerIndex (po_hashRingStep po) k = Some c /\
    c_view c !! k = Some p /\ e_heap (po_env po) !! p = Some it.

(** An item to install exists. *)
Definition installable (po : P) (c : Command) : Prop :=
  match c with CAddCacheItem _ item => is_Some (e_heap (po_env po) !! item) | _ => True end.

(** Executions during which [k] stays cached: no eviction, no replacement. *)
Inductive served (k : string) (p : Ptr) : P -> list (Command * Reply) -> P -> Prop :=
  | served_nil po : served k p po [] po
  | served_cons po po1 po2 c rep tr :
      installable po c -> runCommand c po = Ret (rep, po1) ->
      (exists it, at_key po1 k p it) ->
      served k p po1 tr po2 -> served k p po ((c, rep) :: tr) po2.

(** Any command; a rate limit request on key [k] is a token bucket request for [limit]
    hits per [duration] that refunds nothing and resets nothing. *)
Definition conforms (k : string) (limit duration : Z) (c : Command) : Prop :=
  match c with
  | CGetRateLimit r _ =>
      is_Some (r_CreatedAt r) /\
      (HashKey r = k -> r_Algorithm r = TOKEN_BUCKET /\
         HasBehavior (r_Behavior r) RESET_REMAINING = false /\
         r_Limit r = limit /\ r_Duration r = duration /\ 0 <= r_Hits r)
  | _ => True
  end.

(** The hits an executed command was charged on key [k]. *)
Definition chargedOn (k : string) (cr : Command * Reply) : Z :=
  match cr with
  | (CGetRateLimit r _, RRateLimit (Ok rl)) => if String.eqb (HashKey r) k then charged r rl else 0
  | _ => 0
  end.

Definition sumZ (l : list Z) : Z := fold_right Z.add 0 l.

(** The state the induction carries: a live token bucket at [k]. *)
Definition window (po : P) (k : string) (p : Ptr) (limit duration expire rem : Z) : Prop :=
  pool_ok po /\ (forall n, epochMillis (mkTime (e_clock (po_env po) n) (e_loc (po_env po))) <= expire) /\
  exists it t, at_key po k p it /\ it_Value it = VToken t /\ it_InvalidAt it = 0 /\
    it_ExpireAt it = expire /\ tb_Limit t = limit /\ tb_Duration t = duration /\
    tb_Remaining t = rem /\ 0 <= rem /\ in64 rem.

Lemma touched_keys (w w' : World C S) (k : string) (p : Ptr) (it it' : CacheItem) :
  cached w k p it -> it_Key it' = it_Key it -> touched w p it' w' -> keys_kept (w_env w) (w_env w').
Proof.
  intros [_ Hp] Hk [_ _ Hg] q iq Hq. destruct (save_keys (w_env w) p it it' Hp Hk q iq Hq) as (i2 & Hi2 & Hk2).
  exists i2. split; [|done]. eapply lookup_weaken; [exact Hi2|apply (eg_heap _ _ Hg)].
Qed.

(** A worker executes a token bucket request that the algorithm answers with [rl]. *)
Lemma dispatch_token (w w' : World C S) (r : RateLimitReq) (st : RateLimitReqState) (rl : RateLimitResp)
    (ceiling : Z) : r_Algorithm r = TOKEN_BUCKET -> tokenBucket r st w = Ret (Ok rl, w') ->
  exists e', dispatch ceiling (CGetRateLimit r st) w =
      Ret (RRateLimit (Ok rl), mkWorld e' (w_cache w') (w_store w')) /\ env_quiet (w_env w') e'.
Proof.
  intros Ha Hr. simpl. unfold handleGetRateLimit. rewrite Ha. simpl.
  rewrite bind_assoc, (bind_ret_run _ _ _ _ _ Hr). unfold wrapError.
  rewrite (bind_ret_run _ _ _ _ _ (mret_run _ _)).
  eexists. split; [done|apply counters_quiet].
Qed.

(** A worker that executed a command by writing item [p] of its key. *)
Lemma touched_command (po : P) (cmd : Command) (cache : C) (p : Ptr) (it it' : CacheItem) (rep : Reply)
    (w' : World C S) (e2 : Env) :
  pool_ok po -> po_workers po !! workerIndex (po_hashRingStep po) (cmdKey cmd) = Some cache ->
  cached (workerWorld po cache) (cmdKey cmd) p it -> it_Key it' = it_Key it ->
  touched (workerWorld po cache) p it' w' ->
  dispatch (pc_ScheduleMaxWait (po_conf po)) cmd (workerWorld po cache) =
    Ret (rep, mkWorld e2 (w_cache w') (w_store w')) -> env_quiet (w_env w') e2 ->
  exists po', runCommand cmd po = Ret (rep, po') /\ pool_ok po' /\ at_key po' (cmdKey cmd) p it' /\
    e_clock (po_env po') = e_clock (po_env po) /\ e_loc (po_env po') = e_loc (po_env po).
Proof.
  intros Hok Hi Hca Hk Htc Hdis Hq2. pose proof (touched_keys _ w' _ p it it' Hca Hk Htc) as Hkeys.
  destruct (touched_cached _ _ _ _ _ _ Hca Htc) as [Hv' Hp'].
  destruct (onWorker_run po _ cache _ _ _ Hok Hi Hdis) as [Hon Hok'].
  { apply world_ok_quiet; [apply Htc|done]. }
  { intros q iq Hq. destruct (Hkeys q iq Hq) as (i2 & ? & ?). exists i2. simpl. by rewrite (eq_heap _ _ Hq2). }
  destruct Htc as [_ _ [_ _ Hck Hlk _]]. simpl in Hck, Hlk.
  eexists. split; [rewrite runCommand_worker; [exact Hon|by eapply lookup_lt_Some]|]. split; [done|]. simpl. split.
  { exists (w_cache w'). simpl. rewrite list_lookup_insert_eq by (by eapply lookup_lt_Some).
    split; [done|]. split; [done|]. by rewrite (eq_heap _ _ Hq2). }
  by rewrite (eq_clock _ _ Hq2), (eq_loc _ _ Hq2), Hck, Hlk.
Qed.

(** A token bucket request on its worker, when limit and duration are those of the
    live bucket it finds there. *)
Lemma token_command_run (po : P) (r : RateLimitReq) (st : RateLimitReqState) (p : Ptr) (it : CacheItem)
    (t : TokenBucketItem) :
  pool_ok po -> at_key po (HashKey r) p it -> it_Value it = VToken t -> it_InvalidAt it = 0 ->
  (forall n, epochMillis (mkTime (e_clock (po_env po) n) (e_loc (po_env po))) <= it_ExpireAt it) ->
  r_Algorithm r = TOKEN_BUCKET -> plain r -> tb_Limit t = r_Limit r -> tb_Duration t = r_Duration r ->
  let d := decide_token t (tokenResp it t r) r in
  exists po', runCommand (CGetRateLimit r st) po = Ret (RRateLimit (Ok (snd d)), po') /\ pool_ok po' /\
    at_key po' (HashKey r) p (with_Value (VToken (fst d)) it) /\
    e_clock (po_env po') = e_clock (po_env po) /\ e_loc (po_env po') = e_loc (po_env po).
Proof.
  intros Hok (c & Hi & Hv & Hp) Ht Hinv Hclk Ha Hplain Hl Hd d.
  pose proof (workerWorld_ok po _ c Hok Hi) as Hw. set (w := workerWorld po c) in *.
  assert (cached w (HashKey r) p it) as Hca0 by done.
  assert (live_token w r p it t) as Hlive.
  { split; [done|]. split; [done|]. split; [done|].
    unfold expiredAt, nowMs. rewrite Hinv. simpl.
    replace (it_ExpireAt it <? _) with false; [done|]. symmetry. apply Z.ltb_ge, Hclk. }
  destruct (same_config_run w r st p it t Hlive Hplain Hl Hd) as (w' & Hrun & Htc & _).
  fold d in Hrun, Htc.
  destruct (dispatch_token w w' r st _ (pc_ScheduleMaxWait (po_conf po)) Ha Hrun) as (e2 & Hdis & Hq2).
  by apply (touched_command po (CGetRateLimit r st) c p it _ _ w' e2).
Qed.

(** One request on the key. *)
Lemma window_own (po : P) (k : string) (p : Ptr) (limit duration expire rem : Z)
    (r : RateLimitReq) (st : RateLimitReqState) :
  window po k p limit duration expire rem -> HashKey r = k ->
  conforms k limit duration (CGetRateLimit r st) ->
  exists rl po' rem', runCommand (CGetRateLimit r st) po = Ret (RRateLimit (Ok rl), po') /\
    window po' k p limit duration expire rem' /\ 0 <= charged r rl /\ charged r rl + rem' <= rem.
Proof.
  intros (Hok & Hclk & it & t & Hat & Ht & Hinv & Hexp & Hl & Hd & Hr & Hz & H64) Hk [Hcr Hown].
  destruct (Hown Hk) as (Ha & Hreset & Hlr & Hdr & Hh). rewrite <- Hk in Hat.
  destruct (token_command_run po r st p it t Hok Hat Ht Hinv) as (po' & Hrun & Hok' & Hat' & Hck & Hlk);
    [by rewrite Hexp|done|done|congruence..|].
  pose proof (decide_token_charge t (tokenResp it t r) r) as Hch. rewrite Hr in Hch.
  specialize (Hch Hz H64 Hh Hr eq_refl).
  destruct (decide_token t (tokenResp it t r) r) as [t' rl]. simpl in Hrun, Hat'.
  destruct Hch as (Hlow & Hc0 & Hsum & El & Ed & _ & _).
  exists rl, po', (tb_Remaining t'). split; [done|]. split; [|done].
  split; [done|]. split; [intros n; rewrite Hck, Hlk; apply Hclk|].
  exists (with_Value (VToken t') it), t'. rewrite Hk in Hat'.
  do 8 (split; [done || congruence|]). unfold in64, min_i64, max_i64 in *. lia.
Qed.

(** A request on another key leaves the item of [k] alone. *)
Lemma other_command (po : P) (k : string) (p : Ptr) (it : CacheItem) (r : RateLimitReq) (st : RateLimitReqState)
    (rep : Reply) (po' : P) :
  pool_ok po -> at_key po k p it -> HashKey r <> k -> is_Some (r_CreatedAt r) ->
  runCommand (CGetRateLimit r st) po = Ret (rep, po') -> (exists it, at_key po' k p it) ->
  pool_ok po' /\ at_key po' k p it /\
  e_clock (po_env po') = e_clock (po_env po) /\ e_loc (po_env po') = e_loc (po_env po).
Proof.
  intros Hok (c & Hi & Hv & Hp) Hk [cr Hcr] Hrun (it' & c' & Hi' & Hv' & Hp').
  assert (workerIndex (po_hashRingStep po) (HashKey r) < length (po_workers po))%nat as Hlt.
  { unfold runCommand, getWorker in Hrun. apply bind_ret_inv in Hrun as (i & po1 & Hg & _). simpl in Hg.
    destruct (decide _); [done|discriminate]. }
  destruct (runCommand_iso po r st cr Hok Hcr Hlt) as (rep' & po2 & Hrun' & Hok' & [Hsame Hc Hl] & _).
  rewrite Hrun' in Hrun. injection Hrun as -> ->.
  destruct (Hsame p it Hp) as (it2 & Hp2 & _ & Heq).
  assert (it_Key it = k) as Hkey.
  { destruct (c_wf_item _ _ _ _ (pk_workers _ Hok _ _ Hi) Hv) as (? & ? & ?). congruence. }
  rewrite Heq in Hp2 by congruence. assert (it' = it) as -> by congruence.
  split; [done|]. split; [by exists c'|done].
Qed.

Lemma window_other (po : P) (k : string) (p : Ptr) (limit duration expire rem : Z)
    (r : RateLimitReq) (st : RateLimitReqState) (rep : Reply) (po' : P) :
  window po k p limit duration expire rem -> HashKey r <> k -> is_Some (r_CreatedAt r) ->
  runCommand (CGetRateLimit r st) po = Ret (rep, po') -> (exists it, at_key po' k p it) ->
  window po' k p limit duration expire rem.
Proof.
  intros (Hok & Hclk & it & t & Hat & Hrest) Hk Hcr Hrun Hat'.
  destruct (other_command po k p it r st rep po' Hok Hat Hk Hcr Hrun Hat') as (Hok' & Hat2 & Hc & Hl).
  split; [done|]. split; [intros n; rewrite Hc, Hl; apply Hclk|]. by exists it, t.
Qed.

(** Installing or reading an item changes no item. *)
Lemma cache_access (po : P) (c : Command) (rep : Reply) (po' : P) :
  pool_ok po -> installable po c -> match c with CGetRateLimit _ _ => False | _ => True end ->
  runCommand c po = Ret (rep, po') -> pool_ok po' /\ env_quiet (po_env po) (po_env po').
Proof.
  intros Hok Hin Hc Hrun.
  assert (workerIndex (po_hashRingStep po) (cmdKey c) < length (po_workers po))%nat as Hlt.
  { unfold runCommand, getWorker in Hrun. apply bind_ret_inv in Hrun as (i & po1 & Hg & _).
    destruct (decide _); [done|discriminate]. }
  rewrite runCommand_worker in Hrun by done. destruct (lookup_lt_is_Some_2 _ _ Hlt) as [cache Hcache].
  pose proof (workerWorld_ok po _ cache Hok Hcache) as Hw.
  enough (exists w, dispatch (pc_ScheduleMaxWait (po_conf po)) c (workerWorld po cache) = Ret (rep, w) /\
    world_ok w /\ env_quiet (po_env po) (w_env w) /\
    po' = mkPool (w_env w) (<[workerIndex (po_hashRingStep po) (cmdKey c) := w_cache w]> (po_workers po)) (w_store w)
            (po_hashRingStep po) (po_conf po)) as (w & Hdis & Hwok & Hq & ->).
  { destruct (onWorker_run po _ cache _ rep w Hok Hcache Hdis Hwok) as [_ Hok']; [auto with env|]. by split. }
  unfold onWorker in Hrun. rewrite Hcache in Hrun. fold (workerWorld po cache) in Hrun.
  destruct (dispatch _ c _) as [[rep' w]|] eqn:Hdis; [|discriminate]. injection Hrun as <- <-.
  exists w. split; [done|]. cut (world_ok w /\ env_quiet (po_env po) (w_env w)); [by intros []|].
  destruct c as [r st|key item|key]; [done| |]; simpl in Hdis.
  - destruct Hin as [it Hit]. destruct (c_Add_ok (po_env po) cache item it) as (b & e' & c' & Hr & Hq & Hwf & _); [apply Hw|done|].
    destruct (cache_call_step _ (workerWorld po cache) _ _ _ Hw Hr Hq Hwf) as (Hc1 & Hok1 & _).
    unfold handleAddCacheItem in Hdis. rewrite (bind_ret_run _ _ _ _ _ Hc1) in Hdis. injection Hdis as <- <-.
    split; [apply (world_ok_quiet _ _ Hok1), counters_quiet|]. etransitivity; [exact Hq|apply counters_quiet].
  - destruct (c_GetItem_ok (po_env po) cache key) as (o & e' & c' & Hr & Hq & Hwf & _); [apply Hw|].
    destruct (cache_call_step _ (workerWorld po cache) _ _ _ Hw Hr Hq Hwf) as (Hc1 & Hok1 & _).
    unfold handleGetCacheItem in Hdis. rewrite (bind_ret_run _ _ _ _ _ Hc1) in Hdis. injection Hdis as <- <-.
    split; [apply (world_ok_quiet _ _ Hok1), counters_quiet|]. etransitivity; [exact Hq|apply counters_quiet].
Qed.

(** So the item of [k] stays as it is. *)
Lemma cache_access_at (po : P) (k : string) (p : Ptr) (it : CacheItem) (c : Command) (rep : Reply) (po' : P) :
  pool_ok po -> at_key po k p it -> installable po c -> match c with CGetRateLimit _ _ => False | _ => True end ->
  runCommand c po = Ret (rep, po') -> (exists it, at_key po' k p it) ->
  pool_ok po' /\ at_key po' k p it /\
  e_clock (po_env po') = e_clock (po_env po) /\ e_loc (po_env po') = e_loc (po_env po).
Proof.
  intros Hok (c0 & _ & _ & Hp) Hin Hc Hrun (it' & c' & Hi' & Hv' & Hp').
  destruct (cache_access po c rep po' Hok Hin Hc Hrun) as [Hok' [Hh _ Hck Hl _]].
  rewrite Hh, Hp in Hp'. injection Hp' as ->. split; [done|]. split; [|done]. exists c'. by rewrite Hh.
Qed.

Lemma window_cache (po : P) (k : string) (p : Ptr) (limit duration expire rem : Z) (c : Command) (rep : Reply) (po' : P) :
  window po k p limit duration expire rem -> installable po c -> match c with CGetRateLimit _ _ => False | _ => True end ->
  runCommand c po = Ret (rep, po') -> (exists it, at_key po' k p it) -> window po' k p limit duration expire rem.
Proof.
  intros (Hok & Hclk & it & t & Hat & Hrest) Hin Hc Hrun Hat'.
  destruct (cache_access_at po k p it c rep po' Hok Hat Hin Hc Hrun Hat') as (Hok' & Hat2 & Hck & Hl).
  split; [done|]. split; [intros n; rewrite Hck, Hl; apply Hclk|]. by exists it, t.
Qed.

(** C7: The limit holds over any order of execution. Take a key with a live token
    bucket holding [rem] tokens, and any sequence of commands of the pool, rate limit
    requests on this key and on others, items installed and items read, before the bucket
    expires and while it is neither evicted nor replaced. Where the requests on the key are
    token bucket requests with the limit and duration of the bucket, with no negative hits
    and without RESET_REMAINING, the hits admitted on the key add up to at most [rem]. *)
Theorem pool_token_window (po po' : P) (k : string) (p : Ptr) (limit duration expire rem : Z)
    (tr : list (Command * Reply))
    (Hwin : window po k p limit duration expire rem)
    (Hserved : served k p po tr po')
    (Hconf : Forall (conforms k limit duration) tr.*1) :
  exists rem', window po' k p limit duration expire rem' /\ sumZ (chargedOn k <$> tr) + rem' <= rem.
Proof.
  revert rem Hwin Hconf. induction Hserved as [po|po po1 po2 c rep tr Hin Hrun Hat _ IH]; intros rem Hwin Hconf.
  { exists rem. split; [done|]. simpl. lia. }
  apply Forall_cons in Hconf as [Hc Hconf]. rewrite fmap_cons. cbn [sumZ fold_right]. fold (sumZ (chargedOn k <$> tr)).
  destruct c as [r st|key item|key];
    [|destruct (IH rem (window_cache po k p limit duration expire rem _ rep po1 Hwin Hin I Hrun Hat) Hconf) as (rem' & Hwin' & Hsum);
      exists rem'; by split..].
  destruct (decide (HashKey r = k)) as [Hk|Hk].
  - destruct (window_own po k p limit duration expire rem r st Hwin Hk Hc) as (rl & po1' & rem1 & Hrun' & Hwin1 & _ & Hle).
    rewrite Hrun' in Hrun. injection Hrun as <- <-.
    destruct (IH rem1 Hwin1 Hconf) as (rem' & Hwin' & Hsum). exists rem'. split; [done|].
    cbn [chargedOn]. rewrite Hk, String.eqb_refl. lia.
  - pose proof (window_other po k p limit duration expire rem r st rep po1 Hwin Hk (proj1 Hc) Hrun Hat) as Hwin1.
    destruct (IH rem Hwin1 Hconf) as (rem' & Hwin' & Hsum). exists rem'. split; [done|].
    assert (String.eqb (HashKey r) k = false) as Hne by (by apply String.eqb_neq).
    cbn [chargedOn]. rewrite Hne. destruct rep as [[rl|e]| |]; lia.
Qed.
End Window.

(** ** Examples *)

(** A hash for the examples: the first byte, spread over the 64 bits. *)
#[global, refine] Instance demoHash : Hash64 := {
  hash64 s := match s with String c _ => Z.of_nat (Ascii.nat_of_ascii c) * 2 ^ 56 | EmptyString => 0 end
}.
Proof.
  intros [|c s]; [lia|]. pose proof (Ascii.nat_ascii_bounded c). lia.
Defined.

(** Eight workers, each with a copy of the cache of [w]. *)
Definition demoPool (w : World LRUCache MockStore) : WorkerPool LRUCache MockStore :=
  mkPool (w_env w) (replicate 8 (w_cache w)) (w_store w) (2 ^ 60) (mkPoolConf 8 80 0).

Definition demoKey : string := "requests_per_min_account:1234".

Lemma demoPool_ok (w : World LRUCache MockStore) : world_ok w -> pool_ok (demoPool w).
Proof.
  intros [He Hc Hs]. constructor; [done| |done].
  intros i c Hi. apply lookup_replicate in Hi as [-> _]. done.
Qed.

Lemma demo_has_worker (w : World LRUCache MockStore) :
  (workerIndex (po_hashRingStep (demoPool w)) demoKey < length (po_workers (demoPool w)))%nat.
Proof. apply Nat.ltb_lt. vm_compute. reflexivity. Qed.

Lemma demoPool_at (w : World LRUCache MockStore) (p : Ptr) (it : CacheItem) :
  cached w demoKey p it -> at_key (demoPool w) demoKey p it.
Proof.
  intros [Hv Hp]. exists (w_cache w). split; [|done]. apply lookup_replicate_2. apply (demo_has_worker w).
Qed.

(** A checksum of all ones, as xxhash may return. *)
#[refine] Definition onesHash : Hash64 := {| hash64 _ := 2 ^ 64 - 1 |}.
Proof. intros _. lia. Defined.

Lemma worker_sharding_witness : exists po,
  NewWorkerPool (S := MockStore) NewLRUCache (mkPoolConf 6 100 0) (demoEnv 0) None = Ret po /\
  getWorker (H := onesHash) demoKey po = Panic "index out of range".
Proof.
  eexists. split; [reflexivity|].
  apply (worker_sharding (H := onesHash) (S := MockStore) NewLRUCache (mkPoolConf 6 100 0) (demoEnv 0) None _ eq_refl);
    [done| |reflexivity].
  intros Hd. apply Z.mod_divide in Hd; [discriminate Hd|done].
Defined.

Lemma demo_window : window (demoPool tokenWorld) demoKey 0%nat 10 60000 61000 7.
Proof.
  destruct (tokenWorld_live (demoReq TOKEN_BUCKET 4 2000) eq_refl) as (Hw & Hc & _).
  split; [by apply demoPool_ok|]. split; [intros n; by vm_compute|].
  exists tokenItem, (mkToken UNDER_LIMIT 10 60000 7 1000). split; [by apply demoPool_at|]. done.
Qed.

Lemma demo_conforms (hits : Z) : 0 <= hits ->
  conforms demoKey 10 60000 (CGetRateLimit (demoReq TOKEN_BUCKET hits 2000) owner).
Proof. intros Hh. split; [by eexists|done]. Qed.

Lemma pool_token_window_witness : exists tr po',
  served (H := amd64) demoKey 0%nat (demoPool tokenWorld) tr po' /\ length tr = 1%nat /\
  sumZ (chargedOn demoKey <$> tr) <= 7.
Proof.
  destruct (window_own (H := amd64) _ _ _ _ _ _ _ (demoReq TOKEN_BUCKET 4 2000) owner demo_window eq_refl
    (demo_conforms 4 ltac:(done))) as (rl & po' & rem' & Hrun & (Hok & Hclk & it & t & Hat & _) & _).
  assert (served (H := amd64) demoKey 0%nat (demoPool tokenWorld)
    [(CGetRateLimit (demoReq TOKEN_BUCKET 4 2000) owner, RRateLimit (Ok rl))] po') as Hs.
  { eapply served_cons; [exact I|exact Hrun|by exists it|constructor]. }
  eexists _, po'. split; [exact Hs|]. split; [done|].
  destruct (pool_token_window (H := amd64) _ _ _ _ _ _ _ _ _ demo_window Hs) as (r' & (_ & _ & ? & ? & Hrest) & Hsum).
  { constructor; [apply demo_conforms; done|constructor]. }
  destruct Hrest as (_ & _ & _ & _ & _ & _ & _ & Hz & _). lia.
Defined.

Lemma pool_isolation_witness : exists res po',
  runCommand (H := amd64) (CGetRateLimit (demoReq TOKEN_BUCKET 4 2000) owner) (demoPool tokenWorld) =
    Ret (RRateLimit res, po') /\ po_workers po' !! 0%nat = Some (w_cache tokenWorld).
Proof.
  destruct (tokenWorld_live (demoReq TOKEN_BUCKET 4 2000) eq_refl) as (Hw & _).
  destruct (pool_isolation (H := amd64) (demoPool tokenWorld) (demoReq TOKEN_BUCKET 4 2000) owner
    (demoPool_ok _ Hw) (mk_is_Some _ _ eq_refl) (demo_has_worker _)) as (res & po' & Hr & _ & _ & Hother).
  exists res, po'. split; [exact Hr|]. rewrite Hother; [done|]. vm_compute. discriminate.
Defined.
