(* ===== verification/WorkerLoop.v ===== *)
(** * The worker goroutines and the calls in flight ([workers.go])

    The pool as a transition system: calls hand their command to the worker of their
    key, the worker executes it and answers, contexts end and the pool is closed at any
    point.  Every call is executed at most once, in some sequential order; every call
    in flight completes; a pool that was closed leaves its calls to their contexts. *)

From stdpp Require Import base gmap strings list relations.
From Stdlib Require Import ZArith Lia.
From S2P Require Import Prelude Float64 Types GoTime LeakyMath Runtime LRUCache Store Demo TokenBucket TokenSpec LeakyBucket Workers WorkersSpec.

Local Open Scope Z_scope.
Local Open Scope go_scope.

(** Lookups in a list that was updated at one index. *)
Ltac updated :=
  repeat match goal with
  | Hl : <[_ := _]> _ !! _ = Some _ |- _ =>
      apply list_lookup_insert_Some in Hl as [(? & ? & _)|(? & Hl)]
  | Hl : (_ ++ [_]) !! _ = Some _ |- _ =>
      apply lookup_snoc_Some in Hl as [(? & Hl)|(? & ?)]
  end; simpl in *; simplify_eq/=.

Section Loop.
Context `{Arch} `{Hash64} {C S : Type} `{CacheOps C} `{StoreOps S}.

Abbreviation P := (WorkerPool C S).

(** Where the goroutine of a worker is: at the [select] of [dispatch], executing the
    command of a call, at the [select] that answers it, or returned. *)
Inductive WorkerAt : Type :=
  | Idle
  | Busy (i : nat)
  | Replying (i : nat) (rep : Reply)
  | Stopped.

(** Where a caller is: at the [select] that sends the request, at the one that waits for
    the response, there with a response in the channel's buffer, or returned. *)
Inductive Phase : Type :=
  | Sending
  | Awaiting
  | Delivered (rep : Reply)
  | Returned (res : result Reply).

(** A call: its command, [ctx.Err()] of its context, and where it is. *)
Record Call : Type := mkCall {
  cl_cmd : Command;
  cl_ctx : option gerror;
  cl_phase : Phase
}.

Definition at_phase (ph : Phase) (c : Call) : Call := mkCall (cl_cmd c) (cl_ctx c) ph.

(** The response channel of [GetRateLimit] has room for the response; those of
    [AddCacheItem] and [GetCacheItem] do not. *)
Definition buffered (c : Command) : bool :=
  match c with CGetRateLimit _ _ => true | _ => false end.

Record System : Type := mkSystem {
  sy_pool : P;
  sy_workers : list WorkerAt;
  sy_calls : list Call;
  sy_log : list (nat * Reply);     (* calls executed, in order *)
  sy_closed : bool                 (* the channel [done] is closed *)
}.

(** [Close]: closes [done] once. *)
Definition Close (sy : System) : System :=
  if sy_closed sy then sy
  else mkSystem (sy_pool sy) (sy_workers sy) (sy_calls sy) (sy_log sy) true.

(** [ctx.Err()] of a context that is done. *)
Definition ctxErr (e : gerror) : Prop := e = Canceled \/ e = DeadlineExceeded.

Definition workerFor (po : P) (c : Command) : nat := workerIndex (po_hashRingStep po) (cmdKey c).

(** What happens from outside: a call of a method (one whose key has a worker, see
    [worker_sharding]), the end of a context, [Close]. *)
Inductive env_step : System -> System -> Prop :=
  | step_call c po ws calls log cl : (workerFor po c < length ws)%nat ->
      env_step (mkSystem po ws calls log cl) (mkSystem po ws (calls ++ [mkCall c None Sending]) log cl)
  | step_ctx i c ph e po ws calls log cl : calls !! i = Some (mkCall c None ph) -> ctxErr e ->
      env_step (mkSystem po ws calls log cl) (mkSystem po ws (<[i := mkCall c (Some e) ph]> calls) log cl)
  | step_close sy : env_step sy (Close sy).

(** What the goroutines of the pool and of its callers do. *)
Inductive run_step : System -> System -> Prop :=
  | step_take w i c po ws calls log cl :
      ws !! w = Some Idle -> calls !! i = Some c -> cl_phase c = Sending -> workerFor po (cl_cmd c) = w ->
      run_step (mkSystem po ws calls log cl)
               (mkSystem po (<[w := Busy i]> ws) (<[i := at_phase Awaiting c]> calls) log cl)
  | step_execute w i c rep po po' ws calls log cl :
      ws !! w = Some (Busy i) -> calls !! i = Some c -> runCommand (cl_cmd c) po = Ret (rep, po') ->
      run_step (mkSystem po ws calls log cl)
               (mkSystem po' (<[w := Replying i rep]> ws) calls (log ++ [(i, rep)]) cl)
  | step_deliver w i c rep po ws calls log cl :
      ws !! w = Some (Replying i rep) -> calls !! i = Some c -> buffered (cl_cmd c) = true ->
      run_step (mkSystem po ws calls log cl)
               (mkSystem po (<[w := Idle]> ws)
                  (match cl_phase c with Awaiting => <[i := at_phase (Delivered rep) c]> calls | _ => calls end) log cl)
  | step_rendezvous w i c rep po ws calls log cl :
      ws !! w = Some (Replying i rep) -> calls !! i = Some c -> buffered (cl_cmd c) = false ->
      cl_phase c = Awaiting ->
      run_step (mkSystem po ws calls log cl)
               (mkSystem po (<[w := Idle]> ws) (<[i := at_phase (Returned (Ok rep)) c]> calls) log cl)
  | step_drop w i c rep po ws calls log cl :
      ws !! w = Some (Replying i rep) -> calls !! i = Some c -> is_Some (cl_ctx c) ->
      run_step (mkSystem po ws calls log cl) (mkSystem po (<[w := Idle]> ws) calls log cl)
  | step_receive i c rep po ws calls log cl :
      calls !! i = Some c -> cl_phase c = Delivered rep ->
      run_step (mkSystem po ws calls log cl)
               (mkSystem po ws (<[i := at_phase (Returned (Ok rep)) c]> calls) log cl)
  | step_give_up i c e po ws calls log cl :
      calls !! i = Some c -> cl_ctx c = Some e -> (forall res, cl_phase c <> Returned res) ->
      run_step (mkSystem po ws calls log cl)
               (mkSystem po ws (<[i := at_phase (Returned (Err e)) c]> calls) log cl)
  | step_stop w po ws calls log :
      ws !! w = Some Idle ->
      run_step (mkSystem po ws calls log true) (mkSystem po (<[w := Stopped]> ws) calls log true).

Definition sys_step (s s' : System) : Prop := env_step s s' \/ run_step s s'.

(** [NewWorkerPool] starts one goroutine for every worker. *)
Definition started (po : P) : System := mkSystem po (replicate (length (po_workers po)) Idle) [] [] false.

Definition reachable (po : P) : System -> Prop := rtc sys_step (started po).

(** Executing commands one after the other. *)
Fixpoint replay (cs : list Command) : M P (list Reply) :=
  match cs with
  | [] => mret []
  | c :: cs => rep ← runCommand c; reps ← replay cs; mret (rep :: reps)
  end.

(** ** Invariants *)

(** The call a worker is occupied with. *)
Definition serving (w : WorkerAt) : option nat :=
  match w with Busy i | Replying i _ => Some i | _ => None end.

(** The commands of the log, in order of execution. *)
Definition executed (sy : System) : list Command :=
  omap (fun ir => cl_cmd <$> sy_calls sy !! ir.1) (sy_log sy).

(** The goroutines agree on who is waiting for whom. *)
Record sys_wf (sy : System) : Prop := {
  sw_len : length (sy_workers sy) = length (po_workers (sy_pool sy));
  sw_serving : forall w wa i, sy_workers sy !! w = Some wa -> serving wa = Some i ->
    exists c, sy_calls sy !! i = Some c /\ workerFor (sy_pool sy) (cl_cmd c) = w /\
      (cl_phase c = Awaiting \/ exists e, cl_phase c = Returned (Err e));
  sw_await : forall i c, sy_calls sy !! i = Some c -> cl_phase c = Awaiting ->
    is_Some (cl_ctx c) \/ exists w wa, sy_workers sy !! w = Some wa /\ serving wa = Some i;
  sw_gone : forall i c e, sy_calls sy !! i = Some c -> cl_phase c = Returned (Err e) -> cl_ctx c = Some e;
  sw_worker : forall i c, sy_calls sy !! i = Some c -> (workerFor (sy_pool sy) (cl_cmd c) < length (sy_workers sy))%nat;
  sw_stopped : forall w, sy_workers sy !! w = Some Stopped -> sy_closed sy = true
}.

(** What was executed. *)
Record sys_seq (po : P) (sy : System) : Prop := {
  sq_replay : replay (executed sy) po = Ret ((sy_log sy).*2, sy_pool sy);
  sq_once : NoDup (sy_log sy).*1;
  sq_log : forall i rep, (i, rep) ∈ sy_log sy ->
    exists c, sy_calls sy !! i = Some c /\ cl_phase c <> Sending /\
      forall w, sy_workers sy !! w <> Some (Busy i);
  sq_replying : forall w i rep, sy_workers sy !! w = Some (Replying i rep) -> (i, rep) ∈ sy_log sy;
  sq_answer : forall i c rep, sy_calls sy !! i = Some c ->
    cl_phase c = Delivered rep \/ cl_phase c = Returned (Ok rep) -> (i, rep) ∈ sy_log sy
}.

Lemma replay_snoc (cs : list Command) (c : Command) (po po1 po2 : P) (reps : list Reply) (rep : Reply) :
  replay cs po = Ret (reps, po1) -> runCommand c po1 = Ret (rep, po2) ->
  replay (cs ++ [c]) po = Ret (reps ++ [rep], po2).
Proof.
  revert po reps. induction cs as [|c' cs IH]; intros po reps Hr Hc; simpl in *.
  - injection Hr as <- <-. rewrite (bind_ret_run _ _ _ _ _ Hc). done.
  - apply bind_ret_inv in Hr as (rep' & po' & Hr' & Hr). apply bind_ret_inv in Hr as (reps' & po'' & Hr & Hm).
    injection Hm as <- <-. rewrite (bind_ret_run _ _ _ _ _ Hr').
    by rewrite (bind_ret_run _ _ _ _ _ (IH _ _ Hr Hc)).
Qed.

(** A command changes caches, store and process, not the shape of the pool. *)
Lemma runCommand_shape (po po' : P) (c : Command) (rep : Reply) : runCommand c po = Ret (rep, po') ->
  po_hashRingStep po' = po_hashRingStep po /\ length (po_workers po') = length (po_workers po).
Proof.
  unfold runCommand. intros Hr. apply bind_ret_inv in Hr as (i & po1 & Hg & Hr).
  apply bind_ret_inv in Hr as (z & po2 & Hz & Hr). injection Hz as _ <-.
  unfold getWorker in Hg. destruct (decide _); [|discriminate]. injection Hg as <- <-.
  unfold onWorker in Hr. destruct (po_workers po !! _); [|discriminate].
  destruct (dispatch _ _ _) as [[rep' w]|]; [|discriminate]. injection Hr as _ <-. simpl.
  split; [done|apply length_insert].
Qed.

(** Workers that serve the same call are the same worker. *)
Lemma serving_unique (sy : System) (w w' : nat) (wa wa' : WorkerAt) (i : nat) : sys_wf sy ->
  sy_workers sy !! w = Some wa -> serving wa = Some i ->
  sy_workers sy !! w' = Some wa' -> serving wa' = Some i -> w = w'.
Proof.
  intros Hwf Ha Hs1 Hb Hs2. destruct (sw_serving _ Hwf _ _ _ Ha Hs1) as (c & Hc & <- & _).
  destruct (sw_serving _ Hwf _ _ _ Hb Hs2) as (c' & Hc' & <- & _). congruence.
Qed.

(** Moving a call on, its command kept, its context at most ended. *)
Lemma wf_move (po : P) (ws : list WorkerAt) (calls : list Call) (log : list (nat * Reply)) (cl : bool)
    (i : nat) (c c' : Call) :
  sys_wf (mkSystem po ws calls log cl) -> calls !! i = Some c -> cl_cmd c' = cl_cmd c ->
  (cl_ctx c' = cl_ctx c \/ cl_ctx c = None) ->
  ((exists w wa, ws !! w = Some wa /\ serving wa = Some i) -> cl_phase c' = Awaiting \/ exists e, cl_phase c' = Returned (Err e)) ->
  (cl_phase c' = Awaiting -> is_Some (cl_ctx c') \/ cl_phase c = Awaiting \/
     exists w wa, ws !! w = Some wa /\ serving wa = Some i) ->
  (forall e, cl_phase c' = Returned (Err e) -> cl_ctx c' = Some e) ->
  sys_wf (mkSystem po ws (<[i := c']> calls) log cl).
Proof.
  intros [Hlen Hsv Haw Hgone Hwk Hst] Hi Hcmd Hctx Hph Hw Hg. simpl in *. constructor; simpl; [done| | | | |done].
  - intros w wa j Hwa Hj. destruct (Hsv w wa j Hwa Hj) as (d & Hd & Hf & Hp).
    destruct (decide (i = j)) as [<-|Hne]; [|exists d; by rewrite list_lookup_insert_ne].
    exists c'. rewrite list_lookup_insert_eq by (by eapply lookup_lt_Some). split; [done|].
    simplify_eq. split; [by rewrite Hcmd|]. apply Hph. eauto.
  - intros j d Hd Hp. updated; [|by apply Haw].
    destruct (Hw Hp) as [?|[Hp'|?]]; [by left| |by right].
    destruct (Haw j c Hi Hp') as [Hs|?]; [left|by right]. destruct Hctx as [->|Hn]; [done|].
    rewrite Hn in Hs. by apply is_Some_None in Hs.
  - intros j d e Hd Hp. updated; [by apply Hg|by eapply Hgone].
  - intros j d Hd. updated; [rewrite Hcmd|]; by eapply Hwk.
Qed.

(** Moving a worker that serves no other call than before. *)
Lemma wf_worker (po : P) (ws : list WorkerAt) (calls : list Call) (log : list (nat * Reply)) (cl : bool)
    (w : nat) (wa wa' : WorkerAt) :
  sys_wf (mkSystem po ws calls log cl) -> ws !! w = Some wa ->
  (serving wa' = serving wa \/ serving wa' = None) ->
  (forall i c, calls !! i = Some c -> cl_phase c = Awaiting -> serving wa = Some i ->
     serving wa' = Some i \/ is_Some (cl_ctx c)) ->
  (wa' = Stopped -> cl = true) ->
  sys_wf (mkSystem po (<[w := wa']> ws) calls log cl).
Proof.
  intros [Hlen Hsv Haw Hgone Hwk Hst] Hw Hs Ha Hcl. simpl in *. constructor; simpl; [by rewrite length_insert| | |done| |].
  - intros w2 wa2 j Hw2 Hj. updated; [|by eapply Hsv]. destruct Hs as [Hs|Hs]; rewrite Hs in Hj; [by eapply Hsv|done].
  - intros j d Hd Hp. destruct (Haw j d Hd Hp) as [?|(w2 & wa2 & Hw2 & Hj)]; [by left|].
    destruct (decide (w = w2)) as [<-|Hne].
    + simplify_eq. destruct (Ha j d Hd Hp Hj) as [?|?]; [|by left]. right. exists w, wa'.
      by rewrite list_lookup_insert_eq by (by eapply lookup_lt_Some).
    + right. exists w2, wa2. by rewrite list_lookup_insert_ne.
  - intros j d Hd. rewrite length_insert. by eapply Hwk.
  - intros w2 [(_ & Hs' & _)|(_ & Hw2)]%list_lookup_insert_Some; [by apply Hcl|by eapply Hst].
Qed.

Lemma started_wf (po : P) : sys_wf (started po).
Proof.
  constructor; simpl; [apply length_replicate| |done|done|done|].
  - intros w wa i [-> _]%lookup_replicate. done.
  - intros w [? _]%lookup_replicate. done.
Qed.

Lemma env_step_wf (s s' : System) : env_step s s' -> sys_wf s -> sys_wf s'.
Proof.
  intros [c po ws calls log cl Hc|i c ph e po ws calls log cl Hi He|[po ws calls log cl]] Hwf.
  - destruct Hwf as [Hlen Hsv Haw Hgone Hwk Hst]. simpl in *. constructor; simpl; [done| | | | |done].
    + intros w wa j Hw Hj. destruct (Hsv w wa j Hw Hj) as (d & Hd & ?). exists d.
      by rewrite (lookup_app_l_Some _ _ _ _ Hd).
    + intros j d Hd Hp. updated. by apply Haw.
    + intros j d e Hd Hp. updated. by eapply Hgone.
    + intros j d Hd. updated; [by eapply Hwk|done].
  - eapply wf_move; [done|done|done|by right| | |]; simpl.
    + intros (w & wa & Hw & Hs). destruct (sw_serving _ Hwf _ _ _ Hw Hs) as (d & Hd & _ & Hp). simpl in *. by simplify_eq/=.
    + intros ->. right. left. done.
    + intros e' ->. pose proof (sw_gone _ Hwf i _ e' Hi eq_refl). done.
  - destruct Hwf as [Hlen Hsv Haw Hgone Hwk Hst]. unfold Close. simpl. destruct cl; by constructor.
Qed.

(** A worker and the call it takes or answers move together. *)
Lemma wf_meet (po : P) (ws : list WorkerAt) (calls : list Call) (log : list (nat * Reply)) (cl : bool)
    (w i : nat) (wa wa' : WorkerAt) (c : Call) (ph : Phase) :
  sys_wf (mkSystem po ws calls log cl) -> ws !! w = Some wa -> calls !! i = Some c ->
  (serving wa = None \/ serving wa = Some i) -> workerFor po (cl_cmd c) = w ->
  (serving wa = Some i \/ cl_phase c = Sending) ->
  (serving wa' = Some i /\ ph = Awaiting \/ serving wa' = None /\ ph <> Awaiting) ->
  (forall e, ph <> Returned (Err e)) -> wa' <> Stopped ->
  sys_wf (mkSystem po (<[w := wa']> ws) (<[i := at_phase ph c]> calls) log cl).
Proof.
  intros Hwf Hw Hi Hs Hf Hor Hs' He Hst'.
  assert (forall w2 wa2, w2 <> w -> ws !! w2 = Some wa2 -> serving wa2 <> Some i) as Hother.
  { intros w2 wa2 Hne Hw2 Hs2. destruct (sw_serving _ Hwf _ _ _ Hw2 Hs2) as (d & Hd & Hw' & _). simpl in *. congruence. }
  destruct Hwf as [Hlen Hsv Haw Hgone Hwk Hst]. simpl in *. constructor; simpl; [by rewrite length_insert| | | | |].
  - intros w2 wa2 j Hw2 Hj. apply list_lookup_insert_Some in Hw2 as [(-> & -> & _)|(Hne & Hw2)].
    + destruct Hs' as [[Hs' ->]|[Hs' _]]; [|congruence]. assert (j = i) as -> by congruence. eexists.
      rewrite list_lookup_insert_eq by (by eapply lookup_lt_Some). simpl. auto.
    + assert (j <> i) by (intros ->; by eapply Hother). rewrite list_lookup_insert_ne by done. by eapply Hsv.
  - intros j d [(-> & <- & _)|(Hne & Hd)]%list_lookup_insert_Some Hp; simpl in *.
    + right. destruct Hs' as [[Hs' _]|[_ ?]]; [|done]. exists w, wa'. by rewrite list_lookup_insert_eq by (by eapply lookup_lt_Some).
    + destruct (Haw j d Hd Hp) as [?|(w2 & wa2 & Hw2 & Hj)]; [by left|]. right. exists w2, wa2.
      rewrite list_lookup_insert_ne; [done|]. intros <-. simplify_eq. destruct Hs; congruence.
  - intros j d e Hd Hp. updated; [by destruct (He e)|by eapply Hgone].
  - intros j d Hd. rewrite length_insert. updated; by eapply Hwk.
  - intros w2 [(_ & ? & _)|(_ & Hw2)]%list_lookup_insert_Some; [done|by eapply Hst].
Qed.

(** A call in flight gives up, or takes its answer out of the buffer. *)
Lemma wf_return (po : P) (ws : list WorkerAt) (calls : list Call) (log : list (nat * Reply)) (cl : bool)
    (i : nat) (c : Call) (res : result Reply) :
  sys_wf (mkSystem po ws calls log cl) -> calls !! i = Some c ->
  match res with Ok rep => cl_phase c = Delivered rep | Err e => cl_ctx c = Some e end ->
  sys_wf (mkSystem po ws (<[i := at_phase (Returned res) c]> calls) log cl).
Proof.
  intros Hwf Hi Hres. eapply wf_move; [done|done|done|by left| |done|]; simpl.
  - intros (w & wa & Hw & Hs). destruct (sw_serving _ Hwf _ _ _ Hw Hs) as (d & Hd & _ & Hp). simpl in *. simplify_eq.
    destruct res as [rep|e]; [|by right; exists e]. destruct Hp as [Hp|[e Hp]]; congruence.
  - intros e [= ->]. done.
Qed.

Lemma run_step_wf (s s' : System) : run_step s s' -> sys_wf s -> sys_wf s'.
Proof.
  intros Hstep Hwf. destruct Hstep as [w i c po ws calls log cl Hw Hi Hp Hf|w i c rep po po' ws calls log cl Hw Hi Hr
    |w i c rep po ws calls log cl Hw Hi Hb|w i c rep po ws calls log cl Hw Hi Hb Hp|w i c rep po ws calls log cl Hw Hi Hx
    |i c rep po ws calls log cl Hi Hp|i c e po ws calls log cl Hi Hx Hp|w po ws calls log Hw].
  - eapply wf_meet; eauto; done.
  - destruct (runCommand_shape _ _ _ _ Hr) as [Hstep Hlen].
    assert (sys_wf (mkSystem po (<[w := Replying i rep]> ws) calls log cl)) as Hwf' by (eapply wf_worker; eauto; done).
    destruct Hwf' as [Hl Hsv Haw Hgone Hwk Hst]. unfold workerFor in *. constructor; simpl in *; unfold workerFor; rewrite ?Hstep; try done. congruence.
  - destruct (sw_serving _ Hwf w (Replying i rep) i Hw eq_refl) as (d & Hd & Hf & Hor). simpl in *.
    rewrite Hi in Hd. injection Hd as <-. destruct (cl_phase c) eqn:Hp;
      try (eapply wf_worker; [done|done|by right| |done]; intros j d' Hd' Hp' [= ->]; congruence).
    eapply wf_meet; eauto; simpl; eauto; done.
  - destruct (sw_serving _ Hwf w (Replying i rep) i Hw eq_refl) as (d & Hd & Hf & _). simpl in *.
    rewrite Hi in Hd. injection Hd as <-. eapply wf_meet; eauto; simpl; eauto; done.
  - eapply wf_worker; eauto; [|done]. intros j d Hd Hp' [= <-]. right. congruence.
  - by eapply wf_return.
  - by eapply wf_return.
  - eapply wf_worker; eauto.
Qed.

Lemma sys_step_wf (s s' : System) : sys_step s s' -> sys_wf s -> sys_wf s'.
Proof. intros [?|?]; [by eapply env_step_wf|by eapply run_step_wf]. Qed.

Lemma reachable_wf (po : P) (sy : System) : reachable po sy -> sys_wf sy.
Proof.
  intros Hr. pose proof (started_wf po) as Hwf. unfold reachable in Hr.
  induction Hr as [|s1 s2 s3 Hstep _ IH]; [done|]. apply IH. by eapply sys_step_wf.
Qed.

(** ** At most once *)

(** The log reads only the commands of the calls, which never change. *)
Lemma executed_ext (s s' : System) : sy_log s' = sy_log s ->
  (forall i c, sy_calls s !! i = Some c -> exists c', sy_calls s' !! i = Some c' /\ cl_cmd c' = cl_cmd c) ->
  (forall i rep, (i, rep) ∈ sy_log s -> is_Some (sy_calls s !! i)) ->
  executed s' = executed s.
Proof.
  intros Hlog Hcalls Hin. unfold executed. rewrite Hlog. apply omap_ext_in. intros [i rep] Hi. simpl.
  destruct (Hin i rep Hi) as [c Hc]. destruct (Hcalls i c Hc) as (c' & Hc' & Hcmd). rewrite Hc, Hc'. simpl. by rewrite Hcmd.
Qed.

(** Steps that execute nothing: calls and workers move on without an answer that was
    not in the log, and no worker takes a call that was executed. *)
Lemma seq_quiet (po0 : P) (s s' : System) : sys_seq po0 s -> sy_log s' = sy_log s -> sy_pool s' = sy_pool s ->
  (forall i c, sy_calls s !! i = Some c -> exists c', sy_calls s' !! i = Some c' /\ cl_cmd c' = cl_cmd c /\
     (cl_phase c <> Sending -> cl_phase c' <> Sending)) ->
  (forall w i rep, sy_workers s' !! w = Some (Replying i rep) -> sy_workers s !! w = Some (Replying i rep)) ->
  (forall w i, sy_workers s' !! w = Some (Busy i) -> sy_workers s !! w = Some (Busy i) \/
     exists c, sy_calls s !! i = Some c /\ cl_phase c = Sending) ->
  (forall i c rep, sy_calls s' !! i = Some c -> cl_phase c = Delivered rep \/ cl_phase c = Returned (Ok rep) ->
     (exists c', sy_calls s !! i = Some c' /\ (cl_phase c' = Delivered rep \/ cl_phase c' = Returned (Ok rep))) \/
     exists w, sy_workers s !! w = Some (Replying i rep)) ->
  sys_seq po0 s'.
Proof.
  intros [Hr Ho Hl Hy Ha] Hlog Hpool Hcalls Hrep Hbusy Hans. constructor; rewrite ?Hlog, ?Hpool.
  - rewrite (executed_ext s s'); [done|done| |].
    + intros i c Hc. destruct (Hcalls i c Hc) as (c' & ? & ? & _). eauto.
    + intros i rep Hi. destruct (Hl i rep Hi) as (c & Hc & _). eauto.
  - done.
  - intros i rep Hi. destruct (Hl i rep Hi) as (c & Hc & Hp & Hw). destruct (Hcalls i c Hc) as (c' & Hc' & _ & Hp').
    exists c'. split; [done|]. split; [auto|]. intros w [Hb|(d & Hd & Hs)]%Hbusy; [by destruct (Hw w)|congruence].
  - intros w i rep Hw. by eapply Hy, Hrep.
  - intros i c rep Hc Hp. destruct (Hans i c rep Hc Hp) as [(c' & Hc' & Hp')|[w Hw]]; [by eapply Ha|by eapply Hy].
Qed.

(** The calls of [<[i := c']> calls] are those of [calls], moved on. *)
Lemma calls_moved (calls : list Call) (i : nat) (c c' : Call) : calls !! i = Some c -> cl_cmd c' = cl_cmd c ->
  (cl_phase c <> Sending -> cl_phase c' <> Sending) ->
  forall j d, calls !! j = Some d -> exists d', <[i := c']> calls !! j = Some d' /\ cl_cmd d' = cl_cmd d /\
    (cl_phase d <> Sending -> cl_phase d' <> Sending).
Proof.
  intros Hi Hcmd Hp j d Hd. destruct (decide (i = j)) as [<-|Hne].
  - rewrite list_lookup_insert_eq by (by eapply lookup_lt_Some). exists c'. by simplify_eq.
  - rewrite list_lookup_insert_ne by done. eauto.
Qed.

Lemma seq_execute (po0 po po' : P) (ws : list WorkerAt) (calls : list Call) (log : list (nat * Reply)) (cl : bool)
    (w i : nat) (c : Call) (rep : Reply) :
  sys_wf (mkSystem po ws calls log cl) -> sys_seq po0 (mkSystem po ws calls log cl) ->
  ws !! w = Some (Busy i) -> calls !! i = Some c -> runCommand (cl_cmd c) po = Ret (rep, po') ->
  sys_seq po0 (mkSystem po' (<[w := Replying i rep]> ws) calls (log ++ [(i, rep)]) cl).
Proof.
  intros Hwf Hseq Hw Hi Hrun.
  assert (i ∉ log.*1) as Hnew.
  { intros (ir & -> & Hin)%list_elem_of_fmap. destruct ir as [j rep'].
    destruct (sq_log _ _ Hseq j rep' Hin) as (d & _ & _ & Hb). by destruct (Hb w). }
  pose proof (fun w2 Hw2 => serving_unique _ w w2 (Busy i) (Busy i) i Hwf Hw eq_refl Hw2 eq_refl) as Huniq.
  pose proof (sw_serving _ Hwf w (Busy i) i Hw eq_refl) as (d & Hd & _ & Hp).
  destruct Hseq as [Hr Ho Hl Hy Ha]. simpl in *. rewrite Hi in Hd. injection Hd as <-. constructor; simpl.
  - unfold executed. simpl. rewrite omap_app, fmap_app. simpl. rewrite Hi. simpl. by eapply replay_snoc.
  - rewrite fmap_app. apply NoDup_app. split; [done|]. split; [|apply NoDup_singleton].
    intros x Hx ->%list_elem_of_singleton. done.
  - intros j rep' [Hj|Hj%list_elem_of_singleton]%elem_of_app.
    + destruct (Hl j rep' Hj) as (c' & Hc & Hp' & Hb). exists c'. do 2 (split; [done|]).
      intros w2 [(_ & ? & _)|(_ & Hw2)]%list_lookup_insert_Some; [done|by destruct (Hb w2)].
    + injection Hj as -> ->. exists c. split; [done|]. split; [destruct Hp as [->|[e ->]]; done|].
      intros w2 [(_ & ? & _)|(Hne & Hw2)]%list_lookup_insert_Some; [done|]. by apply Hne, Huniq.
  - intros w2 j rep' [(_ & [= -> ->] & _)|(_ & Hw2)]%list_lookup_insert_Some; apply elem_of_app;
      [right; by apply list_elem_of_singleton|left; by eapply Hy].
  - intros j c' rep' Hc Hp'. apply elem_of_app. left. by eapply Ha.
Qed.

Lemma sys_step_seq (po : P) (s s' : System) : sys_step s s' -> sys_wf s -> sys_seq po s -> sys_seq po s'.
Proof.
  intros [Hstep|Hstep] Hwf Hseq.
  - destruct Hstep as [c po1 ws calls log cl Hc|i c ph e po1 ws calls log cl Hi He|[po1 ws calls log cl]].
    + eapply seq_quiet; [done|done|done| |by auto|by auto|]; simpl.
      * intros j d Hd. exists d. by rewrite (lookup_app_l_Some _ _ _ _ Hd).
      * intros j d rep Hd Hp. updated; [|by destruct Hp]. left. eauto.
    + eapply seq_quiet; [done|done|done|by eapply calls_moved|by auto|by auto|]; simpl.
      intros j d rep Hd Hp. left. updated; eauto.
    + unfold Close. simpl. destruct cl, Hseq; by constructor.
  - destruct Hstep as [w i c po1 ws calls log cl Hw Hi Hp Hf|w i c rep po1 po2 ws calls log cl Hw Hi Hr
      |w i c rep po1 ws calls log cl Hw Hi Hb|w i c rep po1 ws calls log cl Hw Hi Hb Hp
      |w i c rep po1 ws calls log cl Hw Hi Hx
      |i c rep po1 ws calls log cl Hi Hp|i c e po1 ws calls log cl Hi Hx Hp|w po1 ws calls log Hw];
      [|by eapply seq_execute|..].
    all: eapply seq_quiet; [exact Hseq|done|done|simpl|simpl|simpl|simpl];
      try (by eapply calls_moved); try (by intros ? ? ? ?; updated); try (by intros ? ? ?; updated; auto); eauto.
    + intros w0 i0 Hb. updated; eauto.
    + intros j d rep Hd Hq. updated; [by destruct Hq|eauto].
    + intros j d Hd. destruct (cl_phase c); try (by eauto). by eapply calls_moved.
    + intros j d rep' Hd Hq. destruct (cl_phase c); try (by eauto). updated; [|by eauto].
      destruct Hq as [[= ->]|[=]]. eauto.
    + intros j d rep' Hd Hq. updated; [destruct Hq; simplify_eq; eauto|eauto].
    + intros j d rep' Hd Hq. updated; [destruct Hq; simplify_eq; eauto|eauto].
    + intros j d rep Hd Hq. updated; [by destruct Hq|eauto].
Qed.

Lemma reachable_seq (po : P) (sy : System) : reachable po sy -> sys_seq po sy.
Proof.
  intros Hr. pose proof (started_wf po) as Hwf.
  assert (sys_seq po (started po)) as Hseq.
  { constructor; simpl; [done|constructor| | |done].
    - by intros ? ? ?%not_elem_of_nil.
    - by intros w i rep [? _]%lookup_replicate. }
  unfold reachable in Hr. induction Hr as [|s1 s2 s3 Hstep _ IH]; [done|].
  apply IH; [by eapply sys_step_wf|by eapply sys_step_seq].
Qed.

(** C10: In any execution of the pool, with calls from any number of goroutines, any of
    them cancelled at any point and the pool closed at any point, the state of caches,
    store and process is that of executing some of the calls one after the other, each
    at most once; every answer a caller receives is the answer of its own call in that
    order; and a call that ends with an error ends with the one of its context. *)
Theorem pool_executes_at_most_once (po : P) (sy : System) (Hreach : reachable po sy) :
  replay (executed sy) po = Ret ((sy_log sy).*2, sy_pool sy) /\ NoDup (sy_log sy).*1 /\
  forall i c res, sy_calls sy !! i = Some c -> cl_phase c = Returned res ->
    match res with Ok rep => (i, rep) ∈ sy_log sy | Err e => cl_ctx c = Some e end.
Proof.
  destruct (reachable_seq po sy Hreach) as [Hr Ho _ _ Ha]. split; [done|]. split; [done|].
  intros i c [rep|e] Hc Hp; [apply (Ha i c rep); auto|by eapply (sw_gone _ (reachable_wf po sy Hreach))].
Qed.

(** ** Every call completes *)

Definition workerWork (wa : WorkerAt) : nat :=
  match wa with Stopped => 0 | Idle => 1 | Replying _ _ => 2 | Busy _ => 3 end.

Definition callWork (c : Call) : nat :=
  match cl_phase c with Returned _ => 0 | Delivered _ => 1 | Awaiting => 2 | Sending => 5 end.

(** A bound on the steps the goroutines still take if nothing happens from outside. *)
Definition work (sy : System) : nat :=
  (sum_list_with workerWork (sy_workers sy) + sum_list_with callWork (sy_calls sy))%nat.

Lemma run_step_work (s s' : System) : run_step s s' -> (work s' < work s)%nat.
Proof.
  unfold work. intros Hstep. destruct Hstep as [w i c po ws calls log cl Hw Hi Hp Hf|w i c rep po po' ws calls log cl Hw Hi Hr
    |w i c rep po ws calls log cl Hw Hi Hb|w i c rep po ws calls log cl Hw Hi Hb Hp|w i c rep po ws calls log cl Hw Hi Hx
    |i c rep po ws calls log cl Hi Hp|i c e po ws calls log cl Hi Hx Hp|w po ws calls log Hw]; simpl;
    try match goal with |- context [sum_list_with workerWork (<[_ := ?y]> _)] =>
      pose proof (sum_insert workerWork ws w _ y Hw); simpl in * end;
    try match goal with |- context [sum_list_with callWork (<[_ := ?y]> _)] =>
      pose proof (sum_insert callWork calls i c y Hi) as Hc; unfold callWork in Hc at 2 4; simpl in Hc end;
    rewrite ?Hp in *; try lia.
  - destruct (cl_phase c) eqn:Hp; try lia.
    pose proof (sum_insert callWork calls i c (at_phase (Delivered rep) c) Hi) as Hc.
    unfold callWork in Hc at 2 4. simpl in Hc. rewrite Hp in Hc. lia.
  - destruct (cl_phase c); try lia. by destruct (Hp res).
Qed.
End Loop.

Section Live.
Context `{Arch} `{Hash64} {C S : Type} `{CacheLaws C} `{StoreLaws S}.

Abbreviation P := (WorkerPool C S).

(** What the callers of the pool see to: a request carries its creation time, an item
    exists. *)
Definition runnable (e : Env) (c : Command) : Prop :=
  match c with
  | CGetRateLimit r _ => is_Some (r_CreatedAt r)
  | CAddCacheItem _ item => is_Some (e_heap e !! item)
  | CGetCacheItem _ => True
  end.

Lemma runnable_kept (e e' : Env) (c : Command) : keys_kept e e' -> runnable e c -> runnable e' c.
Proof.
  intros Hk. destruct c as [r st|key p|key]; simpl; [done| |done].
  intros [it Hp]. destruct (Hk p it Hp) as (it' & ? & _). eauto.
Qed.

(** A cache operation of a worker, then the count of the command. *)
Lemma cache_command (po : P) (i : nat) (c : C) {A} (m : M (Env * C) A) (n : string) (f : A -> Reply) (a : A)
    (e : Env) (c' : C) :
  pool_ok po -> po_workers po !! i = Some c -> m (po_env po, c) = Ret (a, (e, c')) ->
  env_quiet (po_env po) e -> c_wf e c' ->
  exists po', onWorker i (a ← onCache m; onEnv (incr n);; mret (f a)) po = Ret (f a, po') /\
    pool_ok po' /\ keys_kept (po_env po) (po_env po').
Proof.
  intros Hok Hi Hm Hq Hwf. pose proof (workerWorld_ok po i c Hok Hi) as Hw.
  destruct (incr_calm n e) as (u & e2 & Hincr & Hq2).
  assert (keys_kept (po_env po) e2) as Hk.
  { intros p it Hp. exists it. by rewrite (eq_heap _ _ Hq2), (eq_heap _ _ Hq). }
  assert (world_ok (mkWorld e2 c' (po_store po))) as Hw2.
  { destruct Hw as [He Hc Hs]. constructor; simpl in *.
    - by eapply env_quiet_ok, env_quiet_ok.
    - eapply c_wf_env; [exact Hwf|by apply env_quiet_keys].
    - by eapply store_wf_env. }
  assert ((a ← onCache m; onEnv (incr n);; mret (f a)) (workerWorld po c) = Ret (f a, mkWorld e2 c' (po_store po))) as Hrun.
  { rewrite (bind_ret_run _ _ _ _ _ (onCache_run m (workerWorld po c) a e c' Hm)).
    by rewrite (bind_ret_run _ _ _ _ _ (onEnv_run (incr n) (mkWorld e c' (po_store po)) u e2 Hincr)). }
  destruct (onWorker_run po i c _ _ _ Hok Hi Hrun Hw2 Hk) as [Hr Hok']. by eexists.
Qed.

(** Every command runs to completion. *)
Lemma runCommand_total (po : P) (c : Command) : pool_ok po -> runnable (po_env po) c ->
  (workerFor po c < length (po_workers po))%nat ->
  exists rep po', runCommand c po = Ret (rep, po') /\ pool_ok po' /\ keys_kept (po_env po) (po_env po').
Proof.
  intros Hok Hrun Hi. destruct c as [r st|key p|key]; simpl in Hrun.
  - destruct Hrun as [t Ht]. destruct (runCommand_iso po r st t Hok Ht Hi) as (rep & po' & ? & ? & Hs & _).
    exists rep, po'. split; [done|]. split; [done|]. by eapply same_but_keys.
  - rewrite runCommand_worker by done. unfold workerFor in Hi. set (i := workerIndex _ _) in *.
    destruct (lookup_lt_is_Some_2 _ _ Hi) as [cache Hc]. destruct Hrun as [it Hp].
    destruct (c_Add_ok _ _ p it (pk_workers _ Hok i cache Hc) Hp) as (b & e & c' & Hm & Hq & Hwf & _).
    destruct (cache_command po i cache _ "gubernator_command_counter/AddCacheItem" (fun _ => RAdded) b e c' Hok Hc Hm Hq Hwf)
      as (po' & Hr & ? & ?). eauto.
  - rewrite runCommand_worker by done. unfold workerFor in Hi. set (i := workerIndex _ _) in *.
    destruct (lookup_lt_is_Some_2 _ _ Hi) as [cache Hc].
    destruct (c_GetItem_ok _ _ key (pk_workers _ Hok i cache Hc)) as (b & e & c' & Hm & Hq & Hwf & _).
    destruct (cache_command po i cache _ "gubernator_command_counter/GetCacheItem" RItem b e c' Hok Hc Hm Hq Hwf)
      as (po' & Hr & ? & ?). eauto.
Qed.

(** The hypotheses of the callers hold of every call in flight. *)
Definition sys_ok (sy : System (C := C) (S := S)) : Prop :=
  sys_wf sy /\ pool_ok (sy_pool sy) /\
  forall i c, sy_calls sy !! i = Some c -> runnable (po_env (sy_pool sy)) (cl_cmd c).

Lemma run_step_ok (s s' : System) : run_step s s' -> sys_ok s -> sys_ok s' /\ sy_closed s' = sy_closed s.
Proof.
  intros Hstep (Hwf & Hok & Hrun). split; [split; [by eapply run_step_wf|]|by destruct Hstep].
  destruct Hstep as [w i c po ws calls log cl Hw Hi Hp Hf|w i c rep po po' ws calls log cl Hw Hi Hr
    |w i c rep po ws calls log cl Hw Hi Hb|w i c rep po ws calls log cl Hw Hi Hb Hp|w i c rep po ws calls log cl Hw Hi Hx
    |i c rep po ws calls log cl Hi Hp|i c e po ws calls log cl Hi Hx Hp|w po ws calls log Hw]; simpl in *;
    try (split; [done|]; intros j d Hd; updated; by eapply Hrun).
  - assert (workerFor po (cl_cmd c) < length (po_workers po))%nat as Hlt.
    { pose proof (sw_worker _ Hwf i c Hi). pose proof (sw_len _ Hwf). simpl in *. lia. }
    destruct (runCommand_total po (cl_cmd c) Hok (Hrun i c Hi) Hlt) as (rep' & po2 & Hr' & Hok' & Hk).
    rewrite Hr in Hr'. injection Hr' as <- <-. split; [done|]. intros j d Hd. eapply runnable_kept; [done|by eapply Hrun].
  - split; [done|]. intros j d Hd. destruct (cl_phase c); updated; by eapply Hrun.
Qed.

(** A worker that is not idle has a step. *)
Lemma worker_progress (sy : System (C := C) (S := S)) (w : nat) (wa : WorkerAt) (i : nat) : sys_ok sy ->
  sy_workers sy !! w = Some wa -> serving wa = Some i -> exists sy', run_step sy sy'.
Proof.
  destruct sy as [po ws calls log cl]. intros (Hwf & Hok & Hrun) Hw Hs.
  destruct (sw_serving _ Hwf w wa i Hw Hs) as (c & Hc & Hf & Hp). simpl in *.
  destruct wa as [|j|j rep|]; simplify_eq/=.
  - assert (workerFor po (cl_cmd c) < length (po_workers po))%nat as Hlt.
    { pose proof (sw_worker _ Hwf i c Hc). pose proof (sw_len _ Hwf). simpl in *. lia. }
    destruct (runCommand_total po (cl_cmd c) Hok (Hrun i c Hc) Hlt) as (rep & po' & Hr & _).
    eexists. by eapply step_execute.
  - destruct (buffered (cl_cmd c)) eqn:Hb; [eexists; by eapply step_deliver|].
    destruct Hp as [Hp|[e Hp]]; [eexists; by eapply step_rendezvous|].
    eexists. eapply step_drop; [done|done|]. eexists. by eapply (sw_gone _ Hwf).
Qed.

Lemma call_progress (sy : System (C := C) (S := S)) (i : nat) (c : Call) : sys_ok sy -> sy_closed sy = false ->
  sy_calls sy !! i = Some c -> (exists res, cl_phase c = Returned res) \/ exists sy', run_step sy sy'.
Proof.
  intros Hok Hopen Hc. pose proof Hok as (Hwf & _ & _). destruct (cl_phase c) as [| |rep|res] eqn:Hp; [right..|eauto].
  - pose proof (sw_worker _ Hwf i c Hc) as Hlt. destruct (lookup_lt_is_Some_2 _ _ Hlt) as [wa Hwa].
    destruct (serving wa) as [j|] eqn:Hs; [by eapply worker_progress|].
    destruct wa; try done; [|by rewrite (sw_stopped _ Hwf _ Hwa) in Hopen].
    destruct sy as [po ws calls log cl]. eexists. by eapply step_take.
  - destruct (sw_await _ Hwf i c Hc Hp) as [[e He]|(w & wa & Hw & Hs)]; [|by eapply worker_progress].
    destruct sy as [po ws calls log cl]. eexists. eapply step_give_up; [done|done|congruence].
  - destruct sy as [po ws calls log cl]. eexists. by eapply step_receive.
Qed.

(** Every call has returned. *)
Definition all_returned (sy : System (C := C) (S := S)) : Prop :=
  forall i c, sy_calls sy !! i = Some c -> exists res, cl_phase c = Returned res.

Lemma system_progress (sy : System (C := C) (S := S)) : sys_ok sy -> sy_closed sy = false ->
  all_returned sy \/ exists sy', run_step sy sy'.
Proof.
  intros Hok Hopen.
  assert (forall cs : list Call, (forall c, c ∈ cs -> c ∈ sy_calls sy) ->
    (forall c, c ∈ cs -> exists res, cl_phase c = Returned res) \/ exists sy', run_step sy sy') as Hall.
  { induction cs as [|c cs IH]; intros Hin; [left; by intros c ?%not_elem_of_nil|].
    destruct IH as [IH|?]; [intros d Hd; apply Hin; by constructor| |by right].
    assert (c ∈ sy_calls sy) as [i Hi]%list_elem_of_lookup by (apply Hin; constructor).
    destruct (call_progress sy i c Hok Hopen Hi) as [Hr|?]; [|by right].
    left. intros d [->|Hd]%elem_of_cons; auto. }
  destruct (Hall (sy_calls sy)) as [Hr|?]; [done| |by right]. left. intros i c Hc. apply Hr. by eapply list_elem_of_lookup_2.
Qed.

(** C11: Every call of the pool completes.  While the pool is open the goroutines of workers
    and callers, left to themselves, never block all and take at most [work] steps, after
    which every call has returned; and a call whose context has not ended returns the
    answer of its command. *)
Theorem pool_calls_complete (po : P) (sy sy' : System) (n : nat) (Hreach : reachable po sy)
    (Hok : pool_ok (sy_pool sy)) (Hopen : sy_closed sy = false)
    (Hrun : forall i c, sy_calls sy !! i = Some c -> runnable (po_env (sy_pool sy)) (cl_cmd c))
    (Hsteps : nsteps run_step n sy sy') :
  (n <= work sy)%nat /\ ((exists sy'', run_step sy' sy'') \/ all_returned sy') /\
  forall i c res, sy_calls sy' !! i = Some c -> cl_phase c = Returned res -> cl_ctx c = None ->
    exists rep, res = Ok rep /\ (i, rep) ∈ sy_log sy'.
Proof.
  assert (sys_ok sy) as Hsys by (split; [by eapply reachable_wf|done]).
  assert (reachable po sy') as Hreach'.
  { unfold reachable in *. etransitivity; [exact Hreach|]. eapply (rtc_subrel run_step); [by right|]. eapply rtc_nsteps. eauto. }
  assert (n + work sy' <= work sy /\ sys_ok sy' /\ sy_closed sy' = false)%nat as (Hn & Hsys' & Hopen').
  { clear Hreach Hreach' Hok Hrun. induction Hsteps as [|n s1 s2 s3 Hstep _ IH]; [by split; [lia|]|].
    destruct (run_step_ok _ _ Hstep Hsys) as [Hsys2 Hcl]. pose proof (run_step_work _ _ Hstep).
    destruct IH as (? & ? & ?); [congruence|done|]. split; [lia|done]. }
  split; [lia|]. split; [destruct (system_progress sy' Hsys' Hopen'); auto|].
  intros i c [rep|e] Hc Hp Hctx.
  - exists rep. split; [done|]. eapply (sq_answer _ _ (reachable_seq _ _ Hreach')); eauto.
  - rewrite (sw_gone _ (proj1 Hsys') i c e Hc Hp) in Hctx. discriminate.
Qed.
End Live.

(** ** After [Close] *)

Section Closed.
Context `{Arch} `{Hash64} {C S : Type} `{CacheOps C} `{StoreOps S}.

Abbreviation P := (WorkerPool C S).

(** Call [i] has not been taken, and its worker has stopped. *)
Definition abandoned (w i : nat) (cmd : Command) (sy : System (C := C) (S := S)) : Prop :=
  sy_workers sy !! w = Some Stopped /\ workerFor (sy_pool sy) cmd = w /\ (i ∉ (sy_log sy).*1) /\
  exists c, sy_calls sy !! i = Some c /\ cl_cmd c = cmd /\
    (cl_phase c = Sending \/ exists e, cl_phase c = Returned (Err e) /\ cl_ctx c = Some e).

Lemma abandoned_env (s s' : System) (w i : nat) (cmd : Command) : env_step s s' ->
  abandoned w i cmd s -> abandoned w i cmd s'.
Proof.
  intros Hstep (Hw & Hf & Hlog & c & Hc & Hcmd & Hp).
  destruct Hstep as [d po ws calls log cl Hd|j d ph e po ws calls log cl Hj He|[po ws calls log cl]]; simpl in *.
  - do 3 (split; [done|]). exists c. simpl. by rewrite (lookup_app_l_Some _ _ _ _ Hc).
  - do 3 (split; [done|]). simpl. destruct (decide (i = j)) as [<-|Hne].
    + rewrite Hj in Hc. injection Hc as <-. eexists. rewrite list_lookup_insert_eq by (by eapply lookup_lt_Some).
      split; [done|]. split; [done|]. simpl in *. destruct Hp as [?|(e' & _ & ?)]; [by left|done].
    + exists c. by rewrite list_lookup_insert_ne.
  - unfold Close. simpl. destruct cl; (do 3 (split; [done|])); by exists c.
Qed.

(** No step concerns the worker or the call, other than the call giving up. *)
Lemma abandoned_run (s s' : System) (w i : nat) (cmd : Command) : run_step s s' -> sys_wf s ->
  abandoned w i cmd s -> abandoned w i cmd s'.
Proof.
  intros Hstep Hwf (Hw & Hf & Hlog & c & Hc & Hcmd & Hp).
  assert (forall v wa, sy_workers s !! v = Some wa -> serving wa = Some i -> False) as Hnone.
  { intros v wa Hv Hs. destruct (sw_serving _ Hwf v wa i Hv Hs) as (d & Hd & Hg & _). assert (wa = Stopped) as -> by congruence. done. }
  destruct Hstep as [v j d po ws calls log cl Hv Hj Hq Hg|v j d rep po po' ws calls log cl Hv Hj Hr
    |v j d rep po ws calls log cl Hv Hj Hb|v j d rep po ws calls log cl Hv Hj Hb Hq|v j d rep po ws calls log cl Hv Hj Hx
    |j d rep po ws calls log cl Hj Hq|j d e po ws calls log cl Hj Hx Hq|v po ws calls log Hv]; simpl in *;
    try (assert (v <> w) as Hvw by congruence);
    (split; [simpl; by rewrite ?list_lookup_insert_ne by done|]).
  1: assert (j <> i) as Hji by congruence.
  2,3,4,5: assert (j <> i) as Hji by (intros ->; by apply (Hnone _ _ Hv)).
  6: assert (j <> i) as Hji by (intros ->; simplify_eq; destruct Hp as [?|(? & ? & _)]; congruence).
  2: { destruct (runCommand_shape _ _ _ _ Hr) as [Hs _]. unfold workerFor in *. simpl. rewrite Hs, fmap_app. split; [done|].
       split; [|by exists c]. intros [?|?%list_elem_of_singleton]%elem_of_app; done. }
  all: do 2 (split; [done|]); simpl.
  2: destruct (cl_phase d); try (by exists c).
  6: { destruct (decide (j = i)) as [->|Hji]; [|exists c; by rewrite list_lookup_insert_ne]. simplify_eq.
       eexists. rewrite list_lookup_insert_eq by (by eapply lookup_lt_Some). split; [done|]. split; [done|]. right. by exists e. }
  all: exists c; by rewrite ?list_lookup_insert_ne.
Qed.

(** A pool that was closed abandons the calls it has not taken: one whose worker has
    stopped is never executed, and returns only when its context ends, with the
    context's error. *)
Theorem closed_pool_abandons (po : P) (sy sy' : System) (i : nat) (c : Call) : reachable po sy ->
  sy_calls sy !! i = Some c -> cl_phase c = Sending ->
  sy_workers sy !! workerFor (sy_pool sy) (cl_cmd c) = Some Stopped -> rtc sys_step sy sy' ->
  (i ∉ (sy_log sy').*1) /\ exists c', sy_calls sy' !! i = Some c' /\
    (cl_phase c' = Sending \/ exists e, cl_phase c' = Returned (Err e) /\ cl_ctx c' = Some e).
Proof.
  intros Hreach Hc Hp Hw Hsteps.
  assert (abandoned (workerFor (sy_pool sy) (cl_cmd c)) i (cl_cmd c) sy) as Hab.
  { split; [done|]. split; [done|]. split; [|exists c; auto].
    intros ([j rep] & -> & Hin)%list_elem_of_fmap. simpl in *.
    destruct (sq_log _ _ (reachable_seq _ _ Hreach) j rep Hin) as (d & ? & ? & _). simplify_eq. }
  pose proof (reachable_wf _ _ Hreach) as Hwf. clear Hreach Hc Hp Hw.
  remember (workerFor (sy_pool sy) (cl_cmd c)) as w eqn:Ew. clear Ew.
  induction Hsteps as [sy|s1 s2 s3 Hstep _ IH].
  - destruct Hab as (_ & _ & ? & c' & ? & _ & ?). eauto.
  - apply IH; [|by eapply sys_step_wf]. destruct Hstep; [by eapply abandoned_env|by eapply abandoned_run].
Qed.
End Closed.

(** ** Witnesses *)

Section Witness.
Local Existing Instance amd64.

Definition demoCmd : Command := CGetRateLimit (demoReq TOKEN_BUCKET 4 2000) owner.

Definition demoWorker : nat := Eval vm_compute in workerIndex (2 ^ 60) demoKey.

(** The worker of the key at [wa], all others idle. *)
Definition demoWorkers (wa : WorkerAt) : list WorkerAt := <[demoWorker := wa]> (replicate 8 Idle).

Definition demoSystem (wa : WorkerAt) (c : Call) : System (C := LRUCache) (S := MockStore) :=
  mkSystem (demoPool tokenWorld) (demoWorkers wa) [c] [] false.

Lemma demo_workerFor : workerFor (demoPool tokenWorld) demoCmd = demoWorker.
Proof. vm_compute. reflexivity. Qed.

Lemma demo_sent : reachable (demoPool tokenWorld) (demoSystem Idle (mkCall demoCmd None Sending)).
Proof.
  apply rtc_once. left. refine (step_call demoCmd (demoPool tokenWorld) (replicate 8 Idle) [] [] false _).
  rewrite demo_workerFor. apply Nat.ltb_lt. reflexivity.
Qed.

(** The worker takes the call. *)
Lemma demo_take : run_step (demoSystem Idle (mkCall demoCmd None Sending))
                           (demoSystem (Busy 0) (mkCall demoCmd None Awaiting)).
Proof.
  exact (step_take demoWorker 0 (mkCall demoCmd None Sending) (demoPool tokenWorld) (demoWorkers Idle)
    [mkCall demoCmd None Sending] [] false eq_refl eq_refl eq_refl demo_workerFor).
Qed.
End Witness.

(** The caller gives up while the worker executes its command. *)
Lemma pool_executes_at_most_once_witness : exists sy,
  reachable (H := amd64) (demoPool tokenWorld) sy /\ length (sy_log sy) = 1%nat /\
  sy_calls sy !! 0%nat = Some (mkCall demoCmd (Some DeadlineExceeded) (Returned (Err DeadlineExceeded))) /\
  NoDup (sy_log sy).*1.
Proof.
  destruct (tokenWorld_live (demoReq TOKEN_BUCKET 4 2000) eq_refl) as (Hw & _).
  destruct (runCommand_iso (H := amd64) (demoPool tokenWorld) (demoReq TOKEN_BUCKET 4 2000) owner 2000
    (demoPool_ok _ Hw) eq_refl (demo_has_worker _)) as (rep & po' & Hrun & _).
  set (c := mkCall demoCmd (Some DeadlineExceeded) (Returned (Err DeadlineExceeded))).
  set (sy := mkSystem (C := LRUCache) (S := MockStore) po' (demoWorkers (Replying 0 rep)) [c] [(0%nat, rep)] false).
  assert (reachable (H := amd64) (demoPool tokenWorld) sy) as Hreach.
  { unfold reachable. etransitivity; [exact demo_sent|]. eapply rtc_l; [right; exact demo_take|].
    eapply rtc_l; [left; apply (step_ctx 0 demoCmd Awaiting DeadlineExceeded); [done|by right]|].
    eapply rtc_l; [right; by apply (step_give_up 0 (mkCall demoCmd (Some DeadlineExceeded) Awaiting) DeadlineExceeded)|].
    apply rtc_once. right.
    exact (step_execute demoWorker 0 c rep (demoPool tokenWorld) po' (demoWorkers (Busy 0)) [c] [] false eq_refl eq_refl Hrun). }
  exists sy. split; [done|]. split; [done|]. split; [done|].
  apply (pool_executes_at_most_once (H := amd64) (demoPool tokenWorld) sy Hreach).
Defined.

Lemma pool_calls_complete_witness :
  (1 <= work (C := LRUCache) (S := MockStore) (demoSystem Idle (mkCall demoCmd None Sending)))%nat /\
  exists sy'', run_step (H := amd64) (demoSystem (Busy 0) (mkCall demoCmd None Awaiting)) sy''.
Proof.
  destruct (tokenWorld_live (demoReq TOKEN_BUCKET 4 2000) eq_refl) as (Hw & _).
  destruct (pool_calls_complete (H := amd64) (demoPool tokenWorld) _ (demoSystem (Busy 0) (mkCall demoCmd None Awaiting)) 1
    demo_sent (demoPool_ok _ Hw) eq_refl) as (Hn & [Hstep|Hall] & _).
  - intros [|i] c [= <-]. by exists 2000.
  - eapply nsteps_once, demo_take.
  - exact (conj Hn Hstep).
  - destruct (Hall 0%nat _ eq_refl) as [res [=]].
Defined.
