(* ===== verification/Rounding.v ===== *)
(** * The real value of a float64, and how far an operation is from it

    [fR] is the real number a double stands for.  Rounding is to the nearest: sums and
    differences, quotients and conversions of integers are within half a unit in the
    last place of the exact result, and rounding never crosses a representable number. *)

From stdpp Require Import base list.
From Stdlib Require Import ZArith Lia Reals Lra SpecFloat.
From S2P Require Import Prelude Float64.

Local Open Scope Z_scope.

(** ** Powers of two *)

Definition bpow (e : Z) : R := powerRZ 2 e.

Lemma bpow_gt_0 (e : Z) : (0 < bpow e)%R.
Proof. apply powerRZ_lt. lra. Qed.

Lemma bpow_plus (a b : Z) : bpow (a + b) = (bpow a * bpow b)%R.
Proof. apply powerRZ_add. lra. Qed.

Lemma bpow_Z (k : Z) : 0 <= k -> IZR (2 ^ k) = bpow k.
Proof.
  intros Hk. unfold bpow. rewrite <- (Z2Nat.id k Hk), <- pow_IZR, pow_powerRZ. done.
Qed.

Lemma bpow_le (a b : Z) : a <= b -> (bpow a <= bpow b)%R.
Proof.
  intros Hab. replace b with (a + (b - a)) by lia. rewrite bpow_plus, <- (bpow_Z (b - a)) by lia.
  pose proof (bpow_gt_0 a). assert (1 <= IZR (2 ^ (b - a)))%R; [|nra].
  apply IZR_le. apply (Z.pow_le_mono_r 2 0 (b - a)); lia.
Qed.

Lemma bpow_double (e : Z) : bpow (e + 1) = (2 * bpow e)%R.
Proof. rewrite bpow_plus. unfold bpow at 2. simpl. lra. Qed.

Lemma bpow_split (a b : Z) : bpow a = (bpow b * bpow (a - b))%R.
Proof. rewrite <- bpow_plus. f_equal. lia. Qed.

(** ** Values *)

Definition fR (x : f64) : R :=
  match x with
  | S754_finite s m e => IZR (cond_Zopp s (Zpos m)) * bpow e
  | _ => 0
  end.

Definition finite (x : f64) : bool :=
  match x with S754_zero _ | S754_finite _ _ _ => true | _ => false end.

(** A finite number in canonical form, as every operation produces it. *)
Definition number (x : f64) : Prop := finite x = true /\ valid_binary 53 1024 x = true.

(** ** Shifting with a remainder *)

(** [x] lies between [m * 2^e] and [(m+1) * 2^e], where the two flags say. *)
Definition within (x : R) (mrs : shr_record) (e : Z) : Prop :=
  exists f, x = ((IZR (shr_m mrs) + f) * bpow e)%R /\
    match shr_r mrs, shr_s mrs with
    | false, false => f = 0
    | false, true => 0 < f < / 2
    | true, false => f = / 2
    | true, true => / 2 < f < 1
    end%R.

Lemma within_flags (x : R) (m : Z) (r s b : bool) (q : Z) (e : Z) : m = 2 * q + Z.b2z b ->
  within x (Build_shr_record m r s) e -> within x (Build_shr_record q b (r || s)) (e + 1).
Proof.
  intros -> (f & -> & Hf). exists ((IZR (Z.b2z b) + f) / 2)%R. simpl in *. split.
  - rewrite plus_IZR, mult_IZR, bpow_double. field.
  - destruct b, r, s; simpl; lra.
Qed.

Lemma shr_1_within (x : R) (mrs : shr_record) (e : Z) : 0 <= shr_m mrs -> within x mrs e ->
  within x (shr_1 mrs) (e + 1) /\ shr_m (shr_1 mrs) = shr_m mrs / 2.
Proof.
  destruct mrs as [m r s]. intros Hm Hw. simpl in Hm. destruct m as [|[p|p|]|p]; [| | | |lia].
  - split; [|done]. by eapply (within_flags _ 0 r s false 0).
  - split; [by eapply (within_flags _ _ r s true (Zpos p))|]. simpl.
    change (Zpos p~1) with (2 * Zpos p + 1). by rewrite Z.mul_comm, Z.div_add_l, Z.add_0_r by lia.
  - split; [by eapply (within_flags _ _ r s false (Zpos p))|]. simpl.
    change (Zpos p~0) with (2 * Zpos p). by rewrite Z.mul_comm, Z.div_mul by lia.
  - split; [by eapply (within_flags _ _ r s true 0)|]. done.
Qed.

Lemma iter_shr_within (x : R) (p : positive) (mrs : shr_record) (e : Z) : 0 <= shr_m mrs -> within x mrs e ->
  within x (iter_pos shr_1 p mrs) (e + Zpos p) /\ shr_m (iter_pos shr_1 p mrs) = shr_m mrs / 2 ^ Zpos p.
Proof.
  rewrite iter_pos_S. revert mrs e. induction p as [|p IH] using Pos.peano_ind; intros mrs e Hm Hw.
  - change (Pos.iter shr_1 mrs 1) with (shr_1 mrs). rewrite Z.pow_1_r. by apply shr_1_within.
  - rewrite Pos.iter_succ_r. destruct (shr_1_within x mrs e Hm Hw) as [Hw1 Hm1].
    destruct (IH (shr_1 mrs) (e + 1)) as [Hw2 Hm2]; [rewrite Hm1; by apply Z.div_pos|done|].
    rewrite Pos2Z.inj_succ. split; [by replace (e + Z.succ (Zpos p)) with (e + 1 + Zpos p) by lia|].
    rewrite Hm2, Hm1, Z.pow_succ_r, Zdiv_Zdiv by lia. done.
Qed.

Lemma shr_within (x : R) (mrs : shr_record) (e n : Z) : 0 <= shr_m mrs -> 0 <= n -> within x mrs e ->
  exists mrs', shr mrs e n = (mrs', e + n) /\ within x mrs' (e + n) /\ shr_m mrs' = shr_m mrs / 2 ^ n.
Proof.
  intros Hm Hn Hw. destruct n as [|p|p]; [| |lia].
  - exists mrs. rewrite Z.add_0_r. simpl. by rewrite Z.div_1_r.
  - eexists. split; [reflexivity|]. by apply iter_shr_within.
Qed.

(** ** Rounding to the nearest *)

Lemma round_nearest_near (x : R) (mrs : shr_record) (e : Z) : within x mrs e ->
  let mr := round_nearest_even (shr_m mrs) (loc_of_shr_record mrs) in
  (Rabs (IZR mr * bpow e - x) <= / 2 * bpow e)%R /\ shr_m mrs <= mr <= shr_m mrs + 1.
Proof.
  destruct mrs as [m r s]. intros (f & -> & Hf). simpl in *. pose proof (bpow_gt_0 e) as Hp.
  assert (forall d, Rabs (d - f) <= / 2 -> Rabs ((IZR m + d) * bpow e - (IZR m + f) * bpow e) <= / 2 * bpow e)%R as Hd.
  { intros d Hd. replace ((IZR m + d) * bpow e - (IZR m + f) * bpow e)%R with ((d - f) * bpow e)%R by ring.
    rewrite Rabs_mult, (Rabs_pos_eq (bpow e)) by lra. apply Rmult_le_compat_r; lra. }
  destruct r, s; simpl; [|destruct (Z.even m)| |]; (split; [|lia]); rewrite ?plus_IZR;
    try (apply Hd; unfold Rabs; destruct (Rcase_abs _); lra);
    rewrite <- (Rplus_0_r (IZR m)) at 1; apply Hd; unfold Rabs; destruct (Rcase_abs _); lra.
Qed.

(** The exponent a number is rounded to, from its position [d]: [2^(d-1) <= x < 2^d]. *)
Abbreviation fexp64 := (fexp 53 1024).

Lemma fexp64_eq (d : Z) : fexp64 d = Z.max (d - 53) (-1074).
Proof. reflexivity. Qed.

(** A mantissa of at most 53 bits, or 2^53, at a rounded exponent is already rounded. *)
Lemma round_final (s : bool) (mr E : Z) : 0 <= mr <= 2 ^ 53 -> -1074 <= E -> (E = -1074 \/ 2 ^ 52 <= mr) ->
  let r := (let '(mrs, e) := shr_fexp 53 1024 mr E loc_Exact in
            match shr_m mrs with
            | Z0 => S754_zero s
            | Zpos m => if e <=? 971 then S754_finite s m e else S754_infinity s
            | _ => S754_nan
            end) in
  (IZR mr * bpow E < bpow 1024)%R -> number r /\ fR r = (IZR (cond_Zopp s mr) * bpow E)%R.
Proof.
  intros Hmr HE Hn r Hlt. unfold r, shr_fexp, shr_record_of_loc. clear r.
  destruct (decide (mr = 2 ^ 53)) as [->|Hne].
  - replace (fexp64 (Zdigits2 (2 ^ 53) + E) - E) with 1 by (rewrite fexp64_eq; simpl Zdigits2; lia).
    replace (shr _ E 1) with ({| shr_m := 2 ^ 52; shr_r := false; shr_s := false |}, E + 1) by reflexivity.
    cbn [shr_m]. rewrite (bpow_Z 53) in Hlt by lia. rewrite <- bpow_plus in Hlt.
    assert (E + 1 <= 971) as Hle.
    { destruct (Z.le_gt_cases (E + 1) 971); [done|]. pose proof (bpow_le 1024 (53 + E) ltac:(lia)). lra. }
    replace (E + 1 <=? 971) with true by lia.
    change (2 ^ 52) with (Zpos 4503599627370496). split.
    + split; [done|]. simpl. unfold bounded, canonical_mantissa. rewrite fexp64_eq. simpl digits2_pos.
      apply andb_true_iff. split; [apply Z.eqb_eq|apply Z.leb_le]; lia.
    + unfold fR. rewrite bpow_double. change (2 ^ 53) with 9007199254740992. destruct s; cbv [cond_Zopp Z.opp]; lra.
  - destruct mr as [|p|p]; [| |lia].
    + replace (fexp64 (Zdigits2 0 + E) - E) with (Z.max (-53) (-1074 - E)) by (rewrite fexp64_eq; change (Zdigits2 0) with 0; lia).
      destruct (Z.max (-53) (-1074 - E)) eqn:Ez; [|lia|]; simpl; (split; [done|]); destruct s; cbv [cond_Zopp Z.opp]; lra.
    + assert (Z.log2 (Zpos p) < 53) as Hlog by (apply Z.log2_lt_pow2; lia).
      assert (E <> -1074 -> 52 <= Z.log2 (Zpos p)) as Hlog2 by (intros; apply Z.log2_le_pow2; lia).
      assert (fexp64 (Zdigits2 (Zpos p) + E) = E) as Hf
        by (rewrite fexp64_eq, Zdigits2_log2 by lia; lia).
      rewrite Hf, Z.sub_diag. simpl shr. cbn [shr_m].
      assert (E <= 971) as Hle.
      { destruct (Z.le_gt_cases E 971); [done|]. exfalso.
        assert (IZR (2 ^ 52) <= IZR (Zpos p))%R by (apply IZR_le; lia). rewrite (bpow_Z 52) in * by lia.
        pose proof (bpow_le 1024 (52 + E) ltac:(lia)). rewrite bpow_plus in *. pose proof (bpow_gt_0 E). nra. }
      replace (E <=? 971) with true by lia. split; [|done]. split; [done|]. simpl.
      unfold bounded, canonical_mantissa. simpl in Hf. rewrite Hf. apply andb_true_iff.
      split; [apply Z.eqb_eq; lia|apply Z.leb_le; lia].
Qed.

(** What rounding the positive real [x] to exponent [E] gives: [mr * 2^E]. *)
Record rounded (x : R) (E mr : Z) : Prop := {
  rd_range : 0 <= mr <= 2 ^ 53;
  rd_near : (Rabs (IZR mr * bpow E - x) <= / 2 * bpow E)%R;
  rd_emin : -1074 <= E;
  rd_pos : E = -1074 \/ (bpow (E + 52) <= x)%R;
  rd_top : (x < bpow (E + 53))%R
}.

Lemma within_bounds (x : R) (m : Z) (l : location) (e : Z) : within x (shr_record_of_loc m l) e ->
  (IZR m * bpow e <= x < IZR (m + 1) * bpow e)%R.
Proof.
  intros (f & -> & Hf). pose proof (bpow_gt_0 e). rewrite plus_IZR.
  destruct l as [|[]]; simpl in *; nra.
Qed.

Lemma log2_bounds (m : Z) : 0 < m -> (bpow (Z.log2 m) <= IZR m)%R /\ (IZR (m + 1) <= bpow (Z.log2 m + 1))%R.
Proof.
  intros Hm. pose proof (Z.log2_spec m Hm) as [Hl Hu]. pose proof (Z.log2_nonneg m).
  rewrite <- !bpow_Z by lia. split; apply IZR_le; [done|]. rewrite Z.add_1_r. lia.
Qed.

Lemma round_aux_spec (s : bool) (m e : Z) (l : location) (x : R) : 0 < m ->
  e <= fexp64 (Zdigits2 m + e) -> within x (shr_record_of_loc m l) e ->
  exists mr, rounded x (fexp64 (Zdigits2 m + e)) mr /\
    ((IZR mr * bpow (fexp64 (Zdigits2 m + e)) < bpow 1024)%R ->
     number (binary_round_aux 53 1024 s m e l) /\
     fR (binary_round_aux 53 1024 s m e l) = (IZR (cond_Zopp s mr) * bpow (fexp64 (Zdigits2 m + e)))%R).
Proof.
  intros Hm He Hw. set (E := fexp64 (Zdigits2 m + e)) in *.
  destruct (within_bounds x m l e Hw) as [Hlo Hhi]. destruct (log2_bounds m Hm) as [Hml Hmu].
  assert (0 <= shr_m (shr_record_of_loc m l)) by (destruct l as [|[]]; simpl; lia).
  assert (shr_m (shr_record_of_loc m l) = m) as Hshm by by destruct l as [|[]].
  destruct (shr_within x (shr_record_of_loc m l) e (E - e)) as (mrs & Hshr & Hw' & Hm'); [done|lia|done|].
  replace (e + (E - e)) with E in * by lia. rewrite Hshm in Hm'.
  destruct (round_nearest_near x mrs E Hw') as [Hnear Hmr]. set (mr := round_nearest_even _ _) in *.
  assert (E = Z.max (Z.log2 m + 1 + e - 53) (-1074)) as HE by (unfold E; rewrite fexp64_eq, Zdigits2_log2; lia).
  pose proof (bpow_gt_0 e) as Hbe.
  assert (shr_m mrs < 2 ^ 53) as Hlt.
  { rewrite Hm'. apply Z.div_lt_upper_bound; [apply Z.pow_pos_nonneg; lia|]. rewrite <- Z.pow_add_r by lia.
    apply Z.log2_lt_pow2; lia. }
  assert (E = -1074 \/ 2 ^ 52 <= shr_m mrs) as Hge.
  { destruct (decide (E = -1074)) as [|Hne]; [by left|right]. rewrite Hm'. apply Z.div_le_lower_bound; [apply Z.pow_pos_nonneg; lia|].
    rewrite <- Z.pow_add_r by lia. apply Z.log2_le_pow2; lia. }
  assert (0 <= shr_m mrs) by (rewrite Hm'; apply Z.div_pos; [lia|apply Z.pow_pos_nonneg; lia]).
  exists mr. split.
  - constructor; [lia|done|lia| |].
    + destruct (decide (E = -1074)) as [|Hne]; [by left|right]. replace (E + 52) with (Z.log2 m + e) by lia.
      rewrite bpow_plus. nra.
    + eapply Rlt_le_trans; [exact Hhi|]. eapply Rle_trans; [|apply (bpow_le (Z.log2 m + 1 + e)); lia].
      rewrite bpow_plus. nra.
  - intros Hov. assert (shr_fexp 53 1024 m e l = (mrs, E)) as Hs by exact Hshr.
    unfold binary_round_aux. rewrite Hs. refine (round_final s mr E _ _ _ Hov); [lia|lia|]. destruct Hge; [by left|right; lia].
Qed.

(** The result is the closest multiple of [2^E]: within half a unit. *)
Lemma rounded_rel (x : R) (E mr : Z) : rounded x E mr -> (bpow (-1022) <= x)%R ->
  (Rabs (IZR mr * bpow E - x) <= bpow (-53) * x)%R.
Proof.
  intros [_ Hn He Hp _] Hx. eapply Rle_trans; [exact Hn|]. replace (/ 2)%R with (bpow (-1)) by (unfold bpow; simpl; lra).
  rewrite <- bpow_plus. replace (-1 + E) with (-53 + (E + 52)) by lia. rewrite bpow_plus.
  apply Rmult_le_compat_l; [apply Rlt_le, bpow_gt_0|]. destruct Hp as [->|Hp]; [done|done].
Qed.

(** Rounding does not cross a representable number. *)
Lemma rounded_le (x : R) (E mr : Z) (M : positive) (E' : Z) : rounded x E mr -> bounded 53 1024 M E' = true ->
  (x <= IZR (Zpos M) * bpow E')%R -> (IZR mr * bpow E <= IZR (Zpos M) * bpow E')%R.
Proof.
  intros [Hr Hn He Hp Ht] Hb Hx. destruct (bounded_mant M E' Hb) as (HM & HE' & Hbig).
  pose proof (bpow_gt_0 E) as HbE.
  assert (E <= E') as HEE.
  { destruct (Z.le_gt_cases E E') as [|Hgt]; [done|exfalso]. destruct Hp as [->|Hp]; [lia|].
    assert (IZR (Zpos M) < bpow 53)%R by (rewrite <- bpow_Z by lia; by apply IZR_lt).
    pose proof (bpow_le (53 + E') (E + 52) ltac:(lia)) as Hle. rewrite bpow_plus in Hle.
    pose proof (bpow_gt_0 E'). nra. }
  rewrite (bpow_split E' E), <- (bpow_Z (E' - E)) in * by lia.
  rewrite (Rmult_comm (bpow E)), <- Rmult_assoc, <- mult_IZR in *.
  set (K := Zpos M * 2 ^ (E' - E)) in *. apply Rmult_le_compat_r; [lra|]. apply IZR_le.
  destruct (Z.le_gt_cases mr K) as [|Hgt]; [done|exfalso]. assert (IZR (K + 1) <= IZR mr)%R as Hk by (apply IZR_le; lia).
  rewrite plus_IZR in Hk. unfold Rabs in Hn. destruct (Rcase_abs _) in Hn; nra.
Qed.

(** ** The operations *)

Lemma fR_sign (s : bool) (m : Z) (e : Z) : (IZR (cond_Zopp s m) * bpow e = (if s then -1 else 1) * (IZR m * bpow e))%R.
Proof. destruct s; simpl; rewrite ?opp_IZR; ring. Qed.

Lemma sign_abs (s : bool) : Rabs (if s then -1 else 1) = 1%R.
Proof. destruct s; [|apply Rabs_R1]. unfold Rabs. destruct (Rcase_abs (-1)); lra. Qed.

(** [r] is the number nearest to [x]: within a relative 2^-53, with the sign of [x],
    and no larger in magnitude than any number that is not smaller than [x]. *)
Record nearest (x : R) (r : f64) : Prop := {
  nr_number : number r;
  nr_near : (Rabs (fR r - x) <= bpow (-53) * Rabs x)%R;
  nr_pos : (0 <= x -> 0 <= fR r)%R;
  nr_neg : (x <= 0 -> fR r <= 0)%R;
  nr_below : forall y, number y -> (Rabs x <= Rabs (fR y))%R -> (Rabs (fR r) <= Rabs (fR y))%R
}.

Lemma nearest_exact (r : f64) : number r -> nearest (fR r) r.
Proof.
  intros Hr. constructor; try done. rewrite Rminus_diag, Rabs_R0.
  apply Rmult_le_pos; [apply Rlt_le, bpow_gt_0|apply Rabs_pos].
Qed.

Lemma fR_abs (s : bool) (M : positive) (E : Z) : Rabs (fR (S754_finite s M E)) = (IZR (Zpos M) * bpow E)%R.
Proof.
  pose proof (bpow_gt_0 E). assert (0 < IZR (Zpos M))%R by (by apply IZR_lt). unfold fR. rewrite fR_sign.
  rewrite Rabs_mult, sign_abs, (Rabs_pos_eq (IZR _ * _)) by nra. lra.
Qed.

(** A positive real rounded, and given a sign. *)
Lemma rounded_nearest (s : bool) (x : R) (E mr : Z) (r : f64) : rounded x E mr -> (0 < x < bpow 1023)%R ->
  ((bpow (-1022) <= x)%R \/ exists K, x = (IZR K * bpow E)%R) ->
  ((IZR mr * bpow E < bpow 1024)%R -> number r /\ fR r = (IZR (cond_Zopp s mr) * bpow E)%R) ->
  nearest ((if s then -1 else 1) * x)%R r.
Proof.
  intros Hrd [Hx0 Hx] Hex Hr. pose proof (bpow_gt_0 E) as HbE.
  assert (IZR mr * bpow E <= bpow 1023)%R as Hle.
  { pose proof (rounded_le x E mr 4503599627370496 971 Hrd eq_refl) as Hle.
    replace (4503599627370496 * bpow 971)%R with (bpow 1023) in Hle; [apply Hle; lra|].
    change 1023 with (52 + 971). by rewrite bpow_plus, <- (bpow_Z 52). }
  assert (0 <= IZR mr)%R as Hmr0 by (apply IZR_le; apply (rd_range _ _ _ Hrd)).
  destruct Hr as [Hnum Hfr]; [pose proof (bpow_double 1023) as Hd; change (1023 + 1) with 1024 in Hd; pose proof (bpow_gt_0 1023); lra|].
  rewrite fR_sign in Hfr.
  assert (Rabs (IZR mr * bpow E - x) <= bpow (-53) * x)%R as Hnear.
  { destruct Hex as [?|[K HK]]; [by apply rounded_rel|]. pose proof (rd_near _ _ _ Hrd) as Hn.
    assert (IZR mr * bpow E = x)%R as ->; [|rewrite Rminus_diag, Rabs_R0; apply Rmult_le_pos; [apply Rlt_le, bpow_gt_0|lra]].
    rewrite HK in *. f_equal. f_equal. rewrite <- Rmult_minus_distr_r, Rabs_mult, (Rabs_pos_eq (bpow E)), <- minus_IZR in Hn by lra.
    apply Rmult_le_reg_r in Hn; [|done]. rewrite <- abs_IZR in Hn. assert (Z.abs (mr - K) < 1); [|lia]. apply lt_IZR. lra. }
  assert (Rabs ((if s then -1 else 1) * x) = x)%R as Habs by (rewrite Rabs_mult, sign_abs, (Rabs_pos_eq x); lra).
  constructor; [done| | | |].
  - rewrite Hfr, Habs, <- Rmult_minus_distr_l, Rabs_mult, sign_abs, Rmult_1_l. done.
  - rewrite Hfr. destruct s; nra.
  - rewrite Hfr. destruct s; nra.
  - intros y [Hy Hb] Hxy. rewrite Habs in Hxy. destruct y as [?|?| |s' M E']; simpl in Hy, Hb; try done.
    + simpl in Hxy. rewrite Rabs_R0 in Hxy. lra.
    + rewrite fR_abs in *. rewrite Hfr, Rabs_mult. rewrite (Rabs_pos_eq (IZR mr * bpow E)) by nra.
      rewrite sign_abs, Rmult_1_l. by apply (rounded_le x).
Qed.

(** A dyadic number of the exponent range, rounded. *)
Lemma binary_round_nearest (s : bool) (m : positive) (e : Z) : -1074 <= e ->
  (IZR (Zpos m) * bpow e < bpow 1023)%R ->
  nearest (IZR (cond_Zopp s (Zpos m)) * bpow e) (binary_round 53 1024 s m e).
Proof.
  intros He Hlt. unfold binary_round. set (E := fexp64 _). destruct (shl_align m e E) as [mz ez] eqn:Hs.
  pose proof (shl_align_fst m e E) as [Hm Hez]. rewrite Hs in Hm, Hez. simpl in Hm, Hez.
  assert (IZR (Zpos m) * bpow e = IZR (Zpos mz) * bpow ez)%R as Hx.
  { rewrite Hm, mult_IZR, bpow_Z, Rmult_assoc, <- bpow_plus by lia. do 2 f_equal. lia. }
  assert (fexp64 (Zdigits2 (Zpos mz) + ez) = E) as HE.
  { unfold E. rewrite Zdigits2_log2, digits2_log2, Hm, Z.log2_mul_pow2 by lia. f_equal. lia. }
  assert (within (IZR (Zpos m) * bpow e) (shr_record_of_loc (Zpos mz) loc_Exact) ez) as Hw.
  { exists 0%R. simpl. split; [rewrite Hx; ring|done]. }
  destruct (round_aux_spec s (Zpos mz) ez loc_Exact _ ltac:(lia) ltac:(lia) Hw) as (mr & Hrd & Hr).
  rewrite HE in *. rewrite fR_sign. assert (0 < IZR (Zpos m))%R by by apply IZR_lt. pose proof (bpow_gt_0 e).
  apply (rounded_nearest s _ E mr); [done|split; [nra|done]| |done].
  destruct (decide (E = -1074)) as [HE1|HE1].
  - right. exists (Zpos m * 2 ^ (e - E)). rewrite mult_IZR, bpow_Z, Rmult_assoc, <- bpow_plus by lia. do 2 f_equal. lia.
  - left. destruct (rd_pos _ _ _ Hrd) as [?|Hp]; [done|]. eapply Rle_trans; [|exact Hp]. apply bpow_le.
    pose proof (rd_emin _ _ _ Hrd). lia.
Qed.

Lemma number_zero (s : bool) : number (S754_zero s).
Proof. done. Qed.

Lemma nearest_zero (s : bool) : nearest 0 (S754_zero s).
Proof. exact (nearest_exact (S754_zero s) (number_zero s)). Qed.

Lemma normalize_nearest (n e : Z) : -1074 <= e -> (Rabs (IZR n * bpow e) < bpow 1023)%R ->
  nearest (IZR n * bpow e) (binary_normalize 53 1024 n e false).
Proof.
  intros He Hlt. pose proof (bpow_gt_0 e). destruct n as [|m|m]; simpl binary_normalize.
  - rewrite Rmult_0_l. apply nearest_zero.
  - apply (binary_round_nearest false m e He). assert (0 < IZR (Zpos m))%R by by apply IZR_lt.
    rewrite Rabs_pos_eq in Hlt by nra. done.
  - apply (binary_round_nearest true m e He). assert (0 < IZR (Zpos m))%R by by apply IZR_lt.
    change (Zneg m) with (- Zpos m) in Hlt. rewrite opp_IZR, <- Ropp_mult_distr_l, Rabs_Ropp, Rabs_pos_eq in Hlt by nra. done.
Qed.

(** The two mantissas brought to the smaller exponent. *)
Lemma align_value (s : bool) (m : positive) (e ez : Z) : ez <= e ->
  (IZR (cond_Zopp s (Zpos (fst (shl_align m e ez)))) * bpow ez)%R = fR (S754_finite s m e).
Proof.
  intros He. destruct (shl_align_fst m e ez) as [Hm _]. rewrite Hm. simpl fR. rewrite !fR_sign, mult_IZR, bpow_Z by lia.
  rewrite Rmult_assoc, <- bpow_plus. do 3 f_equal. lia.
Qed.

Lemma number_emin (s : bool) (m : positive) (e : Z) : number (S754_finite s m e) -> -1074 <= e.
Proof. intros [_ Hb]. apply bounded_mant in Hb as (_ & ? & _). lia. Qed.

Lemma fopp_R (x : f64) : fR (fopp x) = (- fR x)%R.
Proof. destruct x as [[]|[]| |s m e]; simpl; try lra. destruct s; simpl; rewrite ?opp_IZR; lra. Qed.

Lemma number_opp (x : f64) : number x -> number (fopp x).
Proof. by destruct x. Qed.

Theorem fadd_nearest (x y : f64) : number x -> number y -> (Rabs (fR x + fR y) < bpow 1023)%R ->
  nearest (fR x + fR y) (fadd x y).
Proof.
  intros Hx Hy Hlt. destruct x as [sx|sx| |sx mx ex], y as [sy|sy| |sy my ey]; try (by destruct Hx); try (by destruct Hy).
  - simpl. rewrite Rplus_0_l. destruct sx, sy; apply nearest_zero.
  - simpl fadd. rewrite Rplus_0_l. by apply nearest_exact.
  - simpl fadd. rewrite Rplus_0_r. by apply nearest_exact.
  - pose proof (number_emin _ _ _ Hx). pose proof (number_emin _ _ _ Hy).
    unfold fadd, SFadd. rewrite <- (align_value sx mx ex (Z.min ex ey)), <- (align_value sy my ey (Z.min ex ey)) in * by lia.
    rewrite <- Rmult_plus_distr_r, <- plus_IZR in *. apply normalize_nearest; [lia|done].
Qed.

Lemma fsub_fadd (x y : f64) : number x -> number y -> fsub x y = fadd x (fopp y).
Proof.
  intros Hx Hy. destruct x as [[]|[]| |sx mx ex], y as [[]|[]| |sy my ey]; try done; try (by destruct Hx); try (by destruct Hy).
  all: simpl; unfold fsub, SFsub, fadd, SFadd, fopp, SFopp; f_equal. destruct sy; simpl; lia.
Qed.

Theorem fsub_nearest (x y : f64) : number x -> number y -> (Rabs (fR x - fR y) < bpow 1023)%R ->
  nearest (fR x - fR y) (fsub x y).
Proof.
  intros Hx Hy Hlt. rewrite fsub_fadd by done. unfold Rminus. rewrite <- fopp_R.
  apply fadd_nearest; [done|by apply number_opp|]. by rewrite fopp_R.
Qed.

Theorem f64_of_int_nearest (n : Z) : Z.abs n < 2 ^ 1000 -> nearest (IZR n) (f64_of_int n).
Proof.
  intros Hn. replace (IZR n) with (IZR n * bpow 0)%R by (unfold bpow; simpl; lra).
  apply normalize_nearest; [lia|]. replace (IZR n * bpow 0)%R with (IZR n) by (unfold bpow; simpl; lra).
  rewrite <- abs_IZR. apply Rlt_le_trans with (IZR (2 ^ 1000)); [by apply IZR_lt|].
  rewrite bpow_Z by lia. apply bpow_le. lia.
Qed.

Lemma new_location_eq (m r : Z) : new_location m r =
  if r =? 0 then loc_Exact
  else loc_Inexact (if Z.even m then 2 * r ?= m else match 2 * r + 1 ?= m with Gt => Gt | _ => Lt end).
Proof. unfold new_location, new_location_even, new_location_odd. change (IntDef.Z.even m) with (Z.even m). by destruct (Z.even m). Qed.

Lemma new_location_within (q m r e : Z) : 0 < m -> 0 <= r < m ->
  within ((IZR q + IZR r / IZR m) * bpow e) (shr_record_of_loc q (new_location m r)) e.
Proof.
  intros Hm [Hr0 Hr]. assert (0 < IZR m)%R as Hm' by by apply IZR_lt.
  assert (IZR r / IZR m * IZR m = IZR r)%R as Hf by (field; lra). apply IZR_lt in Hr.
  exists (IZR r / IZR m)%R. set (f := (IZR r / IZR m)%R) in *.
  assert (Z.even m = false -> m <> 2 * r) as Hodd by (intros Ho ->; by rewrite Z.even_mul in Ho).
  assert ((2 * r < m)%Z -> f < / 2)%R as Hlt by (intros Hc%IZR_lt; rewrite mult_IZR in Hc; nra).
  assert ((m < 2 * r)%Z -> / 2 < f)%R as Hgt by (intros Hc%IZR_lt; rewrite mult_IZR in Hc; nra).
  assert ((2 * r = m)%Z -> f = / 2)%R as Heq by (intros Hc%(f_equal IZR); rewrite mult_IZR in Hc; nra).
  assert ((0 < r)%Z -> 0 < f)%R as Hpos by (intros Hc%IZR_lt; nra). assert (f < 1)%R by nra.
  rewrite new_location_eq. destruct (Z.eqb_spec r 0) as [->|Hz].
  - assert (f = 0)%R by nra. simpl; split; done || ring.
  - specialize (Hpos ltac:(lia)). destruct (Z.even m); simpl.
    + destruct (Z.compare_spec (2 * r) m); simpl; (split; [done|]); auto.
    + specialize (Hodd eq_refl). destruct (Z.compare_spec (2 * r + 1) m); simpl; (split; [done|]); split; try done;
        (apply Hlt; lia) || (apply Hgt; lia).
Qed.

Lemma bpow_lt_inv (a b : Z) : (bpow a < bpow b)%R -> a < b.
Proof. intros Hlt. destruct (Z.lt_ge_cases a b) as [|Hge]; [done|]. pose proof (bpow_le b a Hge). lra. Qed.

(** The quotient of two positive numbers, in its integer and remainder. *)
Lemma div_core_spec (m1 m2 : positive) (e1 e2 : Z) :
  exists q r e, SFdiv_core_binary 53 1024 (Zpos m1) e1 (Zpos m2) e2 = (q, e, new_location (Zpos m2) r) /\
    0 <= r < Zpos m2 /\
    e = Z.min (fexp64 (Z.log2 (Zpos m1) + e1 - (Z.log2 (Zpos m2) + e2))) (e1 - e2) /\
    Zpos m1 * 2 ^ (e1 - e2 - e) = Zpos m2 * q + r.
Proof.
  unfold SFdiv_core_binary. rewrite !Zdigits2_log2 by lia.
  replace (Z.log2 (Zpos m1) + 1 + e1 - (Z.log2 (Zpos m2) + 1 + e2)) with (Z.log2 (Zpos m1) + e1 - (Z.log2 (Zpos m2) + e2)) by lia.
  set (e := Z.min _ _). set (s := e1 - e2 - e). assert (0 <= s) by lia.
  assert (match s with Z0 => Zpos m1 | Zpos _ => Z.shiftl (Zpos m1) s | Zneg _ => 0 end = Zpos m1 * 2 ^ s) as ->.
  { destruct s as [|p|p]; [by rewrite Z.pow_0_r, Z.mul_1_r|by rewrite Z.shiftl_mul_pow2|lia]. }
  pose proof (Z_div_mod (Zpos m1 * 2 ^ s) (Zpos m2) ltac:(lia)) as Hdiv.
  destruct (Z.div_eucl _ _) as [q r]. exists q, r, e. destruct Hdiv as [Hq Hr]. auto.
Qed.

(** The integer quotient has all the bits the result needs. *)
Lemma div_core_bits (m1 m2 : positive) (q r k : Z) : 0 <= k -> 0 <= r < Zpos m2 ->
  Zpos m1 * 2 ^ (k + 1 + Z.log2 (Zpos m2) - Z.log2 (Zpos m1)) = Zpos m2 * q + r ->
  0 <= k + 1 + Z.log2 (Zpos m2) - Z.log2 (Zpos m1) -> 2 ^ k <= q.
Proof.
  intros Hk Hr Hq Hs. pose proof (Z.log2_nonneg (Zpos m1)). pose proof (Z.log2_nonneg (Zpos m2)).
  destruct (Z.log2_spec (Zpos m1) ltac:(lia)) as [H1 _].
  destruct (Z.log2_spec (Zpos m2) ltac:(lia)) as [_ H2]. rewrite <- Z.add_1_r in H2.
  assert (2 ^ k * 2 ^ (Z.log2 (Zpos m2) + 1) <= Zpos m2 * q + r) as Hle.
  { rewrite <- Hq, <- Z.pow_add_r by lia.
    replace (k + (Z.log2 (Zpos m2) + 1)) with (Z.log2 (Zpos m1) + (k + 1 + Z.log2 (Zpos m2) - Z.log2 (Zpos m1))) by lia.
    rewrite Z.pow_add_r by lia. apply Z.mul_le_mono_nonneg_r; [apply Z.pow_nonneg; lia|done]. }
  assert (0 < 2 ^ k) by (apply Z.pow_pos_nonneg; lia). nia.
Qed.

Theorem fdiv_nearest (x y : f64) : number x -> number y -> (0 < fR x)%R -> (0 < fR y)%R ->
  (bpow (-1000) <= fR x / fR y < bpow 1023)%R -> nearest (fR x / fR y) (fdiv x y).
Proof.
  intros Hx Hy Hx0 Hy0 [Hlo Hhi].
  destruct x as [?|?| |sx m1 e1], y as [?|?| |sy m2 e2]; simpl in Hx0, Hy0; try lra.
  pose proof (bpow_gt_0 e1). pose proof (bpow_gt_0 e2).
  assert (0 < IZR (Zpos m1))%R by by apply IZR_lt. assert (0 < IZR (Zpos m2))%R by by apply IZR_lt.
  rewrite fR_sign in Hx0, Hy0. destruct sx; [nra|]. destruct sy; [nra|].
  destruct (div_core_spec m1 m2 e1 e2) as (q & r & e & Hcore & Hr & He & Hq).
  unfold fdiv, SFdiv. rewrite Hcore. simpl xorb. set (x := (fR _ / fR _)%R) in *.
  destruct (log2_bounds (Zpos m1) ltac:(lia)) as [_ Hm1]. destruct (log2_bounds (Zpos m2) ltac:(lia)) as [Hm2 _].
  set (D := Z.log2 (Zpos m1) + e1 - (Z.log2 (Zpos m2) + e2)) in *.
  assert (x = (IZR q + IZR r / IZR (Zpos m2)) * bpow e)%R as Hval.
  { unfold x. simpl fR. apply (f_equal IZR) in Hq. rewrite mult_IZR, plus_IZR, mult_IZR, bpow_Z in Hq by lia.
    replace (IZR q + IZR r / IZR (Zpos m2))%R with ((IZR (Zpos m2) * IZR q + IZR r) / IZR (Zpos m2))%R by (field; lra).
    rewrite <- Hq, (bpow_split e1 e2), (bpow_split (e1 - e2) e). field. lra. }
  assert (x < bpow (D + 1))%R as HD.
  { apply (Rmult_lt_reg_r (IZR (Zpos m2) * bpow e2)); [nra|].
    replace (x * (IZR (Zpos m2) * bpow e2))%R with (IZR (Zpos m1) * bpow e1)%R by (unfold x; simpl fR; field; lra).
    apply Rlt_le_trans with (bpow (Z.log2 (Zpos m1) + 1) * bpow e1)%R; [rewrite plus_IZR in Hm1; nra|].
    replace (bpow (Z.log2 (Zpos m1) + 1) * bpow e1)%R with (bpow (D + 1) * (bpow (Z.log2 (Zpos m2)) * bpow e2))%R
      by (rewrite <- !bpow_plus; f_equal; lia).
    apply Rmult_le_compat_l; [apply Rlt_le, bpow_gt_0|]. apply Rmult_le_compat_r; lra. }
  assert (-1000 < D + 1) as HD1 by (apply bpow_lt_inv; lra).
  rewrite fexp64_eq in He.
  assert (2 ^ (D - 1 - e) <= q) as Hq1.
  { apply (div_core_bits m1 m2 q r); [lia|done| |lia]. rewrite <- Hq. do 2 f_equal. lia. }
  assert (0 < 2 ^ (D - 1 - e)) by (apply Z.pow_pos_nonneg; lia).
  assert (D - 1 - e <= Z.log2 q) as Hlog by (apply Z.log2_le_pow2; lia).
  destruct (round_aux_spec false q e (new_location (Zpos m2) r) x) as (mr & Hrd & Hres);
    [lia|rewrite fexp64_eq, Zdigits2_log2; lia|rewrite Hval; by apply new_location_within|].
  replace x with (1 * x)%R by ring. pose proof (bpow_gt_0 (-1000)).
  eapply (rounded_nearest false x); [exact Hrd|lra| |exact Hres]. left.
  eapply Rle_trans; [|exact Hlo]. apply bpow_le. lia.
Qed.

(** ** Comparison and conversion *)

Lemma pos_value_lt (M1 M2 : positive) (E1 E2 : Z) : bounded 53 1024 M1 E1 = true -> bounded 53 1024 M2 E2 = true ->
  E1 < E2 -> (IZR (Zpos M1) * bpow E1 < IZR (Zpos M2) * bpow E2)%R.
Proof.
  intros H1 H2 He. destruct (bounded_mant M1 E1 H1) as (Hm1 & He1 & _). destruct (bounded_mant M2 E2 H2) as (_ & _ & Hm2).
  specialize (Hm2 ltac:(lia)). apply IZR_lt in Hm1. apply IZR_le in Hm2. rewrite bpow_Z in Hm1, Hm2 by lia.
  pose proof (bpow_gt_0 E1). pose proof (bpow_le (53 + E1) (52 + E2) ltac:(lia)) as Hle. rewrite !bpow_plus in Hle.
  pose proof (bpow_gt_0 E2). nra.
Qed.

(** The order of the values of two positive numbers. *)
Lemma fcompare_pos_R (M1 M2 : positive) (E1 E2 : Z) : bounded 53 1024 M1 E1 = true -> bounded 53 1024 M2 E2 = true ->
  match (match Z.compare E1 E2 with Lt => Lt | Gt => Gt | Eq => Pos.compare_cont Eq M1 M2 end) with
  | Lt => (IZR (Zpos M1) * bpow E1 < IZR (Zpos M2) * bpow E2)%R
  | Eq => (IZR (Zpos M1) * bpow E1 = IZR (Zpos M2) * bpow E2)%R
  | Gt => (IZR (Zpos M2) * bpow E2 < IZR (Zpos M1) * bpow E1)%R
  end.
Proof.
  intros H1 H2. destruct (Z.compare_spec E1 E2) as [->|?|?]; [|by apply pos_value_lt|by apply pos_value_lt].
  pose proof (bpow_gt_0 E2). change (Pos.compare_cont Eq M1 M2) with (M1 ?= M2)%positive.
  destruct (Pos.compare_spec M1 M2) as [->|Hlt|Hlt]; [done| |]; apply Rmult_lt_compat_r; try done; by apply IZR_lt.
Qed.

Lemma fcompare_R (x y : f64) : number x -> number y ->
  exists c, SFcompare x y = Some c /\
    match c with Lt => (fR x < fR y)%R | Eq => fR x = fR y | Gt => (fR y < fR x)%R end.
Proof.
  intros [Hx Hbx] [Hy Hby]. destruct x as [?|?| |sx m1 e1], y as [?|?| |sy m2 e2]; try done;
    (eexists; split; [reflexivity|]); unfold fR; rewrite ?fR_sign; simpl in Hbx, Hby.
  - done.
  - pose proof (bpow_gt_0 e2). assert (0 < IZR (Zpos m2))%R by by apply IZR_lt. destruct sy; nra.
  - pose proof (bpow_gt_0 e1). assert (0 < IZR (Zpos m1))%R by by apply IZR_lt. destruct sx; nra.
  - pose proof (bpow_gt_0 e1). pose proof (bpow_gt_0 e2). assert (0 < IZR (Zpos m1))%R by by apply IZR_lt.
    assert (0 < IZR (Zpos m2))%R by by apply IZR_lt.
    pose proof (fcompare_pos_R m1 m2 e1 e2 Hbx Hby) as Hc. destruct sx, sy; [|nra|nra|].
    + destruct (Z.compare e1 e2); [destruct (Pos.compare_cont Eq m1 m2)|..]; simpl in *; lra.
    + destruct (Z.compare e1 e2); [destruct (Pos.compare_cont Eq m1 m2)|..]; simpl in *; lra.
Qed.

Lemma flt_R (x y : f64) : number x -> number y -> if flt x y then (fR x < fR y)%R else (fR y <= fR x)%R.
Proof.
  intros Hx Hy. unfold flt, SFltb. destruct (fcompare_R x y Hx Hy) as ([] & -> & Hc); simpl; lra.
Qed.

Lemma fge_R (x y : f64) : number x -> number y -> if fge x y then (fR y <= fR x)%R else (fR x < fR y)%R.
Proof.
  intros Hx Hy. unfold fge, SFleb. destruct (fcompare_R y x Hy Hx) as ([] & -> & Hc); simpl; lra.
Qed.

Lemma Min_R (x y : f64) : number x -> number y -> number (Min x y) /\ fR (Min x y) = Rmin (fR x) (fR y).
Proof.
  intros Hx Hy. pose proof (flt_R x y Hx Hy) as Hlt.
  assert (Min x y = x /\ (fR x <= fR y)%R \/ Min x y = y /\ (fR y <= fR x)%R) as [[-> Hle]|[-> Hle]].
  { destruct Hx as [Hx _], Hy as [Hy _]. destruct x as [sx|?| |sx m1 e1], y as [sy|?| |sy m2 e2]; try done;
      unfold Min; [destruct sx; simpl; auto with real|..]; destruct (flt _ _); auto with real. }
  - by rewrite Rmin_left.
  - by rewrite Rmin_right.
Qed.

Lemma Abs_R (x : f64) : number x -> number (Abs x) /\ fR (Abs x) = Rabs (fR x).
Proof.
  intros Hx. destruct x as [?|?| |s m e]; try (by destruct Hx).
  - simpl. by rewrite Rabs_R0.
  - split; [done|]. rewrite fR_abs. reflexivity.
Qed.
