(* ===== verification/LeakyRate.v ===== *)
(** * The leaky bucket keeps its rate

    Balances are doubles and every operation rounds.  Over any run of requests that do
    not wait, on a bucket whose configuration does not change, the hits admitted are
    bounded by the balance at the start, what leaked in at the configured rate, and an
    explicit rounding error for every request. *)

From stdpp Require Import base gmap strings list.
From Stdlib Require Import ZArith Lia Reals Lra SpecFloat.
From S2P Require Import Prelude Float64 Rounding Types GoTime LeakyMath Runtime LRUCache Store Demo TokenBucket TokenSpec LeakyBucket LeakySpec Workers WorkersSpec.

Local Open Scope Z_scope.

(** ** Constants *)

(** The unit roundoff, and the width of [snapToZero]. *)
Definition ulp1 : R := bpow (-53).
Definition snapWidth : R := fR c1em9.

Lemma ulp1_value : ulp1 = (/ 9007199254740992)%R.
Proof. unfold ulp1, bpow. simpl. f_equal. ring. Qed.

Lemma snapWidth_bounds : (/ 1000000001 < snapWidth < / 999999999)%R.
Proof. unfold snapWidth, c1em9. simpl. lra. Qed.

(** ** Integers and zero snapping *)

Lemma bounded_number (s : bool) (M : positive) (E : Z) : bounded 53 1024 M E = true -> number (S754_finite s M E).
Proof. done. Qed.

(** Integers of less than 53 bits are exact. *)
Lemma f64_of_int_exact (n : Z) : Z.abs n < 2 ^ 53 -> number (f64_of_int n) /\ fR (f64_of_int n) = IZR n.
Proof.
  intros Hn. destruct (decide (n = 0)) as [->|Hnz]; [by split; [apply number_zero|]|].
  destruct (dyf_finite n 0 Hn ltac:(unfold expo; lia) Hnz) as (M & E & Hb & HE & HM & Hd).
  unfold f64_of_int. rewrite Hd. split; [by apply bounded_number|]. unfold fR. rewrite HM, fR_sign.
  rewrite mult_IZR, bpow_Z, Rmult_assoc, <- bpow_plus by lia. replace (0 - E + E) with 0 by lia.
  replace (bpow 0) with 1%R by (unfold bpow; simpl; lra). rewrite Rmult_1_r, <- (mult_IZR (-1)) || idtac.
  destruct (Z.ltb_spec n 0); [rewrite (Z.abs_neq n), opp_IZR by lia; ring|rewrite (Z.abs_eq n) by lia; ring].
Qed.

Lemma snapToZero_R (x : f64) : number x ->
  number (snapToZero x) /\ (snapToZero x = x \/ fR (snapToZero x) = 0%R /\ (Rabs (fR x) < snapWidth)%R).
Proof.
  intros Hx. unfold snapToZero. destruct (Abs_R x Hx) as [Ha Hr].
  assert (number c1em9) as Hc by done. pose proof (flt_R (Abs x) c1em9 Ha Hc) as Hlt.
  destruct (flt _ _); [|by split; [|left]]. split; [apply number_zero|]. right. split; [done|]. unfold snapWidth. lra.
Qed.

(** Snapping moves a balance by less than its width, and not out of bounds around zero. *)
Lemma snapToZero_bounds (x : f64) (lo hi : R) : number x -> (lo <= 0)%R -> (0 <= hi)%R -> (lo <= fR x <= hi)%R ->
  (lo <= fR (snapToZero x) <= hi)%R /\ (fR (snapToZero x) <= fR x + snapWidth)%R.
Proof.
  intros Hx Hlo Hhi Hb. pose proof snapWidth_bounds. destruct (snapToZero_R x Hx) as [_ [->|[-> Ha]]]; [lra|].
  unfold Rabs in Ha. destruct (Rcase_abs _) in Ha; lra.
Qed.

(** The integer part of a magnitude. *)
Lemma trunc_bounds (m : positive) (e : Z) :
  let t := if 0 <=? e then Z.shiftl (Zpos m) e else Z.shiftr (Zpos m) (- e) in
  0 <= t /\ (IZR t <= IZR (Zpos m) * bpow e)%R.
Proof.
  destruct (Z.leb_spec 0 e) as [He|He]; simpl.
  - rewrite Z.shiftl_mul_pow2, mult_IZR, bpow_Z by lia. split; [|lra].
    apply Z.mul_nonneg_nonneg; [lia|apply Z.pow_nonneg; lia].
  - rewrite Z.shiftr_div_pow2 by lia. assert (0 < 2 ^ (- e)) by (apply Z.pow_pos_nonneg; lia).
    split; [apply Z.div_pos; lia|]. pose proof (Z.mul_div_le (Zpos m) (2 ^ (- e)) ltac:(lia)) as Hle.
    apply IZR_le in Hle. rewrite mult_IZR, bpow_Z in Hle by lia.
    replace (bpow e) with (/ bpow (- e))%R by (unfold bpow; by rewrite powerRZ_neg', Rinv_inv).
    pose proof (bpow_gt_0 (- e)). apply (Rmult_le_reg_l (bpow (- e))); [done|].
    replace (bpow (- e) * (IZR (Zpos m) * / bpow (- e)))%R with (IZR (Zpos m)) by (field; lra). done.
Qed.

(** A positive number of whole tokens is at most the balance they were taken from. *)
Lemma int64_of_f_floor `{Arch} (x : f64) (n : Z) : number x -> (Rabs (fR x) < bpow 62)%R -> 0 < n ->
  n <= int64_of_f x -> (IZR n <= fR x)%R.
Proof.
  intros Hx Hlt Hn Hle. destruct x as [?|?| |s m e]; try (by destruct Hx); simpl in Hle; [lia|].
  rewrite fR_abs in Hlt. pose proof (trunc_bounds m e) as [Ht0 Ht]. unfold trunc_Z in Hle.
  set (t := if 0 <=? e then Z.shiftl (Zpos m) e else Z.shiftr (Zpos m) (- e)) in *.
  assert (t < 2 ^ 62) by (apply lt_IZR; rewrite bpow_Z by lia; lra).
  rewrite decide_True in Hle by (unfold in64, min_i64, max_i64; destruct s; simpl; lia).
  destruct s; simpl in Hle; [lia|]. simpl. apply IZR_le in Hle. lra.
Qed.

(** A quotient by a rate that is itself rounded. *)
Lemma quotient_error (n x rho u : R) : (0 < n)%R -> (0 < x)%R -> (0 < u <= / 4)%R -> (x * (1 - u) <= rho)%R ->
  (n / rho * (1 + u) <= n / x * (1 + 4 * u))%R.
Proof.
  intros Hn Hx Hu Hrho. assert (0 < rho)%R by nra. assert ((1 + u) * x <= (1 + 4 * u) * rho)%R.
  { assert ((1 + 4 * u) * (x * (1 - u)) <= (1 + 4 * u) * rho)%R by (apply Rmult_le_compat_l; lra).
    assert (0 <= u * x * (2 - 4 * u))%R by (apply Rmult_le_pos; [apply Rmult_le_pos|]; lra). lra. }
  apply (Rmult_le_reg_r (rho * x)); [nra|].
  replace (n / rho * (1 + u) * (rho * x))%R with (n * ((1 + u) * x))%R by (field; lra).
  replace (n / x * (1 + 4 * u) * (rho * x))%R with (n * ((1 + 4 * u) * rho))%R by (field; lra).
  apply Rmult_le_compat_l; lra.
Qed.

Lemma div_le_num (a b c : R) : (0 < b)%R -> (a <= c * b)%R -> (a / b <= c)%R.
Proof.
  intros Hb Hle. apply (Rmult_le_reg_r b); [done|]. unfold Rdiv. rewrite Rmult_assoc, Rinv_l; lra.
Qed.

Lemma num_le_div (a b c : R) : (0 < b)%R -> (c * b <= a)%R -> (c <= a / b)%R.
Proof.
  intros Hb Hle. apply (Rmult_le_reg_r b); [done|]. unfold Rdiv. rewrite Rmult_assoc, Rinv_l; lra.
Qed.

(** ** One request *)

Section Step.
Variables (limit duration burst : Z).
Hypotheses (Hlimit : 0 < limit < 2 ^ 53) (Hduration : 0 < duration < 2 ^ 53) (Hburst : 0 < burst < 2 ^ 52).

(** How far below zero a balance that books no debt may be, and what a request may gain
    by rounding and snapping. *)
Definition slack : R := (2 * snapWidth + 2 * ulp1 * IZR burst)%R.
Definition stepError : R := (2 * snapWidth + 3 * ulp1 * (IZR burst + 1))%R.

(** Tokens that leak in [elapsed] milliseconds, with the rounding of the rate and of the
    quotient. *)
Definition leaked (elapsed : Z) : R := (IZR elapsed * IZR limit / IZR duration * (1 + 4 * ulp1))%R.

Definition balanced (x : f64) : Prop := number x /\ (- slack <= fR x <= IZR burst)%R.

Lemma IZR_53 (n : Z) : 0 < n < 2 ^ 53 -> (1 <= IZR n < 9007199254740992)%R.
Proof. intros [Ha Hb]. apply IZR_lt in Hb. assert (IZR 1 <= IZR n)%R by (apply IZR_le; lia). change (IZR (2 ^ 53)) with 9007199254740992%R in Hb. lra. Qed.

Lemma burst_R : (1 <= IZR burst < 4503599627370496)%R.
Proof.
  destruct Hburst as [Ha Hb]. apply IZR_lt in Hb. assert (IZR 1 <= IZR burst)%R by (apply IZR_le; lia).
  change (IZR (2 ^ 52)) with 4503599627370496%R in Hb. lra.
Qed.

Lemma slack_bounds : (0 < slack < 2)%R.
Proof. pose proof snapWidth_bounds. pose proof burst_R. unfold slack. rewrite ulp1_value. lra. Qed.

Lemma bpow_numeral (k : Z) (x : R) : (0 <= k)%Z -> (x < IZR (2 ^ k))%R -> (x < bpow k)%R.
Proof. intros Hk Hx. by rewrite <- bpow_Z. Qed.

Lemma ratio_bounds (n m : Z) : 0 < n < 2 ^ 53 -> 0 < m < 2 ^ 53 ->
  (ulp1 <= IZR n / IZR m <= 9007199254740992)%R.
Proof.
  intros Hn Hm. pose proof (IZR_53 n Hn). pose proof (IZR_53 m Hm). rewrite ulp1_value.
  split; [apply num_le_div|apply div_le_num]; lra.
Qed.

Lemma rate_R : number (rateOf duration limit) /\
  (IZR duration / IZR limit * (1 - ulp1) <= fR (rateOf duration limit) <= IZR duration / IZR limit * (1 + ulp1))%R.
Proof.
  destruct (f64_of_int_exact duration ltac:(lia)) as [Hd Ed]. destruct (f64_of_int_exact limit ltac:(lia)) as [Hl El].
  pose proof (IZR_53 limit Hlimit). pose proof (IZR_53 duration Hduration).
  pose proof (ratio_bounds duration limit Hduration Hlimit) as Hx. rewrite ulp1_value in Hx.
  pose proof (fdiv_nearest (f64_of_int duration) (f64_of_int limit) Hd Hl) as Hn. rewrite Ed, El in Hn.
  destruct Hn as [Hnum Hnear _ _ _]; [lra|lra| |].
  - pose proof (bpow_le (-1000) (-53) ltac:(lia)). fold ulp1 in *. rewrite ulp1_value in *. split; [lra|].
    apply Rle_lt_trans with (IZR (2 ^ 53)); [change (IZR (2 ^ 53)) with 9007199254740992%R; lra|].
    rewrite bpow_Z by lia. apply Rlt_le_trans with (bpow (53 + 1)); [|apply bpow_le; lia].
    rewrite bpow_double. pose proof (bpow_gt_0 53). lra.
  - fold ulp1 in Hnear. rewrite (Rabs_pos_eq (IZR duration / IZR limit)) in Hnear by lra. split; [done|].
    unfold rateOf. unfold Rabs in Hnear. destruct (Rcase_abs _) in Hnear; lra.
Qed.

Lemma leak_R (elapsed : Z) : 0 < elapsed < 2 ^ 53 ->
  let leak := fdiv (f64_of_int elapsed) (rateOf duration limit) in
  number leak /\ (0 <= fR leak <= leaked elapsed)%R /\ (leaked elapsed <= bpow 200)%R.
Proof.
  intros He leak. destruct (f64_of_int_exact elapsed ltac:(lia)) as [Hn En].
  pose proof (IZR_53 limit Hlimit) as Hl. pose proof (IZR_53 duration Hduration) as Hd. pose proof (IZR_53 elapsed He) as He'.
  destruct rate_R as (Hr & Hrate). set (rate := rateOf duration limit) in *.
  pose proof (ratio_bounds duration limit Hduration Hlimit) as Hx. set (x := (IZR duration / IZR limit)%R) in *.
  assert (leaked elapsed = IZR elapsed / x * (1 + 4 * ulp1))%R as Hleaked by (unfold leaked, x; field; lra).
  rewrite ulp1_value in Hrate, Hx. assert (0 < fR rate)%R as Hr0 by lra.
  assert (IZR elapsed / x <= 9007199254740992 * 9007199254740992)%R as Hmax by (apply div_le_num; nra).
  assert (0 < IZR elapsed / x)%R by (apply Rdiv_lt_0_compat; lra).
  assert (leaked elapsed <= bpow 200)%R as Hbig.
  { rewrite Hleaked, ulp1_value. apply Rle_trans with (IZR (2 ^ 110)); [|rewrite bpow_Z by lia; apply bpow_le; lia].
    change (IZR (2 ^ 110)) with 1298074214633706907132624082305024%R. lra. }
  assert (fR (f64_of_int elapsed) / fR rate * (1 + ulp1) <= leaked elapsed)%R as Hle.
  { rewrite Hleaked, En. apply quotient_error; try lra; rewrite ulp1_value; lra. }
  assert (0 < fR (f64_of_int elapsed) / fR rate)%R as Hq by (rewrite En; apply Rdiv_lt_0_compat; lra).
  rewrite ulp1_value in Hle.
  destruct (fdiv_nearest (f64_of_int elapsed) rate Hn Hr) as [Hnum Hnear Hpos _ _]; [lra|done| |].
  - split.
    + apply Rle_trans with (bpow (-106)); [apply bpow_le; lia|]. replace (bpow (-106)) with (ulp1 * ulp1)%R by (unfold ulp1; by rewrite <- bpow_plus).
      rewrite ulp1_value. apply num_le_div; [done|]. rewrite En. nra.
    + pose proof (bpow_le (200 + 1) 1023 ltac:(lia)) as Hb. rewrite bpow_double in Hb. pose proof (bpow_gt_0 200). lra.
  - split; [done|]. split; [|done]. split; [apply Hpos; lra|]. fold ulp1 in Hnear. rewrite ulp1_value in Hnear.
    rewrite (Rabs_pos_eq (_ / _)) in Hnear by lra. unfold leak. unfold Rabs in Hnear. destruct (Rcase_abs _) in Hnear; lra.
Qed.

Lemma burst_exact : number (f64_of_int burst) /\ fR (f64_of_int burst) = IZR burst.
Proof. apply f64_of_int_exact. lia. Qed.

(** Clamping to the burst and snapping. *)
Lemma clamp_R (y : f64) : number y -> (- slack <= fR y)%R ->
  let z := snapToZero (Min (f64_of_int burst) y) in
  balanced z /\ (fR z <= Rmin (IZR burst) (fR y) + snapWidth)%R.
Proof.
  intros Hy Hlo z. destruct burst_exact as [Hb Eb]. pose proof slack_bounds. pose proof burst_R.
  destruct (Min_R _ _ Hb Hy) as [Hm Em]. rewrite Eb in Em.
  assert (- slack <= fR (Min (f64_of_int burst) y) <= IZR burst)%R as Hr.
  { rewrite Em. split; [apply Rmin_glb; lra|apply Rmin_l]. }
  destruct (snapToZero_bounds _ (- slack) (IZR burst) Hm ltac:(lra) ltac:(lra) Hr) as [Hz Hle].
  split; [split; [apply snapToZero_R, Hm|exact Hz]|]. rewrite <- Em. exact Hle.
Qed.

Lemma near_cases (r x : R) : (Rabs (r - x) <= ulp1 * Rabs x)%R ->
  (x - ulp1 * Rabs x <= r <= x + ulp1 * Rabs x)%R.
Proof. unfold Rabs at 1. destruct (Rcase_abs _); lra. Qed.

Lemma bpow_large (x : R) : (Rabs x <= 2 * bpow 200)%R -> (Rabs x < bpow 1023)%R.
Proof.
  intros Hx. pose proof (bpow_le (200 + 1) 1022 ltac:(lia)) as Hb. rewrite bpow_double in Hb.
  pose proof (bpow_double 1022) as Hd. change (1022 + 1) with 1023 in Hd. pose proof (bpow_gt_0 1022). lra.
Qed.

Lemma bpow_200 : (1000000000000000000 <= bpow 200)%R.
Proof.
  rewrite <- bpow_Z by lia. apply IZR_le. apply Z.leb_le. reflexivity.
Qed.

(** The balance a request is decided on. *)
Lemma settle_R (x : f64) (elapsed : Z) : balanced x -> 0 <= elapsed < 2 ^ 53 ->
  let credited := if elapsed =? 0 then x else fadd x (fdiv (f64_of_int elapsed) (rateOf duration limit)) in
  let y := snapToZero (Min (f64_of_int burst) credited) in
  balanced y /\ (fR y <= fR x + leaked elapsed + (snapWidth + 2 * ulp1 * (IZR burst + 1)))%R.
Proof.
  intros [Hx [Hlo Hhi]] He credited y. pose proof slack_bounds. pose proof burst_R. pose proof snapWidth_bounds.
  destruct (Z.eqb_spec elapsed 0) as [->|Hne]; simpl in credited.
  { destruct (clamp_R x Hx Hlo) as [Hy Hle]. split; [done|]. pose proof (Rmin_r (IZR burst) (fR x)).
    unfold y, credited, leaked. rewrite ulp1_value. lra. }
  destruct (leak_R elapsed ltac:(lia)) as (Hl & [Hl0 Hl1] & Hbig). set (leak := fdiv _ _) in *.
  pose proof bpow_200. assert (Rabs (fR x + fR leak) <= 2 * bpow 200)%R as Hsum by (unfold Rabs; destruct (Rcase_abs _); lra).
  destruct (fadd_nearest x leak Hx Hl (bpow_large _ Hsum)) as [Hn Hnear Hpos _ Hbelow].
  apply near_cases in Hnear. fold credited in Hn, Hnear, Hpos, Hbelow.
  assert (- slack <= fR credited)%R as Hlo'.
  { destruct (Rle_dec 0 (fR x + fR leak)) as [Hs|Hs]; [specialize (Hpos Hs); lra|].
    specialize (Hbelow x Hx). unfold Rabs in Hbelow. repeat destruct (Rcase_abs _) in Hbelow; lra. }
  destruct (clamp_R credited Hn Hlo') as [Hy Hle]. split; [done|]. fold y in Hle.
  pose proof (Rmin_l (IZR burst) (fR credited)). pose proof (Rmin_r (IZR burst) (fR credited)).
  rewrite ulp1_value in *. destruct (Rle_dec (fR x + fR leak) (2 * (IZR burst + 1))); [|lra].
  assert (Rabs (fR x + fR leak) <= 2 * (IZR burst + 1))%R by (unfold Rabs; destruct (Rcase_abs _); lra). lra.
Qed.

(** The balance after an admitted request. *)
Lemma spend_R `{Arch} (y : f64) (h : Z) : balanced y -> 0 < h <= wholeTokens y ->
  let z := snapToZero (Min (f64_of_int burst) (fsub y (f64_of_int h))) in
  balanced z /\ (fR z + IZR h <= fR y + (snapWidth + ulp1 * (IZR burst + 1)))%R.
Proof.
  intros [Hy [Hlo Hhi]] [Hh Hw] z. pose proof slack_bounds. pose proof burst_R. pose proof snapWidth_bounds.
  pose proof bpow_200. pose proof (IZR_lt 0 h Hh) as Hh0.
  assert (number c1em9) as Hc by done. fold snapWidth in *.
  assert (Rabs (fR y + snapWidth) <= IZR burst + 3)%R as Hs by (unfold Rabs; destruct (Rcase_abs _); lra).
  destruct (fadd_nearest y c1em9 Hy Hc) as [Hn Hnear _ Hneg _]; [apply bpow_large; fold snapWidth; lra|].
  fold snapWidth in *. apply near_cases in Hnear. rewrite ulp1_value in Hnear.
  assert (IZR h <= fR (fadd y c1em9))%R as Hle.
  { apply int64_of_f_floor; [done| |done|exact Hw]. rewrite <- bpow_Z by lia.
    change (IZR (2 ^ 62)) with 4611686018427387904%R. unfold Rabs at 1. destruct (Rcase_abs _); lra. }
  assert (0 < fR y + snapWidth)%R as Hpos by (destruct (Rlt_dec 0 (fR y + snapWidth)); [done|specialize (Hneg ltac:(lra)); lra]).
  rewrite (Rabs_pos_eq (fR y + snapWidth)) in Hnear by lra.
  assert (h < 2 ^ 53) as Hh53 by (apply lt_IZR; change (IZR (2 ^ 53)) with 9007199254740992%R; lra).
  destruct (f64_of_int_exact h ltac:(lia)) as [Hnh Eh].
  destruct (fsub_nearest y (f64_of_int h) Hy Hnh) as [Hn' Hnear' Hpos' _ _];
    [apply bpow_large; rewrite Eh; unfold Rabs; destruct (Rcase_abs _); lra|].
  rewrite Eh in Hnear', Hpos'. apply near_cases in Hnear'. rewrite ulp1_value in Hnear'.
  assert (Rabs (fR y - IZR h) <= IZR burst + 1)%R as Hd by (unfold Rabs; destruct (Rcase_abs _); lra).
  assert (- slack <= fR (fsub y (f64_of_int h)))%R as Hlo'.
  { destruct (Rle_dec 0 (fR y - IZR h)) as [Hs'|Hs']; [specialize (Hpos' Hs'); lra|].
    rewrite (Rabs_left (fR y - IZR h)) in Hnear' by lra. unfold slack. rewrite ulp1_value. lra. }
  destruct (clamp_R _ Hn' Hlo') as [Hz Hzle]. split; [done|]. fold z in Hzle.
  pose proof (Rmin_r (IZR burst) (fR (fsub y (f64_of_int h)))). rewrite ulp1_value. lra.
Qed.

Lemma rate_usable : unusableRate (rateOf duration limit) = false.
Proof.
  destruct rate_R as [Hr Hb]. pose proof (ratio_bounds duration limit Hduration Hlimit) as Hx. rewrite ulp1_value in *.
  unfold unusableRate, fgt. change (SFltb fzero ?y) with (flt fzero y).
  pose proof (flt_R fzero (rateOf duration limit) (number_zero false) Hr) as Hlt. change (fR fzero) with 0%R in Hlt.
  destruct (flt _ _); [|lra]. destruct Hr as [Hf _]. by destruct (rateOf duration limit).
Qed.

(** A bucket of this configuration. *)
Definition rated (b : LeakyBucketItem) : Prop :=
  lb_Limit b = limit /\ lb_Duration b = duration /\ lb_Burst b = burst /\ balanced (lb_Remaining b) /\
  0 <= lb_UpdatedAt b < 2 ^ 53.

(** A request of this configuration that neither waits, resets nor refunds. *)
Definition plainReq (r : RateLimitReq) : Prop :=
  r_Limit r = limit /\ r_Duration r = duration /\ r_Burst r = burst /\ r_MaxWait r = 0 /\ 0 <= r_Hits r /\
  HasBehavior (r_Behavior r) RESET_REMAINING = false /\ HasBehavior (r_Behavior r) DURATION_IS_GREGORIAN = false.

Lemma settle_rated (b : LeakyBucketItem) (r : RateLimitReq) (now : Z) : rated b -> plainReq r -> 0 <= now < 2 ^ 53 ->
  let at_ := Z.max (lb_UpdatedAt b) now in
  let elapsed := at_ - lb_UpdatedAt b in
  leakySettle b r now (rateOf duration limit) =
    (mkLeaky limit duration
       (snapToZero (Min (f64_of_int burst)
          (if elapsed =? 0 then lb_Remaining b
           else fadd (lb_Remaining b) (fdiv (f64_of_int elapsed) (rateOf duration limit))))) at_ burst,
     rateOf duration limit).
Proof.
  destruct b as [bl bd brem bu bb]. intros (Hl & Hd & Hb & Hbal & Hu) (Rl & Rd & Rb & Rm & Rh & Rr & Rg) Hnow at_ elapsed.
  simpl in *. subst bl bd bb.
  assert (leakyPlan (mkLeaky limit duration brem bu burst) r now = mkPlan (rateOf duration limit) false false false burst) as Hplan.
  { unfold leakyPlan. simpl. rewrite Rl, Rd, Rb, Rg, rate_usable, !Z.eqb_refl. simpl.
    replace (0 <? limit) with true by lia. replace (0 <? duration) with true by lia.
    replace (burst <? 0) with false by lia. replace (burst =? 0) with false by lia. simpl.
    rewrite !andb_false_r. done. }
  unfold leakySettle, leakyCredit. rewrite Hplan, Rr. simpl.
  unfold creditBalance, shiftBurst, resetAndClamp, creditedLeak. simpl.
  destruct (Z.ltb_spec bu now) as [Hlt|Hge]; simpl.
  - replace (now <=? bu) with false by lia. rewrite Z.eqb_refl. simpl.
    assert (elapsed = now - bu) as He by lia. replace (elapsed =? 0) with false by lia.
    rewrite sub64_id by (unfold in64, min_i64, max_i64; lia). rewrite <- He.
    destruct (leak_R elapsed ltac:(lia)) as ([Hf _] & _). assert (IsNaN (fdiv (f64_of_int elapsed) (rateOf duration limit)) = false) as ->
      by (destruct (fdiv _ _); simpl in Hf; done). simpl. unfold with_lbConfig, with_lbRemaining. simpl. rewrite Rl, Rd.
    replace at_ with now by lia. done.
  - rewrite Z.eqb_refl. simpl. unfold with_lbConfig, with_lbRemaining. simpl. rewrite Rl, Rd.
    replace (elapsed =? 0) with true by lia. replace at_ with bu by lia. done.
Qed.

(** The decision on a settled balance [y]. *)
Lemma decide_rated `{Arch} (y : f64) (at_ : Z) (b' : LeakyBucketItem) (r : RateLimitReq) (rl : RateLimitResp) :
  balanced y -> 0 <= at_ < 2 ^ 53 -> 0 <= r_Hits r ->
  plain_outcome (mkLeaky limit duration y at_ burst) b' r rl ->
  rated b' /\ lb_UpdatedAt b' = at_ /\ 0 <= charged r rl /\
  (fR (lb_Remaining b') + IZR (charged r rl) <= fR y + (snapWidth + ulp1 * (IZR burst + 1)))%R.
Proof.
  intros Hy Hat Hh (_ & _ & Ho). pose proof slack_bounds. pose proof burst_R. pose proof snapWidth_bounds.
  assert (0 < ulp1)%R by apply bpow_gt_0. assert (0 < snapWidth + ulp1 * (IZR burst + 1))%R by nra.
  assert (forall z, balanced z -> rated (mkLeaky limit duration z at_ burst)) as Hrated by (intros z Hz; done).
  replace (r_Hits r <? 0) with false in Ho by lia. simpl in Ho. unfold charged.
  destruct (Z.eqb_spec (r_Hits r) 0) as [->|Hnz].
  { destruct Ho as (-> & -> & _). rewrite decide_True by done. split; [by apply Hrated|]. simpl. split; [done|]. split; [done|lra]. }
  destruct (Z.ltb_spec (wholeTokens y) (r_Hits r)) as [Hlt|Hge].
  - destruct Ho as [-> Ho]. rewrite decide_False by done.
    destruct (HasBehavior _ _); destruct Ho as [-> _]; simpl; [|split; [by apply Hrated|split; [done|split; [done|lra]]]].
    destruct (Min_R y fzero (proj1 Hy) (number_zero false)) as [Hm Em]. change (fR fzero) with 0%R in Em.
    pose proof (Rmin_l (fR y) 0). split; [|split; [done|split; [done|unfold with_lbRemaining; simpl; lra]]].
    apply Hrated. split; [done|]. rewrite Em. destruct Hy as [_ Hy]. split; [apply Rmin_glb|]; lra.
  - destruct Ho as (-> & -> & _). rewrite decide_True by done. simpl.
    assert (0 < r_Hits r) as Hp by lia. destruct (spend_R y (r_Hits r) Hy (conj Hp Hge)) as [Hz Hle]. split; [by apply Hrated|]. split; [done|]. split; [done|exact Hle].
Qed.

(** A request on the bucket. *)
Lemma update_rated `{Arch} (b : LeakyBucketItem) (exp : Z) (r : RateLimitReq) (st : RateLimitReqState) (now d : Z) :
  rated b -> plainReq r -> 0 <= now < 2 ^ 53 ->
  let '(b', exp', rl) := leaky_update b exp r st now d (rateOf duration limit) in
  rated b' /\ lb_UpdatedAt b' = Z.max (lb_UpdatedAt b) now /\ 0 <= charged r rl /\
  (fR (lb_Remaining b') + IZR (charged r rl) <=
     fR (lb_Remaining b) + leaked (lb_UpdatedAt b' - lb_UpdatedAt b) + stepError)%R.
Proof.
  intros Hb Hr Hnow. unfold leaky_update. rewrite (settle_rated b r now Hb Hr Hnow).
  destruct Hb as (Hl & Hd & Hbb & Hbal & Hu), Hr as (_ & _ & _ & Rm & Rh & _).
  set (at_ := Z.max _ _). set (elapsed := at_ - lb_UpdatedAt b).
  destruct (settle_R (lb_Remaining b) elapsed Hbal ltac:(lia)) as [Hy Hyle]. set (y := snapToZero _) in *.
  match goal with |- context [leaky_decide ?bs ?e r st _ now d ?rate ?w] =>
    pose proof (leaky_decide_plain bs e r st now d rate w ltac:(lia)) as Hplain;
    destruct (leaky_decide bs e r st _ now d rate w) as [[b' exp1] rl] end.
  destruct (decide_rated y at_ b' r rl Hy ltac:(lia) Rh (proj1 Hplain)) as (Hb' & Hat & Hc & Hle).
  split; [done|]. split; [done|]. split; [done|]. rewrite Hat. fold elapsed. unfold stepError. lra.
Qed.
End Step.

(** ** The worker pool *)

Section Pool.
Context `{Arch} `{Hash64} {C S : Type} `{CacheLaws C} `{StoreLaws S}.
Variables (limit duration burst : Z).
Hypotheses (Hlimit : 0 < limit < 2 ^ 53) (Hduration : 0 < duration < 2 ^ 53) (Hburst : 0 < burst < 2 ^ 52).

Abbreviation P := (WorkerPool C S).

(** Any command; a rate limit request on key [k] is a leaky bucket request of the
    configuration that neither waits, resets nor refunds. *)
Definition leakyConforms (k : string) (c : Command) : Prop :=
  match c with
  | CGetRateLimit r _ =>
      (exists t, r_CreatedAt r = Some t /\ 0 <= t < 2 ^ 53) /\
      (HashKey r = k -> r_Algorithm r = LEAKY_BUCKET /\ plainReq limit duration burst (leakyReq r))
  | _ => True
  end.

(** Bucket [b] of the configuration is cached for [k]; the clock is within range. *)
Definition leakyWindow (po : P) (k : string) (p : Ptr) (b : LeakyBucketItem) : Prop :=
  pool_ok po /\ (forall n, 0 <= epochMillis (mkTime (e_clock (po_env po) n) (e_loc (po_env po))) < 2 ^ 53) /\
  exists it, at_key po k p it /\ it_Value it = VLeaky b /\ rated limit duration burst b.

(** Executions during which [k] stays cached and no command finds it expired. *)
Inductive kept (k : string) (p : Ptr) : P -> list (Command * Reply) -> P -> Prop :=
  | kept_nil po : kept k p po [] po
  | kept_cons po po1 po2 c rep tr :
      (exists it, at_key po k p it /\ expiredAt it (nowMs (po_env po)) = false) ->
      installable po c -> runCommand c po = Ret (rep, po1) -> (exists it, at_key po1 k p it) ->
      kept k p po1 tr po2 -> kept k p po ((c, rep) :: tr) po2.

(** Requests on key [k] in a trace. *)
Definition requestOn (k : string) (c : Command) : bool :=
  match c with CGetRateLimit r _ => String.eqb (HashKey r) k | _ => false end.

Definition requestsOn (k : string) (tr : list (Command * Reply)) : nat :=
  length (filter (fun cr => requestOn k cr.1 = true) tr).

Lemma dispatch_leaky (w w' : World C S) (r : RateLimitReq) (st : RateLimitReqState) (rl : RateLimitResp) (ceiling : Z) :
  r_Algorithm r = LEAKY_BUCKET -> leakyBucket r (mkReqState (IsOwner st) ceiling) w = Ret (Ok rl, w') ->
  exists e', dispatch ceiling (CGetRateLimit r st) w =
      Ret (RRateLimit (Ok rl), mkWorld e' (w_cache w') (w_store w')) /\ env_quiet (w_env w') e'.
Proof.
  intros Ha Hr. simpl. unfold handleGetRateLimit. rewrite Ha. simpl.
  rewrite bind_assoc, (bind_ret_run _ _ _ _ _ Hr). unfold wrapError.
  rewrite (bind_ret_run _ _ _ _ _ (mret_run _ _)).
  eexists. split; [done|apply counters_quiet].
Qed.

(** One request on the key. *)
Lemma leaky_window_own (po : P) (k : string) (p : Ptr) (b : LeakyBucketItem) (r : RateLimitReq) (st : RateLimitReqState) :
  leakyWindow po k p b -> (exists it, at_key po k p it /\ expiredAt it (nowMs (po_env po)) = false) ->
  HashKey r = k -> leakyConforms k (CGetRateLimit r st) ->
  exists rl po' b', runCommand (CGetRateLimit r st) po = Ret (RRateLimit (Ok rl), po') /\
    leakyWindow po' k p b' /\ lb_UpdatedAt b <= lb_UpdatedAt b' /\
    (fR (lb_Remaining b') + IZR (charged r rl) <=
       fR (lb_Remaining b) + leaked limit duration (lb_UpdatedAt b' - lb_UpdatedAt b) + stepError burst)%R.
Proof.
  intros (Hok & Hclk & it & (c & Hi & Hv & Hp) & Hb & Hrated) (it2 & (c2 & Hi2 & _ & Hp2) & Hx) Hk [(t & Hcr & Ht) Hown].
  assert (it2 = it) as -> by congruence. destruct (Hown Hk) as [Ha Hplain]. subst k.
  pose proof (workerWorld_ok po _ c Hok Hi) as Hw.
  set (st' := mkReqState (IsOwner st) (pc_ScheduleMaxWait (po_conf po))).
  pose proof (leakyBucket_live (workerWorld po c) r st' p it b t Hw (conj Hv Hp) Hx Hb Hcr) as Hrun. cbv zeta in Hrun.
  pose proof Hplain as (El & Ed & _ & Em & _ & _ & Eg).
  unfold leakyTimes in Hrun. rewrite Eg, El, Ed in Hrun. destruct Hrun as (w' & Hrun & Htc).
  set (now := leakyNow b (leakyReq r) t 1 (w_env (workerWorld po c))) in *.
  assert (0 <= now < 2 ^ 53) as Hnow by (unfold now, leakyNow; destruct (ownerTimed _ _); [apply Hclk|done]).
  pose proof (update_rated limit duration burst Hlimit Hduration Hburst b (it_ExpireAt it) (leakyReq r) st' now duration Hrated Hplain Hnow) as Hup.
  destruct (leaky_update _ _ _ _ _ _ _) as [[b' exp'] rl]. simpl in Hrun, Htc. destruct Hup as (Hrated' & Hat & _ & Hle).
  destruct (dispatch_leaky _ w' r st rl _ Ha Hrun) as (e2 & Hdis & Hq2).
  destruct (touched_command po (CGetRateLimit r st) c p it (leakyItem it b' exp') _ w' e2 Hok Hi (conj Hv Hp) eq_refl Htc Hdis Hq2)
    as (po' & Hr & Hok' & Hat' & Hc & Hl).
  exists rl, po', b'. split; [done|]. split; [|split; [lia|]].
  - split; [done|]. split; [intros n; rewrite Hc, Hl; apply Hclk|]. by exists (leakyItem it b' exp').
  - unfold charged in *. destruct (leakyReq_fields r) as (Eh & _). by rewrite Eh in Hle.
Qed.

Lemma leaky_window_other (po : P) (k : string) (p : Ptr) (b : LeakyBucketItem) (r : RateLimitReq)
    (st : RateLimitReqState) (rep : Reply) (po' : P) :
  leakyWindow po k p b -> HashKey r <> k -> leakyConforms k (CGetRateLimit r st) ->
  runCommand (CGetRateLimit r st) po = Ret (rep, po') -> (exists it, at_key po' k p it) -> leakyWindow po' k p b.
Proof.
  intros (Hok & Hclk & it & Hat & Hrest) Hk [(t & Hcr & _) _] Hrun Hat'.
  destruct (other_command po k p it r st rep po' Hok Hat Hk (ex_intro _ t Hcr) Hrun Hat') as (Hok' & Hat2 & Hc & Hl).
  split; [done|]. split; [intros n; rewrite Hc, Hl; apply Hclk|]. by exists it.
Qed.

Lemma leaky_window_cache (po : P) (k : string) (p : Ptr) (b : LeakyBucketItem) (c : Command) (rep : Reply) (po' : P) :
  leakyWindow po k p b -> installable po c -> match c with CGetRateLimit _ _ => False | _ => True end ->
  runCommand c po = Ret (rep, po') -> (exists it, at_key po' k p it) -> leakyWindow po' k p b.
Proof.
  intros (Hok & Hclk & it & Hat & Hrest) Hin Hc Hrun Hat'.
  destruct (cache_access_at po k p it c rep po' Hok Hat Hin Hc Hrun Hat') as (Hok' & Hat2 & Hck & Hl).
  split; [done|]. split; [intros n; rewrite Hck, Hl; apply Hclk|]. by exists it.
Qed.

Lemma leaked_add (a b : Z) : leaked limit duration (a + b) = (leaked limit duration a + leaked limit duration b)%R.
Proof. unfold leaked. rewrite plus_IZR. unfold Rdiv. ring. Qed.

Lemma leaky_window_trace (po po' : P) (k : string) (p : Ptr) (b : LeakyBucketItem) (tr : list (Command * Reply)) :
  leakyWindow po k p b -> kept k p po tr po' -> Forall (leakyConforms k) tr.*1 ->
  exists b', leakyWindow po' k p b' /\ lb_UpdatedAt b <= lb_UpdatedAt b' /\
    (fR (lb_Remaining b') + IZR (sumZ (chargedOn k <$> tr)) <=
       fR (lb_Remaining b) + leaked limit duration (lb_UpdatedAt b' - lb_UpdatedAt b) +
       INR (requestsOn k tr) * stepError burst)%R.
Proof.
  intros Hwin Hkept Hconf. revert b Hwin Hconf. induction Hkept as [po|po po1 po2 c rep tr Hx Hin Hrun Hat _ IH]; intros b Hwin Hconf.
  { exists b. split; [done|]. split; [lia|]. rewrite Z.sub_diag. unfold leaked. simpl. lra. }
  apply Forall_cons in Hconf as [Hc Hconf]. unfold requestsOn. rewrite filter_cons, fmap_cons.
  cbn [fst requestOn sumZ fold_right]. fold (sumZ (chargedOn k <$> tr)). fold (requestsOn k tr).
  destruct c as [r st|key item|key];
    [|destruct (IH b (leaky_window_cache po k p b _ rep po1 Hwin Hin I Hrun Hat) Hconf) as (b' & Hwin' & Hu & Hle);
      exists b'; rewrite Z.add_0_l; by split..].
  destruct (decide (HashKey r = k)) as [Hk|Hk].
  - destruct (leaky_window_own po k p b r st Hwin Hx Hk Hc) as (rl & po1' & b1 & Hrun' & Hwin1 & Hu1 & Hle1).
    rewrite Hrun' in Hrun. injection Hrun as <- <-.
    destruct (IH b1 Hwin1 Hconf) as (b' & Hwin' & Hu & Hle). exists b'. split; [done|]. split; [lia|].
    cbn [chargedOn requestOn]. rewrite Hk, String.eqb_refl, decide_True by done. rewrite length_cons, S_INR, plus_IZR.
    fold (requestsOn k tr).
    replace (lb_UpdatedAt b' - lb_UpdatedAt b) with ((lb_UpdatedAt b' - lb_UpdatedAt b1) + (lb_UpdatedAt b1 - lb_UpdatedAt b)) by lia.
    rewrite leaked_add. lra.
  - pose proof (leaky_window_other po k p b r st rep po1 Hwin Hk Hc Hrun Hat) as Hwin1.
    destruct (IH b Hwin1 Hconf) as (b' & Hwin' & Hu & Hle). exists b'. split; [done|]. split; [done|].
    assert (String.eqb (HashKey r) k = false) as Hne by (by apply String.eqb_neq).
    cbn [chargedOn requestOn]. rewrite Hne, decide_False by done. fold (requestsOn k tr).
    destruct rep as [[rl|e]| |]; rewrite Z.add_0_l; exact Hle.
Qed.

(** C8: The leaky bucket keeps its rate, in floating point.  Take a key with a leaky
    bucket of [limit] tokens per [duration] milliseconds, and any sequence of commands
    of the pool, rate limit requests on this key and on others, items installed and items
    read, while the bucket is neither evicted nor replaced nor found expired. Requests on
    the key are leaky bucket requests with the limit, duration and burst of the bucket, with
    no negative hits, without MaxWait, RESET_REMAINING or a Gregorian duration; times and
    numbers are below 2^53.  The hits admitted on the key are
    at most the balance at the start, plus the tokens that leak in over the time the
    bucket was credited for at [limit / duration] (up to a relative [2^-51]), plus for
    every request on the key 2 snap widths (2e-9) and [3 (burst + 1) / 2^53] tokens of
    rounding, plus once the slack the balance may fall below zero; and the balance
    itself never exceeds the burst. *)
Theorem pool_leaky_rate (po po' : P) (k : string) (p : Ptr) (b : LeakyBucketItem) (tr : list (Command * Reply))
    (Hwin : leakyWindow po k p b) (Hkept : kept k p po tr po') (Hconf : Forall (leakyConforms k) tr.*1) :
  exists b', leakyWindow po' k p b' /\ lb_UpdatedAt b <= lb_UpdatedAt b' /\
    (fR (lb_Remaining b') <= IZR burst)%R /\
    (IZR (sumZ (chargedOn k <$> tr)) <=
       fR (lb_Remaining b) + IZR (lb_UpdatedAt b' - lb_UpdatedAt b) * IZR limit / IZR duration * (1 + / 2 ^ 51) +
       INR (requestsOn k tr) * (2 * snapWidth + 3 * (IZR burst + 1) / 2 ^ 53) +
       (2 * snapWidth + IZR burst / 2 ^ 52))%R.
Proof.
  destruct (leaky_window_trace po po' k p b tr Hwin Hkept Hconf) as (b' & Hwin' & Hu & Hle).
  exists b'. split; [done|]. split; [done|]. pose proof Hwin' as (_ & _ & it & _ & _ & (_ & _ & _ & (_ & Hlo & Hhi) & _)).
  split; [done|]. unfold leaked, stepError, slack in *. rewrite ulp1_value in *.
  replace (/ 2 ^ 51)%R with (4 * / 9007199254740992)%R by (simpl; lra).
  replace (3 * (IZR burst + 1) / 2 ^ 53)%R with (3 * / 9007199254740992 * (IZR burst + 1))%R by (simpl; lra).
  replace (IZR burst / 2 ^ 52)%R with (2 * / 9007199254740992 * IZR burst)%R by (simpl; lra). lra.
Qed.
End Pool.

(** ** Witness *)

Lemma leakyDemo_rated : rated 10 60000 10 leakyDemo.
Proof.
  split; [done|]. split; [done|]. split; [done|]. split; [|simpl; lia].
  destruct (f64_of_int_exact 7 ltac:(lia)) as [Hn Hr]. split; [done|].
  change (lb_Remaining leakyDemo) with (f64_of_int 7). rewrite Hr.
  pose proof (slack_bounds 10 ltac:(lia)). lra.
Qed.

Lemma demo_leakyWindow : leakyWindow 10 60000 10 (demoPool leakyWorld) demoKey 0%nat leakyDemo.
Proof.
  destruct (leakyWorld_live (demoReq LEAKY_BUCKET 4 2000) eq_refl) as (Hw & Hc & Hv & _).
  split; [by apply demoPool_ok|]. split; [intros n; vm_compute; split; congruence|].
  exists leakyDemoItem. split; [by apply demoPool_at|]. split; [done|apply leakyDemo_rated].
Qed.

Lemma demo_leakyConforms (hits : Z) : 0 <= hits ->
  leakyConforms 10 60000 10 demoKey (CGetRateLimit (demoReq LEAKY_BUCKET hits 4000) owner).
Proof.
  intros Hh. split; [exists 4000; split; [done|lia]|]. intros _. split; [done|]. by repeat split.
Qed.

(** Six of the seven tokens and a half there are three seconds later. *)
Lemma pool_leaky_rate_witness : exists tr po' b',
  kept (H := amd64) demoKey 0%nat (demoPool leakyWorld) tr po' /\ length tr = 1%nat /\
  leakyWindow 10 60000 10 po' demoKey 0%nat b' /\
  (IZR (sumZ (chargedOn demoKey <$> tr)) <=
     fR (lb_Remaining leakyDemo) + IZR (lb_UpdatedAt b' - lb_UpdatedAt leakyDemo) * IZR 10 / IZR 60000 * (1 + / 2 ^ 51) +
     INR (requestsOn demoKey tr) * (2 * snapWidth + 3 * (IZR 10 + 1) / 2 ^ 53) + (2 * snapWidth + IZR 10 / 2 ^ 52))%R.
Proof.
  assert (0 < 10 < 2 ^ 53 /\ 0 < 60000 < 2 ^ 53 /\ 0 < 10 < 2 ^ 52) as (Hl & Hd & Hb) by lia.
  assert (exists it, at_key (demoPool leakyWorld) demoKey 0%nat it /\
    expiredAt it (nowMs (po_env (demoPool leakyWorld))) = false) as Hx.
  { exists leakyDemoItem. destruct (leakyWorld_live (demoReq LEAKY_BUCKET 6 4000) eq_refl) as (_ & Hc & _ & Hx).
    split; [by apply demoPool_at|exact Hx]. }
  destruct (leaky_window_own (H := amd64) 10 60000 10 Hl Hd Hb (demoPool leakyWorld) demoKey 0%nat leakyDemo
    (demoReq LEAKY_BUCKET 6 4000) owner demo_leakyWindow Hx eq_refl (demo_leakyConforms 6 ltac:(lia)))
    as (rl & po' & b1 & Hrun & Hwin1 & _).
  assert (kept (H := amd64) demoKey 0%nat (demoPool leakyWorld)
    [(CGetRateLimit (demoReq LEAKY_BUCKET 6 4000) owner, RRateLimit (Ok rl))] po') as Hkept.
  { eapply kept_cons; [exact Hx|exact Logic.I|exact Hrun| |constructor]. destruct Hwin1 as (_ & _ & it & Hat & _). by exists it. }
  destruct (pool_leaky_rate (H := amd64) 10 60000 10 Hl Hd Hb (demoPool leakyWorld) po' demoKey 0%nat leakyDemo _
    demo_leakyWindow Hkept) as (b' & Hwin' & _ & _ & Hle).
  { constructor; [|constructor]. exact (demo_leakyConforms 6 ltac:(lia)). }
  eexists _, po', b'. exact (conj Hkept (conj eq_refl (conj Hwin' Hle))).
Defined.
