(* ===== verification/PyClient.v ===== *)
(** * The Python client ([python/gubernator/__init__.py])

    Waiting for the reset of a limit. Numbers of Python are float64, and the quotient of
    two integers is the nearest float64. *)

From stdpp Require Import base list.
From Stdlib Require Import ZArith Lia Reals Lra SpecFloat.
From S2P Require Import Prelude Float64 Rounding LeakyRate.

Local Open Scope Z_scope.

Definition MILLISECOND : Z := 1.
Definition SECOND : Z := MILLISECOND * 1000.
Definition MINUTE : Z := SECOND * 60.

(** [max(a, b)]: the first of the largest. *)
Definition pyMax (a b : f64) : f64 := if flt a b then b else a.

(** What [sleep_until_reset] sleeps, in seconds, when [time.time()] is [now]. *)
Definition sleepUntilReset (reset_time : Z) (now : f64) : f64 :=
  pyMax fzero (fsub (fdiv (f64_of_int reset_time) (f64_of_int 1000)) now).

Lemma bpow_inv (k : Z) : 0 <= k -> bpow (- k) = (/ IZR (2 ^ k))%R.
Proof.
  intros Hk. assert (Hm : (bpow (- k) * bpow k = 1)%R) by (rewrite <- bpow_plus, Z.add_opp_diag_l; done).
  rewrite <- (bpow_Z k) in Hm by done. pose proof (bpow_gt_0 k) as Hp. rewrite <- bpow_Z in Hp by done.
  apply Rmult_eq_reg_r with (IZR (2 ^ k)); [|lra]. rewrite Hm, Rinv_l by lra. done.
Qed.

Lemma quotient_near (reset : Z) : 0 < reset < 2 ^ 43 ->
  let q := fdiv (f64_of_int reset) (f64_of_int 1000) in
  number q /\ (Rabs (fR q - IZR reset / 1000) <= bpow (-53) * (IZR reset / 1000))%R.
Proof.
  intros Hr q. destruct (f64_of_int_exact reset ltac:(lia)) as [Hn Hv]. destruct (f64_of_int_exact 1000 ltac:(lia)) as [Hn' Hv'].
  assert (Hpos : (0 < IZR reset)%R) by (apply IZR_lt; lia).
  assert (Hlo : (1 <= IZR reset)%R) by (apply IZR_le; lia). assert (Hhi : (IZR reset < IZR (2 ^ 43))%R) by (apply IZR_lt; lia).
  assert (nearest (fR (f64_of_int reset) / fR (f64_of_int 1000)) q) as [Hq Hnear _ _ _].
  { apply fdiv_nearest; [done|done|rewrite Hv; exact Hpos|rewrite Hv'; lra|]. rewrite Hv, Hv'. split.
    - assert (Hb10 : bpow (-10) = (/ IZR 1024)%R) by exact (bpow_inv 10 ltac:(lia)). apply Rle_trans with (bpow (-10)); [apply bpow_le; lia|]. rewrite Hb10. lra.
    - apply Rlt_le_trans with (bpow 43); [rewrite <- bpow_Z by lia; lra|apply bpow_le; lia]. }
  rewrite Hv, Hv' in Hnear. split; [done|]. rewrite (Rabs_pos_eq (IZR reset / 1000)) in Hnear by lra. done.
Qed.

(** Until the year 2248 the client sleeps until the reset, neither a negative time nor, by
    more than 4 microseconds, too long or too short. *)
Theorem sleeps_until_reset (reset : Z) (now : f64)
    (Hreset : 0 < reset < 2 ^ 43) (Hnow : number now) (Hpos : (0 <= fR now < bpow 34)%R) :
  let s := sleepUntilReset reset now in
  (0 <= fR s /\ Rabs (fR s - Rmax 0 (IZR reset / 1000 - fR now)) <= bpow (-18))%R.
Proof.
  intros s. destruct (quotient_near reset Hreset) as [Hq Hnear]. set (q := fdiv _ _) in *.
  assert (Hhi : (IZR reset < bpow 43)%R) by (rewrite <- bpow_Z by lia; apply IZR_lt; lia).
  assert (Hlo : (0 < IZR reset)%R) by (apply IZR_lt; lia).
  assert (Hb43 : bpow 43 = IZR 8796093022208) by exact (eq_sym (bpow_Z 43 ltac:(lia))).
  assert (Hb34 : bpow 34 = IZR 17179869184) by exact (eq_sym (bpow_Z 34 ltac:(lia))).
  assert (Hb53 : bpow (-53) = (/ IZR 9007199254740992)%R) by exact (bpow_inv 53 ltac:(lia)).
  assert (Hb18 : bpow (-18) = (/ IZR 262144)%R) by exact (bpow_inv 18 ltac:(lia)).
  assert (Hq' : (Rabs (fR q - IZR reset / 1000) <= / 1000000)%R) by (eapply Rle_trans; [exact Hnear|]; rewrite Hb53; lra).
  assert (Hqb : (- / 1000000 <= fR q - IZR reset / 1000 <= / 1000000)%R) by (unfold Rabs in Hq'; destruct (Rcase_abs _) in Hq'; lra).
  assert (Hd : (Rabs (fR q - fR now) <= 17179869185)%R) by (unfold Rabs; destruct (Rcase_abs _); lra).
  destruct (fsub_nearest q now Hq Hnow) as [Hsn Hsd _ _ _].
  { apply Rle_lt_trans with 17179869185%R; [done|]. apply Rlt_le_trans with (bpow 43); [rewrite Hb43; lra|apply bpow_le; lia]. }
  assert (Hsb : (- / 500000 <= fR (fsub q now) - (fR q - fR now) <= / 500000)%R).
  { assert (Habs : (Rabs (fR (fsub q now) - (fR q - fR now)) <= / 500000)%R) by (eapply Rle_trans; [exact Hsd|]; rewrite Hb53; lra).
    unfold Rabs in Habs. destruct (Rcase_abs _) in Habs; lra. }
  unfold s, sleepUntilReset, pyMax. fold q. pose proof (flt_R fzero (fsub q now) (number_zero false) Hsn) as Hcmp.
  change (fR fzero) with 0%R in Hcmp. rewrite Hb18. unfold Rmax.
  destruct (flt fzero (fsub q now)); [split; [lra|]|split; [simpl; lra|change (fR fzero) with 0%R]];
    destruct (Rle_dec 0 (IZR reset / 1000 - fR now)); unfold Rabs; destruct (Rcase_abs _); lra.
Qed.

Lemma sleeps_until_reset_witness :
  (0 <= fR (sleepUntilReset 1700000000500 (f64_of_int 1700000000)))%R.
Proof.
  destruct (f64_of_int_exact 1700000000 ltac:(lia)) as [Hn Hv].
  apply (sleeps_until_reset 1700000000500 (f64_of_int 1700000000)); [lia|exact Hn|]. rewrite Hv. split; [apply IZR_le; lia|].
  rewrite <- bpow_Z by lia. apply IZR_lt. lia.
Defined.
