(* ===== verification/Persist.v ===== *)
(** * Saving and restoring the caches ([Load] and [Store] of [workers.go])

    [Store] streams every worker's cache into the loader's [Save]; [Load] streams the
    loader's items to the workers of their keys.  The workers run concurrently, so what
    [Save] receives is some interleaving of their streams. *)

From stdpp Require Import base gmap strings list.
From Stdlib Require Import ZArith Lia.
From S2P Require Import Prelude Float64 Types GoTime LeakyMath Runtime LRUCache Store Demo TokenBucket TokenSpec LeakyBucket Workers WorkersSpec.

Local Open Scope Z_scope.

Section Persist.
Context `{Hash64} {S : Type}.

Abbreviation P := (WorkerPool LRUCache S).

(** The process's state, seen from the pool. *)
Definition inProcess {A} (m : M Env A) : M P A :=
  zoom po_env (fun e po => mkPool e (po_workers po) (po_store po) (po_hashRingStep po) (po_conf po)) m.

(** [handleLoad], one item. *)
Definition handleLoad (item : Ptr) : M (World LRUCache S) bool := onCache (LRUCache.Add item).

(** The loop of [Load]. [budget] is the number of items that get through before the
    context is done, if it ever is; [why] is then its error. *)
Fixpoint loadItems (budget : option nat) (why : gerror) (items : list Ptr) : M P (result unit) :=
  match budget with
  | Some O => mret (Err why)
  | _ =>
      match items with
      | [] => mret (Ok tt)
      | p :: items =>
          it ← inProcess (load p);
          i ← getWorker (it_Key it);
          onWorker i (handleLoad p);;
          loadItems (pred <$> budget) why items
      end
  end.

Definition Load (budget : option nat) (why : gerror) (loaded : result (list Ptr)) : M P (result unit) :=
  match loaded with
  | Err e => mret (Err (ErrWrap "Error in loader.Load" e))
  | Ok items => loadItems budget why items
  end.

(** [out] is an interleaving of the streams [ins]. *)
Inductive interleaving {A} : list (list A) -> list A -> Prop :=
  | inter_done ins : Forall (fun l => l = []) ins -> interleaving ins []
  | inter_take ins i x l out :
      ins !! i = Some (x :: l) -> interleaving (<[i := l]> ins) out -> interleaving ins (x :: out).

(** What the workers send: [handleStore] of each sends its whole cache, or stops anywhere if
    the context is done meanwhile. *)
Definition streams (ctx : option gerror) (po : P) (ins : list (list Ptr)) : Prop :=
  match ctx with
  | None => ins = Each <$> po_workers po
  | Some _ => Forall2 prefix ins (Each <$> po_workers po)
  end.

Definition saveResult (r : result unit) : result unit :=
  match r with Ok _ => Ok tt | Err e => Err (ErrWrap "while calling p.conf.Loader.Save()" e) end.

(** [Store], with the error its context ends with, if it ever is done, and what the loader's
    [Save] returns: what [Save] is sent, if it is called, and how [Store] ends. A context
    that is done before [Save] is called is an error; one that is done later cuts the streams
    short, and a worker that has not noticed it when the others have stopped sends on a
    closed channel. *)
Inductive Store (ctx : option gerror) (save : list Ptr -> result unit) (po : P)
    : option (list Ptr) -> outcome (result unit) -> Prop :=
  | store_saved ins out : streams ctx po ins -> interleaving ins out -> Store ctx save po (Some out) (Ret (saveResult (save out)))
  | store_done why : ctx = Some why -> Store ctx save po None (Ret (Err why))
  | store_closed why ins out : ctx = Some why -> streams ctx po ins -> interleaving ins out -> ins <> Each <$> po_workers po ->
      Store ctx save po (Some out) (Panic "send on closed channel").

Lemma interleaving_perm {A} (ins : list (list A)) (out : list A) : interleaving ins out -> out ≡ₚ concat ins.
Proof.
  induction 1 as [ins Hall|ins i x l out Hi _ IH].
  - induction Hall as [|l ins -> _ IH]; [done|]. by simpl.
  - rewrite IH. rewrite <- (take_drop_middle ins i (x :: l) Hi) at 2.
    rewrite insert_take_drop by (by eapply lookup_lt_Some).
    rewrite !concat_app. simpl. by rewrite Permutation_middle.
Qed.

(** ** The round trip *)

(** Every item is on the worker of its key. *)
Definition sharded (po : P) : Prop :=
  forall i c k p, po_workers po !! i = Some c -> lru_view c !! k = Some p ->
    workerIndex (po_hashRingStep po) k = i.

Definition lrus_wf (po : P) : Prop := forall i c, po_workers po !! i = Some c -> lru_wf (po_env po) c.

Definition keyOf (e : Env) (p : Ptr) : string :=
  match e_heap e !! p with Some it => it_Key it | None => "" end.

(** The items that belong to worker [i]. *)
Definition shard (e : Env) (step : Z) (i : nat) (items : list Ptr) : list Ptr :=
  filter (fun p => workerIndex step (keyOf e p) = i) items.

Definition viewOf (e : Env) (items : list Ptr) : gmap string Ptr :=
  list_to_map ((fun p => (keyOf e p, p)) <$> items).

Definition hasRoomFor (n : nat) (c : LRUCache) : Prop :=
  lc_cacheSize c = 0 \/ Z.of_nat (length (lc_ll c) + n) <= lc_cacheSize c.

Record loadable (e : Env) (items : list Ptr) (po : P) : Prop := {
  lo_env : e_heap (po_env po) = e_heap e;
  lo_wf : lrus_wf po;
  lo_items : Forall (fun p => is_Some (e_heap e !! p)) items;
  lo_keys : NoDup (keyOf e <$> items);
  lo_new : forall i c p, po_workers po !! i = Some c -> p ∈ items -> lru_view c !! keyOf e p = None;
  lo_range : Forall (fun p => workerIndex (po_hashRingStep po) (keyOf e p) < length (po_workers po))%nat items;
  lo_room : forall i c, po_workers po !! i = Some c ->
    hasRoomFor (length (shard e (po_hashRingStep po) i items)) c
}.

Lemma keyOf_item (e : Env) (p : Ptr) (it : CacheItem) : e_heap e !! p = Some it -> keyOf e p = it_Key it.
Proof. unfold keyOf. by intros ->. Qed.

Lemma keyOf_quiet (e e' : Env) (p : Ptr) : e_heap e' = e_heap e -> keyOf e' p = keyOf e p.
Proof. unfold keyOf. by intros ->. Qed.

Lemma view_None_cache (e : Env) (c : LRUCache) (k : string) : lru_wf e c -> lru_view c !! k = None -> lc_cache c !! k = None.
Proof.
  intros Hw Hv. rewrite lru_view_lookup in Hv. destruct (lc_cache c !! k) as [id|] eqn:E; [|done]. simpl in Hv.
  destruct (wf_cache _ _ (wf_core _ _ Hw) _ _ E) as (q & it & Hq & _). congruence.
Qed.

(** Adding an item under a new key to a cache with room. *)
Lemma add_new (e : Env) (c : LRUCache) (p : Ptr) (it : CacheItem) (n : nat) :
  lru_wf e c -> e_heap e !! p = Some it -> lru_view c !! it_Key it = None -> hasRoomFor (Datatypes.S n) c ->
  exists e' c', LRUCache.Add p (e, c) = Ret (false, (e', c')) /\ env_quiet e e' /\ lru_wf e' c' /\
    lru_view c' = <[it_Key it := p]> (lru_view c) /\ hasRoomFor n c'.
Proof.
  intros Hw Hp Hv Hroom.
  assert (lru_room c) as Hr by (destruct Hroom; [by left|right; lia]).
  destruct (Add_miss e c p it Hw Hp (view_None_cache _ _ _ Hw Hv)) as (e' & c' & Hadd & Hq & Hw' & [(_ & Hview & ->)|Hev]).
  - exists e'. eexists. split; [exact Hadd|]. split; [done|]. split; [done|]. split; [done|].
    unfold hasRoomFor in *. simpl. destruct Hroom; [by left|right; lia].
  - destruct Hev as (? & ? & ? & Hno & _). done.
Qed.

(** One item. *)
Lemma load_step (e : Env) (p : Ptr) (items : list Ptr) (po : P) : loadable e (p :: items) po ->
  let w := workerIndex (po_hashRingStep po) (keyOf e p) in
  exists c e' c', po_workers po !! w = Some c /\
    let po' := mkPool e' (<[w := c']> (po_workers po)) (po_store po) (po_hashRingStep po) (po_conf po) in
    (it ← inProcess (load p); i ← getWorker (it_Key it); onWorker i (handleLoad p)) po = Ret (false, po') /\
    loadable e items po' /\ lru_view c' = <[keyOf e p := p]> (lru_view c).
Proof.
  intros [Henv Hwf Hit Hk Hnew Hrng Hroom] w.
  apply Forall_cons in Hit as [[it Hp] Hit]. apply Forall_cons in Hrng as [Hw Hrng].
  rewrite fmap_cons in Hk. apply NoDup_cons in Hk as [Hkp Hk].
  pose proof (keyOf_item e p it Hp) as Hkey. rewrite <- Henv in Hp.
  destruct (lookup_lt_is_Some_2 _ _ Hw) as [c Hc]. fold w in Hc.
  assert (hasRoomFor (Datatypes.S (length (shard e (po_hashRingStep po) w items))) c) as Hr.
  { specialize (Hroom w c Hc). unfold shard in Hroom. rewrite filter_cons_True in Hroom by done. exact Hroom. }
  destruct (add_new (po_env po) c p it (length (shard e (po_hashRingStep po) w items)) (Hwf w c Hc) Hp) as (e' & c' & Hadd & Hq & Hw' & Hview & Hr'); [|exact Hr|].
  { rewrite <- Hkey. apply (Hnew w c p Hc). apply elem_of_cons. by left. }
  rewrite <- Hkey in Hview. exists c, e', c'. split; [done|]. split; [|split; [|done]].
  - rewrite (bind_ret_run _ _ _ po it) by (unfold inProcess, zoom, load; rewrite Hp; by destruct po).
    rewrite <- Hkey, (bind_ret_run _ _ _ po w) by (unfold getWorker; fold w; by rewrite decide_True).
    unfold onWorker. rewrite Hc. unfold handleLoad, onCache, zoom. simpl. by rewrite Hadd.
  - constructor; simpl; [by rewrite (eq_heap _ _ Hq)| |done|done| |by rewrite length_insert|].
    + intros i ci Hi. simpl in *. destruct (decide (w = i)) as [<-|Hne].
      * rewrite list_lookup_insert_eq in Hi by done. by injection Hi as <-.
      * rewrite list_lookup_insert_ne in Hi by done. apply (lru_wf_env (po_env po)); [by eapply Hwf|auto with env].
    + intros i ci q Hi Hq'. destruct (decide (w = i)) as [<-|Hne].
      * rewrite list_lookup_insert_eq in Hi by done. injection Hi as <-. rewrite Hview, lookup_insert_ne.
        -- apply (Hnew w c q Hc). apply elem_of_cons. by right.
        -- intros He. apply Hkp. rewrite He. by apply list_elem_of_fmap_2.
      * rewrite list_lookup_insert_ne in Hi by done. apply (Hnew i ci q Hi). apply elem_of_cons. by right.
    + intros i ci Hi. destruct (decide (w = i)) as [<-|Hne].
      * rewrite list_lookup_insert_eq in Hi by done. by injection Hi as <-.
      * rewrite list_lookup_insert_ne in Hi by done. specialize (Hroom i ci Hi). unfold shard in Hroom.
        by rewrite filter_cons_False in Hroom by done.
Qed.

Lemma bind_assoc3 {St A B C D} (m : M St A) (f : A -> M St B) (g : A -> B -> M St C) (h : M St D) (s : St) :
  (a ← m; b ← f a; g a b;; h) s = ((a ← m; b ← f a; g a b);; h) s.
Proof. unfold mbind, M_bind. destruct (m s) as [[a s1]|]; [|done]. by destruct (f a s1) as [[b s2]|]. Qed.

Lemma loadItems_views (e : Env) (why : gerror) (items : list Ptr) (po : P) : loadable e items po ->
  exists po', loadItems None why items po = Ret (Ok tt, po') /\
    forall i c, po_workers po !! i = Some c -> exists c', po_workers po' !! i = Some c' /\
      lru_view c' = viewOf e (shard e (po_hashRingStep po) i items) ∪ lru_view c.
Proof.
  revert po. induction items as [|p items IH]; intros po Hlo; cbn [loadItems].
  { exists po. split; [done|]. intros i c Hi. exists c. split; [done|].
    change (lru_view c = ∅ ∪ lru_view c). by rewrite (left_id_L ∅ (∪)). }
  destruct (load_step e p items po Hlo) as (c & e' & c' & Hc & Hrun & Hlo' & Hview).
  set (w := workerIndex (po_hashRingStep po) (keyOf e p)) in *. set (po1 := mkPool e' _ _ _ _) in *.
  destruct (IH po1 Hlo') as (po' & Hr & Hviews). exists po'. split.
  { rewrite bind_assoc3. by rewrite (bind_ret_run _ _ _ _ _ Hrun). }
  intros i ci Hi. unfold shard. destruct (decide (w = i)) as [<-|Hne].
  - rewrite Hc in Hi. injection Hi as <-. destruct (Hviews w c') as (c2 & Hc2 & Hv).
    { simpl. apply list_lookup_insert_eq. by eapply lookup_lt_Some. }
    exists c2. split; [done|]. rewrite Hv, Hview, filter_cons_True by done. unfold viewOf. rewrite fmap_cons. simpl.
    rewrite <- insert_union_l, <- insert_union_r; [done|].
    apply not_elem_of_list_to_map_1. rewrite <- list_fmap_compose. intros Hin.
    apply list_elem_of_fmap in Hin as (q & Hkq & Hq). apply list_elem_of_filter in Hq as [_ Hq]. simpl in Hkq.
    destruct Hlo as [_ _ _ Hk _ _ _]. rewrite fmap_cons in Hk. apply NoDup_cons in Hk as [Hk _].
    apply Hk. rewrite Hkq. by apply list_elem_of_fmap_2.
  - destruct (Hviews i ci) as (c2 & Hc2 & Hv). { simpl. by rewrite list_lookup_insert_ne. }
    exists c2. split; [done|]. by rewrite Hv, filter_cons_False.
Qed.

(** The items of a pool. *)
Definition stored (po : P) : list Ptr := concat (Each <$> po_workers po).

Lemma elem_of_stored (po : P) (p : Ptr) :
  p ∈ stored po <-> exists i c k, po_workers po !! i = Some c /\ lru_view c !! k = Some p.
Proof.
  unfold stored. rewrite list_elem_of_In, in_concat. split.
  - intros (l & Hl%list_elem_of_In & Hp%list_elem_of_In). apply list_elem_of_fmap in Hl as (c & -> & Hc).
    apply list_elem_of_lookup in Hc as (i & Hi). rewrite Each_view in Hp.
    apply list_elem_of_fmap in Hp as ([k q] & -> & Hk%elem_of_map_to_list). by exists i, c, k.
  - intros (i & c & k & Hi & Hk). exists (Each c).
    split; apply list_elem_of_In; [by apply list_elem_of_fmap_2, list_elem_of_lookup_2 with i|].
    rewrite Each_view. apply list_elem_of_fmap. exists (k, p). split; [done|by apply elem_of_map_to_list].
Qed.

Lemma view_key (e : Env) (c : LRUCache) (k : string) (p : Ptr) : lru_wf e c -> lru_view c !! k = Some p ->
  keyOf e p = k /\ is_Some (e_heap e !! p).
Proof.
  intros Hw Hv. rewrite lru_view_lookup in Hv. destruct (lc_cache c !! k) as [id|] eqn:E; [|done]. simpl in Hv.
  destruct (wf_cache _ _ (wf_core _ _ Hw) _ _ E) as (q & it & Hq & Hit & Hk). assert (q = p) as -> by congruence.
  split; [by rewrite (keyOf_item e p it)|by eexists].
Qed.

Lemma view_keys (e : Env) (c : LRUCache) : lru_wf e c -> keyOf e <$> Each c ≡ₚ (map_to_list (lru_view c)).*1.
Proof.
  intros Hw. rewrite Each_view.
  enough (keyOf e <$> (map_to_list (lru_view c)).*2 = (map_to_list (lru_view c)).*1) as -> by done.
  rewrite <- list_fmap_compose. apply list_fmap_ext. intros i [k p] Hi. simpl. apply list_elem_of_lookup_2, elem_of_map_to_list in Hi.
  by apply (view_key e c k p Hw).
Qed.

(** On a sharded pool no key occurs twice. *)
Lemma stored_keys (po : P) : lrus_wf po -> sharded po -> NoDup (keyOf (po_env po) <$> stored po).
Proof.
  intros Hwf Hsh. unfold stored.
  assert (forall ws n, (forall i c, ws !! i = Some c -> po_workers po !! (n + i)%nat = Some c) ->
    NoDup (keyOf (po_env po) <$> concat (Each <$> ws)) /\
    forall k, k ∈ keyOf (po_env po) <$> concat (Each <$> ws) -> (n <= workerIndex (po_hashRingStep po) k)%nat) as Hgen.
  { induction ws as [|c ws IH]; intros n Hin; [split; [constructor|by intros k ?%not_elem_of_nil]|].
    rewrite fmap_cons. cbn [concat]. rewrite fmap_app.
    assert (po_workers po !! n = Some c) as Hc by (rewrite <- (Nat.add_0_r n); by apply Hin).
    destruct (IH (Datatypes.S n)) as [Hnd Hge].
    { intros i c' Hi. replace (Datatypes.S n + i)%nat with (n + Datatypes.S i)%nat by lia. by apply Hin. }
    assert (forall k, k ∈ keyOf (po_env po) <$> Each c -> workerIndex (po_hashRingStep po) k = n) as Hn.
    { intros k. rewrite (view_keys _ _ (Hwf n c Hc)). intros ([k' p] & -> & Hp%elem_of_map_to_list)%list_elem_of_fmap.
      by apply (Hsh n c k' p). }
    split.
    - apply NoDup_app. split; [rewrite (view_keys _ _ (Hwf n c Hc)); apply NoDup_fst_map_to_list|]. split; [|done].
      intros k Hk Hk'. apply Hn in Hk. apply Hge in Hk'. lia.
    - intros k [Hk|Hk]%elem_of_app; [apply Hn in Hk; lia|apply Hge in Hk; lia]. }
  by apply (Hgen (po_workers po) 0%nat).
Qed.

Lemma shard_keys (po : P) (i : nat) (out : list Ptr) : lrus_wf po -> sharded po -> out ≡ₚ stored po ->
  NoDup (keyOf (po_env po) <$> shard (po_env po) (po_hashRingStep po) i out).
Proof.
  intros Hwf Hsh Hout. eapply sublist_NoDup; [|apply fmap_sublist, sublist_filter].
  rewrite Hout. by apply stored_keys.
Qed.

(** The part of the items that belongs to a worker is its cache. *)
Lemma shard_view (po : P) (i : nat) (c : LRUCache) (out : list Ptr) :
  lrus_wf po -> sharded po -> out ≡ₚ stored po -> po_workers po !! i = Some c ->
  viewOf (po_env po) (shard (po_env po) (po_hashRingStep po) i out) = lru_view c.
Proof.
  intros Hwf Hsh Hout Hi. apply map_eq. intros k. apply option_eq. intros p.
  pose proof (shard_keys po i out Hwf Hsh Hout) as Hnd.
  unfold viewOf. rewrite <- elem_of_list_to_map by (by rewrite <- list_fmap_compose). rewrite list_elem_of_fmap. split.
  - intros (q & [= -> ->] & Hq). apply list_elem_of_filter in Hq as [Hidx Hq]. rewrite Hout in Hq.
    apply elem_of_stored in Hq as (j & cj & k' & Hj & Hk').
    destruct (view_key _ _ _ _ (Hwf j cj Hj) Hk') as [<- _]. rewrite (Hsh _ _ _ _ Hj Hk') in Hidx. congruence.
  - intros Hk. exists p. destruct (view_key _ _ _ _ (Hwf i c Hi) Hk) as [<- _]. split; [done|].
    apply list_elem_of_filter. split; [by apply (Hsh i c _ p)|]. rewrite Hout. apply elem_of_stored.
    by exists i, c, (keyOf (po_env po) p).
Qed.

(** With a context that is never done, [Store] sends every item, and fails only as [Save]
    does. *)
Lemma Store_background (save : list Ptr -> result unit) (po : P) (sent : option (list Ptr)) (r : outcome (result unit)) :
  Store None save po sent r -> exists out, sent = Some out /\ r = Ret (saveResult (save out)) /\ out ≡ₚ stored po.
Proof.
  intros Hs. inversion Hs as [ins out Hi Ho|why|why ins out]; [|done..]. exists out. split; [done|]. split; [done|].
  cbn in Hi. subst. by apply interleaving_perm in Ho.
Qed.

(** The pool of a restarted process: the same configuration, empty caches of [n] items. *)
Definition restarted (n : Z) (po : P) : P :=
  mkPool (po_env po) ((fun _ => NewLRUCache n) <$> po_workers po) (po_store po) (po_hashRingStep po) (po_conf po).

Lemma restarted_loadable (n : Z) (po : P) (out : list Ptr) : 0 < n -> lrus_wf po -> sharded po -> out ≡ₚ stored po ->
  (forall i c, po_workers po !! i = Some c -> Z.of_nat (size (lru_view c)) <= n) ->
  loadable (po_env po) out (restarted n po).
Proof.
  intros Hn Hwf Hsh Hout Hroom. constructor; [done| | | | | |]; simpl.
  - intros i c Hi. simpl in Hi. rewrite list_lookup_fmap in Hi. destruct (po_workers po !! i); [|done].
    injection Hi as <-. apply NewLRUCache_wf. lia.
  - rewrite Hout. apply Forall_forall. intros p (i & c & k & Hi & Hk)%elem_of_stored.
    by apply (view_key _ c k p (Hwf i c Hi)).
  - rewrite Hout. by apply stored_keys.
  - intros i c p Hi _. rewrite list_lookup_fmap in Hi. destruct (po_workers po !! i); [|done]. by injection Hi as <-.
  - rewrite Hout. apply Forall_forall. intros p (i & c & k & Hi & Hk)%elem_of_stored. rewrite length_fmap.
    destruct (view_key _ _ _ _ (Hwf i c Hi) Hk) as [-> _]. rewrite (Hsh _ _ _ _ Hi Hk). by eapply lookup_lt_Some.
  - intros i c0 Hi. rewrite list_lookup_fmap in Hi. destruct (po_workers po !! i) as [c|] eqn:Hc; [|done].
    injection Hi as <-. right. simpl. unfold SetDefaultZ. replace (n =? 0) with false by lia.
    specialize (Hroom i c Hc). rewrite <- (shard_view po i c out Hwf Hsh Hout Hc) in Hroom. unfold viewOf in Hroom.
    rewrite map_size_list_to_map, length_fmap in Hroom; [done|].
    rewrite <- list_fmap_compose. by apply shard_keys.
Qed.

(** C34: What is saved at shutdown is restored at start: what [Store] sends to the loader's
    [Save], whatever the interleaving of the workers, put by [Load] into the empty caches of
    a process with the same workers gives every worker the items it had, if its cache is
    large enough. Neither context is done meanwhile. *)
Theorem store_load_roundtrip (save : list Ptr -> result unit) (po : P) (out : list Ptr) (r : outcome (result unit)) (n : Z)
    (why : gerror) (Hwf : lrus_wf po) (Hsh : sharded po) (Hstore : Store None save po (Some out) r) (Hn : 0 < n)
    (Hroom : forall i c, po_workers po !! i = Some c -> Z.of_nat (size (lru_view c)) <= n) :
  exists po', Load None why (Ok out) (restarted n po) = Ret (Ok tt, po') /\
    forall i c, po_workers po !! i = Some c ->
      exists c', po_workers po' !! i = Some c' /\ lru_view c' = lru_view c.
Proof.
  apply Store_background in Hstore as (x & [= <-] & _ & Hstore).
  destruct (loadItems_views (po_env po) why out _ (restarted_loadable n po out Hn Hwf Hsh Hstore Hroom))
    as (po' & Hr & Hviews).
  exists po'. split; [done|]. intros i c Hi. destruct (Hviews i (NewLRUCache n)) as (c' & Hc' & Hv).
  { simpl. by rewrite list_lookup_fmap, Hi. }
  exists c'. split; [done|]. rewrite Hv. cbn [po_hashRingStep restarted]. rewrite (shard_view po i c out Hwf Hsh Hstore Hi).
  change (lru_view (NewLRUCache n)) with (∅ : gmap string Ptr). by rewrite (right_id_L ∅ (∪)).
Qed.
End Persist.

(** One worker, with the bucket of [tokenWorld]. *)
Definition onePool : WorkerPool LRUCache MockStore :=
  mkPool (w_env tokenWorld) [w_cache tokenWorld] None (2 ^ 63) (mkPoolConf 1 10 0).

Lemma store_load_roundtrip_witness : exists out po', Store None (fun _ => Ok tt) onePool (Some out) (Ret (Ok tt)) /\ length out = 1%nat /\
  Load None Canceled (Ok out) (restarted 10 onePool) = Ret (Ok tt, po') /\
  exists c', po_workers po' !! 0%nat = Some c' /\ lru_view c' !! demoKey = Some 0%nat.
Proof.
  destruct (tokenWorld_live (demoReq TOKEN_BUCKET 4 2000) eq_refl) as ([_ Hw _] & [Hv _] & _).
  assert (Store None (fun _ => Ok tt) onePool (Some [0%nat]) (Ret (Ok tt))) as Hs.
  { apply (store_saved None (fun _ => Ok tt) onePool _ [0%nat] eq_refl). apply (inter_take _ 0 0%nat []); [vm_compute; reflexivity|]. apply inter_done. vm_compute. by repeat constructor. }
  destruct (store_load_roundtrip (fun _ => Ok tt) onePool [0%nat] (Ret (Ok tt)) 10 Canceled) as (po' & Hr & Hviews); [| |exact Hs|done| |].
  - intros [|i] c Hi; [|done]. by injection Hi as <-.
  - intros [|i] c k p Hi _; [|done]. unfold workerIndex.
    pose proof (ComputeHash63_range k) as Hh. by rewrite Z.div_small.
  - intros [|i] c Hi; [|done]. injection Hi as <-. vm_compute. discriminate.
  - destruct (Hviews 0%nat (w_cache tokenWorld) eq_refl) as (c' & Hc' & Hvc).
    exists [0%nat], po'. split; [exact Hs|]. split; [done|]. split; [exact Hr|]. exists c'. split; [done|].
    rewrite Hvc. exact Hv.
Defined.
