(* ===== verification/MD5.v ===== *)
(** * MD5 ([crypto/md5] of the Go standard library)

    The digest [ReplicatedConsistentHash] derives ring positions from, as RFC 1321
    defines it, and its hexadecimal form [fmt.Sprintf("%x", ...)]. *)

From stdpp Require Import base strings list.
From Stdlib Require Import ZArith Lia.
From S2P Require Import Prelude.

Local Open Scope Z_scope.

(** 32-bit words *)

Definition w32 (z : Z) : Z := z mod 2 ^ 32.
Definition not32 (z : Z) : Z := Z.lxor z (2 ^ 32 - 1).
Definition rotl (x n : Z) : Z := Z.lor (w32 (Z.shiftl x n)) (Z.shiftr x (32 - n)).

Definition md5_K : list Z := [
  0xd76aa478; 0xe8c7b756; 0x242070db; 0xc1bdceee; 0xf57c0faf; 0x4787c62a; 0xa8304613; 0xfd469501;
  0x698098d8; 0x8b44f7af; 0xffff5bb1; 0x895cd7be; 0x6b901122; 0xfd987193; 0xa679438e; 0x49b40821;
  0xf61e2562; 0xc040b340; 0x265e5a51; 0xe9b6c7aa; 0xd62f105d; 0x02441453; 0xd8a1e681; 0xe7d3fbc8;
  0x21e1cde6; 0xc33707d6; 0xf4d50d87; 0x455a14ed; 0xa9e3e905; 0xfcefa3f8; 0x676f02d9; 0x8d2a4c8a;
  0xfffa3942; 0x8771f681; 0x6d9d6122; 0xfde5380c; 0xa4beea44; 0x4bdecfa9; 0xf6bb4b60; 0xbebfbc70;
  0x289b7ec6; 0xeaa127fa; 0xd4ef3085; 0x04881d05; 0xd9d4d039; 0xe6db99e5; 0x1fa27cf8; 0xc4ac5665;
  0xf4292244; 0x432aff97; 0xab9423a7; 0xfc93a039; 0x655b59c3; 0x8f0ccc92; 0xffeff47d; 0x85845dd1;
  0x6fa87e4f; 0xfe2ce6e0; 0xa3014314; 0x4e0811a1; 0xf7537e82; 0xbd3af235; 0x2ad7d2bb; 0xeb86d391].

(** Shift amounts and message words of step [i]. *)
Definition md5_s (i : nat) : Z :=
  let row := match (i / 16)%nat with
             | 0%nat => [7; 12; 17; 22]
             | 1%nat => [5; 9; 14; 20]
             | 2%nat => [4; 11; 16; 23]
             | _ => [6; 10; 15; 21]
             end in
  nth (i mod 4) row 0.

Definition md5_g (i : nat) : nat :=
  match (i / 16)%nat with
  | 0%nat => i
  | 1%nat => (5 * i + 1) mod 16
  | 2%nat => (3 * i + 5) mod 16
  | _ => (7 * i) mod 16
  end.

Definition md5_f (i : nat) (b c d : Z) : Z :=
  match (i / 16)%nat with
  | 0%nat => Z.lor (Z.land b c) (Z.land (not32 b) d)
  | 1%nat => Z.lor (Z.land d b) (Z.land (not32 d) c)
  | 2%nat => Z.lxor (Z.lxor b c) d
  | _ => Z.lxor c (Z.lor b (not32 d))
  end.

(** Digest state. *)
Definition digest : Type := Z * Z * Z * Z.

Definition md5_step (m : list Z) (st : digest) (i : nat) : digest :=
  let '(a, b, c, d) := st in
  let f := w32 (md5_f i b c d + a + nth i md5_K 0 + nth (md5_g i) m 0) in
  (d, w32 (b + rotl f (md5_s i)), b, c).

Definition md5_block (st : digest) (m : list Z) : digest :=
  let '(a0, b0, c0, d0) := st in
  let '(a, b, c, d) := fold_left (md5_step m) (seq 0 64) st in
  (w32 (a0 + a), w32 (b0 + b), w32 (c0 + c), w32 (d0 + d)).

(** Bytes *)

Fixpoint le_bytes (n : nat) (z : Z) : list Z :=
  match n with
  | O => []
  | S n => z mod 256 :: le_bytes n (z / 256)
  end.

Fixpoint le_word (bs : list Z) : Z :=
  match bs with
  | [] => 0
  | b :: bs => b + 256 * le_word bs
  end.

(** Cutting into chunks of [n], [fuel] at most. *)
Fixpoint chunks {A} (fuel n : nat) (l : list A) : list (list A) :=
  match fuel, l with
  | S fuel, _ :: _ => take n l :: chunks fuel n (drop n l)
  | _, _ => []
  end.

Definition string_bytes (s : string) : list Z :=
  (fun a => Z.of_nat (Ascii.nat_of_ascii a)) <$> String.list_ascii_of_string s.

(** Message, a one bit, zeros up to 56 modulo 64 bytes, and the length in bits. *)
Definition md5_pad (bs : list Z) : list Z :=
  let zeros := (56 - (Z.of_nat (length bs) + 1)) mod 64 in
  bs ++ [128] ++ replicate (Z.to_nat zeros) 0 ++ le_bytes 8 (8 * Z.of_nat (length bs)).

Definition md5_init : digest := (0x67452301, 0xefcdab89, 0x98badcfe, 0x10325476).

Definition md5_Sum (bs : list Z) : list Z :=
  let padded := md5_pad bs in
  let words block := le_word <$> chunks 16 4 block in
  let '(a, b, c, d) :=
    fold_left (fun st block => md5_block st (words block)) (chunks (length padded) 64 padded) md5_init in
  le_bytes 4 a ++ le_bytes 4 b ++ le_bytes 4 c ++ le_bytes 4 d.

(** [%x] of a byte array: two lower case digits for each byte. *)
Definition hexDigit (n : Z) : string :=
  default "" (["0"; "1"; "2"; "3"; "4"; "5"; "6"; "7"; "8"; "9"; "a"; "b"; "c"; "d"; "e"; "f"] !! Z.to_nat n).

Definition hex (bs : list Z) : string :=
  fold_right (fun b acc => hexDigit (b / 16) +:+ hexDigit (b mod 16) +:+ acc) "" bs.

Definition md5_hex (s : string) : string := hex (md5_Sum (string_bytes s)).

(** The test vectors of the RFC. *)
Example md5_rfc :
  md5_hex "" = "d41d8cd98f00b204e9800998ecf8427e" /\
  md5_hex "message digest" = "f96b697d7cb7938d525a2f31aaf161d0" /\
  md5_hex "12345678901234567890123456789012345678901234567890123456789012345678901234567890" =
    "57edf4a22be3c955ac49da2e2107b67a".
Proof. vm_compute. done. Qed.

Lemma le_bytes_length (n : nat) (z : Z) : length (le_bytes n z) = n.
Proof. revert z. induction n; intros z; simpl; auto. Qed.

(** A digest is sixteen bytes. *)
Lemma md5_Sum_length (bs : list Z) : length (md5_Sum bs) = 16%nat.
Proof.
  unfold md5_Sum. destruct (fold_left _ _ _) as [[[a b] c] d]. by rewrite !length_app, !le_bytes_length.
Qed.
