(* ===== verification/ReplicatedHash.v ===== *)
(** * The consistent hash ring ([replicated_hash.go], [region_picker.go])

    Every peer is put on a ring of 64-bit hashes at [replicas] points; a key belongs
    to the peer of the first point at or after its own hash, found by binary search.
    The file proves the search, the ring's invariant, and what the cluster relies on:
    members that know the same peers agree on the owner of every key, whatever the
    order in which they learned of them, and a new peer only takes keys over. *)

From stdpp Require Import base gmap strings list sorting pretty.
From Stdlib Require Import ZArith Lia.
From S2P Require Import Prelude MD5.

Local Open Scope Z_scope.

(** ** Package sort *)

(** [sort.Slice], which sorts in place and need not be stable. *)
Class SortSlice : Type := {
  sortSlice : forall {A}, (A -> A -> bool) -> list A -> list A;
  sortSlice_perm : forall {A} (less : A -> A -> bool) (l : list A), sortSlice less l ≡ₚ l;
  sortSlice_sorted : forall {A} (key : A -> Z) (l : list A),
    Sorted (fun a b => key a <= key b) (sortSlice (fun a b => key a <? key b) l)
}.

Lemma Sorted_weaken {A} (R R' : relation A) (l : list A) :
  (forall a b, R a b -> R' a b) -> Sorted R l -> Sorted R' l.
Proof.
  intros HR. induction 1 as [|a l Hs IH Hhd]; constructor; [done|].
  destruct Hhd; constructor. by apply HR.
Qed.

(** Merge sort is such a function. *)
#[global] Instance notLess_dec {A} (less : A -> A -> bool) : RelDecision (fun a b => less b a = false).
Proof. intros a b. apply _. Defined.

Definition mergeSort : SortSlice.
Proof.
  refine {| sortSlice := fun A less l => merge_sort (fun a b => less b a = false) l |}.
  - intros A less l. apply merge_sort_Permutation.
  - intros A key l. set (R := fun a b : A => (key b <? key a) = false).
    assert (Total R) as HT by (intros a b; unfold R; rewrite !Z.ltb_ge; lia).
    pose proof (Sorted_merge_sort R l) as Hs.
    eapply Sorted_weaken; [|exact Hs]. intros a b Hab. unfold R in Hab. by apply Z.ltb_ge in Hab.
Defined.

(** [sort.Search(n, f)]: the loop of the standard library. *)
Fixpoint searchLoop (fuel : nat) (f : nat -> bool) (i j : nat) : nat :=
  match fuel with
  | O => i
  | S fuel =>
      if (i <? j)%nat then
        let h := ((i + j) / 2)%nat in
        if f h then searchLoop fuel f i h else searchLoop fuel f (S h) j
      else i
  end.

Definition Search (n : nat) (f : nat -> bool) : nat := searchLoop n f 0 n.

(** ** Peers and the ring *)

Record PeerInfo : Type := mkPeerInfo {
  pi_DataCenter : string;
  pi_HTTPAddress : string;
  pi_GRPCAddress : string;
  pi_IsOwner : bool
}.

#[global] Instance PeerInfo_eq_dec : EqDecision PeerInfo.
Proof. solve_decision. Defined.

(** [strconv.Itoa] *)
Definition Itoa (n : nat) : string := pretty n.

Section Ring.
(** Peer clients, which the ring holds by pointer, and their information. *)
Context {Peer : Type} (Info : Peer -> PeerInfo) `{SortSlice}.

Record ReplicatedConsistentHash : Type := mkRing {
  ch_hashFunc : string -> Z;
  ch_peerKeys : list (Z * Peer);
  ch_peers : gmap string Peer;
  ch_replicas : Z
}.

Definition NewReplicatedConsistentHash (fn : string -> Z) (replicas : Z) : ReplicatedConsistentHash :=
  mkRing fn [] ∅ replicas.

Definition New (ch : ReplicatedConsistentHash) : ReplicatedConsistentHash :=
  mkRing (ch_hashFunc ch) [] ∅ (ch_replicas ch).

Definition Peers (ch : ReplicatedConsistentHash) : list Peer := (map_to_list (ch_peers ch)).*2.

(** The points of a peer: [hashFunc(strconv.Itoa(i) + key)]. *)
Definition points (fn : string -> Z) (replicas : Z) (peer : Peer) : list (Z * Peer) :=
  let key := md5_hex (pi_GRPCAddress (Info peer)) in
  (fun i => (fn (Itoa i +:+ key), peer)) <$> seq 0 (Z.to_nat replicas).

Definition Add (peer : Peer) (ch : ReplicatedConsistentHash) : ReplicatedConsistentHash :=
  mkRing (ch_hashFunc ch)
    (sortSlice (fun a b => a.1 <? b.1) (ch_peerKeys ch ++ points (ch_hashFunc ch) (ch_replicas ch) peer))
    (<[pi_GRPCAddress (Info peer) := peer]> (ch_peers ch))
    (ch_replicas ch).

Definition Size (ch : ReplicatedConsistentHash) : nat := size (ch_peers ch).

Definition GetByPeerInfo (info : PeerInfo) (ch : ReplicatedConsistentHash) : option Peer :=
  ch_peers ch !! pi_GRPCAddress info.

Definition keyAt (ch : ReplicatedConsistentHash) (i : nat) : Z :=
  default 0 (fst <$> ch_peerKeys ch !! i).

(** [Get]: the peer a key is assigned to. *)
Definition Get (key : string) (ch : ReplicatedConsistentHash) : outcome (result Peer) :=
  if Nat.eqb (Size ch) 0 then Ret (Err (ErrNew "unable to pick a peer; pool is empty"))
  else
    let hash := ch_hashFunc ch key in
    let n := length (ch_peerKeys ch) in
    let idx := Search n (fun i => hash <=? keyAt ch i) in
    let idx := if Nat.eqb idx n then 0%nat else idx in
    match ch_peerKeys ch !! idx with
    | Some hp => Ret (Ok hp.2)
    | None => Panic "index out of range"
    end.
End Ring.

Arguments ReplicatedConsistentHash : clear implicits.

(** ** Binary search *)

Lemma searchLoop_spec (f : nat -> bool) (n fuel i j : nat) :
  (forall a b, a <= b -> b < n -> f a = true -> f b = true)%nat ->
  (j - i <= fuel)%nat -> (i <= j <= n)%nat ->
  (forall a, a < i -> f a = false)%nat -> (forall a, j <= a -> a < n -> f a = true)%nat ->
  let k := searchLoop fuel f i j in
  (k <= n)%nat /\ (forall a, a < k -> f a = false)%nat /\ (forall a, k <= a -> a < n -> f a = true)%nat.
Proof.
  intros Hmono. revert i j. induction fuel as [|fuel IH]; intros i j Hfuel Hij Hlo Hhi; cbn [searchLoop].
  - assert (i = j) as -> by lia. split; [lia|done].
  - destruct (Nat.ltb_spec i j) as [Hlt|Hge]; [|assert (i = j) as -> by lia; split; [lia|done]].
    set (h := ((i + j) / 2)%nat).
    assert (i <= h < j)%nat as Hh.
    { unfold h. split; [apply Nat.div_le_lower_bound; lia|apply Nat.Div0.div_lt_upper_bound; lia]. }
    destruct (f h) eqn:Hf.
    + apply IH; [lia|lia|done|]. intros a Ha Hn. destruct (decide (j <= a)%nat); [by apply Hhi|].
      by apply (Hmono h).
    + apply IH; [lia|lia| |done]. intros a Ha. destruct (decide (a < i)%nat); [by apply Hlo|].
      destruct (f a) eqn:Hfa; [|done]. rewrite (Hmono a h) in Hf by (lia || done). done.
Qed.

(** [Search] finds the first index at which a monotone predicate holds, in no more
    steps than there are indices. *)
Lemma Search_spec (n : nat) (f : nat -> bool) :
  (forall a b, a <= b -> b < n -> f a = true -> f b = true)%nat ->
  (Search n f <= n)%nat /\ (forall a, a < Search n f -> f a = false)%nat /\
  (forall a, Search n f <= a -> a < n -> f a = true)%nat.
Proof. intros Hmono. apply searchLoop_spec; [done|lia|lia|lia|lia]. Qed.

(** ** The ring *)

Section RingFacts.
Context {Peer : Type} (Info : Peer -> PeerInfo) `{SortSlice}.

Abbreviation Ring := (ReplicatedConsistentHash Peer).

(** The points of the ring are in order, and there are some when there are peers. *)
Record ring_wf (ch : Ring) : Prop := {
  rw_sorted : Sorted (fun a b : Z * Peer => a.1 <= b.1) (ch_peerKeys ch);
  rw_some : ch_peers ch <> ∅ -> ch_peerKeys ch <> []
}.

(** The owner of hash [h]: the first point at or after it, or the first of all. *)
Definition owns (keys : list (Z * Peer)) (h : Z) (hp : Z * Peer) : Prop :=
  hp ∈ keys /\
  ((h <= hp.1 /\ forall x, x ∈ keys -> h <= x.1 -> hp.1 <= x.1) \/
   ((forall x, x ∈ keys -> x.1 < h) /\ forall x, x ∈ keys -> hp.1 <= x.1)).

Lemma new_ring_wf (fn : string -> Z) (replicas : Z) : ring_wf (NewReplicatedConsistentHash fn replicas).
Proof. constructor; [constructor|done]. Qed.

Lemma points_length (fn : string -> Z) (replicas : Z) (p : Peer) :
  length (points Info fn replicas p) = Z.to_nat replicas.
Proof. unfold points. by rewrite length_fmap, length_seq. Qed.

Lemma Add_keys (p : Peer) (ch : Ring) :
  ch_peerKeys (Add Info p ch) ≡ₚ ch_peerKeys ch ++ points Info (ch_hashFunc ch) (ch_replicas ch) p.
Proof. apply sortSlice_perm. Qed.

Lemma Add_wf (p : Peer) (ch : Ring) : 0 < ch_replicas ch -> ring_wf (Add Info p ch).
Proof.
  intros Hr. constructor; [apply (sortSlice_sorted (fun a : Z * Peer => a.1))|].
  intros _ Hnil. pose proof (Permutation_length (Add_keys p ch)) as Hl.
  rewrite Hnil, length_app, points_length in Hl. simpl in Hl. lia.
Qed.

Lemma sorted_lookup (l : list (Z * Peer)) (i j : nat) (x y : Z * Peer) :
  Sorted (fun a b : Z * Peer => a.1 <= b.1) l -> l !! i = Some x -> l !! j = Some y -> (i <= j)%nat -> x.1 <= y.1.
Proof.
  intros Hs. assert (StronglySorted (fun a b : Z * Peer => a.1 <= b.1) l) as Hss.
  { apply Sorted_StronglySorted; [intros a b c; lia|done]. }
  clear Hs. revert i j. induction Hss as [|a l Hss IH Hall]; intros i j Hi Hj Hij; [done|].
  destruct i as [|i], j as [|j]; simpl in *; [simplify_eq; lia| |lia|by apply (IH i j); [..|lia]].
  simplify_eq. rewrite Forall_lookup in Hall. by apply (Hall j).
Qed.

(** The index the code computes is the owner's. *)
Lemma Get_owns (ch : Ring) (key : string) : ring_wf ch -> ch_peers ch <> ∅ ->
  exists hp, Get key ch = Ret (Ok hp.2) /\ owns (ch_peerKeys ch) (ch_hashFunc ch key) hp.
Proof.
  intros [Hs Hsome] Hne. specialize (Hsome Hne). unfold Get, Size.
  destruct (Nat.eqb_spec (size (ch_peers ch)) 0) as [Hz|_]; [by apply map_size_empty_inv in Hz|].
  set (l := ch_peerKeys ch) in *. set (h := ch_hashFunc ch key). set (n := length l).
  assert (0 < n)%nat as Hn by (unfold n; destruct l; [done|simpl; lia]).
  destruct (Search_spec n (fun i => h <=? keyAt ch i)) as (Hle & Hlo & Hhi).
  { intros a b Hab Hb. rewrite !Z.leb_le.
    destruct (lookup_lt_is_Some_2 l a ltac:(unfold n in *; lia)) as [x Hx].
    destruct (lookup_lt_is_Some_2 l b ltac:(unfold n in *; lia)) as [y Hy].
    unfold keyAt. fold l. rewrite Hx, Hy. simpl. pose proof (sorted_lookup l a b x y Hs Hx Hy Hab). lia. }
  set (i := Search n _) in *.
  assert (forall x, x ∈ l -> exists a, (a < n)%nat /\ l !! a = Some x /\ keyAt ch a = x.1) as Hin.
  { intros x (a & Ha)%list_elem_of_lookup_1. exists a. split; [by eapply lookup_lt_Some|]. split; [done|].
    unfold keyAt. fold l. by rewrite Ha. }
  destruct (Nat.eqb_spec i n) as [Hi|Hi].
  - destruct (lookup_lt_is_Some_2 l 0 Hn) as [hp Hp]. rewrite Hp. exists hp. split; [done|].
    split; [by eapply list_elem_of_lookup_2|]. right. split.
    + intros x Hx. destruct (Hin x Hx) as (a & Ha & Hla & Hk). specialize (Hlo a ltac:(lia)).
      apply Z.leb_gt in Hlo. lia.
    + intros x Hx. destruct (Hin x Hx) as (a & Ha & Hla & Hk). apply (sorted_lookup l 0 a); [done..|lia].
  - destruct (lookup_lt_is_Some_2 l i ltac:(unfold n in *; lia)) as [hp Hp]. rewrite Hp. exists hp. split; [done|].
    split; [by eapply list_elem_of_lookup_2|]. left.
    assert (keyAt ch i = hp.1) as Hk by (unfold keyAt; fold l; by rewrite Hp). split.
    + specialize (Hhi i ltac:(lia) ltac:(lia)). apply Z.leb_le in Hhi. lia.
    + intros x Hx Hhx. destruct (Hin x Hx) as (a & Ha & Hla & Hka).
      destruct (decide (a < i)%nat) as [Hai|Hai].
      * specialize (Hlo a Hai). apply Z.leb_gt in Hlo. lia.
      * apply (sorted_lookup l i a); [done..|lia].
Qed.

(** Without collisions of points, a hash has one owner. *)
Lemma owns_unique (keys keys' : list (Z * Peer)) (h : Z) (x y : Z * Peer) :
  keys ≡ₚ keys' -> NoDup keys.*1 -> owns keys h x -> owns keys' h y -> x = y.
Proof.
  intros Hp Hnd [Hx Hox] [Hy Hoy]. rewrite <- Hp in Hy.
  setoid_rewrite <- Hp in Hoy.
  assert (x.1 = y.1) as Heq.
  { destruct Hox as [[H1 H2]|[H1 H2]], Hoy as [[H3 H4]|[H3 H4]].
    - pose proof (H2 y Hy H3). pose proof (H4 x Hx H1). lia.
    - specialize (H3 x Hx). lia.
    - specialize (H1 y Hy). lia.
    - pose proof (H2 y Hy). pose proof (H4 x Hx). lia. }
  apply list_elem_of_lookup_1 in Hx as [i Hi]. apply list_elem_of_lookup_1 in Hy as [j Hj].
  assert (i = j) as ->; [|congruence].
  eapply (NoDup_lookup keys.*1); [done|by rewrite list_lookup_fmap, Hi|]. rewrite list_lookup_fmap, Hj. simpl. by rewrite Heq.
Qed.
End RingFacts.

(** ** What the ring promises *)

Section Promises.
Context {Peer : Type} (Info : Peer -> PeerInfo) `{SortSlice}.

Abbreviation Ring := (ReplicatedConsistentHash Peer).

(** A member that learned of the peers [ps] in this order. *)
Definition ring_of (fn : string -> Z) (replicas : Z) (ps : list Peer) : Ring :=
  fold_left (fun ch p => Add Info p ch) ps (NewReplicatedConsistentHash fn replicas).

(** All points of a list of peers. *)
Definition all_points (fn : string -> Z) (replicas : Z) (ps : list Peer) : list (Z * Peer) :=
  concat (points Info fn replicas <$> ps).

Lemma fold_fields (ps : list Peer) (ch : Ring) :
  let ch' := fold_left (fun ch p => Add Info p ch) ps ch in
  ch_hashFunc ch' = ch_hashFunc ch /\ ch_replicas ch' = ch_replicas ch /\
  ch_peerKeys ch' ≡ₚ ch_peerKeys ch ++ all_points (ch_hashFunc ch) (ch_replicas ch) ps.
Proof.
  revert ch. induction ps as [|p ps IH]; intros ch; cbn [fold_left].
  - split; [done|]. split; [done|]. unfold all_points. simpl. by rewrite app_nil_r.
  - destruct (IH (Add Info p ch)) as (E1 & E2 & E3). split; [done|]. split; [done|].
    rewrite E3, (Add_keys Info p ch). unfold all_points. simpl. by rewrite <- app_assoc.
Qed.

Lemma ring_of_keys (fn : string -> Z) (replicas : Z) (ps : list Peer) :
  ch_peerKeys (ring_of fn replicas ps) ≡ₚ all_points fn replicas ps.
Proof. apply (fold_fields ps (NewReplicatedConsistentHash fn replicas)). Qed.

Lemma ring_of_hash (fn : string -> Z) (replicas : Z) (ps : list Peer) :
  ch_hashFunc (ring_of fn replicas ps) = fn /\ ch_replicas (ring_of fn replicas ps) = replicas.
Proof. destruct (fold_fields ps (NewReplicatedConsistentHash fn replicas)) as (E1 & E2 & _). done. Qed.

Lemma fold_Add_wf (ps : list Peer) (ch : Ring) : 0 < ch_replicas ch -> ring_wf ch ->
  ring_wf (fold_left (fun ch p => Add Info p ch) ps ch) /\
  (ps <> [] \/ ch_peers ch <> ∅ -> ch_peers (fold_left (fun ch p => Add Info p ch) ps ch) <> ∅).
Proof.
  revert ch. induction ps as [|p ps IH]; intros ch Hr Hw; cbn [fold_left].
  - split; [done|]. by intros [?|?].
  - destruct (IH (Add Info p ch) Hr (Add_wf Info p ch Hr)) as [Hw' Hne]. split; [done|]. intros _.
    apply Hne. right. apply insert_non_empty.
Qed.

Lemma ring_of_wf (fn : string -> Z) (replicas : Z) (ps : list Peer) : 0 < replicas ->
  ring_wf (ring_of fn replicas ps) /\ (ps <> [] -> ch_peers (ring_of fn replicas ps) <> ∅).
Proof.
  intros Hr. destruct (fold_Add_wf ps (NewReplicatedConsistentHash fn replicas) Hr (new_ring_wf fn replicas)) as [Hw Hne].
  split; [done|]. intros Hps. apply Hne. by left.
Qed.

(** On a ring with peers [Get] answers, with the peer of the first point at or
    after the hash of the key, or of the first point of the ring when there is none:
    the binary search computes the successor on the circle. On an empty ring it is an
    error. *)
Theorem ring_get (fn : string -> Z) (replicas : Z) (ps : list Peer) (key : string) (Hr : 0 < replicas) :
  (ps = [] -> Get key (ring_of fn replicas ps) = Ret (Err (ErrNew "unable to pick a peer; pool is empty"))) /\
  (ps <> [] -> exists hp, Get key (ring_of fn replicas ps) = Ret (Ok hp.2) /\
     owns (all_points fn replicas ps) (fn key) hp /\ hp.2 ∈ ps).
Proof.
  split; [by intros ->|]. intros Hps. destruct (ring_of_wf fn replicas ps Hr) as [Hw Hne].
  destruct (Get_owns (ring_of fn replicas ps) key Hw (Hne Hps)) as (hp & Hg & Ho).
  rewrite (proj1 (ring_of_hash fn replicas ps)) in Ho. unfold owns in Ho.
  setoid_rewrite ring_of_keys in Ho. exists hp. split; [done|]. split; [done|].
  destruct Ho as [Hin _]. apply list_elem_of_In, in_concat in Hin as (pts & Hpts & Hin).
  apply list_elem_of_In, list_elem_of_fmap in Hpts as (p & -> & Hp).
  apply list_elem_of_In, list_elem_of_fmap in Hin as (i & -> & _). done.
Qed.

(** C21: Members of the cluster that know the same peers agree on the owner of every
    key, whatever the order in which they learned of the peers (no two points of the
    ring colliding). *)
Theorem ring_agreement (fn : string -> Z) (replicas : Z) (ps ps' : list Peer) (key : string)
    (Hr : 0 < replicas) (Hsame : ps ≡ₚ ps') (Hcol : NoDup (all_points fn replicas ps).*1) :
  Get key (ring_of fn replicas ps) = Get key (ring_of fn replicas ps').
Proof.
  destruct (decide (ps = [])) as [->|Hps]; [by apply Permutation_nil_l in Hsame as ->|].
  assert (ps' <> []) as Hps' by (intros ->; by apply Permutation_nil_r in Hsame).
  destruct (ring_of_wf fn replicas ps Hr) as [Hw Hne], (ring_of_wf fn replicas ps' Hr) as [Hw' Hne'].
  destruct (Get_owns (ring_of fn replicas ps) key Hw (Hne Hps)) as (hp & -> & Ho).
  destruct (Get_owns (ring_of fn replicas ps') key Hw' (Hne' Hps')) as (hp' & -> & Ho').
  rewrite (proj1 (ring_of_hash fn replicas ps)) in Ho. rewrite (proj1 (ring_of_hash fn replicas ps')) in Ho'.
  assert (ch_peerKeys (ring_of fn replicas ps) ≡ₚ ch_peerKeys (ring_of fn replicas ps')) as Hk.
  { rewrite !ring_of_keys. unfold all_points. by rewrite Hsame. }
  assert (NoDup (ch_peerKeys (ring_of fn replicas ps)).*1) as Hnd by (by rewrite ring_of_keys).
  by rewrite (owns_unique _ _ _ _ _ Hk Hnd Ho Ho').
Qed.

(** A peer that joins only takes keys over: every key keeps its owner or goes to the
    new peer (no two points of the ring colliding). *)
Theorem ring_join (fn : string -> Z) (replicas : Z) (ps : list Peer) (p : Peer) (key : string)
    (Hr : 0 < replicas) (Hps : ps <> []) (Hcol : NoDup (all_points fn replicas (ps ++ [p])).*1) :
  Get key (ring_of fn replicas (ps ++ [p])) = Ret (Ok p) \/
  Get key (ring_of fn replicas (ps ++ [p])) = Get key (ring_of fn replicas ps).
Proof.
  destruct (ring_of_wf fn replicas ps Hr) as [Hw Hne], (ring_of_wf fn replicas (ps ++ [p]) Hr) as [Hw' Hne'].
  destruct (Get_owns (ring_of fn replicas ps) key Hw (Hne Hps)) as (hp & -> & Ho).
  destruct (Get_owns (ring_of fn replicas (ps ++ [p])) key Hw') as (hp' & -> & Ho'); [apply Hne'; by destruct ps|].
  rewrite (proj1 (ring_of_hash fn replicas ps)) in Ho.
  rewrite (proj1 (ring_of_hash fn replicas (ps ++ [p]))) in Ho'.
  unfold owns in Ho'. setoid_rewrite ring_of_keys in Ho'.
  assert (all_points fn replicas (ps ++ [p]) = all_points fn replicas ps ++ points Info fn replicas p) as Eapp.
  { unfold all_points. rewrite fmap_app, concat_app. simpl. by rewrite app_nil_r. }
  rewrite Eapp in Ho', Hcol. destruct Ho' as [Hin Ho'].
  apply elem_of_app in Hin as [Hin|Hin].
  - right. assert (owns (all_points fn replicas ps) (fn key) hp') as Hold.
    { split; [done|]. destruct Ho' as [[H1 H2]|[H1 H2]]; [left|right].
      - split; [done|]. intros x Hx. apply H2, elem_of_app. by left.
      - split; intros x Hx; [apply H1|apply H2]; apply elem_of_app; by left. }
    assert (NoDup (ch_peerKeys (ring_of fn replicas ps)).*1) as Hnd.
    { rewrite ring_of_keys. rewrite fmap_app in Hcol. by apply NoDup_app in Hcol as [? _]. }
    by rewrite (owns_unique _ _ _ _ _ (ring_of_keys fn replicas ps) Hnd Ho Hold).
  - left. apply list_elem_of_fmap in Hin as (i & -> & _). done.
Qed.
End Promises.

(** ** Regions ([region_picker.go]) *)

Section Regions.
Context {Peer : Type} (Info : Peer -> PeerInfo) `{SortSlice}.

(** The embedded ring is only a template for the regions' own. *)
Record RegionPicker : Type := mkRegionPicker {
  rp_template : ReplicatedConsistentHash Peer;
  rp_regions : gmap string (ReplicatedConsistentHash Peer)
}.

Definition defaultReplicas : Z := 512.

Definition NewRegionPicker (fn : string -> Z) : RegionPicker :=
  mkRegionPicker (NewReplicatedConsistentHash fn defaultReplicas) ∅.

Definition regionNew (rp : RegionPicker) : RegionPicker := mkRegionPicker (New (rp_template rp)) ∅.

Definition regionAdd (peer : Peer) (rp : RegionPicker) : RegionPicker :=
  let dc := pi_DataCenter (Info peer) in
  let picker := default (New (rp_template rp)) (rp_regions rp !! dc) in
  mkRegionPicker (rp_template rp) (<[dc := Add Info peer picker]> (rp_regions rp)).

(** One client for each region, or the first error; regions in the map's order. *)
Fixpoint collectGet (key : string) (pickers : list (ReplicatedConsistentHash Peer))
    : outcome (result (list Peer)) :=
  match pickers with
  | [] => Ret (Ok [])
  | picker :: rest =>
      match Get key picker with
      | Panic why => Panic why
      | Ret (Err e) => Ret (Err e)
      | Ret (Ok peer) =>
          match collectGet key rest with
          | Ret (Ok ps) => Ret (Ok (peer :: ps))
          | other => other
          end
      end
  end.

Definition GetClients (key : string) (rp : RegionPicker) : outcome (result (list Peer)) :=
  collectGet key (map_to_list (rp_regions rp)).*2.

(** The first match, in the map's order. *)
Definition regionGetByPeerInfo (info : PeerInfo) (rp : RegionPicker) : option Peer :=
  head (omap (GetByPeerInfo info) (map_to_list (rp_regions rp)).*2).

Definition regionPeers (rp : RegionPicker) : list Peer :=
  concat (Peers <$> (map_to_list (rp_regions rp)).*2).

(** Every region's ring is well formed and has a peer, all of that data center. *)
Definition regions_wf (rp : RegionPicker) : Prop :=
  0 < ch_replicas (rp_template rp) /\
  forall dc ch, rp_regions rp !! dc = Some ch ->
    ring_wf ch /\ ch_peers ch <> ∅ /\ ch_replicas ch = ch_replicas (rp_template rp) /\
    Forall (fun hp => pi_DataCenter (Info hp.2) = dc) (ch_peerKeys ch).

Lemma regionAdd_wf (p : Peer) (rp : RegionPicker) : regions_wf rp -> regions_wf (regionAdd p rp).
Proof.
  intros [Hr Hw]. split; [done|]. intros dc ch. simpl. set (dc0 := pi_DataCenter (Info p)).
  destruct (decide (dc0 = dc)) as [<-|Hne]; [|rewrite lookup_insert_ne by done; apply Hw].
  rewrite lookup_insert_eq. intros [= <-].
  assert (ch_replicas (default (New (rp_template rp)) (rp_regions rp !! dc0)) = ch_replicas (rp_template rp) /\
    Forall (fun hp => pi_DataCenter (Info hp.2) = dc0)
      (ch_peerKeys (default (New (rp_template rp)) (rp_regions rp !! dc0)))) as [Hrep Hdc].
  { destruct (rp_regions rp !! dc0) as [ch0|] eqn:E; simpl; [|split; [done|constructor]].
    destruct (Hw _ _ E) as (_ & _ & ? & ?). done. }
  split; [apply Add_wf; simpl; lia|]. split; [apply insert_non_empty|]. split; [done|].
  rewrite (Add_keys Info p). apply Forall_app. split; [done|].
  apply Forall_forall. intros hp (i & -> & _)%list_elem_of_fmap. done.
Qed.

Lemma collectGet_all (key : string) (chs : list (string * ReplicatedConsistentHash Peer)) :
  Forall (fun kc => ring_wf kc.2 /\ ch_peers kc.2 <> ∅ /\
    Forall (fun hp => pi_DataCenter (Info hp.2) = kc.1) (ch_peerKeys kc.2)) chs ->
  exists ps, collectGet key chs.*2 = Ret (Ok ps) /\ (fun p => pi_DataCenter (Info p)) <$> ps = chs.*1.
Proof.
  induction 1 as [|[dc ch] chs (Hw & Hne & Hdc) _ IH]; [by exists []|].
  rewrite !fmap_cons. cbn [collectGet fst snd] in *.
  destruct (Get_owns ch key Hw Hne) as (hp & -> & Hin & _). destruct IH as (ps & -> & Hps).
  exists (hp.2 :: ps). split; [done|]. rewrite fmap_cons, Hps. f_equal.
  rewrite Forall_forall in Hdc. by apply (Hdc hp).
Qed.

(** However peers were added, a key has exactly one client in every region that
    has peers, and it is a peer of that region: [GetClients] neither fails nor
    panics. *)
Theorem region_clients (fn : string -> Z) (ps : list Peer) (key : string) :
  let rp := fold_left (fun rp p => regionAdd p rp) ps (NewRegionPicker fn) in
  exists cs, GetClients key rp = Ret (Ok cs) /\
    (fun p => pi_DataCenter (Info p)) <$> cs = (map_to_list (rp_regions rp)).*1 /\
    (forall p, p ∈ ps -> is_Some (rp_regions rp !! pi_DataCenter (Info p))).
Proof.
  intros rp.
  assert (forall l rp0, regions_wf rp0 -> regions_wf (fold_left (fun rp p => regionAdd p rp) l rp0) /\
    (forall dc, is_Some (rp_regions rp0 !! dc) \/ (exists p, p ∈ l /\ pi_DataCenter (Info p) = dc) ->
       is_Some (rp_regions (fold_left (fun rp p => regionAdd p rp) l rp0) !! dc))) as Hfold.
  { induction l as [|p l IH]; intros rp0 Hw; cbn [fold_left].
    - split; [done|]. intros dc [?|(p & ?%not_elem_of_nil & _)]; done.
    - destruct (IH (regionAdd p rp0) (regionAdd_wf p rp0 Hw)) as [Hw' Hdc]. split; [done|].
      intros dc Hin. apply Hdc. simpl. destruct (decide (pi_DataCenter (Info p) = dc)) as [<-|Hne].
      + left. rewrite lookup_insert_eq. by eexists.
      + rewrite lookup_insert_ne by done. destruct Hin as [?|(q & [->|Hq]%elem_of_cons & <-)]; [by left|done|].
        right. by exists q. }
  destruct (Hfold ps (NewRegionPicker fn)) as [[_ Hw] Hdc]; [split; [done|intros dc ch]; simpl; by rewrite lookup_empty|].
  fold rp in Hw, Hdc.
  destruct (collectGet_all key (map_to_list (rp_regions rp))) as (cs & Hc & Hd).
  { apply Forall_forall. intros [dc ch] Hin%elem_of_map_to_list. destruct (Hw _ _ Hin) as (? & ? & _ & ?). done. }
  exists cs. split; [done|]. split; [done|]. intros p Hp. apply Hdc. right. by exists p.
Qed.
End Regions.

(** ** Examples *)

(** A small hash: the characters as digits in base 31, modulo 2^32. *)
Fixpoint demoSum (acc : Z) (s : string) : Z :=
  match s with
  | EmptyString => acc
  | String c s => demoSum ((acc * 31 + Z.of_nat (Ascii.nat_of_ascii c)) mod 2 ^ 32) s
  end.

Definition peerA : PeerInfo := mkPeerInfo "" "10.0.0.1:80" "10.0.0.1:81" true.
Definition peerB : PeerInfo := mkPeerInfo "" "10.0.0.2:80" "10.0.0.2:81" false.

Lemma demo_no_collision : NoDup (all_points (fun p : PeerInfo => p) (demoSum 0) 2 ([peerA] ++ [peerB])).*1.
Proof. apply (bool_decide_unpack _). vm_compute. exact I. Qed.

Lemma ring_get_witness : exists hp : Z * PeerInfo,
  Get "requests_per_min_account:1234" (ring_of (fun p : PeerInfo => p) (H := mergeSort) (demoSum 0) 2 [peerA; peerB]) = Ret (Ok hp.2) /\
  hp.2 ∈ [peerA; peerB].
Proof.
  destruct (ring_get (fun p : PeerInfo => p) (H := mergeSort) (demoSum 0) 2 [peerA; peerB] "requests_per_min_account:1234" ltac:(done))
    as [_ Hg].
  destruct Hg as (hp & Hr & _ & Hin); [done|]. exists hp. split; [exact Hr|exact Hin].
Defined.

Lemma ring_agreement_witness :
  Get "requests_per_min_account:1234" (ring_of (fun p : PeerInfo => p) (H := mergeSort) (demoSum 0) 2 [peerA; peerB]) =
  Get "requests_per_min_account:1234" (ring_of (fun p : PeerInfo => p) (H := mergeSort) (demoSum 0) 2 [peerB; peerA]).
Proof.
  exact (ring_agreement (fun p : PeerInfo => p) (H := mergeSort) (demoSum 0) 2 [peerA; peerB] [peerB; peerA]
    "requests_per_min_account:1234" ltac:(done) (Permutation_swap peerB peerA []) demo_no_collision).
Defined.

Lemma ring_join_witness :
  Get "requests_per_min_account:1234" (ring_of (fun p : PeerInfo => p) (H := mergeSort) (demoSum 0) 2 ([peerA] ++ [peerB])) = Ret (Ok peerB) \/
  Get "requests_per_min_account:1234" (ring_of (fun p : PeerInfo => p) (H := mergeSort) (demoSum 0) 2 ([peerA] ++ [peerB])) =
  Get "requests_per_min_account:1234" (ring_of (fun p : PeerInfo => p) (H := mergeSort) (demoSum 0) 2 [peerA]).
Proof.
  exact (ring_join (fun p : PeerInfo => p) (H := mergeSort) (demoSum 0) 2 [peerA] peerB
    "requests_per_min_account:1234" ltac:(done) ltac:(done) demo_no_collision).
Defined.
