(* ===== verification/Network.v ===== *)
(** * Addresses of the host ([net.go])

    Which of its addresses an instance advertises. Host name, name lookups and network
    interfaces are what the operating system reports, an argument. *)

From stdpp Require Import base strings list.
From Stdlib Require Import ZArith Lia Ascii.
From S2P Require Import Prelude.

(** An address of an interface: absent, or an IP with whether it is a loopback address
    and its text as an IPv4 address, when it is one. *)
Record IfAddr : Type := mkIfAddr { ia_loopback : bool; ia_To4 : option string }.

Record Iface : Type := mkIface { if_up : bool; if_loopback : bool; if_addrs : result (list (option IfAddr)) }.

(** What the operating system reports. *)
Record Host : Type := mkHost {
  ho_hostname : result string;
  ho_LookupHost : string -> result (list string);
  ho_LookupAddr : string -> list string;
  ho_Interfaces : result (list Iface)
}.

(** The IPv4 addresses of one interface that are not loopback. *)
Definition external (a : option IfAddr) : option string :=
  match a with
  | None => None
  | Some a => if ia_loopback a then None else ia_To4 a
  end.

Fixpoint collectAddresses (ifaces : list Iface) : result (list string) :=
  match ifaces with
  | [] => Ok []
  | i :: ifaces =>
      if negb (if_up i) || if_loopback i then collectAddresses ifaces
      else
        match if_addrs i with
        | Err e => Err e
        | Ok addrs => match collectAddresses ifaces with
                      | Err e => Err e
                      | Ok rest => Ok (omap external addrs ++ rest)
                      end
        end
  end.

Definition discoverNetworkAddresses (h : Host) : result (list string) :=
  match ho_Interfaces h with
  | Err e => Err e
  | Ok ifaces => collectAddresses ifaces
  end.

(** The first external address. *)
Definition discoverIP (h : Host) : result string :=
  match discoverNetworkAddresses h with
  | Err e => Err (ErrWrap "while detecting external ip address" e)
  | Ok [] => Err (ErrNew "No external ip address found; please set `GUBER_ADVERTISE_ADDRESS`")
  | Ok (a :: _) => Ok a
  end.

Record netInfo : Type := mkNetInfo { ni_IPAddresses : list string; ni_DNSNames : list string }.

Definition discoverNetwork (h : Host) : result netInfo :=
  match discoverNetworkAddresses h with
  | Err e => Err e
  | Ok ips => Ok (mkNetInfo ips (ips ≫= ho_LookupAddr h))
  end.

Definition unspecified : list string := ["0.0.0.0"; "::"; "0:0:0:0:0:0:0:0"; ""].

(** [ResolveHostIP]; a lookup that returns no address and no error gives an empty
    address and, since [Wrapf] of no error is no error, no error. *)
Definition ResolveHostIP (h : Host) (addr : string) : result string :=
  if bool_decide (addr ∈ unspecified) then
    match ho_hostname h with
    | Err _ => match discoverIP h with
               | Err e => Err (ErrWrap "while discovering ip for ''" e)
               | Ok ip => Ok ip
               end
    | Ok domainName =>
        match ho_LookupHost h domainName with
        | Err e => Err (ErrWrap ("while preforming host lookup for '" +:+ domainName +:+ "'") e)
        | Ok [] => Ok ""
        | Ok (a :: _) => Ok a
        end
    end
  else Ok addr.

(** Every address found is an external IPv4 address of an interface that is up. *)
Lemma collectAddresses_external (ifaces : list Iface) (ips : list string) (ip : string) :
  collectAddresses ifaces = Ok ips -> ip ∈ ips ->
  exists i addrs a, i ∈ ifaces /\ if_up i = true /\ if_loopback i = false /\ if_addrs i = Ok addrs /\
    Some a ∈ addrs /\ ia_loopback a = false /\ ia_To4 a = Some ip.
Proof.
  revert ips. induction ifaces as [|i ifaces IH]; intros ips; cbn [collectAddresses]; [intros [= <-] ?%elem_of_nil; done|].
  destruct (negb (if_up i) || if_loopback i) eqn:Ei.
  { intros H Hin. destruct (IH ips H Hin) as (j & addrs & a & Hj & Hrest). exists j, addrs, a. split; [by right|done]. }
  apply orb_false_iff in Ei as [Eu%negb_false_iff El].
  destruct (if_addrs i) as [addrs|] eqn:Ea; [|done]. destruct (collectAddresses ifaces) as [rest|]; [|done].
  intros [= <-] [Hin|Hin]%elem_of_app.
  - apply list_elem_of_omap in Hin as ([a|] & Ha & Hx); [|done]. simpl in Hx. destruct (ia_loopback a) eqn:Eb; [done|].
    exists i, addrs, a. split; [by left|done].
  - destruct (IH rest eq_refl Hin) as (j & addrs' & a & Hj & Hrest). exists j, addrs', a. split; [by right|done].
Qed.
