(* ===== verification/TLS.v ===== *)
(** * TLS configuration ([tls.go])

    From files and flags to the TLS parameters of server and clients, generated
    certificates, and the reloading of a key pair on SIGHUP. Files and cryptographic
    operations are arguments; what the program does with their results is modelled. *)

From stdpp Require Import base strings list.
From Stdlib Require Import ZArith Lia Ascii.
From S2P Require Import Prelude Network.

Local Open Scope Z_scope.

(** ** Data *)

Definition VersionTLS10 : Z := 769.
Definition VersionTLS11 : Z := 770.
Definition VersionTLS12 : Z := 771.
Definition VersionTLS13 : Z := 772.

Inductive ClientAuthType : Type :=
  | NoClientCert
  | RequestClientCert
  | RequireAnyClientCert
  | VerifyClientCertIfGiven
  | RequireAndVerifyClientCert.

#[global] Instance ClientAuthType_eq_dec : EqDecision ClientAuthType.
Proof. solve_decision. Defined.

(** A key pair on disk that is reloaded: the paths of certificate and key. *)
Definition Paths : Type := string * string.

(** The fields of [tls.Config] the program sets; a pool is the list of PEM texts
    appended to the system's or to an empty one. *)
Record TLSParams (Cert Pool : Type) : Type := mkTLSParams {
  tp_RootCAs : option Pool;
  tp_ClientCAs : option Pool;
  tp_Certificates : list Cert;
  tp_GetCertificate : option Paths;
  tp_GetClientCertificate : option Paths;
  tp_ClientAuth : ClientAuthType;
  tp_MinVersion : Z;
  tp_ServerName : string;
  tp_InsecureSkipVerify : bool
}.
Arguments mkTLSParams {Cert Pool} _ _ _ _ _ _ _ _ _.
Arguments tp_RootCAs {Cert Pool} _.
Arguments tp_ClientCAs {Cert Pool} _.
Arguments tp_Certificates {Cert Pool} _.
Arguments tp_GetCertificate {Cert Pool} _.
Arguments tp_GetClientCertificate {Cert Pool} _.
Arguments tp_ClientAuth {Cert Pool} _.
Arguments tp_MinVersion {Cert Pool} _.
Arguments tp_ServerName {Cert Pool} _.
Arguments tp_InsecureSkipVerify {Cert Pool} _.

(** What the operator configures. *)
Record TLSFiles : Type := mkTLSFiles {
  tf_CaFile : string;
  tf_CaKeyFile : string;
  tf_KeyFile : string;
  tf_CertFile : string;
  tf_AutoTLS : bool;
  tf_MinVersion : Z;
  tf_ClientAuth : ClientAuthType;
  tf_ClientAuthCaFile : string;
  tf_ClientAuthKeyFile : string;
  tf_ClientAuthCertFile : string;
  tf_InsecureSkipVerify : bool;
  tf_ClientAuthServerName : string
}.

(** The PEM texts held in memory. *)
Record PEMs : Type := mkPEMs {
  pm_CaPEM : option string;
  pm_CaKeyPEM : option string;
  pm_KeyPEM : option string;
  pm_CertPEM : option string;
  pm_ClientAuthCaPEM : option string
}.

Record TLSConfig (Cert Pool : Type) : Type := mkTLSConfig {
  tc_files : TLSFiles;
  tc_pems : PEMs;
  tc_ServerTLS : option (TLSParams Cert Pool);
  tc_ClientTLS : option (TLSParams Cert Pool)
}.
Arguments mkTLSConfig {Cert Pool} _ _ _ _.
Arguments tc_files {Cert Pool} _.
Arguments tc_pems {Cert Pool} _.
Arguments tc_ServerTLS {Cert Pool} _.
Arguments tc_ClientTLS {Cert Pool} _.

(** ** Files and cryptography *)

(** [ParseIP] is [net.ParseIP]: the address a text denotes, if it does. *)
Class Crypto (Cert Pool Key Der : Type) : Type := {
  ReadFile : string -> result string;
  X509KeyPair : string -> string -> result Cert;        (* certificate, key *)
  SystemCertPool : result Pool;
  NewCertPool : Pool;
  AppendCertsFromPEM : Pool -> string -> Pool;
  Subjects : Pool -> nat;
  ParseIP : string -> option string;
  GenerateKey : result Key;
  CertificateDers : Cert -> list Der;                  (* [keyPair.Certificate] *)
  ParseCertificate : Der -> result Der;
  CreateCA : Key -> result Der;
  CreateCertificate : list string -> list string -> Der -> Key -> Cert -> result Der;
  MarshalECPrivateKey : Key -> result Der;
  pemEncode : string -> Der -> string
}.

Section TLS.
Context {Cert Pool Key Der : Type} `{Crypto Cert Pool Key Der}.

Abbreviation Params := (TLSParams Cert Pool).
Abbreviation Conf := (TLSConfig Cert Pool).

(** [fromFile] *)
Definition fromFile (name : string) : result (option string) :=
  if String.eqb name "" then Ok None
  else match ReadFile name with
       | Err e => Err (ErrWrap ("while reading file '" +:+ name +:+ "'") e)
       | Ok b => Ok (Some b)
       end.

(** [tls.LoadX509KeyPair] reads both files. *)
Definition LoadX509KeyPair (p : Paths) : result Cert :=
  match ReadFile p.1 with
  | Err e => Err e
  | Ok cert => match ReadFile p.2 with
               | Err e => Err e
               | Ok key => X509KeyPair cert key
               end
  end.

(** ** Generated certificates *)

Definition isSome (o : option string) : bool := match o with Some _ => true | None => false end.

(** [selfCA] *)
Definition selfCA (m : PEMs) : result PEMs :=
  if isSome (pm_CaPEM m) && isSome (pm_CaKeyPEM m) then Ok m
  else
    match GenerateKey with
    | Err e => Err (ErrWrap "while generating pubic/private key pair" e)
    | Ok priv =>
        match CreateCA priv with
        | Err e => Err (ErrWrap "while self signing CA certificate" e)
        | Ok der =>
            match MarshalECPrivateKey priv with
            | Err e => Err (ErrWrap "while marshalling EC private key" e)
            | Ok k => Ok (mkPEMs (Some (pemEncode "CERTIFICATE" der)) (Some (pemEncode "EC PRIVATE KEY" k))
                            (pm_KeyPEM m) (pm_CertPEM m) (pm_ClientAuthCaPEM m))
            end
        end
    end.

(** [selfCert]; it dereferences both PEM texts of the authority when one is there. *)
Definition selfCert (h : Host) (m : PEMs) : outcome (result PEMs) :=
  if isSome (pm_CertPEM m) && isSome (pm_KeyPEM m) then Ret (Ok m)
  else
    match discoverNetwork h with
    | Err e => Ret (Err (ErrWrap "while detecting ip and host names" e))
    | Ok network =>
        match GenerateKey with
        | Err e => Ret (Err (ErrWrap "while generating pubic/private key pair" e))
        | Ok priv =>
            match pm_CaPEM m, pm_CaKeyPEM m with
            | None, None => Ret (Err (ErrNew "unable to generate server certs without a signing CA"))
            | Some ca, Some caKey =>
                match X509KeyPair ca caKey with
                | Err e => Ret (Err (ErrWrap "while reading generated PEMs" e))
                | Ok kp =>
                    match CertificateDers kp with
                    | [] => Ret (Err (ErrNew "no certificates found in CA PEM"))
                    | der :: _ =>
                        match ParseCertificate der with
                        | Err e => Ret (Err (ErrWrap "while parsing CA Cert" e))
                        | Ok caCert =>
                            match CreateCertificate ("localhost" :: ni_DNSNames network)
                                    (omap ParseIP ("127.0.0.1" :: ni_IPAddresses network)) caCert priv kp with
                            | Err e => Ret (Err (ErrWrap "while self signing server cert" e))
                            | Ok signed =>
                                match MarshalECPrivateKey priv with
                                | Err e => Ret (Err (ErrWrap "while encoding EC Marshalling" e))
                                | Ok k => Ret (Ok (mkPEMs (pm_CaPEM m) (pm_CaKeyPEM m)
                                                     (Some (pemEncode "EC PRIVATE KEY" k))
                                                     (Some (pemEncode "CERTIFICATE" signed)) (pm_ClientAuthCaPEM m)))
                                end
                            end
                        end
                    end
                end
            | _, _ => Panic "invalid memory address or nil pointer dereference"
            end
        end
    end.

(** ** [SetupTLS] *)

Definition emptyParams : Params := mkTLSParams None None [] None None NoClientCert 0 "" false.

Definition defaultServer (f : TLSFiles) : Params :=
  mkTLSParams None None [] None None (tf_ClientAuth f)
    (if tf_MinVersion f =? 0 then VersionTLS13 else tf_MinVersion f) "" false.

(** The files, read in order; what the caller had put in memory is replaced. *)
Definition loadPEMs (f : TLSFiles) : result PEMs :=
  match fromFile (tf_CaFile f) with
  | Err e => Err e
  | Ok ca =>
      match fromFile (tf_CaKeyFile f) with
      | Err e => Err e
      | Ok caKey =>
          match fromFile (tf_KeyFile f) with
          | Err e => Err e
          | Ok key =>
              match fromFile (tf_CertFile f) with
              | Err e => Err e
              | Ok cert =>
                  match fromFile (tf_ClientAuthCaFile f) with
                  | Err e => Err e
                  | Ok clientCa => Ok (mkPEMs ca caKey key cert clientCa)
                  end
              end
          end
      end
  end.

(** Certificates generated on request. *)
Definition autoTLS (h : Host) (f : TLSFiles) (m : PEMs) : outcome (result PEMs) :=
  if tf_AutoTLS f then
    match selfCA m with
    | Err e => Ret (Err (ErrWrap "while generating self signed CA certs" e))
    | Ok m =>
        match selfCert h m with
        | Panic why => Panic why
        | Ret (Err e) => Ret (Err (ErrWrap "while generating self signed server certs" e))
        | Ret (Ok m) => Ret (Ok m)
        end
    end
  else Ret (Ok m).

Definition with_RootCAs (pool : Pool) (p : Params) : Params :=
  mkTLSParams (Some pool) (tp_ClientCAs p) (tp_Certificates p) (tp_GetCertificate p) (tp_GetClientCertificate p)
    (tp_ClientAuth p) (tp_MinVersion p) (tp_ServerName p) (tp_InsecureSkipVerify p).
Definition with_ClientCAs (pool : Pool) (p : Params) : Params :=
  mkTLSParams (tp_RootCAs p) (Some pool) (tp_Certificates p) (tp_GetCertificate p) (tp_GetClientCertificate p)
    (tp_ClientAuth p) (tp_MinVersion p) (tp_ServerName p) (tp_InsecureSkipVerify p).
Definition with_Certificates (cs : list Cert) (p : Params) : Params :=
  mkTLSParams (tp_RootCAs p) (tp_ClientCAs p) cs (tp_GetCertificate p) (tp_GetClientCertificate p)
    (tp_ClientAuth p) (tp_MinVersion p) (tp_ServerName p) (tp_InsecureSkipVerify p).
Definition with_GetCertificate (r : Paths) (p : Params) : Params :=
  mkTLSParams (tp_RootCAs p) (tp_ClientCAs p) (tp_Certificates p) (Some r) (tp_GetClientCertificate p)
    (tp_ClientAuth p) (tp_MinVersion p) (tp_ServerName p) (tp_InsecureSkipVerify p).
Definition with_GetClientCertificate (r : Paths) (p : Params) : Params :=
  mkTLSParams (tp_RootCAs p) (tp_ClientCAs p) (tp_Certificates p) (tp_GetCertificate p) (Some r)
    (tp_ClientAuth p) (tp_MinVersion p) (tp_ServerName p) (tp_InsecureSkipVerify p).

(** The block on [conf.CaPEM]. *)
Definition trustCA (m : PEMs) (sc : Params * Params) : Params * Params :=
  match pm_CaPEM m with
  | None => sc
  | Some pem =>
      let root := match SystemCertPool with Ok p => p | Err _ => NewCertPool end in
      let root := AppendCertsFromPEM root pem in
      (with_RootCAs root sc.1, with_RootCAs root sc.2)
  end.

(** [NewKeypairReloader]: the pair must load once. *)
Definition NewKeypairReloader (p : Paths) : result (Paths * Cert) :=
  match LoadX509KeyPair p with
  | Err e => Err (ErrWrap "error loading keypair" e)
  | Ok c => Ok (p, c)
  end.

(** The block on [conf.KeyPEM] and [conf.CertPEM]. *)
Definition ownCertificate (f : TLSFiles) (m : PEMs) (sc : Params * Params) : result (Params * Params) :=
  match pm_KeyPEM m, pm_CertPEM m with
  | Some key, Some cert =>
      match X509KeyPair cert key with
      | Err e => Err (ErrWrap "while parsing server certificate and private key" e)
      | Ok c =>
          if tf_AutoTLS f then Ok (with_Certificates [c] sc.1, with_Certificates [c] sc.2)
          else
            match NewKeypairReloader (tf_CertFile f, tf_KeyFile f) with
            | Err e => Err (ErrWrap "error creating tls reloader" e)
            | Ok (r, _) => Ok (with_GetCertificate r sc.1, with_GetClientCertificate r sc.2)
            end
      end
  | _, _ => Ok sc
  end.

(** The block on [conf.ClientAuth]. *)
Definition clientAuth (f : TLSFiles) (m : PEMs) (sc : Params * Params) : result (Params * Params) :=
  if bool_decide (tf_ClientAuth f = NoClientCert) then Ok sc
  else
    let pool := match pm_ClientAuthCaPEM m, pm_CaPEM m with
                | Some pem, _ => AppendCertsFromPEM NewCertPool pem
                | None, Some pem => AppendCertsFromPEM NewCertPool pem
                | None, None => NewCertPool
                end in
    if Nat.eqb (Subjects pool) 0 then Err (ErrNew "client auth enabled, but no CA's provided")
    else
      let sc := (with_ClientCAs pool sc.1, sc.2) in
      if negb (String.eqb (tf_ClientAuthCertFile f) "") && negb (String.eqb (tf_ClientAuthKeyFile f) "") then
        match NewKeypairReloader (tf_ClientAuthCertFile f, tf_ClientAuthKeyFile f) with
        | Err e => Err (ErrWrap "error creating tls reloader" e)
        | Ok (r, _) => Ok (sc.1, with_GetClientCertificate r sc.2)
        end
      else Ok sc.

Definition finishClient (f : TLSFiles) (p : Params) : Params :=
  mkTLSParams (tp_RootCAs p) (tp_ClientCAs p) (tp_Certificates p) (tp_GetCertificate p) (tp_GetClientCertificate p)
    (tp_ClientAuth p) (tp_MinVersion p) (tf_ClientAuthServerName f) (tf_InsecureSkipVerify f).

Definition orElse {A} (o : option A) (d : A) : A := match o with Some a => a | None => d end.

(** [SetupTLS]: the configuration afterwards. *)
Definition SetupTLS (h : Host) (conf : option Conf) : outcome (result (option Conf)) :=
  match conf with
  | None => Ret (Ok None)
  | Some c =>
      match tc_ServerTLS c, tc_ClientTLS c with
      | Some _, Some _ => Ret (Ok conf)
      | _, _ =>
          let f := tc_files c in
          let server := orElse (tc_ServerTLS c) (defaultServer f) in
          let client := orElse (tc_ClientTLS c) emptyParams in
          match loadPEMs f with
          | Err e => Ret (Err e)
          | Ok m =>
              match autoTLS h f m with
              | Panic why => Panic why
              | Ret (Err e) => Ret (Err e)
              | Ret (Ok m) =>
                  match ownCertificate f m (trustCA m (server, client)) with
                  | Err e => Ret (Err e)
                  | Ok sc =>
                      match clientAuth f m sc with
                      | Err e => Ret (Err e)
                      | Ok sc => Ret (Ok (Some (mkTLSConfig f m (Some sc.1) (Some (finishClient f sc.2)))))
                      end
                  end
              end
          end
      end
  end.

(** The goroutines that wait for SIGHUP to reload a key pair: [SetupTLS] starts one for the
    server's pair and one for that of clients, and nothing ends them. *)
Definition reloadsServer (f : TLSFiles) (m : PEMs) : bool :=
  isSome (pm_KeyPEM m) && isSome (pm_CertPEM m) && negb (tf_AutoTLS f).

Definition reloadsClient (f : TLSFiles) : bool :=
  negb (bool_decide (tf_ClientAuth f = NoClientCert)) &&
  negb (String.eqb (tf_ClientAuthCertFile f) "") && negb (String.eqb (tf_ClientAuthKeyFile f) "").

Definition count (b : bool) : nat := if b then 1 else 0.

Definition reloaders (h : Host) (conf : option Conf) : nat :=
  match conf with
  | None => 0
  | Some c =>
      match tc_ServerTLS c, tc_ClientTLS c with
      | Some _, Some _ => 0
      | server, client =>
          let f := tc_files c in
          match loadPEMs f with
          | Err _ => 0
          | Ok m =>
              match autoTLS h f m with
              | Ret (Ok m) =>
                  match ownCertificate f m (trustCA m (orElse server (defaultServer f), orElse client emptyParams)) with
                  | Err _ => 0
                  | Ok sc => count (reloadsServer f m) +
                             match clientAuth f m sc with Ok _ => count (reloadsClient f) | Err _ => 0 end
                  end
              | _ => 0
              end
          end
      end
  end.

(** ** The reloader *)

(** [keypairReloader]: where its pair is, and the pair in use. *)
Record keypairReloader : Type := mkReloader { kr_paths : Paths; kr_cert : Cert }.

(** [maybeReload], on what loading the pair gives now. *)
Definition maybeReload (loaded : result Cert) (r : keypairReloader) : result unit * keypairReloader :=
  match loaded with
  | Err e => (Err e, r)
  | Ok c => (Ok tt, mkReloader (kr_paths r) c)
  end.

Definition UpdatePath (p : Paths) (r : keypairReloader) : keypairReloader := mkReloader p (kr_cert r).

(** [GetCertificateFunc] and [GetClientCertificateFunc] return the pair in use. *)
Definition GetCertificate (r : keypairReloader) : Cert := kr_cert r.
End TLS.

(** ** Properties *)

Section Properties.
Context {Cert Pool Key Der : Type} `{Crypto Cert Pool Key Der}.

Abbreviation Params := (TLSParams Cert Pool).

Lemma selfCA_some (m m' : PEMs) : selfCA m = Ok m' ->
  isSome (pm_CaPEM m') = true /\ isSome (pm_CaKeyPEM m') = true /\ pm_ClientAuthCaPEM m' = pm_ClientAuthCaPEM m.
Proof.
  unfold selfCA. destruct (isSome (pm_CaPEM m) && _) eqn:E.
  - intros [= <-]. by apply andb_true_iff in E as [-> ->].
  - repeat case_match; try done. by intros [= <-].
Qed.

(** Once there is an authority, a certificate is generated or an error returned. *)
Lemma selfCert_ret (h : Host) (m : PEMs) : isSome (pm_CaPEM m) = true -> isSome (pm_CaKeyPEM m) = true ->
  (exists e, selfCert h m = Ret (Err e)) \/
  exists m', selfCert h m = Ret (Ok m') /\ isSome (pm_CertPEM m') = true /\ isSome (pm_KeyPEM m') = true /\
    pm_CaPEM m' = pm_CaPEM m /\ pm_ClientAuthCaPEM m' = pm_ClientAuthCaPEM m.
Proof.
  intros Hc Hk. unfold selfCert. destruct (isSome (pm_CertPEM m) && _) eqn:E.
  { right. exists m. by apply andb_true_iff in E as [-> ->]. }
  destruct (pm_CaPEM m), (pm_CaKeyPEM m); try done. repeat case_match; eauto. right. by eexists.
Qed.

Lemma autoTLS_ret (h : Host) (f : TLSFiles) (m : PEMs) :
  (exists e, autoTLS h f m = Ret (Err e)) \/
  exists m', autoTLS h f m = Ret (Ok m') /\ pm_ClientAuthCaPEM m' = pm_ClientAuthCaPEM m /\
    (tf_AutoTLS f = true -> isSome (pm_CaPEM m') = true /\ isSome (pm_CertPEM m') = true /\ isSome (pm_KeyPEM m') = true) /\
    (tf_AutoTLS f = false -> m' = m).
Proof.
  unfold autoTLS. destruct (tf_AutoTLS f); [|right; by exists m].
  destruct (selfCA m) as [m1|e] eqn:E1; [|by left; eexists]. apply selfCA_some in E1 as (Hc & Hk & Ha).
  destruct (selfCert_ret h m1 Hc Hk) as [[e ->]|(m2 & -> & Hce & Hke & Hca & Hau)]; [by left; eexists|].
  right. exists m2. split; [done|]. split; [congruence|]. split; [|done]. intros _. by rewrite Hca.
Qed.

(** The fields an operation leaves alone. *)
Definition same_policy (p p' : Params) : Prop :=
  tp_ClientAuth p' = tp_ClientAuth p /\ tp_MinVersion p' = tp_MinVersion p.

Lemma trustCA_spec (m : PEMs) (sc : Params * Params) :
  same_policy sc.1 (trustCA m sc).1 /\
  (isSome (pm_CaPEM m) = true -> exists root, tp_RootCAs (trustCA m sc).1 = Some root /\ tp_RootCAs (trustCA m sc).2 = Some root).
Proof. unfold trustCA. destruct (pm_CaPEM m); simpl; [|done]. split; [done|]. intros _. by eexists. Qed.

Lemma ownCertificate_spec (f : TLSFiles) (m : PEMs) (sc sc' : Params * Params) : ownCertificate f m sc = Ok sc' ->
  same_policy sc.1 sc'.1 /\ tp_RootCAs sc'.1 = tp_RootCAs sc.1 /\ tp_RootCAs sc'.2 = tp_RootCAs sc.2 /\
  (tf_AutoTLS f = true -> isSome (pm_CertPEM m) = true -> isSome (pm_KeyPEM m) = true ->
   exists c, tp_Certificates sc'.1 = [c] /\ tp_Certificates sc'.2 = [c]).
Proof.
  unfold ownCertificate. destruct (pm_KeyPEM m), (pm_CertPEM m); try (by intros [= <-]).
  destruct (X509KeyPair _ _); [|done]. destruct (tf_AutoTLS f).
  - intros [= <-]. repeat split; try done. intros _ _ _. by eexists.
  - destruct (NewKeypairReloader _) as [[r c]|]; [|done]. by intros [= <-].
Qed.

Lemma clientAuth_spec (f : TLSFiles) (m : PEMs) (sc sc' : Params * Params) : clientAuth f m sc = Ok sc' ->
  same_policy sc.1 sc'.1 /\ tp_RootCAs sc'.1 = tp_RootCAs sc.1 /\ tp_RootCAs sc'.2 = tp_RootCAs sc.2 /\
  tp_Certificates sc'.1 = tp_Certificates sc.1 /\ tp_Certificates sc'.2 = tp_Certificates sc.2 /\
  (tf_ClientAuth f <> NoClientCert ->
   exists pem, (if isSome (pm_ClientAuthCaPEM m) then pm_ClientAuthCaPEM m else pm_CaPEM m) = pem /\
     exists pool, tp_ClientCAs sc'.1 = Some pool /\ Subjects pool <> 0%nat /\
       pool = match pem with Some t => AppendCertsFromPEM NewCertPool t | None => NewCertPool end).
Proof.
  unfold clientAuth. case_bool_decide as Hn; [intros [= <-]; by repeat split|].
  match goal with |- context [Subjects ?p] => destruct (Nat.eqb_spec (Subjects p) 0) as [|Hs]; [done|set (pool := p) in *] end.
  assert (exists pem, (if isSome (pm_ClientAuthCaPEM m) then pm_ClientAuthCaPEM m else pm_CaPEM m) = pem /\
            pool = match pem with Some t => AppendCertsFromPEM NewCertPool t | None => NewCertPool end) as (pem & Hp & Hpool).
  { eexists. split; [done|]. unfold pool. by destruct (pm_ClientAuthCaPEM m), (pm_CaPEM m). }
  destruct (negb _ && negb _); [destruct (NewKeypairReloader _) as [[r c]|]; [|done]|]; intros [= <-];
    do 5 (split; [done|]); intros _; exists pem; (split; [done|]); by exists pool.
Qed.
End Properties.


(** When no minimum version is configured, the server refuses what is older than TLS 1.3. *)
Lemma unset_version {Cert Pool : Type} (f : TLSFiles) (Hunset : tf_MinVersion f = 0) :
  tp_MinVersion (defaultServer (Cert := Cert) (Pool := Pool) f) = VersionTLS13.
Proof. unfold defaultServer. by rewrite Hunset. Qed.

(** Server parameters that are given without those of clients are not used as they are:
    generated certificates replace theirs. *)
Theorem given_server_overwritten {Cert Pool Key Der : Type} `{Crypto Cert Pool Key Der} (h : Host) (c c' : TLSConfig Cert Pool)
    (server : TLSParams Cert Pool) (Hserver : tc_ServerTLS c = Some server) (Hclient : tc_ClientTLS c = None)
    (Hauto : tf_AutoTLS (tc_files c) = true) (Hset : SetupTLS h (Some c) = Ret (Ok (Some c'))) :
  exists server' cert root, tc_ServerTLS c' = Some server' /\ tp_Certificates server' = [cert] /\ tp_RootCAs server' = Some root.
Proof.
  unfold SetupTLS in Hset. rewrite Hserver, Hclient in Hset. cbn [orElse] in Hset.
  destruct (loadPEMs _) as [m0|]; [|done].
  destruct (autoTLS_ret h (tc_files c) m0) as [[e He]|(m & He & _ & Hm & _)]; rewrite He in Hset; [done|].
  destruct (Hm Hauto) as (Hca & Hce & Hke). destruct (trustCA_spec m (server, emptyParams)) as [_ Hr].
  destruct (Hr Hca) as (root & Hroot & _). destruct (ownCertificate _ m _) as [sc|] eqn:E1; [|done].
  apply ownCertificate_spec in E1 as (_ & Hs & _ & Hc). destruct (Hc Hauto Hce Hke) as (cert & Hcert & _).
  destruct (clientAuth _ m sc) as [sc'|] eqn:E2; [|done]. apply clientAuth_spec in E2 as (_ & Hs' & _ & Hcert' & _).
  injection Hset as <-. exists sc'.1, cert, root. split; [done|]. by rewrite Hcert', Hs', Hs.
Qed.

(** PEM texts the caller supplies in memory are never used: without a file they are
    replaced by nothing. *)
Theorem supplied_pems_discarded {Cert Pool Key Der : Type} `{Crypto Cert Pool Key Der} (h : Host)
    (c : TLSConfig Cert Pool) (m : PEMs) (Hset : tc_ServerTLS c = None \/ tc_ClientTLS c = None) :
  SetupTLS h (Some (mkTLSConfig (tc_files c) m (tc_ServerTLS c) (tc_ClientTLS c))) = SetupTLS h (Some c).
Proof. unfold SetupTLS. simpl. destruct Hset as [-> | ->]; [done|]. by destruct (tc_ServerTLS c). Qed.

(** The pair in use is the last one that could be loaded: a failed reload keeps it. *)
Lemma reload_keeps {Cert : Type} (loads : list (result Cert)) (r : keypairReloader (Cert := Cert)) :
  GetCertificate (foldl (fun r l => (maybeReload l r).2) r loads) =
    orElse (last (omap (fun l => match l with Ok c => Some c | Err _ => None end) loads)) (GetCertificate r).
Proof.
  revert r. induction loads as [|l loads IH]; intros r; [done|]. cbn [foldl]. rewrite IH. destruct l as [c|e]; simpl; [|done].
  rewrite last_cons. unfold omap. by destruct (last _).
Qed.

(** ** Examples *)

(** Files that contain their names; a key pair is the pair of texts. *)
#[global] Instance demoCrypto : Crypto (string * string) (list string) unit string := {|
  ReadFile n := Ok ("PEM " +:+ n);
  X509KeyPair c k := Ok (c, k);
  SystemCertPool := Ok ["system"];
  NewCertPool := [];
  AppendCertsFromPEM p t := p ++ [t];
  Subjects := length;
  ParseIP t := Some t;
  GenerateKey := Ok tt;
  CertificateDers c := [c.1];
  ParseCertificate d := Ok d;
  CreateCA _ := Ok "ca";
  CreateCertificate _ _ _ _ _ := Ok "cert";
  MarshalECPrivateKey _ := Ok "key";
  pemEncode ty d := ty +:+ " " +:+ d
|}.

Definition demoHost : Host := mkHost (Ok "host") (fun _ => Ok ["10.0.0.1"]) (fun _ => []) (Ok []).

(** Generated certificates, clients to be verified, TLS 1.2 allowed. *)
Definition autoFiles : TLSFiles := mkTLSFiles "" "" "" "" true VersionTLS12 RequireAndVerifyClientCert "" "" "" false "".

Definition autoConf : TLSConfig (string * string) (list string) :=
  mkTLSConfig autoFiles (mkPEMs None None None None None) None None.

