(* ===== verification/PeerJSON.v ===== *)
(** * Peer information as JSON ([encoding/json] on [PeerInfo])

    Members that find each other through etcd or member-list exchange [PeerInfo] as
    JSON. This file writes out [json.Marshal] and [json.Unmarshal] of package
    encoding/json for that type: strings with their escapes and UTF-8 rules, the syntax
    of values, and the matching of object keys with the fields' tags. *)

From stdpp Require Import base strings list.
From Stdlib Require Import ZArith Lia Ascii.
From S2P Require Import Prelude Float64 GoStrings ReplicatedHash.

Local Open Scope Z_scope.

(** ** UTF-8 ([unicode/utf8]) *)

(** The rest of a string whose first byte is in a range. *)
Definition next (lo hi : Z) (s : string) : option string :=
  match s with
  | String c r => if (lo <=? byte c) && (byte c <=? hi) then Some r else None
  | EmptyString => None
  end.

Definition between (lo hi z : Z) : bool := (lo <=? z) && (z <=? hi).

(** Bytes of the encoding at the front; 0 when it is not valid ([RuneError] of width 1). *)
Definition runeLen (s : string) : nat :=
  match s with
  | EmptyString => 0%nat
  | String a r =>
      let b := byte a in
      if b <? 128 then 1%nat
      else if between 194 223 b then
        match next 128 191 r with Some _ => 2%nat | None => 0%nat end
      else if between 224 239 b then
        match next (if b =? 224 then 160 else 128) (if b =? 237 then 159 else 191) r with
        | Some r => match next 128 191 r with Some _ => 3%nat | None => 0%nat end
        | None => 0%nat
        end
      else if between 240 244 b then
        match next (if b =? 240 then 144 else 128) (if b =? 244 then 143 else 191) r with
        | Some r => match next 128 191 r with
                    | Some r => match next 128 191 r with Some _ => 4%nat | None => 0%nat end
                    | None => 0%nat
                    end
        | None => 0%nat
        end
      else 0%nat
  end.

(** [utf8.EncodeRune] *)
Definition encodeRune (r : Z) : string :=
  if r <? 128 then chr r
  else if r <? 2048 then bytes [192 + r / 64; 128 + r mod 64]
  else if r <? 65536 then bytes [224 + r / 4096; 128 + r / 64 mod 64; 128 + r mod 64]
  else bytes [240 + r / 262144; 128 + r / 4096 mod 64; 128 + r / 64 mod 64; 128 + r mod 64].

(** The encoding of U+FFFD. *)
Definition replacement : string := encodeRune 65533.

(** [utf8.ValidString], with [n] bytes of an encoding to go. *)
Fixpoint validFrom (n : nat) (s : string) : bool :=
  match s with
  | EmptyString => Nat.eqb n 0
  | String c r => match n with
                  | S n => validFrom n r
                  | O => match runeLen s with O => false | S n => validFrom n r end
                  end
  end.

Definition ValidString : string -> bool := validFrom 0.

(** ** Strings *)

Definition Q : string := chr 34.
Definition quoteChar : ascii := "034".
Definition backslash : ascii := "\".

Definition hexDigit (z : Z) : ascii :=
  ascii_of_N (Z.to_N (if z <? 10 then 48 + z else 87 + z)).

(** An ASCII byte in a JSON string, HTML characters escaped. *)
Definition escapeByte (c : ascii) : string :=
  let b := byte c in
  if (b =? 34) || (b =? 92) then String backslash (String c "")
  else if b =? 8 then "\b"
  else if b =? 12 then "\f"
  else if b =? 10 then "\n"
  else if b =? 13 then "\r"
  else if b =? 9 then "\t"
  else if (b <? 32) || (b =? 60) || (b =? 62) || (b =? 38)
  then "\u00" +:+ String (hexDigit (b / 16)) (String (hexDigit (b mod 16)) "")
  else String c "".

(** The body of an encoded string ([appendString]): [copy] bytes to copy, or [skip] to leave out,
    before the next rune. *)
Fixpoint quoteBody (copy skip : nat) (s : string) : string :=
  match s with
  | EmptyString => EmptyString
  | String c r =>
      match copy, skip with
      | S copy, _ => String c (quoteBody copy 0 r)
      | O, S skip => quoteBody 0 skip r
      | O, O =>
          match runeLen s with
          | O => String backslash "ufffd" +:+ quoteBody 0 0 r
          | S O => escapeByte c +:+ quoteBody 0 0 r
          | S n => if HasPrefix s (encodeRune 8232) then String backslash "u2028" +:+ quoteBody 0 n r
                   else if HasPrefix s (encodeRune 8233) then String backslash "u2029" +:+ quoteBody 0 n r
                   else String c (quoteBody n 0 r)
          end
      end
  end.

Definition encodeString (s : string) : string := Q +:+ quoteBody 0 0 s +:+ Q.

Definition hexVal (c : ascii) : option Z :=
  let b := byte c in
  if between 48 57 b then Some (b - 48)
  else if between 97 102 b then Some (b - 87)
  else if between 65 70 b then Some (b - 55)
  else None.

Definition hex4 (a b c d : ascii) : option Z :=
  match hexVal a, hexVal b, hexVal c, hexVal d with
  | Some a, Some b, Some c, Some d => Some (((a * 16 + b) * 16 + c) * 16 + d)
  | _, _, _, _ => None
  end.

Definition simpleEscape (c : ascii) : option Z :=
  let b := byte c in
  if (b =? 34) || (b =? 92) || (b =? 47) then Some b
  else if b =? 98 then Some 8
  else if b =? 102 then Some 12
  else if b =? 110 then Some 10
  else if b =? 114 then Some 13
  else if b =? 116 then Some 9
  else None.

(** A low surrogate as an escape at the front, and what follows it. *)
Definition lowSurrogate (s : string) : option (Z * string) :=
  match s with
  | String b (String u (String h1 (String h2 (String h3 (String h4 r))))) =>
      if Ascii.eqb b backslash && Ascii.eqb u "u" then
        match hex4 h1 h2 h3 h4 with
        | Some z => if between 56320 57343 z then Some (z, r) else None
        | None => None
        end
      else None
  | _ => None
  end.

Definition prepend (a : string) (o : option (string * string)) : option (string * string) :=
  match o with Some (s, r) => Some (a +:+ s, r) | None => None end.

(** The string up to the closing quote, and what follows it ([unquote], on input the
    scanner accepts); [copy] bytes of an encoding to go. *)
Fixpoint unquote (copy : nat) (s : string) : option (string * string) :=
  match s with
  | EmptyString => None
  | String c r =>
      match copy with
      | S copy => prepend (String c "") (unquote copy r)
      | O =>
          if Ascii.eqb c quoteChar then Some (EmptyString, r)
          else if Ascii.eqb c backslash then
            match r with
            | EmptyString => None
            | String e r1 =>
                match simpleEscape e with
                | Some z => prepend (chr z) (unquote 0 r1)
                | None =>
                    if Ascii.eqb e "u" then
                      match r1 with
                      | String h1 (String h2 (String h3 (String h4 r2))) =>
                          match hex4 h1 h2 h3 h4 with
                          | None => None
                          | Some z =>
                              if between 55296 57343 z then
                                if z <? 56320 then
                                  match lowSurrogate r2, r2 with
                                  | Some (z2, _), String _ (String _ (String _ (String _ (String _ (String _ r3))))) =>
                                      prepend (encodeRune ((z - 55296) * 1024 + (z2 - 56320) + 65536)) (unquote 0 r3)
                                  | _, _ => prepend replacement (unquote 0 r2)
                                  end
                                else prepend replacement (unquote 0 r2)
                              else prepend (encodeRune z) (unquote 0 r2)
                          end
                      | _ => None
                      end
                    else None
                end
            end
          else if byte c <? 32 then None
          else match runeLen s with
               | O => prepend replacement (unquote 0 r)
               | S n => prepend (String c "") (unquote n r)
               end
      end
  end.

(** ** Values *)

#[local] Set Warnings "-register-all".

Inductive json : Type :=
  | JNull
  | JBool (b : bool)
  | JNumber
  | JString (s : string)
  | JArray (vs : list json)
  | JObject (kvs : list (string * json)).

Fixpoint skipWs (s : string) : string :=
  match s with
  | String c r => if bool_decide (byte c ∈ [32; 9; 13; 10]) then skipWs r else s
  | EmptyString => EmptyString
  end.

(** Digits at the front: whether there is one, and what follows them. *)
Fixpoint skipDigits (s : string) : string :=
  match s with
  | String c r => if isDigit c then skipDigits r else s
  | EmptyString => EmptyString
  end.

Definition someDigits (s : string) : option string :=
  match s with
  | String c r => if isDigit c then Some (skipDigits r) else None
  | EmptyString => None
  end.

(** What follows a number. *)
Definition exponentPart (s : string) : option string :=
  match s with
  | String c r =>
      if Ascii.eqb c "e" || Ascii.eqb c "E" then
        match r with
        | String d r' => if Ascii.eqb d "+" || Ascii.eqb d "-" then someDigits r' else someDigits r
        | EmptyString => None
        end
      else Some s
  | EmptyString => Some s
  end.

Definition fractionPart (s : string) : option string :=
  match s with
  | String c r => if Ascii.eqb c "." then someDigits r else Some s
  | EmptyString => Some s
  end.

Definition parseNumber (s : string) : option string :=
  let s := match s with String c r => if Ascii.eqb c "-" then r else s | EmptyString => s end in
  match s with
  | String c r =>
      if negb (isDigit c) then None
      else
        match fractionPart (if Ascii.eqb c "0" then r else skipDigits r) with
        | Some r => exponentPart r
        | None => None
        end
  | EmptyString => None
  end.

Definition maxNestingDepth : Z := 10000.

(** The value at the front, and what follows it: one byte at least per call, so one more
    than the length is fuel enough. *)
Fixpoint parseValue (fuel : nat) (depth : Z) (s : string) {struct fuel} : option (json * string) :=
  match fuel with
  | O => None
  | S fuel =>
      match skipWs s with
      | EmptyString => None
      | String c r =>
          if Ascii.eqb c "{" then
            if maxNestingDepth <=? depth then None
            else match skipWs r with
                 | String d r' =>
                     if Ascii.eqb d "}" then Some (JObject [], r')
                     else match parseMembers fuel (depth + 1) r with
                          | Some (kvs, r) => Some (JObject kvs, r)
                          | None => None
                          end
                 | EmptyString => None
                 end
          else if Ascii.eqb c "[" then
            if maxNestingDepth <=? depth then None
            else match skipWs r with
                 | String d r' =>
                     if Ascii.eqb d "]" then Some (JArray [], r')
                     else match parseElements fuel (depth + 1) r with
                          | Some (vs, r) => Some (JArray vs, r)
                          | None => None
                          end
                 | EmptyString => None
                 end
          else if Ascii.eqb c quoteChar then
            match unquote 0 r with Some (x, r) => Some (JString x, r) | None => None end
          else if HasPrefix (String c r) "true" then Some (JBool true, skipn_s 4 (String c r))
          else if HasPrefix (String c r) "false" then Some (JBool false, skipn_s 5 (String c r))
          else if HasPrefix (String c r) "null" then Some (JNull, skipn_s 4 (String c r))
          else match parseNumber (String c r) with Some r => Some (JNumber, r) | None => None end
      end
  end
with parseMembers (fuel : nat) (depth : Z) (s : string) {struct fuel} : option (list (string * json) * string) :=
  match fuel with
  | O => None
  | S fuel =>
      match skipWs s with
      | String c r =>
          if Ascii.eqb c quoteChar then
            match unquote 0 r with
            | None => None
            | Some (k, r) =>
                match skipWs r with
                | String d r =>
                    if Ascii.eqb d ":" then
                      match parseValue fuel depth r with
                      | None => None
                      | Some (v, r) =>
                          match skipWs r with
                          | String e r =>
                              if Ascii.eqb e "," then
                                match parseMembers fuel depth r with
                                | Some (kvs, r) => Some ((k, v) :: kvs, r)
                                | None => None
                                end
                              else if Ascii.eqb e "}" then Some ([(k, v)], r) else None
                          | EmptyString => None
                          end
                      end
                    else None
                | EmptyString => None
                end
            end
          else None
      | EmptyString => None
      end
  end
with parseElements (fuel : nat) (depth : Z) (s : string) {struct fuel} : option (list json * string) :=
  match fuel with
  | O => None
  | S fuel =>
      match parseValue fuel depth s with
      | None => None
      | Some (v, r) =>
          match skipWs r with
          | String e r =>
              if Ascii.eqb e "," then
                match parseElements fuel depth r with
                | Some (vs, r) => Some (v :: vs, r)
                | None => None
                end
              else if Ascii.eqb e "]" then Some ([v], r) else None
          | EmptyString => None
          end
      end
  end.

Definition parseJSON (s : string) : option json :=
  match parseValue (2 * String.length s + 2) 0 s with
  | Some (v, r) => if String.eqb (skipWs r) "" then Some v else None
  | None => None
  end.

(** ** [PeerInfo] *)

(** [foldName]: upper case for ASCII letters and for the two other runes that fold to
    one, U+017F and U+212A. *)
Fixpoint foldName (skip : nat) (s : string) : string :=
  match s with
  | EmptyString => EmptyString
  | String c r =>
      match skip with
      | S skip => foldName skip r
      | O => if HasPrefix s (encodeRune 383) then String "S" (foldName 1 r)
             else if HasPrefix s (encodeRune 8490) then String "K" (foldName 2 r)
             else if between 97 122 (byte c) then chr (byte c - 32) +:+ foldName 0 r
             else String c (foldName 0 r)
      end
  end.

Inductive peerField : Type := FDataCenter | FHTTPAddress | FGRPCAddress | FIsOwner.

Definition tag (f : peerField) : string :=
  match f with
  | FDataCenter => "data-center"
  | FHTTPAddress => "http-address"
  | FGRPCAddress => "grpc-address"
  | FIsOwner => "is-owner"
  end.

Definition peerFields : list peerField := [FDataCenter; FHTTPAddress; FGRPCAddress; FIsOwner].

(** The field a key names: exactly, or up to case. *)
Definition fieldOf (k : string) : option peerField :=
  match List.find (fun f => String.eqb (tag f) k) peerFields with
  | Some f => Some f
  | None => List.find (fun f => String.eqb (foldName 0 (tag f)) (foldName 0 k)) peerFields
  end.

(** One member of the object; [false] records a value of the wrong type, which is
    reported once the others are assigned. *)
Definition assign (acc : PeerInfo * bool) (kv : string * json) : PeerInfo * bool :=
  let '(p, ok) := acc in
  match fieldOf kv.1, kv.2 with
  | None, _ => (p, ok)
  | Some _, JNull => (p, ok)
  | Some FDataCenter, JString s => (mkPeerInfo s (pi_HTTPAddress p) (pi_GRPCAddress p) (pi_IsOwner p), ok)
  | Some FHTTPAddress, JString s => (mkPeerInfo (pi_DataCenter p) s (pi_GRPCAddress p) (pi_IsOwner p), ok)
  | Some FGRPCAddress, JString s => (mkPeerInfo (pi_DataCenter p) (pi_HTTPAddress p) s (pi_IsOwner p), ok)
  | Some FIsOwner, JBool b => (mkPeerInfo (pi_DataCenter p) (pi_HTTPAddress p) (pi_GRPCAddress p) b, ok)
  | Some _, _ => (p, false)
  end.

(** [json.Unmarshal(b, &p)]: the value of [p] afterwards, and whether there was no
    error. *)
Definition Unmarshal (b : string) (p : PeerInfo) : PeerInfo * bool :=
  match parseJSON b with
  | None => (p, false)
  | Some JNull => (p, true)
  | Some (JObject kvs) => fold_left assign kvs (p, true)
  | Some _ => (p, false)
  end.

Definition key (f : peerField) : string := Q +:+ tag f +:+ Q +:+ ":".

(** [json.Marshal(p)]; [is-owner] is left out when false. *)
Definition Marshal (p : PeerInfo) : string :=
  "{" +:+ key FDataCenter +:+ encodeString (pi_DataCenter p) +:+ "," +:+
  key FHTTPAddress +:+ encodeString (pi_HTTPAddress p) +:+ "," +:+
  key FGRPCAddress +:+ encodeString (pi_GRPCAddress p) +:+
  (if pi_IsOwner p then "," +:+ key FIsOwner +:+ "true" else "") +:+ "}".

Definition zeroPeer : PeerInfo := mkPeerInfo "" "" "" false.

(** ** Termination

    Every step of the parser takes a byte, so the fuel of [parseJSON] is enough: more
    of it changes nothing. *)

Abbreviation len := String.length.

Lemma skipWs_le (s : string) : (len (skipWs s) <= len s)%nat.
Proof. induction s as [|c s IH]; [done|]. simpl. case_match; simpl; lia. Qed.

Lemma skipDigits_le (s : string) : (len (skipDigits s) <= len s)%nat.
Proof. induction s as [|c s IH]; [done|]. simpl. case_match; simpl; lia. Qed.

Lemma skipn_le (n : nat) (s : string) : (len (skipn_s n s) <= len s)%nat.
Proof. revert s. induction n as [|n IH]; intros [|c s]; simpl; [lia..|]. specialize (IH s). lia. Qed.

Lemma someDigits_lt (s r : string) : someDigits s = Some r -> (len r < len s)%nat.
Proof.
  destruct s as [|c s]; simpl; [done|]. destruct (isDigit c); [|done]. intros [= <-].
  pose proof (skipDigits_le s). lia.
Qed.

Lemma parseNumber_lt (s r : string) : parseNumber s = Some r -> (len r < len s)%nat.
Proof.
  unfold parseNumber.
  assert (forall s, len match s with String c r => if Ascii.eqb c "-" then r else s | EmptyString => s end <= len s)%nat
    as Hm by (intros [|c t]; [done|]; case_match; simpl; lia).
  specialize (Hm s). destruct (match s with String c r => _ | EmptyString => s end) as [|c t]; [done|].
  destruct (negb (isDigit c)); [done|]. intros Hr.
  assert (forall t r, fractionPart t = Some r -> len r <= len t)%nat as Hf.
  { intros [|d t'] r' H; simpl in H; [by injection H as <-|]. case_match; [|by injection H as <-].
    apply someDigits_lt in H. simpl. lia. }
  assert (forall t r, exponentPart t = Some r -> len r <= len t)%nat as He.
  { intros [|d t'] r' H; simpl in H; [by injection H as <-|]. case_match; [|by injection H as <-].
    destruct t' as [|e t']; [done|]. case_match; apply someDigits_lt in H; simpl in *; lia. }
  destruct (fractionPart _) as [r1|] eqn:E1; [|done]. apply Hf in E1. apply He in Hr.
  pose proof (skipDigits_le t). simpl in *. case_match; lia.
Qed.

Lemma prepend_some (a : string) (o : option (string * string)) (x r : string) :
  prepend a o = Some (x, r) -> exists y, o = Some (y, r).
Proof. destruct o as [[y r']|]; [|done]. simpl. intros [= _ <-]. by exists y. Qed.

Lemma unquote_lt (s : string) (n : nat) (x r : string) : unquote n s = Some (x, r) -> (len r < len s)%nat.
Proof.
  remember (len s) as m eqn:Em. revert s n x Em. induction (lt_wf m) as [m _ IH]. intros s n x -> Hu.
  destruct s as [|c s]; [done|]. cbn [unquote] in Hu.
  repeat (case_match; try done; subst); simplify_eq; try (simpl; lia);
    apply prepend_some in Hu as [y Hu]; apply (fun H => IH _ H _ _ _ eq_refl) in Hu; simpl in *; lia.
Qed.
Lemma skipWs_lt (s : string) (c : ascii) (r : string) : skipWs s = String c r -> (len r < len s)%nat.
Proof. intros H. pose proof (skipWs_le s) as Hl. rewrite H in Hl. simpl in Hl. lia. Qed.

(** Lengths of what the parts of the parser leave. *)
Ltac shorter IHv IHm IHe :=
  repeat match goal with
         | H : skipWs _ = String _ _ |- _ => apply skipWs_lt in H
         | H : parseValue _ _ _ = Some _ |- _ => apply IHv in H
         | H : parseMembers _ _ _ = Some _ |- _ => apply IHm in H
         | H : parseElements _ _ _ = Some _ |- _ => apply IHe in H
         | H : unquote _ _ = Some _ |- _ => apply unquote_lt in H
         | H : parseNumber _ = Some _ |- _ => apply parseNumber_lt in H
         end; cbn [String.length skipn_s] in *; try lia.

(** What is left after a value, a list of members or of elements is shorter. *)
Lemma parse_lt (fuel : nat) :
  (forall d s v r, parseValue fuel d s = Some (v, r) -> (len r < len s)%nat) /\
  (forall d s v r, parseMembers fuel d s = Some (v, r) -> (len r < len s)%nat) /\
  (forall d s v r, parseElements fuel d s = Some (v, r) -> (len r < len s)%nat).
Proof.
  induction fuel as [|fuel (IHv & IHm & IHe)]; [done|]. split; [|split]; intros d s v r.
  - cbn [parseValue]. destruct (skipWs s) as [|c t] eqn:E; [done|].
    pose proof (skipn_le 3 t). pose proof (skipn_le 4 t).
    repeat (case_match; try done); intros; simplify_eq; shorter IHv IHm IHe.
  - cbn [parseMembers]. repeat (case_match; try done); intros; simplify_eq; shorter IHv IHm IHe.
  - cbn [parseElements]. repeat (case_match; try done); intros; simplify_eq; shorter IHv IHm IHe.
Qed.

Lemma parse_fuel (f g : nat) :
  (forall d s, (2 * len s + 1 <= f)%nat -> (2 * len s + 1 <= g)%nat -> parseValue f d s = parseValue g d s) /\
  (forall d s, (2 * len s + 1 <= f)%nat -> (2 * len s + 1 <= g)%nat -> parseMembers f d s = parseMembers g d s) /\
  (forall d s, (2 * len s + 2 <= f)%nat -> (2 * len s + 2 <= g)%nat -> parseElements f d s = parseElements g d s).
Proof.
  revert g. induction f as [|f IH]; intros g; [split; [|split]; intros; lia|].
  destruct g as [|g]; [split; [|split]; intros; lia|].
  destruct (IH g) as (IHv & IHm & IHe), (parse_lt g) as (Lv & Lm & Le). clear IH.
  split; [|split]; intros d s Hf Hg.
  - cbn [parseValue]. destruct (skipWs s) as [|c t] eqn:E; [done|]. apply skipWs_lt in E.
    by rewrite (IHm _ t), (IHe _ t) by lia.
  - cbn [parseMembers]. destruct (skipWs s) as [|c t] eqn:E; [done|]. destruct (Ascii.eqb c quoteChar); [|done].
    destruct (unquote 0 t) as [[k t1]|] eqn:E1; [|done]. destruct (skipWs t1) as [|c2 t2] eqn:E2; [done|].
    destruct (Ascii.eqb c2 ":"); [|done]. shorter IHv IHm IHe. rewrite (IHv _ t2) by lia.
    destruct (parseValue g d t2) as [[v t3]|] eqn:E3; [|done]. apply Lv in E3.
    destruct (skipWs t3) as [|c4 t4] eqn:E4; [done|]. apply skipWs_lt in E4. by rewrite (IHm _ t4) by lia.
  - cbn [parseElements]. rewrite (IHv _ s) by lia.
    destruct (parseValue g d s) as [[v t1]|] eqn:E1; [|done]. apply Lv in E1.
    destruct (skipWs t1) as [|c2 t2] eqn:E2; [done|]. apply skipWs_lt in E2. by rewrite (IHe _ t2) by lia.
Qed.

(** ** Round trips *)

Lemma escapeByte_unquote (c : ascii) (x : string) : (byte c <? 128) = true ->
  unquote 0 (escapeByte c +:+ x) = prepend (String c "") (unquote 0 x).
Proof. destruct c as [[] [] [] [] [] [] [] []]; intros Hc; first [discriminate Hc|reflexivity]. Qed.

Lemma next_some (lo hi : Z) (s r : string) : next lo hi s = Some r -> exists c, s = String c r /\ lo <= byte c <= hi.
Proof. destruct s as [|c s]; [done|]. simpl. destruct (_ && _) eqn:E; [|done]. intros [= <-]. exists c. split; [done|lia]. Qed.

Lemma next_eq (lo hi : Z) (c : ascii) (r : string) : lo <= byte c <= hi -> next lo hi (String c r) = Some r.
Proof. intros Hc. simpl. by replace (_ && _) with true by lia. Qed.

(** The encoding of a rune of more than one byte. *)
Lemma rune_split (c : ascii) (r : string) (n : nat) : runeLen (String c r) = S (S n) ->
  128 <= byte c /\ exists t r', r = t +:+ r' /\ String.length t = S n /\
    forall y, runeLen (String c (t +:+ y)) = S (S n).
Proof.
  cbn [runeLen]. destruct (Z.ltb_spec (byte c) 128) as [|Hc]; [done|]. intros Hr. split; [done|].
  destruct (between 194 223 (byte c)) eqn:E2.
  { destruct (next 128 191 r) as [r1|] eqn:N1; [|done]. injection Hr as <-.
    apply next_some in N1 as (c1 & -> & H1). exists (String c1 ""), r1. split; [done|]. split; [done|].
    intros y. rewrite app_cons. by rewrite next_eq. }
  destruct (between 224 239 (byte c)) eqn:E3.
  { destruct (next _ _ r) as [r1|] eqn:N1; [|done]. destruct (next _ _ r1) as [r2|] eqn:N2; [|done].
    injection Hr as <-. apply next_some in N1 as (c1 & -> & H1), N2 as (c2 & -> & H2).
    exists (String c1 (String c2 "")), r2. split; [done|]. split; [done|].
    intros y. rewrite !app_cons. by rewrite !next_eq. }
  destruct (between 240 244 (byte c)) eqn:E4; [|done].
  destruct (next _ _ r) as [r1|] eqn:N1; [|done]. destruct (next _ _ r1) as [r2|] eqn:N2; [|done].
  destruct (next _ _ r2) as [r3|] eqn:N3; [|done]. injection Hr as <-.
  apply next_some in N1 as (c1 & -> & H1), N2 as (c2 & -> & H2), N3 as (c3 & -> & H3).
  exists (String c1 (String c2 (String c3 ""))), r3. split; [done|]. split; [done|].
  intros y. rewrite !app_cons. by rewrite !next_eq.
Qed.

Lemma rune_ascii (c : ascii) (r : string) : runeLen (String c r) = 1%nat -> (byte c <? 128) = true.
Proof. cbn [runeLen]. destruct (byte c <? 128); [done|]. repeat case_match; done. Qed.

(** A string is valid by its runes. *)
Lemma validFrom_app (t r : string) : validFrom (String.length t) (t +:+ r) = validFrom 0 r.
Proof. induction t as [|c t IH]; [done|]. rewrite app_cons. apply IH. Qed.

Lemma quoteBody_copy (t r : string) : quoteBody (String.length t) 0 (t +:+ r) = t +:+ quoteBody 0 0 r.
Proof. induction t as [|c t IH]; [by destruct r|]. rewrite !app_cons. cbn [quoteBody String.length]. by rewrite IH. Qed.

Lemma quoteBody_skip (t r : string) : quoteBody 0 (String.length t) (t +:+ r) = quoteBody 0 0 r.
Proof. induction t as [|c t IH]; [by destruct r|]. rewrite app_cons. apply IH. Qed.

Lemma prepend_prepend (a b : string) (o : option (string * string)) : prepend a (prepend b o) = prepend (a +:+ b) o.
Proof. destruct o as [[s r]|]; [|done]. simpl. by rewrite app_assoc_s. Qed.

Lemma unquote_copy (t y : string) : unquote (String.length t) (t +:+ y) = prepend t (unquote 0 y).
Proof.
  induction t as [|c t IH].
  - change ("" +:+ y) with y. simpl String.length. by destruct (unquote 0 y) as [[??]|].
  - rewrite app_cons. cbn [unquote String.length]. rewrite IH, prepend_prepend. done.
Qed.

Lemma unquote_rune (c : ascii) (t y : string) (n : nat) : 128 <= byte c -> String.length t = S n ->
  runeLen (String c (t +:+ y)) = S (S n) -> unquote 0 (String c (t +:+ y)) = prepend (String c t) (unquote 0 y).
Proof.
  intros Hc Ht Hr. cbn [unquote]. rewrite Hr.
  destruct (Ascii.eqb_spec c quoteChar) as [->|_]; [by vm_compute in Hc|].
  destruct (Ascii.eqb_spec c backslash) as [->|_]; [by vm_compute in Hc|].
  replace (byte c <? 32) with false by lia. by rewrite <- Ht, unquote_copy, prepend_prepend.
Qed.

(** The line separators U+2028 and U+2029 are written as escapes. *)
Lemma line_separator (c c2 : ascii) (t r : string) (n : nat) :
  String.length t = S n -> runeLen (String c (t +:+ r)) = S (S n) ->
  String.prefix (String "226" (String "128" (String c2 ""))) (String c (t +:+ r)) = true -> 128 <= byte c2 <= 191 ->
  c = "226"%char /\ t = String "128" (String c2 "").
Proof.
  intros Ht Hr [x Hx]%prefix_app H2. rewrite Hx, !app_cons in Hr. rewrite !app_cons in Hx.
  cbn [runeLen] in Hr. change (byte "226" <? 128) with false in Hr.
  change (between 194 223 (byte "226")) with false in Hr. change (between 224 239 (byte "226")) with true in Hr.
  cbv iota in Hr. rewrite next_eq in Hr by (vm_compute; split; discriminate).
  rewrite next_eq in Hr by done. injection Hr as <-. injection Hx as -> Hx. split; [done|].
  destruct t as [|t1 [|t2 [|]]]; try (simpl in Ht; lia). rewrite !app_cons in Hx. by injection Hx as -> -> _.
Qed.

(** What [appendString] writes for one rune, and how it is read back. *)
Lemma quote_rune (s : string) : s <> "" -> ValidString s = true ->
  exists a b e, s = a +:+ b /\ a <> "" /\ ValidString b = true /\ quoteBody 0 0 s = e +:+ quoteBody 0 0 b /\
    forall y, unquote 0 (e +:+ y) = prepend a (unquote 0 y).
Proof.
  destruct s as [|c r]; [done|]. intros _ Hv. unfold ValidString in *. cbn [validFrom quoteBody] in *.
  destruct (runeLen (String c r)) as [|[|n]] eqn:Hr; [done|..].
  - exists (String c ""), r, (escapeByte c). split; [done|]. split; [done|]. split; [done|]. split; [done|].
    intros y. apply escapeByte_unquote. by eapply rune_ascii.
  - apply rune_split in Hr as (Hc & t & r' & -> & Ht & Hy). rewrite <- Ht in *. rewrite validFrom_app in Hv.
    rewrite quoteBody_copy, quoteBody_skip. unfold HasPrefix.
    destruct (String.prefix (encodeRune 8232) _) eqn:E8.
    { apply (line_separator c "168" t r' n Ht) in E8 as [-> ->]; [|by rewrite Hy, Ht|by vm_compute].
      by exists (encodeRune 8232), r', (String backslash "u2028"). }
    destruct (String.prefix (encodeRune 8233) _) eqn:E9.
    { apply (line_separator c "169" t r' n Ht) in E9 as [-> ->]; [|by rewrite Hy, Ht|by vm_compute].
      by exists (encodeRune 8233), r', (String backslash "u2029"). }
    exists (String c t), r', (String c t). rewrite !app_cons. split; [done|]. split; [done|]. split; [done|].
    split; [done|]. intros y. rewrite app_cons. apply (unquote_rune c t y n); [done|done|]. by rewrite Hy, Ht.
Qed.

(** An encoded string is read back as it was. *)
Lemma unquote_quote (s rest : string) : ValidString s = true ->
  unquote 0 (quoteBody 0 0 s +:+ Q +:+ rest) = Some (s, rest).
Proof.
  remember (String.length s) as n eqn:En. revert s En. induction (lt_wf n) as [n _ IH]. intros s -> Hv.
  destruct s as [|c r]; [done|].
  destruct (quote_rune (String c r)) as (a & b & e & Hs & Ha & Hb & -> & He); [done|done|].
  rewrite app_assoc_s, He. rewrite (IH (String.length b) ltac:(rewrite Hs, length_app; destruct a; [done|simpl; lia]) b)
    by done. simpl. by rewrite Hs.
Qed.

Lemma skipWs_quote (x : string) : skipWs (Q +:+ x) = Q +:+ x.
Proof. done. Qed.

Lemma unquote_tag (f : peerField) (x : string) : unquote 0 (tag f +:+ Q +:+ x) = Some (tag f, x).
Proof. by destruct f. Qed.

(** One member whose value is read in full by [parseValue]. *)
Lemma parse_member (fuel : nat) (d : Z) (f : peerField) (text rest : string) (v : json) :
  parseValue fuel d (text +:+ rest) = Some (v, rest) ->
  parseMembers (S fuel) d (key f +:+ text +:+ rest) =
    match skipWs rest with
    | String e r =>
        if Ascii.eqb e "," then
          match parseMembers fuel d r with
          | Some (kvs, r) => Some ((tag f, v) :: kvs, r)
          | None => None
          end
        else if Ascii.eqb e "}" then Some ([(tag f, v)], r) else None
    | EmptyString => None
    end.
Proof.
  intros Hv. cbn [parseMembers]. unfold key. rewrite !app_assoc_s, skipWs_quote.
  change (Q +:+ ?x) with (String quoteChar x) at 1. cbn iota. rewrite Ascii.eqb_refl, unquote_tag.
  change (skipWs (":" +:+ ?x)) with (String ":" x). cbv beta iota. rewrite Ascii.eqb_refl. by rewrite Hv.
Qed.

Lemma parse_string (fuel : nat) (d : Z) (s rest : string) : ValidString s = true ->
  parseValue (S fuel) d (encodeString s +:+ rest) = Some (JString s, rest).
Proof.
  intros Hs. unfold encodeString. rewrite !app_assoc_s. cbn [parseValue]. rewrite skipWs_quote.
  change (Q +:+ ?x) with (String quoteChar x) at 1. cbn iota. by rewrite unquote_quote.
Qed.

Lemma parse_object (fuel : nat) (f : peerField) (x : string) :
  parseValue (S fuel) 0 ("{" +:+ key f +:+ x) =
    match parseMembers fuel 1 (key f +:+ x) with Some (kvs, r) => Some (JObject kvs, r) | None => None end.
Proof. by destruct f. Qed.

Lemma parse_true (fuel : nat) (d : Z) (rest : string) : parseValue (S fuel) d ("true" +:+ rest) = Some (JBool true, rest).
Proof. by destruct rest. Qed.

Definition valid_peer (p : PeerInfo) : bool :=
  ValidString (pi_DataCenter p) && ValidString (pi_HTTPAddress p) && ValidString (pi_GRPCAddress p).

Definition members (p : PeerInfo) : list (string * json) :=
  [(tag FDataCenter, JString (pi_DataCenter p)); (tag FHTTPAddress, JString (pi_HTTPAddress p));
   (tag FGRPCAddress, JString (pi_GRPCAddress p))] ++
  (if pi_IsOwner p then [(tag FIsOwner, JBool true)] else []).

Lemma parse_string_member (fuel : nat) (d : Z) (f : peerField) (s rest : string) : ValidString s = true ->
  parseMembers (S (S fuel)) d (key f +:+ encodeString s +:+ "," +:+ rest) =
    match parseMembers (S fuel) d rest with
    | Some (kvs, r) => Some ((tag f, JString s) :: kvs, r)
    | None => None
    end.
Proof.
  intros Hs. rewrite (parse_member (S fuel) d f (encodeString s) ("," +:+ rest) (JString s)); [done|].
  by apply parse_string.
Qed.

Lemma parse_marshalled (fuel : nat) (p : PeerInfo) : valid_peer p = true ->
  parseValue (S (S (S (S (S (S fuel)))))) 0 (Marshal p) = Some (JObject (members p), "").
Proof.
  unfold valid_peer. rewrite !andb_true_iff. intros [[Hd Hh] Hg]. unfold Marshal, members.
  rewrite parse_object, !parse_string_member by done. destruct (pi_IsOwner p).
  - change (("," +:+ ?k +:+ ?t) +:+ ?e) with ("," +:+ (k +:+ t) +:+ e). rewrite parse_string_member by done.
    rewrite app_assoc_s, (parse_member _ 1 FIsOwner "true" "}" (JBool true)) by apply parse_true. done.
  - rewrite (parse_member _ 1 FGRPCAddress _ "}" (JString (pi_GRPCAddress p))) by (by apply parse_string). done.
Qed.

Lemma unmarshal_marshal (p : PeerInfo) : valid_peer p = true -> Unmarshal (Marshal p) zeroPeer = (p, true).
Proof.
  intros Hp. unfold Unmarshal, parseJSON.
  assert (exists n, 2 * String.length (Marshal p) + 2 = S (S (S (S (S (S n))))))%nat as [n ->].
  { exists (2 * String.length (Marshal p) - 4)%nat. unfold Marshal, key, encodeString. rewrite !length_app. simpl. lia. }
  rewrite parse_marshalled by done. unfold members. destruct p as [dc http grpc []]; done.
Qed.

(** What a member advertises is what others read: a [PeerInfo] whose strings are
    valid UTF-8 comes back from JSON as it was, whatever characters need escaping. *)
Theorem peer_info_roundtrip (p : PeerInfo) (Hp : valid_peer p = true) : Unmarshal (Marshal p) zeroPeer = (p, true).
Proof. by apply unmarshal_marshal. Qed.

(** Escapes, a line separator and a two-byte rune survive. *)
Definition oddPeer : PeerInfo :=
  mkPeerInfo ("a<b" +:+ chr 34 +:+ encodeRune 8232 +:+ encodeRune 233) "" "[::1]:1051" true.

Lemma peer_info_roundtrip_witness : Unmarshal (Marshal oddPeer) zeroPeer = (oddPeer, true).
Proof. apply peer_info_roundtrip. vm_compute. reflexivity. Defined.
