(* ===== verification/Logging.v ===== *)
(** * Logging ([logging.go], [newLogWriter] of [memberlist.go])

    Log levels as JSON, and the writer that turns what a library prints into log lines.
    The logging library is an interface; package encoding/json is that of [PeerJSON],
    [bufio.Scanner] and [io.Pipe] are written out. *)

From stdpp Require Import base strings list pretty.
From Stdlib Require Import ZArith Lia Ascii SpecFloat.
From S2P Require Import Prelude Float64 GoStrings PeerJSON.

Local Open Scope Z_scope.

(** ** Numbers of JSON *)

(** The decimal digits at the front, after [acc], how many, and what follows. *)
Fixpoint readDigits (acc : Z) (count : Z) (s : string) : Z * Z * string :=
  match s with
  | String c r => if isDigit c then readDigits (10 * acc + (byte c - 48)) (count + 1) r else (acc, count, s)
  | EmptyString => (acc, count, s)
  end.

(** The mantissa and the power of ten of a number without its sign. *)
Definition numberParts (s : string) : Z * Z :=
  let '(m, _, r) := readDigits 0 0 s in
  let '(m, e, r) := match r with
                    | String "." r => let '(m, n, r) := readDigits m 0 r in (m, - n, r)
                    | _ => (m, 0, r)
                    end in
  match r with
  | String c r =>
      if Ascii.eqb c "e" || Ascii.eqb c "E" then
        match r with
        | String "-" r => (m, e - fst (fst (readDigits 0 0 r)))
        | String "+" r => (m, e + fst (fst (readDigits 0 0 r)))
        | r => (m, e + fst (fst (readDigits 0 0 r)))
        end
      else (m, e)
  | EmptyString => (m, e)
  end.

(** The float64 nearest to [m * 10 ^ e]. *)
Definition decimal (neg : bool) (m e : Z) : f64 :=
  match m with
  | Zpos p =>
      if 0 <=? e then binary_round 53 1024 neg (Z.to_pos (m * 10 ^ e)) 0
      else let '(mz, ez, lz) := SFdiv_core_binary 53 1024 (Zpos p) 0 (10 ^ (- e)) 0 in binary_round_aux 53 1024 neg mz ez lz
  | _ => S754_zero neg
  end.

(** [strconv.ParseFloat] of a JSON number. *)
Definition ParseNumber (s : string) : option f64 :=
  let '(neg, s) := match s with String "-" r => (true, r) | _ => (false, s) end in
  let '(m, e) := numberParts s in
  let f := decimal neg m e in
  if IsInf f then None else Some f.

(** ** Log levels *)

(** The logging library ([logrus]): the names of levels. *)
Class LogLevels : Type := {
  levelString : Z -> string;                       (* [Level.String] *)
  ParseLevel : string -> Z * option gerror
}.

(** Its documentation: the names of the seven levels are parsed. *)
Class LogLevelsLaws `{LogLevels} : Prop := {
  level_parsed : forall l, 0 <= l <= 6 -> ParseLevel (levelString l) = (l, None);
  level_valid : forall l, ValidString (levelString l) = true
}.

Section Levels.
Context `{LogLevels}.
(** [int32] of a float out of its range is left to the implementation. *)
Context (int32Beyond : f64 -> Z).

Definition int32_of_f (f : f64) : Z :=
  match f with
  | S754_zero _ => 0
  | S754_finite s m e =>
      let z := trunc_Z s m e in if (- 2 ^ 31 <=? z) && (z <? 2 ^ 31) then z else int32Beyond f
  | _ => int32Beyond f
  end.

(** [Level] is a [uint32]. *)
Definition asLevel (z : Z) : Z := z mod 2 ^ 32.

Definition MarshalJSON (ll : Z) : string := encodeString (levelString ll).

(** The text of a value that is a number. *)
Fixpoint untilWs (s : string) : string :=
  match s with
  | String c r => if bool_decide (byte c ∈ [32; 9; 13; 10]) then EmptyString else String c (untilWs r)
  | EmptyString => EmptyString
  end.

(** The texts of the decoder's syntax errors are not modelled. *)
Definition UnmarshalJSON (b : string) (ll : Z) : Z * option gerror :=
  match parseJSON b with
  | None => (ll, Some (ErrNew "invalid JSON"))
  | Some JNumber =>
      match ParseNumber (untilWs (skipWs b)) with
      | Some value => (asLevel (int32_of_f value), None)
      | None => (ll, Some (ErrNew "json: cannot unmarshal number into Go value of type float64"))
      end
  | Some (JString value) => ParseLevel value
  | Some _ => (ll, Some (ErrNew "invalid log level"))
  end.

(** A level comes back from its JSON form. *)
Theorem level_roundtrip `{!LogLevelsLaws} (l ll : Z) (Hl : 0 <= l <= 6) : UnmarshalJSON (MarshalJSON l) ll = (l, None).
Proof.
  unfold UnmarshalJSON, MarshalJSON, parseJSON.
  replace (2 * String.length (encodeString (levelString l)) + 2)%nat
    with (S (2 * String.length (encodeString (levelString l)) + 1)) by lia.
  pose proof (parse_string (2 * String.length (encodeString (levelString l)) + 1) 0 (levelString l) "" (level_valid l)) as Hp.
  assert (forall x, x +:+ "" = x) as Hnil by (intros x; induction x as [|c x IHx]; [done|]; by rewrite app_cons, IHx).
  rewrite Hnil in Hp. rewrite Hp. simpl. by apply level_parsed.
Qed.

(** A level may be given as its number, and any number is taken: 42, which is no level, as
    well as 4. *)
Theorem level_numbers (ll : Z) :
  (forall n, 0 <= n <= 6 -> UnmarshalJSON (pretty n) ll = (n, None)) /\ UnmarshalJSON "42" ll = (42, None) /\
  UnmarshalJSON "2.9e0" ll = (2, None).
Proof.
  split; [|by vm_compute]. intros n Hn.
  assert (n = 0 \/ n = 1 \/ n = 2 \/ n = 3 \/ n = 4 \/ n = 5 \/ n = 6) as Hc by lia.
  destruct Hc as [->|[->|[->|[->|[->|[->| ->]]]]]]; by vm_compute.
Qed.
End Levels.

(** The seven levels by name. *)
Definition levelNames : list string := ["panic"; "fatal"; "error"; "warning"; "info"; "debug"; "trace"].

#[export] Instance namedLevels : LogLevels := {
  levelString l := default "unknown" (if 0 <=? l then levelNames !! Z.to_nat l else None);
  ParseLevel s := match list_find (fun n => n = s) levelNames with
                  | Some (i, _) => (Z.of_nat i, None)
                  | None => (0, Some (ErrNew "not a valid logrus Level"))
                  end
}.

#[export] Instance namedLevels_laws : LogLevelsLaws.
Proof.
  constructor.
  - intros l Hl. assert (l = 0 \/ l = 1 \/ l = 2 \/ l = 3 \/ l = 4 \/ l = 5 \/ l = 6) as Hc by lia.
    destruct Hc as [->|[->|[->|[->|[->|[->| ->]]]]]]; by vm_compute.
  - intros l. simpl. destruct (0 <=? l); [|by vm_compute]. destruct (levelNames !! Z.to_nat l) as [n|] eqn:Hn; [|by vm_compute].
    apply list_elem_of_lookup_2 in Hn. revert n Hn. rewrite <- Forall_forall. repeat constructor; by vm_compute.
Qed.

Lemma level_roundtrip_witness : UnmarshalJSON (fun _ => 0) (MarshalJSON 4) 0 = (4, None).
Proof. apply (level_roundtrip (fun _ => 0) 4 0). lia. Defined.

(** ** The log writer *)

Definition newline : ascii := "010".
Definition return_ : ascii := "013".

(** [bufio.MaxScanTokenSize] *)
Definition maxToken : nat := Z.to_nat 65536.

Lemma maxToken_large : (100 < maxToken)%nat.
Proof. unfold maxToken. lia. Qed.

#[local] Opaque maxToken.

Inductive LogEntry : Type := Info (line : list ascii) | ReadFailed.

(** What the scanner holds of a line not yet complete, what was logged, and whether the
    reader is open. *)
Record LogWriter : Type := mkLogWriter { lw_pending : list ascii; lw_logged : list LogEntry; lw_open : bool }.

Definition newLogWriter : LogWriter := mkLogWriter [] [] true.

(** [bufio.ScanLines] drops a carriage return at the end of a line. *)
Definition dropCR (l : list ascii) : list ascii :=
  match last l with Some c => if Ascii.eqb c return_ then removelast l else l | None => l end.

(** The goroutine of the writer, byte by byte: a newline completes a line; a line that
    fills the buffer of the scanner ends the loop, and the reader is closed. The result
    has the bytes that were not read. *)
Fixpoint scan (lw : LogWriter) (b : list ascii) : LogWriter * list ascii :=
  match b with
  | [] => (lw, [])
  | c :: r =>
      if negb (lw_open lw) then (lw, b)
      else if Ascii.eqb c newline then scan (mkLogWriter [] (lw_logged lw ++ [Info (dropCR (lw_pending lw))]) true) r
      else
        let pending := lw_pending lw ++ [c] in
        if (length pending <? maxToken)%nat then scan (mkLogWriter pending (lw_logged lw) true) r
        else (mkLogWriter pending (lw_logged lw ++ [ReadFailed]) false, r)
  end.

(** [io.PipeWriter.Write] of some bytes; a logger writes at least the newline. *)
Definition Write_ (lw : LogWriter) (b : list ascii) : LogWriter * option gerror :=
  if negb (lw_open lw) then (lw, Some (ErrNew "io: read/write on closed pipe"))
  else
    let '(lw, rest) := scan lw b in
    (lw, match rest with [] => None | _ => Some (ErrNew "io: read/write on closed pipe") end).

(** The end of the writer: what is left is a line. *)
Definition CloseWriter (lw : LogWriter) : LogWriter :=
  match lw_open lw, lw_pending lw with
  | true, _ :: _ => mkLogWriter [] (lw_logged lw ++ [Info (dropCR (lw_pending lw))]) false
  | _, _ => mkLogWriter (lw_pending lw) (lw_logged lw) false
  end.

Fixpoint writes (lw : LogWriter) (bs : list (list ascii)) : LogWriter * list (option gerror) :=
  match bs with
  | [] => (lw, [])
  | b :: bs => let '(lw, err) := Write_ lw b in let '(lw, errs) := writes lw bs in (lw, err :: errs)
  end.

Lemma scan_app (a b : list ascii) (lw : LogWriter) :
  scan lw (a ++ b) = let '(lw', rest) := scan lw a in
                     match rest with [] => scan lw' b | _ => (lw', rest ++ b) end.
Proof.
  revert lw. induction a as [|c a IH]; intros lw; [done|]. cbn [scan app]. destruct (lw_open lw) eqn:Ho; simpl; [|done].
  destruct (Ascii.eqb c newline); [apply IH|]. destruct (_ <? _)%nat; [apply IH|].
  destruct a as [|c' a]; [|done]. simpl. by destruct b.
Qed.

(** A stretch without newlines that fits is kept. *)
Lemma scan_line (l : list ascii) (lw : LogWriter) : lw_open lw = true -> newline ∉ l ->
  (length (lw_pending lw) + length l < maxToken)%nat ->
  scan lw l = (mkLogWriter (lw_pending lw ++ l) (lw_logged lw) true, []).
Proof.
  revert lw. induction l as [|c l IH]; intros lw Ho Hn Hl.
  { cbn. rewrite app_nil_r. destruct lw; simpl in Ho; by subst. }
  apply not_elem_of_cons in Hn as [Hc Hn]. cbn [scan]. rewrite Ho. cbn [negb].
  destruct (Ascii.eqb_spec c newline) as [->|_]; [done|]. simpl in Hl. rewrite List.length_app. simpl.
  destruct (Nat.ltb_spec (length (lw_pending lw) + 1) maxToken); [|lia].
  rewrite IH; simpl; [by rewrite <- app_assoc|done|done|rewrite List.length_app; simpl; lia].
Qed.

Definition printed (lines : list (list ascii)) : list ascii := concat ((fun l => l ++ [newline]) <$> lines).

Lemma scan_lines (lines : list (list ascii)) (lw : LogWriter) : lw_open lw = true -> lw_pending lw = [] ->
  Forall (fun l => (newline ∉ l) /\ (length l < maxToken)%nat) lines ->
  scan lw (printed lines) = (mkLogWriter [] (lw_logged lw ++ ((fun l => Info (dropCR l)) <$> lines)) true, []).
Proof.
  intros Ho Hp Hl. revert lw Ho Hp. induction Hl as [|l lines [Hn Hlen] _ IH]; intros lw Ho Hp.
  { cbn. rewrite app_nil_r. destruct lw; simpl in *; by subst. }
  unfold printed. rewrite fmap_cons. cbn [concat]. rewrite <- app_assoc, scan_app, (scan_line l lw) by (rewrite ?Hp; done).
  change ([newline] ++ ?x) with (newline :: x). cbn [scan lw_open negb]. rewrite Ascii.eqb_refl.
  rewrite Hp. simpl. rewrite IH by done. simpl. by rewrite <- app_assoc.
Qed.

Lemma scan_closed (b : list ascii) (lw : LogWriter) : lw_open lw = false -> scan lw b = (lw, b).
Proof. intros Ho. destruct b as [|c r]; [done|]. cbn [scan]. by rewrite Ho. Qed.

Lemma writes_scan (bs : list (list ascii)) (lw lw' : LogWriter) : scan lw (concat bs) = (lw', []) -> lw_open lw' = true ->
  writes lw bs = (lw', (fun _ => None) <$> bs).
Proof.
  revert lw. induction bs as [|b bs IH]; intros lw Hs Ho'; simpl in *; [by injection Hs as ->|].
  unfold Write_. destruct (lw_open lw) eqn:Ho; [|rewrite (scan_closed _ lw Ho) in Hs; congruence]. cbn [negb].
  rewrite scan_app in Hs. destruct (scan lw b) as [lw1 [|c rest]] eqn:Hb; [|discriminate Hs].
  by rewrite (IH lw1 Hs Ho').
Qed.

(** What is printed is logged line by line, however it is cut into writes: as long as no
    line has 64 KiB, no write fails, and the log has exactly the lines, in order. *)
Theorem log_lines (lines : list (list ascii)) (bs : list (list ascii))
    (Hlines : Forall (fun l => (newline ∉ l) /\ (length l < maxToken)%nat) lines) (Hbs : concat bs = printed lines) :
  writes newLogWriter bs = (mkLogWriter [] ((fun l => Info (dropCR l)) <$> lines) true, (fun _ => None) <$> bs).
Proof. apply writes_scan; [|done]. rewrite Hbs. by rewrite scan_lines. Qed.

Lemma closed_writes (bs : list (list ascii)) (lw : LogWriter) : lw_open lw = false ->
  writes lw bs = (lw, (fun _ => Some (ErrNew "io: read/write on closed pipe")) <$> bs).
Proof. intros Ho. induction bs as [|b bs IH]; [done|]. cbn [writes]. unfold Write_. rewrite Ho. cbn [negb]. by rewrite IH. Qed.

(** One line of 64 KiB ends the log: the writer that printed it logs nothing more, and
    every later write fails. *)
Theorem long_line_ends_log (lines : list (list ascii)) (l : list ascii) (bs : list (list ascii))
    (Hlines : Forall (fun l => (newline ∉ l) /\ (length l < maxToken)%nat) lines)
    (Hl : newline ∉ l) (Hlen : (maxToken <= length l)%nat) :
  let lw := fst (Write_ newLogWriter (printed lines ++ l)) in
  lw_logged lw = ((fun l => Info (dropCR l)) <$> lines) ++ [ReadFailed] /\
  writes lw bs = (lw, (fun _ => Some (ErrNew "io: read/write on closed pipe")) <$> bs).
Proof.
  intros lw. subst lw.
  assert (Hnt : newline ∉ take (maxToken - 1) l)
    by (intros Hin; apply Hl; rewrite <- (take_drop (maxToken - 1) l); apply elem_of_app; by left).
  unfold Write_. cbn [newLogWriter lw_open negb]. fold newLogWriter. rewrite scan_app, scan_lines by done. simpl (lw_logged newLogWriter). rewrite app_nil_l.
  rewrite <- (take_drop (maxToken - 1) l), scan_app.
  pose proof maxToken_large as Hz.
  rewrite scan_line; [|done|done|simpl; rewrite length_take; lia].
  destruct (drop (maxToken - 1) l) as [|c r] eqn:Hd.
  { apply (f_equal length) in Hd. rewrite length_drop in Hd. simpl in Hd. lia. }
  assert (Hc : c <> newline). { intros ->. apply Hl. rewrite <- (take_drop (maxToken - 1) l), Hd, elem_of_app. right. left. }
  cbn [scan lw_open negb]. destruct (Ascii.eqb_spec c newline) as [|_]; [done|]. cbn [lw_pending]. rewrite app_nil_l, List.length_app, length_take. simpl length.
  destruct (Nat.ltb_spec (Nat.min (maxToken - 1) (length l) + 1) maxToken); [lia|]. split; [done|].
  by apply closed_writes.
Qed.

Lemma short_line (l : list ascii) : existsb (Ascii.eqb newline) l = false -> (length l <=? 100)%nat = true ->
  (newline ∉ l) /\ (length l < maxToken)%nat.
Proof.
  intros Hn Hl%Nat.leb_le. pose proof maxToken_large. split; [|lia]. intros Hin%list_elem_of_In.
  assert (existsb (Ascii.eqb newline) l = true); [|congruence]. apply existsb_exists. exists newline. by rewrite Ascii.eqb_refl.
Qed.

Lemma log_lines_witness :
  writes newLogWriter [["h"; "i"; return_]; [newline; "y"; "o"]; [newline]]%char =
    (mkLogWriter [] [Info ["h"; "i"]; Info ["y"; "o"]]%char true, [None; None; None]).
Proof.
  apply (log_lines [["h"; "i"; return_]; ["y"; "o"]]%char [["h"; "i"; return_]; [newline; "y"; "o"]; [newline]]%char); [|reflexivity].
  repeat (apply Forall_cons_2; [apply short_line; reflexivity|]). apply Forall_nil_2.
Defined.

Lemma long_line_ends_log_witness :
  let lw := fst (Write_ newLogWriter (printed [] ++ replicate maxToken "a"%char)) in
  lw_logged lw = ((fun l => Info (dropCR l)) <$> []) ++ [ReadFailed] /\
  writes lw [["b"%char]] = (lw, (fun _ => Some (ErrNew "io: read/write on closed pipe")) <$> [["b"%char]]).
Proof.
  refine (long_line_ends_log [] (replicate maxToken "a"%char) [["b"%char]] _ _ _); [constructor| |].
  - intros Hin%elem_of_replicate_inv. discriminate Hin.
  - rewrite length_replicate. apply Nat.le_refl.
Defined.
