(* ===== verification/DNSPool.v ===== *)
(** * Peer discovery through DNS ([dns.go])

    The pool looks its names up at intervals and reports the addresses it finds as
    peers. What a name server answers is an argument; [Fqdn] and the names of response
    codes, of the DNS library, are an interface with the library's documented
    behaviour. *)

From stdpp Require Import base strings list sets.
From Stdlib Require Import ZArith Lia Ascii.
From S2P Require Import Prelude Float64 GoTime GoStrings ReplicatedHash.

Local Open Scope Z_scope.

(** ** The DNS library *)

Class DNSLib : Type := {
  Fqdn : string -> string;
  RcodeToString : Z -> string;
  (** [Fqdn] returns a fully qualified name as it is. *)
  Fqdn_idem : forall s, Fqdn (Fqdn s) = Fqdn s;
  (** It completes a name with a dot. *)
  Fqdn_nonempty : forall s, Fqdn s <> ""
}.

(** Resource records of an answer; the text of an address is what [net.IP.String]
    returns for it. *)
Inductive RR : Type :=
  | RRA (a : string) (ttl : Z)
  | RRAAAA (aaaa : string) (ttl : Z)
  | RROther (ttl : Z).

Definition rrTtl (r : RR) : Z :=
  match r with RRA _ t => t | RRAAAA _ t => t | RROther t => t end.

Record Msg : Type := mkMsg { m_Rcode : Z; m_Answer : list RR }.

Definition RcodeSuccess : Z := 0.

(** The query types the pool asks for. *)
Inductive Qtype : Type := TypeA | TypeAAAA.

(** ** The resolver *)

(** Seconds, as [uint32]. *)
Definition defaultPollDelay : Z := 300.
Definition noPeersRetryDelay : Z := 5.

Definition rrAddr (r : RR) : option string :=
  match r with RRA a _ => Some a | RRAAAA a _ => Some a | RROther _ => None end.

(** [lookupHost] on what [dns.Exchange] returned: the addresses, and the time they may be
    kept. *)
Definition lookupHost `{DNSLib} (in_ : result Msg) : result (list string * Z) :=
  match in_ with
  | Err e => Err e
  | Ok m =>
      if negb (m_Rcode m =? RcodeSuccess) then Err (ErrNew (RcodeToString (m_Rcode m)))
      else Ok (omap rrAddr (m_Answer m), fold_left (fun ttl r => Z.min ttl (rrTtl r)) (m_Answer m) defaultPollDelay)
  end.

(** [NewFromResolvConf]; [config] is what reading the file gives, [None] when there is no
    such file. *)
Definition NewFromResolvConf (path : string) (config : option (result (list string))) : result (list string) :=
  match config with
  | None => Err (ErrNew ("no such file or directory: " +:+ path))
  | Some (Err e) => Err e
  | Some (Ok []) => Err (ErrNew "no servers in config")
  | Some (Ok servers) => Ok ((fun ip => JoinHostPort ip "53") <$> servers)
  end.

(** ** The pool *)

Record DNSPoolConfig : Type := mkDNSPoolConfig {
  dc_FQDN : string;
  dc_ResolvConf : string;
  dc_ResolvServers : list string;
  dc_OwnAddress : string;
  dc_DataCenter : string
}.

Record DNSPool : Type := mkDNSPool {
  dp_servers : list string;
  dp_fqdns : list string;
  dp_ownIP : string;
  dp_ownPort : string;
  dp_dataCenter : string
}.

Definition newResolver (conf : DNSPoolConfig) (config : option (result (list string))) : result (list string) :=
  match dc_ResolvServers conf with
  | [] => NewFromResolvConf (dc_ResolvConf conf) config
  | servers => Ok servers
  end.

(** The names of the configuration: separated by commas, trimmed, completed. *)
Definition splitFqdns `{DNSLib} (fqdn : string) : list string :=
  omap (fun f => let f := TrimSpace f in if String.eqb f "" then None else Some (Fqdn f)) (Split "," fqdn).

Definition NewDNSPool `{DNSLib} (conf : DNSPoolConfig) (config : option (result (list string))) : result DNSPool :=
  if String.eqb (dc_OwnAddress conf) "" then Err (ErrNew "Advertise.GRPCAddress is required")
  else
    match SplitHostPort (dc_OwnAddress conf) with
    | Err e => Err (ErrWrap "OwnAddress is invalid" e)
    | Ok (ip, port) =>
        let port := if String.eqb port "" then "1051" else port in
        match newResolver conf config with
        | Err e => Err e
        | Ok servers => Ok (mkDNSPool servers (splitFqdns (dc_FQDN conf)) ip port (dc_DataCenter conf))
        end
    end.

(** [peer] *)
Definition peer (p : DNSPool) (fqdn ip : string) (ipv6 : bool) : PeerInfo :=
  let ip := if ipv6 then "[" +:+ ip +:+ "]" else ip in
  mkPeerInfo (if String.eqb (dp_dataCenter p) "" then "" else fqdn) "" (ip +:+ ":" +:+ dp_ownPort p)
    (String.eqb (dp_ownIP p) ip).

(** What the lookups of one round return. *)
Definition Lookups : Type := string -> Qtype -> result (list string * Z).

Definition isAAAA (t : Qtype) : bool := match t with TypeA => false | TypeAAAA => true end.

(** One lookup of the loop in [task]. *)
Definition askOne (p : DNSPool) (look : Lookups) (acc : Z * list PeerInfo) (q : string * Qtype) : Z * list PeerInfo :=
  let '(delay, update) := acc in
  match look q.1 q.2 with
  | Err _ => acc
  | Ok ([], _) => acc
  | Ok (ips, d) => (Z.min delay d, update ++ ((fun ip => peer p q.1 ip (isAAAA q.2)) <$> ips))
  end.

Definition queries (p : DNSPool) : list (string * Qtype) :=
  fqdn ← dp_fqdns p; [(fqdn, TypeA); (fqdn, TypeAAAA)].

(** One round of [task]: the update reported, if any, and the seconds until the next. *)
Definition poll (p : DNSPool) (look : Lookups) : option (list PeerInfo) * Z :=
  let '(delay, update) := fold_left (askOne p look) (queries p) (defaultPollDelay, []) in
  match update with
  | [] => (None, noPeersRetryDelay)
  | _ => (Some update, delay)
  end.

(** [task]: when round [i] starts, in nanoseconds. Round [j] takes [took j] for its lookups
    and report, and then waits. *)
Fixpoint startOf (p : DNSPool) (look : nat -> Lookups) (took : nat -> Z) (i : nat) : Z :=
  match i with
  | O => 0
  | S i => startOf p look took i + took i + (poll p (look i)).2 * Second
  end.

(** When the report of round [i] is made at the latest, if the round makes one. *)
Definition reportedBy (p : DNSPool) (look : nat -> Lookups) (took : nat -> Z) (i : nat) : Z := startOf p look took i + took i.

(** ** Properties *)

(** The peers one lookup contributes. *)
Definition found (p : DNSPool) (look : Lookups) (q : string * Qtype) : list PeerInfo :=
  match look q.1 q.2 with
  | Err _ => []
  | Ok (ips, _) => (fun ip => peer p q.1 ip (isAAAA q.2)) <$> ips
  end.

(** The time the answer to one lookup may be kept, when it has addresses. *)
Definition foundTtl (look : Lookups) (q : string * Qtype) : option Z :=
  match look q.1 q.2 with
  | Ok (_ :: _, d) => Some d
  | _ => None
  end.

Definition ttls_ok (look : Lookups) : Prop := forall f t ips d, look f t = Ok (ips, d) -> 0 <= d.

Lemma askOne_spec (p : DNSPool) (look : Lookups) (delay : Z) (update : list PeerInfo) (q : string * Qtype) :
  askOne p look (delay, update) q =
    (match foundTtl look q with Some d => Z.min delay d | None => delay end, update ++ found p look q).
Proof.
  unfold askOne, found, foundTtl. destruct (look q.1 q.2) as [[[|ip ips] d]|e]; simpl; by rewrite ?app_nil_r.
Qed.

Lemma askAll_spec (p : DNSPool) (look : Lookups) (qs : list (string * Qtype)) (delay : Z) (update : list PeerInfo) :
  fold_left (askOne p look) qs (delay, update) =
    (foldl Z.min delay (omap (foundTtl look) qs), update ++ (qs ≫= found p look)).
Proof.
  revert delay update. induction qs as [|q qs IH]; intros delay update.
  - simpl. by rewrite app_nil_r.
  - cbn [fold_left]. rewrite askOne_spec, IH, bind_cons, app_assoc. simpl. by destruct (foundTtl look q).
Qed.

Lemma foldl_min_le (ds : list Z) (d : Z) : foldl Z.min d ds <= d /\ forall x, x ∈ ds -> foldl Z.min d ds <= x.
Proof.
  revert d. induction ds as [|y ds IH]; intros d; simpl; [split; [lia|by intros x ?%elem_of_nil]|].
  destruct (IH (Z.min d y)) as [H1 H2]. split; [lia|]. intros x [->|Hx]%elem_of_cons; [lia|by apply H2].
Qed.

Lemma foldl_min_ge (ds : list Z) (d b : Z) : b <= d -> (forall x, x ∈ ds -> b <= x) -> b <= foldl Z.min d ds.
Proof.
  revert d. induction ds as [|y ds IH]; intros d Hd Hb; [done|]. apply IH.
  - assert (b <= y) by (apply Hb; set_solver). lia.
  - intros x Hx. apply Hb. set_solver.
Qed.

Lemma poll_spec (p : DNSPool) (look : Lookups) :
  poll p look =
    match queries p ≫= found p look with
    | [] => (None, noPeersRetryDelay)
    | u => (Some u, foldl Z.min defaultPollDelay (omap (foundTtl look) (queries p)))
    end.
Proof. unfold poll. rewrite askAll_spec. by destruct (queries p ≫= found p look). Qed.

Lemma poll_delay (p : DNSPool) (look : Lookups) : ttls_ok look -> 0 <= (poll p look).2 <= defaultPollDelay.
Proof.
  intros Hok. rewrite poll_spec. destruct (queries p ≫= found p look); simpl; [done|]. split.
  - apply foldl_min_ge; [done|]. intros x (q & _ & Hq)%list_elem_of_omap. unfold foundTtl in Hq.
    destruct (look q.1 q.2) as [[[|ip ips] d]|e] eqn:E; simplify_eq. by eapply Hok.
  - apply (proj1 (foldl_min_le _ _)).
Qed.

(** One round of the DNS pool reports the peers of all names and both address
    families, in order, and nothing when there are none, so that an outage never
    empties the cluster. It looks again after five seconds when it found nothing, and
    otherwise within five minutes and no later than any answer may be kept. *)
Theorem dns_round (p : DNSPool) (look : Lookups) (Httl : ttls_ok look) :
  let peers := queries p ≫= found p look in
  let '(update, delay) := poll p look in
  0 <= delay <= defaultPollDelay /\
  match peers with
  | [] => update = None /\ delay = noPeersRetryDelay
  | _ => update = Some peers /\ forall q d, q ∈ queries p -> foundTtl look q = Some d -> delay <= d
  end.
Proof.
  intros peers. pose proof (poll_delay p look Httl) as Hd. rewrite poll_spec in *. fold peers in Hd |- *.
  destruct peers as [|u us]; [by split|]. split; [done|]. split; [done|].
  intros q d Hq Ht. apply (proj2 (foldl_min_le _ _)), list_elem_of_omap. by exists q.
Qed.

Lemma startOf_step (p : DNSPool) (look : nat -> Lookups) (took : nat -> Z) (bound : Z) (i : nat) :
  ttls_ok (look i) -> 0 < took i <= bound ->
  startOf p look took i < startOf p look took (S i) <= startOf p look took i + bound + defaultPollDelay * Second.
Proof.
  intros Ht Hb. pose proof (poll_delay p (look i) Ht). cbn [startOf]. unfold defaultPollDelay, Second in *. nia.
Qed.

Lemma first_round (p : DNSPool) (look : nat -> Lookups) (took : nat -> Z) (bound t : Z) :
  (forall i, ttls_ok (look i)) -> (forall i, 0 < took i <= bound) -> 0 <= t ->
  exists i, t <= startOf p look took i <= t + bound + defaultPollDelay * Second.
Proof.
  intros Ht Hb H0.
  assert (forall n, (exists i, (i <= n)%nat /\ t <= startOf p look took i <= t + bound + defaultPollDelay * Second) \/
                    Z.of_nat n <= startOf p look took n < t) as Hn.
  { induction n as [|n [(i & Hi & IH)|IH]].
    - destruct (decide (t = 0)) as [->|]; [left; exists O; pose proof (Hb O); unfold defaultPollDelay, Second; simpl; lia|].
      right. simpl. lia.
    - left. exists i. split; [lia|done].
    - pose proof (startOf_step p look took bound n (Ht n) (Hb n)).
      destruct (decide (t <= startOf p look took (S n))); [left; exists (S n); lia|right; lia]. }
  destruct (Hn (Z.to_nat t)) as [(i & _ & Hi)|Hi]; [by exists i|lia].
Qed.

(** C30: The pool recovers, while it is not closed: if every round that starts after some
    moment finds an address, a round that starts after it has reported the peers it finds
    within the poll interval of five minutes and the time that two rounds take for their
    lookups and reports, however long nothing was found before. *)
Theorem dns_recovers (p : DNSPool) (look : nat -> Lookups) (took : nat -> Z) (bound t : Z)
    (Httl : forall i, ttls_ok (look i)) (Htook : forall i, 0 < took i <= bound) (Ht : 0 <= t)
    (Hup : forall i, t <= startOf p look took i -> queries p ≫= found p (look i) <> []) :
  exists i peers, t <= startOf p look took i /\ reportedBy p look took i <= t + defaultPollDelay * Second + 2 * bound /\
    (poll p (look i)).1 = Some peers /\ peers = queries p ≫= found p (look i) /\ peers <> [].
Proof.
  destruct (first_round p look took bound t Httl Htook Ht) as (i & Hi). exists i, (queries p ≫= found p (look i)).
  split; [lia|]. split; [unfold reportedBy; specialize (Htook i); lia|]. specialize (Hup i (proj1 Hi)). rewrite poll_spec.
  by destruct (queries p ≫= found p (look i)).
Qed.

(** ** The owner *)

Lemma lastCut_cut (c : ascii) (s a b : string) : lastCut c s = Some (a, b) -> s = a +:+ String c b.
Proof.
  revert a b. induction s as [|d s IH]; intros a b; cbn [lastCut]; [done|].
  destruct (lastCut c s) as [[a' b']|].
  - intros [= <- <-]. rewrite app_cons. f_equal. by apply IH.
  - destruct (Ascii.eqb_spec c d) as [->|]; [|done]. by intros [= <- <-].
Qed.

Lemma checkBrackets_inv (hp j k h p h' p' : string) : checkBrackets hp j k h p = Ok (h', p') ->
  contains "[" j = false /\ h' = h.
Proof. unfold checkBrackets. repeat case_match; try done. by intros [= <- _]. Qed.

(** The host of an address has no opening bracket left. *)
Lemma SplitHostPort_bare (hostport host port : string) : SplitHostPort hostport = Ok (host, port) ->
  contains "[" host = false.
Proof.
  unfold SplitHostPort. destruct (lastCut ":" hostport) as [[before p]|] eqn:El; [|done].
  apply lastCut_cut in El. destruct (HasPrefix hostport "[") eqn:Eb.
  - destruct (cut "]" hostport) as [[pre post]|] eqn:Ec; [|done]. apply cut_app in Ec.
    repeat (case_match; try done). intros [Hj ->]%checkBrackets_inv. subst hostport.
    rewrite Ec in Hj. destruct pre as [|d pre]; [done|]. rewrite app_cons in Hj. cbn [skipn_s] in *.
    rewrite contains_app in Hj. by apply orb_false_iff in Hj as [? _].
  - destruct (contains ":" before); [done|]. intros [Hj ->]%checkBrackets_inv. subst hostport.
    rewrite contains_app in Hj. by apply orb_false_iff in Hj as [? _].
Qed.

(** A peer found by an IPv4 lookup is marked as this instance exactly when its
    address is the instance's own. A peer found by an IPv6 lookup never is: [peer] puts
    the address in brackets before it compares, and the own address has none. So an
    instance that advertises an IPv6 address never finds itself among its peers. *)
Theorem dns_owner `{DNSLib} (conf : DNSPoolConfig) (config : option (result (list string))) (p : DNSPool)
    (fqdn ip : string) (Hnew : NewDNSPool conf config = Ok p) :
  pi_IsOwner (peer p fqdn ip false) = bool_decide (ip = dp_ownIP p) /\
  pi_IsOwner (peer p fqdn ip true) = false.
Proof.
  split; [unfold peer; simpl; by rewrite bool_decide_decide; case_decide; subst; [apply String.eqb_refl|apply String.eqb_neq]|].
  unfold NewDNSPool in Hnew. destruct (String.eqb _ ""); [done|].
  destruct (SplitHostPort _) as [[own port]|] eqn:Es; [|done]. destruct (newResolver conf config); [|done].
  injection Hnew as <-. apply SplitHostPort_bare in Es. simpl. apply String.eqb_neq. intros ->.
  by rewrite contains_app in Es.
Qed.

(** ** Examples *)

Fixpoint endsInDot (s : string) : bool :=
  match s with
  | EmptyString => false
  | String c EmptyString => Ascii.eqb c "."
  | String _ s => endsInDot s
  end.

Lemma endsInDot_app (s : string) : endsInDot (s +:+ ".") = true.
Proof. induction s as [|c [|d s] IH]; [done..|]. rewrite app_cons in *. exact IH. Qed.

#[refine] Instance demoDNS : DNSLib := {|
  Fqdn s := if endsInDot s then s else s +:+ ".";
  RcodeToString _ := "NXDOMAIN"
|}.
Proof.
  - intros s. destruct (endsInDot s) eqn:E; [by rewrite E|by rewrite endsInDot_app].
  - intros s. destruct (endsInDot s) eqn:E; [by destruct s|by destruct s].
Defined.

(** One name with one IPv4 and one IPv6 address, on an instance at the IPv6 one. *)
Definition demoConf : DNSPoolConfig :=
  mkDNSPoolConfig " gubernator.local, " "/etc/resolv.conf" ["10.0.0.53:53"] "[fd00::1]:1051" "".

Definition demoDNSPool : DNSPool := mkDNSPool ["10.0.0.53:53"] ["gubernator.local."] "fd00::1" "1051" "".

Definition demoLook : Lookups := fun f t =>
  lookupHost (Ok (mkMsg 0 (match t with TypeA => [RRA "10.0.0.1" 60] | TypeAAAA => [RRAAAA "fd00::1" 90; RROther 20] end))).

Lemma demoLook_ttls : ttls_ok demoLook.
Proof. intros f [] ips d; vm_compute; intros [= _ <-]; discriminate. Qed.

Lemma dns_owner_witness : NewDNSPool demoConf None = Ok demoDNSPool /\
  pi_IsOwner (peer demoDNSPool "gubernator.local." "fd00::1" true) = false.
Proof.
  split; [reflexivity|]. exact (proj2 (dns_owner demoConf None demoDNSPool "gubernator.local." "fd00::1" eq_refl)).
Defined.

Lemma dns_round_witness : poll demoDNSPool demoLook =
    (Some [mkPeerInfo "" "" "10.0.0.1:1051" false; mkPeerInfo "" "" "[fd00::1]:1051" false], 20) /\
  (poll demoDNSPool demoLook).2 <= 300.
Proof.
  split; [reflexivity|]. pose proof (dns_round demoDNSPool demoLook demoLook_ttls) as Hr.
  destruct (poll demoDNSPool demoLook) as [u d]. apply Hr.
Defined.

Lemma dns_recovers_witness : exists i peers, 7 <= startOf demoDNSPool (fun _ => demoLook) (fun _ => 1) i /\
  reportedBy demoDNSPool (fun _ => demoLook) (fun _ => 1) i <= 7 + 300 * Second + 2 /\ (poll demoDNSPool demoLook).1 = Some peers.
Proof.
  destruct (dns_recovers demoDNSPool (fun _ => demoLook) (fun _ => 1) 1 7) as (i & peers & Hi & Hr & Hu & _).
  - intros _. exact demoLook_ttls.
  - intros _. lia.
  - lia.
  - intros _ _. discriminate.
  - exists i, peers. split; [exact Hi|]. split; [exact Hr|exact Hu].
Defined.
