(* ===== verification/MemberList.v ===== *)
(** * Peer discovery through member-list gossip ([memberlist.go])

    The event handler turns the joins, updates and leaves the gossip library reports into
    the list of peers; the pool configures the library. The library itself, host lookups
    and the decoder of the format used by old versions are arguments. *)

From stdpp Require Import base gmap strings list pretty fin_map_dom.
From Stdlib Require Import ZArith Lia Ascii.
From S2P Require Import Prelude Float64 GoStrings ReplicatedHash PeerJSON.

Local Open Scope Z_scope.

(** ** Addresses *)

(** [getIP]: the host of an address, empty when it is not one. *)
Definition getIP (address : string) : string :=
  match SplitHostPort address with
  | Ok (addr, _) => addr
  | Err _ => ""
  end.

Definition makeAddress (ip : string) (port : Z) : string := JoinHostPort ip (pretty port).

Definition splitAddress (addr : string) : result (string * Z) :=
  match SplitHostPort addr with
  | Err _ => Err (ErrNew " expected format is `address:port`")
  | Ok (host, port) =>
      match Atoi port with
      | Err e => Err (ErrWrap "port must be a number" e)
      | Ok p => Ok (host, p)
      end
  end.

(** ** The event handler *)

(** [ml.Node]: the text of [Address()], and the metadata. *)
Record MLNode : Type := mkNode { n_Address : string; n_Meta : string }.

Inductive MLEvent : Type :=
  | AddPeer (n : MLNode)
  | NotifyJoin (n : MLNode)
  | NotifyLeave (n : MLNode)
  | NotifyUpdate (n : MLNode).

(** The peers known, by IP address, and the calls of [OnUpdate] so far. *)
Record Handler : Type := mkHandler {
  h_peers : gmap string PeerInfo;
  h_reports : list (list PeerInfo)
}.

Definition newMemberListEventHandler : Handler := mkHandler ∅ [].

Section EventHandler.
(** [gob.Decoder.Decode(&peer)] on metadata: the peer afterwards, and the error if any. *)
Variable gobDecode : string -> PeerInfo -> PeerInfo * option gerror.
(** [conf.Advertise.GRPCAddress] *)
Variable own : string.

Definition with_IsOwner (b : bool) (p : PeerInfo) : PeerInfo :=
  mkPeerInfo (pi_DataCenter p) (pi_HTTPAddress p) (pi_GRPCAddress p) b.

(** [unmarshallPeer]: the peer, and the error if any. The metadata of old versions is
    decoded into [peer], and [metadata] stays empty. *)
Definition unmarshallPeer (b ip : string) : PeerInfo * option gerror :=
  match Unmarshal b zeroPeer with
  | (p, true) => (p, None)
  | (p, false) =>
      match gobDecode b p with
      | (p, Some e) => (p, Some (ErrWrap "error decoding peer" e))
      | (_, None) => (mkPeerInfo "" "" (makeAddress ip 0) false, None)
      end
  end.

Definition markOwner (p : PeerInfo) : PeerInfo :=
  if String.eqb (pi_GRPCAddress p) own then with_IsOwner true p else p.

(** [callOnUpdate] reports the peers, in some order of the map. *)
Definition callOnUpdate (peers : gmap string PeerInfo) (h : Handler) : Handler :=
  mkHandler peers (h_reports h ++ [markOwner <$> (map_to_list peers).*2]).

Definition setPeer (ip : string) (p : PeerInfo) (h : Handler) : Handler :=
  callOnUpdate (<[ip := p]> (h_peers h)) h.

(** The methods of the handler. An update that cannot be read is logged, and what was read
    of it is stored all the same. *)
Definition handle (h : Handler) (ev : MLEvent) : Handler :=
  match ev with
  | AddPeer n =>
      let ip := getIP (n_Address n) in
      match unmarshallPeer (n_Meta n) ip with
      | (_, Some _) => h
      | (p, None) => setPeer ip p h
      end
  | NotifyJoin n =>
      let ip := getIP (n_Address n) in
      match unmarshallPeer (n_Meta n) ip with
      | (_, Some _) => h
      | (p, None) => setPeer ip (with_IsOwner false p) h
      end
  | NotifyLeave n => callOnUpdate (delete (getIP (n_Address n)) (h_peers h)) h
  | NotifyUpdate n =>
      let ip := getIP (n_Address n) in
      setPeer ip (with_IsOwner false (unmarshallPeer (n_Meta n) ip).1) h
  end.

Definition handleAll : Handler -> list MLEvent -> Handler := foldl handle.
End EventHandler.

(** ** Joining *)

(** What [joinPool] returns when [retry.Until] returned [joined]. *)
Definition joinResult (joined : result unit) : result unit :=
  match joined with
  | Ok _ => Ok tt
  | Err e => Err (ErrWrap "timed out attempting to join member list" e)
  end.

(** [joinPool], with the handler as the events of the join have left it: the local node,
    with its advertised peer as metadata, is added when the join succeeded. *)
Definition joinPool (gobDecode : string -> PeerInfo -> PeerInfo * option gerror) (address : string)
    (Advertise : PeerInfo) (joined : result unit) (h : Handler) : result Handler :=
  match joinResult joined with
  | Err e => Err e
  | Ok _ => Ok (handle gobDecode (pi_GRPCAddress Advertise) h (AddPeer (mkNode address (Marshal Advertise))))
  end.

(** ** Configuration of the library *)

(** [base64.StdEncoding.DecodeString] *)
Definition base64Val (c : ascii) : option Z :=
  let b := byte c in
  if between 65 90 b then Some (b - 65)
  else if between 97 122 b then Some (b - 71)
  else if between 48 57 b then Some (b + 4)
  else if b =? 43 then Some 62
  else if b =? 47 then Some 63
  else None.

Fixpoint dropNewlines (s : string) : string :=
  match s with
  | EmptyString => EmptyString
  | String c s => if (byte c =? 10) || (byte c =? 13) then dropNewlines s else String c (dropNewlines s)
  end.

Fixpoint base64Groups (s : string) : option string :=
  match s with
  | EmptyString => Some EmptyString
  | String a (String b (String c (String d r))) =>
      match base64Val a, base64Val b with
      | Some a, Some b =>
          match base64Val c, base64Val d with
          | Some c, Some d =>
              match base64Groups r with
              | Some t => Some (bytes [a * 4 + b / 16; b mod 16 * 16 + c / 4; c mod 4 * 64 + d] +:+ t)
              | None => None
              end
          | Some c, None => if Ascii.eqb d "=" && String.eqb r "" then Some (bytes [a * 4 + b / 16; b mod 16 * 16 + c / 4]) else None
          | None, None => if Ascii.eqb c "=" && Ascii.eqb d "=" && String.eqb r "" then Some (bytes [a * 4 + b / 16]) else None
          | None, Some _ => None
          end
      | _, _ => None
      end
  | _ => None
  end.

Definition base64Decode (s : string) : option string := base64Groups (dropNewlines s).

(** The fields of [ml.Config] that are set; [None] where the library's default stays. *)
Record MLConfig : Type := mkMLConfig {
  ml_AdvertiseAddr : string;
  ml_AdvertisePort : Z;
  ml_Bind : option (string * Z);
  ml_GossipVerify : option (bool * bool);
  ml_Keyring : list string;
  ml_SecretKey : option string;
  ml_Name : option string
}.

Record MemberListEncryptionConfig : Type := mkEncryption {
  ec_SecretKeys : list string;
  ec_GossipVerifyIncoming : bool;
  ec_GossipVerifyOutgoing : bool
}.

Record MemberListPoolConfig : Type := mkMLPoolConfig {
  mp_Advertise : PeerInfo;
  mp_MemberListBindAddress : string;
  mp_MemberListAddress : string;
  mp_KnownNodes : list string;
  mp_NodeName : string;
  mp_EncryptionConfig : MemberListEncryptionConfig
}.

Section Pool.
(** [net.ParseIP(host) != nil]; [net.LookupHost]; [Keyring.AddKey] on a key. *)
Variable isIP : string -> bool.
Variable LookupHost : string -> result (list string).
Variable AddKey : string -> result unit.

(** The address of a host that may be a name; [pkg/errors.Wrapf] of no error is no error,
    so a lookup without addresses makes the constructor return neither pool nor error. *)
Inductive resolved : Type := Resolved (ip : string) | LookupFailed (e : gerror) | NoAddress.

Definition resolveHost (what host : string) : resolved :=
  if isIP host then Resolved host
  else
    match LookupHost host with
    | Err e => LookupFailed (ErrWrap ("while preforming " +:+ what +:+ " lookup for '" +:+ host +:+ "'") e)
    | Ok [] => NoAddress
    | Ok (a :: _) => Resolved a
    end.

(** The keys, decoded and added in order. *)
Fixpoint addKeys (i : Z) (keys : list string) : result (list string) :=
  match keys with
  | [] => Ok []
  | k :: ks =>
      match base64Decode (TrimSpace k) with
      | None => Err (ErrWrap ("unable to base64 decode memberlist encryption key at index " +:+ pretty i)
                       (ErrNew "illegal base64 data"))
      | Some secret =>
          match AddKey secret with
          | Err e => Err (ErrWrap ("unable to add secret key at index " +:+ pretty i +:+ " to memberlist") e)
          | Ok _ => match addKeys (i + 1) ks with
                    | Err e => Err e
                    | Ok ss => Ok (secret :: ss)
                    end
          end
      end
  end.

(** [NewMemberListPool] up to [ml.Create]: the configuration, an error, or [None] for the
    return of neither. *)
Definition mlConfig (conf : MemberListPoolConfig) : option (result MLConfig) :=
  match splitAddress (mp_MemberListAddress conf) with
  | Err e => Some (Err (ErrWrap "MemberListAddress=`%s` is invalid;" e))
  | Ok (host, port) =>
      match resolveHost "host" host with
      | NoAddress => None
      | LookupFailed e => Some (Err e)
      | Resolved host =>
          let bind :=
            if String.eqb (mp_MemberListBindAddress conf) "" then Some (Ok None)
            else
              match splitAddress (mp_MemberListBindAddress conf) with
              | Err e => Some (Err (ErrWrap "MemberListBindAddress=`%s` is invalid;" e))
              | Ok (bindHost, bindPort) =>
                  match resolveHost "bind host" bindHost with
                  | NoAddress => None
                  | LookupFailed e => Some (Err e)
                  | Resolved ip => Some (Ok (Some (ip, bindPort)))
                  end
              end in
          match bind with
          | None => None
          | Some (Err e) => Some (Err e)
          | Some (Ok bind) =>
              let enc := mp_EncryptionConfig conf in
              match addKeys 0 (ec_SecretKeys enc) with
              | Err e => Some (Err e)
              | Ok keys =>
                  Some (Ok (mkMLConfig host port bind
                    (match keys with [] => None | _ => Some (ec_GossipVerifyIncoming enc, ec_GossipVerifyOutgoing enc) end)
                    keys (head keys) (if String.eqb (mp_NodeName conf) "" then None else Some (mp_NodeName conf))))
              end
          end
      end
  end.

(** [NewMemberListPool]: the pool, as its handler is when it returns, an error, or neither.
    [Create] is [ml.Create], with the address of the local node; [events] is what the
    library reports until the join is over, and [joined] how [retry.Until] returned. *)
Definition NewMemberListPool (gobDecode : string -> PeerInfo -> PeerInfo * option gerror) (Create : MLConfig -> result string)
    (events : list MLEvent) (joined : result unit) (conf : MemberListPoolConfig) : option (result Handler) :=
  match mlConfig conf with
  | None => None
  | Some (Err e) => Some (Err e)
  | Some (Ok config) =>
      match Create config with
      | Err e => Some (Err e)
      | Ok address =>
          let h := handleAll gobDecode (pi_GRPCAddress (mp_Advertise conf)) newMemberListEventHandler events in
          Some (match joinPool gobDecode address (mp_Advertise conf) joined h with
                | Err e => Err (ErrWrap "while attempting to join the member-list pool" e)
                | Ok h => Ok h
                end)
      end
  end.

(** [Close], where [Memberlist.Leave] returned [left]: the warning it logs. *)
Definition Close (left : result unit) : option gerror :=
  match left with Ok _ => None | Err e => Some (ErrWrap "while leaving member-list" e) end.
End Pool.

(** ** Properties *)

(** A member of the cluster: where it gossips, and what it advertises. *)
Record Member : Type := mkMember { mb_host : string; mb_port : string; mb_info : PeerInfo }.

#[global] Instance Member_eq_dec : EqDecision Member.
Proof. solve_decision. Defined.

Definition member_ok (m : Member) : bool := addressable (mb_host m) (mb_port m) && valid_peer (mb_info m).

(** What the library reports of a member ([joinPool] sets the metadata). *)
Definition nodeOf (m : Member) : MLNode := mkNode (JoinHostPort (mb_host m) (mb_port m)) (Marshal (mb_info m)).

Inductive change : Type := Joins (m : Member) | Leaves (m : Member).

Definition changed (c : change) : Member := match c with Joins m => m | Leaves m => m end.

Definition eventOf (c : change) : MLEvent :=
  match c with Joins m => NotifyJoin (nodeOf m) | Leaves m => NotifyLeave (nodeOf m) end.

(** The members there are after the changes. *)
Definition present (c : change) (ms : list Member) : list Member :=
  match c with
  | Joins m => m :: filter (fun x => x <> m) ms
  | Leaves m => filter (fun x => x <> m) ms
  end.

Definition membersAfter (cs : list change) : list Member := foldl (fun ms c => present c ms) [] cs.

(** One member per host. *)
Definition hosts_distinct (ms : list Member) : Prop :=
  forall a b, a ∈ ms -> b ∈ ms -> mb_host a = mb_host b -> a = b.

Lemma hosts_distinct_mono (ms ms' : list Member) : ms' ⊆ ms -> hosts_distinct ms -> hosts_distinct ms'.
Proof. intros Hs Hd a b Ha Hb. by apply Hd; apply Hs. Qed.

#[local] Set Warnings "-clear-no-such-hyp".

Section Tracks.
Variable gobDecode : string -> PeerInfo -> PeerInfo * option gerror.
Variable own : string.

Lemma getIP_node (m : Member) : member_ok m = true -> getIP (n_Address (nodeOf m)) = mb_host m.
Proof. intros [Ha _]%andb_true_iff. unfold getIP. simpl. by rewrite SplitHostPort_Join. Qed.

Lemma unmarshall_node (m : Member) (ip : string) : member_ok m = true ->
  unmarshallPeer gobDecode (n_Meta (nodeOf m)) ip = (mb_info m, None).
Proof.
  intros [_ Hv]%andb_true_iff. unfold unmarshallPeer. simpl.
  assert (Unmarshal (Marshal (mb_info m)) zeroPeer = (mb_info m, true)) as -> by (by apply unmarshal_marshal). done.
Qed.

Lemma handle_change (h : Handler) (c : change) : member_ok (changed c) = true ->
  h_peers (handle gobDecode own h (eventOf c)) =
    match c with
    | Joins m => <[mb_host m := with_IsOwner false (mb_info m)]> (h_peers h)
    | Leaves m => delete (mb_host m) (h_peers h)
    end.
Proof.
  intros Hm. destruct c as [m|m]; unfold eventOf, handle; rewrite (getIP_node m Hm); [|done].
  by rewrite unmarshall_node.
Qed.

Lemma handle_change_report (h : Handler) (c : change) : member_ok (changed c) = true ->
  last (h_reports (handle gobDecode own h (eventOf c))) =
    Some (markOwner own <$> (map_to_list (h_peers (handle gobDecode own h (eventOf c)))).*2).
Proof.
  intros Hm. destruct c as [m|m]; unfold eventOf, handle; rewrite (getIP_node m Hm);
    rewrite ?(unmarshall_node m _ Hm); simpl; by rewrite last_snoc.
Qed.

Definition entries (ms : list Member) : list (string * PeerInfo) :=
  (fun m => (mb_host m, with_IsOwner false (mb_info m))) <$> ms.

Lemma entries_leave (m : Member) (ms : list Member) : hosts_distinct (m :: ms) ->
  list_to_map (M := gmap string PeerInfo) (entries (filter (fun x => x <> m) ms)) = delete (mb_host m) (list_to_map (entries ms)).
Proof.
  induction ms as [|x ms IH]; intros Hd; [symmetry; apply delete_empty|].
  assert (hosts_distinct (m :: ms)) as Hd' by (eapply hosts_distinct_mono; [|exact Hd]; set_solver).
  rewrite filter_cons. case_decide as Hx; simpl.
  - rewrite delete_insert_ne; [by rewrite IH|]. intros Hh. apply Hx. symmetry. apply Hd; set_solver.
  - subst x. by rewrite delete_insert_eq, IH.
Qed.

Lemma present_incl (c : change) (ms : list Member) (x : Member) : x ∈ present c ms -> x = changed c \/ x ∈ ms.
Proof.
  destruct c; simpl; [intros [->|Hx]%elem_of_cons; [by left|]|intros Hx]; apply list_elem_of_filter in Hx as [_ ?]; by right.
Qed.

Lemma present_nodup (c : change) (ms : list Member) : NoDup ms -> NoDup (present c ms).
Proof.
  intros Hn. assert (NoDup (filter (fun x => x <> changed c) ms)) by (by apply NoDup_filter).
  destruct c as [m|m]; simpl in *; [|done]. constructor; [|done]. intros [? _]%list_elem_of_filter. done.
Qed.

(** The map of the handler is the list of members. *)
Lemma tracks (cs : list change) :
  Forall (fun m => member_ok m = true) (changed <$> cs) -> hosts_distinct (changed <$> cs) ->
  h_peers (handleAll gobDecode own newMemberListEventHandler (eventOf <$> cs)) =
    list_to_map (entries (membersAfter cs)) /\
  NoDup (membersAfter cs) /\ forall x, x ∈ membersAfter cs -> x ∈ changed <$> cs.
Proof.
  induction cs as [|c cs IH] using rev_ind; [split; [done|split; [constructor|by intros x ?%elem_of_nil]]|].
  rewrite fmap_app, Forall_app, list_fmap_singleton, Forall_singleton. intros [Hok Hc] Hd.
  destruct IH as (IHp & IHn & IHi); [done|eapply hosts_distinct_mono; [|exact Hd]; set_solver|].
  unfold handleAll, membersAfter. rewrite fmap_app, !foldl_app. simpl.
  fold (handleAll gobDecode own newMemberListEventHandler (eventOf <$> cs)). fold (membersAfter cs).
  split; [|split; [by apply present_nodup|intros x [->|Hx]%present_incl; [set_solver|]; specialize (IHi x Hx); set_solver]].
  rewrite handle_change, IHp by done.
  assert (hosts_distinct (changed c :: membersAfter cs)) as Hd'.
  { eapply hosts_distinct_mono; [|exact Hd]. intros x [->|Hx]%elem_of_cons; [set_solver|]. specialize (IHi x Hx). set_solver. }
  destruct c as [m|m]; simpl in *; rewrite entries_leave by done; [by rewrite insert_delete_eq|done].
Qed.

Lemma entries_hosts (ms : list Member) : NoDup ms -> hosts_distinct ms -> NoDup (entries ms).*1.
Proof.
  intros Hn Hd. unfold entries. rewrite <- list_fmap_compose. apply NoDup_fmap_2_strong; [|done].
  intros a b Ha Hb. by apply Hd.
Qed.
End Tracks.

(** C27: With one member per host, whatever the order in which members join and leave,
    the last list the handler reports holds exactly the members that are there, each
    as it advertised itself, and marks as this instance exactly those with its own
    address. *)
Theorem member_list_tracks (gobDecode : string -> PeerInfo -> PeerInfo * option gerror) (own : string)
    (cs : list change) (c : change)
    (Hok : Forall (fun m => member_ok m = true) (changed <$> cs ++ [c]))
    (Hd : hosts_distinct (changed <$> cs ++ [c])) :
  exists report,
    last (h_reports (handleAll gobDecode own newMemberListEventHandler (eventOf <$> cs ++ [c]))) = Some report /\
    report ≡ₚ (fun m => with_IsOwner (bool_decide (pi_GRPCAddress (mb_info m) = own)) (mb_info m)) <$>
              membersAfter (cs ++ [c]).
Proof.
  destruct (tracks gobDecode own (cs ++ [c]) Hok Hd) as (Hp & Hn & Hi).
  assert (member_ok (changed c) = true) as Hc 
    by (rewrite fmap_app, Forall_app in Hok; destruct Hok as [_ Hc]; by inversion Hc).
  eexists. split.
  - unfold handleAll. rewrite fmap_app, foldl_app. by apply handle_change_report.
  - unfold handleAll in Hp. rewrite fmap_app, foldl_app in Hp. simpl in Hp. rewrite Hp, map_to_list_to_map.
    + unfold entries. rewrite <- !list_fmap_compose. apply reflexive_eq, list_fmap_ext. intros _ m _. simpl.
      unfold markOwner, with_IsOwner. simpl. rewrite bool_decide_decide.
      destruct (String.eqb_spec (pi_GRPCAddress (mb_info m)) own); by case_decide.
    + apply entries_hosts; [done|]. intros a b Ha Hb. apply Hd; by apply Hi.
Qed.

(** An IPv6 and an IPv4 member; the second one leaves. *)
Definition memberA : Member := mkMember "fd00::1" "7946" (mkPeerInfo "east" "" "[fd00::1]:1051" false).
Definition memberB : Member := mkMember "10.0.0.2" "7946" (mkPeerInfo "east" "" "10.0.0.2:1051" false).

Definition noGob : string -> PeerInfo -> PeerInfo * option gerror := fun _ p => (p, Some (ErrNew "EOF")).

Lemma member_list_tracks_witness : exists report,
  last (h_reports (handleAll noGob "[fd00::1]:1051" newMemberListEventHandler
    (eventOf <$> [Joins memberA; Joins memberB] ++ [Leaves memberB]))) = Some report /\
  report ≡ₚ [mkPeerInfo "east" "" "[fd00::1]:1051" true].
Proof.
  apply (member_list_tracks noGob "[fd00::1]:1051" [Joins memberA; Joins memberB] (Leaves memberB)).
  - do 3 (apply Forall_cons_2; [vm_compute; reflexivity|]). apply Forall_nil_2.
  - intros a b Ha Hb Hh. repeat (apply elem_of_cons in Ha as [->|Ha]; [|]); try (by apply elem_of_nil in Ha);
      repeat (apply elem_of_cons in Hb as [->|Hb]; [|]); try (by apply elem_of_nil in Hb); done.
Defined.

(** Two members on one host share an entry: the second replaces the first, and when
    either leaves the host is gone from the list although the other is still there. *)
Theorem member_list_one_per_host (gobDecode : string -> PeerInfo -> PeerInfo * option gerror) (own : string)
    (a b : Member) (Ha : member_ok a = true) (Hb : member_ok b = true) (Hh : mb_host a = mb_host b) :
  h_peers (handleAll gobDecode own newMemberListEventHandler (eventOf <$> [Joins a; Joins b])) =
    {[ mb_host b := with_IsOwner false (mb_info b) ]} /\
  h_peers (handleAll gobDecode own newMemberListEventHandler (eventOf <$> [Joins a; Joins b; Leaves b])) = ∅.
Proof.
  unfold handleAll. rewrite !fmap_cons, fmap_nil. cbn [foldl]. rewrite !handle_change by done. simpl. rewrite Hh, insert_insert_eq, delete_insert_eq.
  split; [done|by rewrite delete_empty].
Qed.

(** Metadata in the format of old versions is never understood: whatever it says, the
    peer is taken to serve on port 0 of the address the gossip came from. *)
Theorem legacy_peer_on_port_zero (gobDecode : string -> PeerInfo -> PeerInfo * option gerror) (meta ip : string)
    (p : PeerInfo) (Hjson : Unmarshal meta zeroPeer = (p, false)) (Hgob : (gobDecode meta p).2 = None) :
  unmarshallPeer gobDecode meta ip = (mkPeerInfo "" "" (JoinHostPort ip "0") false, None).
Proof. unfold unmarshallPeer. rewrite Hjson. destruct (gobDecode meta p) as [p' o]. simpl in Hgob. by subst o. Qed.

(** An update that cannot be read replaces the peer by what could be read, possibly
    nothing: a known peer becomes one without an address. *)
Theorem unreadable_update_erases (own : string) (h : Handler) (m : Member) (Hm : member_ok m = true) :
  h_peers (handle noGob own h (NotifyUpdate (mkNode (n_Address (nodeOf m)) ""))) = <[mb_host m := zeroPeer]> (h_peers h).
Proof. unfold handle. cbn [n_Address n_Meta]. by rewrite (getIP_node m Hm). Qed.

(** Once joined, the instance is in the list it reports, marked as itself, beside every
    peer of another host that the events had added. *)
Theorem joined_lists_itself (gobDecode : string -> PeerInfo -> PeerInfo * option gerror) (m : Member) (h : Handler)
    (Hm : member_ok m = true) :
  exists h' report,
    joinPool gobDecode (n_Address (nodeOf m)) (mb_info m) (Ok tt) h = Ok h' /\
    last (h_reports h') = Some report /\
    with_IsOwner true (mb_info m) ∈ report /\
    forall host p, host <> mb_host m -> h_peers h !! host = Some p -> markOwner (pi_GRPCAddress (mb_info m)) p ∈ report.
Proof.
  set (own := pi_GRPCAddress (mb_info m)).
  assert (joinPool gobDecode (n_Address (nodeOf m)) (mb_info m) (Ok tt) h = Ok (setPeer own (mb_host m) (mb_info m) h)) as ->
    by (unfold joinPool, handle; cbn [joinResult n_Address]; rewrite (getIP_node m Hm);
        change (n_Meta _) with (n_Meta (nodeOf m)); by rewrite (unmarshall_node gobDecode m _ Hm)).
  set (peers := <[mb_host m := mb_info m]> (h_peers h)).
  assert (forall host p, peers !! host = Some p -> markOwner own p ∈ markOwner own <$> (map_to_list peers).*2) as Hin.
  { intros host p Hp. apply list_elem_of_fmap. exists p. split; [done|]. apply list_elem_of_fmap.
    exists (host, p). split; [done|]. by apply elem_of_map_to_list. }
  eexists _, _. split; [done|]. split; [by simpl; rewrite last_snoc|]. split.
  - specialize (Hin (mb_host m) (mb_info m)). unfold markOwner in Hin at 1. rewrite String.eqb_refl in Hin.
    apply Hin. apply lookup_insert_eq.
  - intros host p Hne Hp. apply (Hin host p). unfold peers. by rewrite lookup_insert_ne.
Qed.

(** A pool that could be configured and created, and that joined, reports itself and
    every member of another host that joined in the meantime and did not leave. *)
Theorem new_pool_lists_members (isIP : string -> bool) (LookupHost : string -> result (list string)) (AddKey : string -> result unit)
    (gobDecode : string -> PeerInfo -> PeerInfo * option gerror) (Create : MLConfig -> result string) (conf : MemberListPoolConfig)
    (config : MLConfig) (m : Member) (cs : list change)
    (Hconfig : mlConfig isIP LookupHost AddKey conf = Some (Ok config)) (Hcreate : Create config = Ok (n_Address (nodeOf m)))
    (Hm : member_ok m = true) (Hself : mp_Advertise conf = mb_info m)
    (Hok : Forall (fun m => member_ok m = true) (changed <$> cs)) (Hd : hosts_distinct (changed <$> cs)) :
  exists h report,
    NewMemberListPool isIP LookupHost AddKey gobDecode Create (eventOf <$> cs) (Ok tt) conf = Some (Ok h) /\
    last (h_reports h) = Some report /\ with_IsOwner true (mb_info m) ∈ report /\
    forall x, x ∈ membersAfter cs -> mb_host x <> mb_host m ->
      markOwner (pi_GRPCAddress (mb_info m)) (with_IsOwner false (mb_info x)) ∈ report.
Proof.
  unfold NewMemberListPool. rewrite Hconfig, Hcreate, Hself. set (own := pi_GRPCAddress (mb_info m)).
  destruct (tracks gobDecode own cs Hok Hd) as (Hp & Hn & Hi).
  destruct (joined_lists_itself gobDecode m (handleAll gobDecode own newMemberListEventHandler (eventOf <$> cs)) Hm)
    as (h & report & -> & Hr & Hin & Hothers).
  exists h, report. split; [done|]. split; [done|]. split; [done|]. intros x Hx Hne. apply (Hothers (mb_host x)); [done|].
  rewrite Hp. apply elem_of_list_to_map_1.
  - apply entries_hosts; [done|]. intros a b Ha Hb. apply Hd; by apply Hi.
  - apply list_elem_of_fmap. by exists x.
Qed.

Definition poolConf : MemberListPoolConfig :=
  mkMLPoolConfig (mb_info memberB) "" "10.0.0.2:7946" ["[fd00::1]:7946"] "" (mkEncryption [] true true).

Lemma new_pool_lists_members_witness : exists h report,
  NewMemberListPool (fun _ => true) (fun _ => Ok []) (fun _ => Ok tt) noGob (fun _ => Ok "10.0.0.2:7946") (eventOf <$> [Joins memberA]) (Ok tt) poolConf =
    Some (Ok h) /\ last (h_reports h) = Some report /\ with_IsOwner true (mb_info memberB) ∈ report /\
  forall x, x ∈ membersAfter [Joins memberA] -> mb_host x <> mb_host memberB ->
    markOwner (pi_GRPCAddress (mb_info memberB)) (with_IsOwner false (mb_info x)) ∈ report.
Proof.
  eapply (new_pool_lists_members _ _ _ noGob _ poolConf _ memberB [Joins memberA]); [vm_compute; reflexivity|reflexivity..| |].
  - apply Forall_singleton. reflexivity.
  - intros a b ->%list_elem_of_singleton ->%list_elem_of_singleton _. done.
Defined.
