(* ===== verification/EtcdPool.v ===== *)
(** * Peer discovery through etcd ([etcd.go])

    An instance puts its own [PeerInfo] under a lease that it keeps alive, and watches
    the keys of the others. The answers of etcd are arguments; the goroutines are
    transition functions over what they receive. *)

From stdpp Require Import base gmap strings list.
From Stdlib Require Import ZArith Lia Ascii.
From S2P Require Import Prelude Float64 GoTime GoStrings ReplicatedHash PeerJSON MemberList.

Local Open Scope Z_scope.
#[local] Set Warnings "-clear-no-such-hyp".

Definition defaultBaseKey : string := "/gubernator/peers/".
Definition leaseTTL : Z := 30.

Record EtcdPoolConfig : Type := mkEtcdConf {
  ep_Advertise : PeerInfo;
  ep_HasClient : bool;
  ep_KeyPrefix : string
}.

(** ** The list of peers *)

(** The peers by GRPC address, and the calls of [OnUpdate] so far. *)
Record EtcdPool : Type := mkEtcdPool {
  et_peers : gmap string PeerInfo;
  et_reports : list (list PeerInfo)
}.

Definition newEtcdPool : EtcdPool := mkEtcdPool ∅ [].

(** [unMarshallValue]: a value that is not JSON is an address put by an old version. *)
Definition unMarshallValue (v : string) : PeerInfo :=
  match Unmarshal v zeroPeer with
  | (p, true) => p
  | (_, false) => mkPeerInfo "" "" v false
  end.

Definition collect (kvs : list string) : gmap string PeerInfo :=
  foldl (fun m v => let p := unMarshallValue v in <[pi_GRPCAddress p := p]> m) ∅ kvs.

(** [callOnUpdate] reports the peers, in some order of the map. *)
Definition reportPeers (own : string) (peers : gmap string PeerInfo) : list PeerInfo :=
  markOwner own <$> (map_to_list peers).*2.

(** [collectPeers]; [got] is what the [Get] on the prefix returned. *)
Definition collectPeers (conf : EtcdPoolConfig) (got : result (list string)) (e : EtcdPool) : result unit * EtcdPool :=
  match got with
  | Err err => (Err (ErrWrap ("while fetching peer listing from '" +:+ ep_KeyPrefix conf +:+ "'") err), e)
  | Ok kvs => let peers := collect kvs in
              (Ok tt, mkEtcdPool peers (et_reports e ++ [reportPeers (pi_GRPCAddress (ep_Advertise conf)) peers]))
  end.

(** [GetPeers] *)
Definition GetPeers (conf : EtcdPoolConfig) (got : result (list string)) : result (list PeerInfo) :=
  match got with
  | Err err => Err (ErrWrap ("while fetching peer listing from '" +:+ ep_KeyPrefix conf +:+ "'") err)
  | Ok kvs => Ok (unMarshallValue <$> kvs)
  end.

(** ** The watch *)

(** [watchPeers]: the list is read, then the watch is started, or times out. *)
Definition watchPeers (conf : EtcdPoolConfig) (got : result (list string)) (ready : bool) (e : EtcdPool)
    : result unit * EtcdPool :=
  match collectPeers conf got e with
  | (Err err, e) => (Err err, e)
  | (Ok _, e) => (if ready then Ok tt else Err (ErrNew "timed out while waiting for watcher.Watch() to start"), e)
  end.

(** What the goroutine of [watch] receives: a response that the watch was cancelled or
    that has an error, one with changes, or the end of the channel. A restart comes with
    whether the pool is shutting down and with what [watchPeers] then meets. *)
Record Restart : Type := mkRestart { rs_shutdown : bool; rs_got : result (list string); rs_ready : bool; rs_doneInBackoff : bool }.

Inductive WatchEvent : Type :=
  | WCanceled
  | WError (r : Restart)
  | WChange (got : result (list string))
  | WClosed (r : Restart).

(** The label [restart]; [false]: the goroutine ends. *)
Definition restart (conf : EtcdPoolConfig) (r : Restart) (e : EtcdPool) : bool * EtcdPool :=
  if rs_shutdown r then (false, e)
  else
    match watchPeers conf (rs_got r) (rs_ready r) e with
    | (Ok _, e) => (true, e)
    | (Err _, e) => (negb (rs_doneInBackoff r), e)
    end.

Definition watchEvent (conf : EtcdPoolConfig) (ev : WatchEvent) (e : EtcdPool) : bool * EtcdPool :=
  match ev with
  | WCanceled => (false, e)
  | WError r => restart conf r e
  | WChange got => (true, (collectPeers conf got e).2)
  | WClosed r => restart conf r e
  end.

(** [watch]: events until one ends the goroutine. *)
Fixpoint watchAll (conf : EtcdPoolConfig) (evs : list WatchEvent) (e : EtcdPool) : EtcdPool :=
  match evs with
  | [] => e
  | ev :: evs => match watchEvent conf ev e with
                 | (true, e) => watchAll conf evs e
                 | (false, e) => e
                 end
  end.

(** ** Registration *)

(** The calls on etcd besides the grant of leases. *)
Inductive EtcdCall : Type :=
  | Put (key value : string) (lease : Z)
  | Delete (key : string)
  | Revoke (lease : Z).

(** The variable [keepAlive]: nil, a channel on which answers arrive, or a closed one. *)
Inductive KeepAlive : Type := NilChannel | OpenChannel | ClosedChannel.

(** How an attempt to register ends: it takes a lease, puts the key, and asks to keep the
    lease alive. An error of the last comes with the channel returned beside it. *)
Inductive Attempt : Type :=
  | GrantFailed (e : gerror)
  | PutFailed (lease : Z) (e : gerror)
  | KeepAliveFailed (lease : Z) (e : gerror) (channel : KeepAlive)
  | Registered (lease : Z).

(** The variables of [register] its goroutine shares, [keepAlive], [lease] and
    [lastKeepAlive]; and the calls made, each with whether it succeeded. *)
Record Registration : Type := mkReg {
  rg_keepAlive : KeepAlive;
  rg_lease : option Z;
  rg_last : Z;
  rg_calls : list (EtcdCall * bool)
}.

Definition instanceKey (conf : EtcdPoolConfig) : string := ep_KeyPrefix conf +:+ pi_GRPCAddress (ep_Advertise conf).

(** The closure [register]; [true]: no error. *)
Definition attempt (conf : EtcdPoolConfig) (a : Attempt) (r : Registration) : bool * Registration :=
  let put lease ok := rg_calls r ++ [(Put (instanceKey conf) (Marshal (ep_Advertise conf)) lease, ok)] in
  match a with
  | GrantFailed _ => (false, mkReg (rg_keepAlive r) None (rg_last r) (rg_calls r))
  | PutFailed lease _ => (false, mkReg (rg_keepAlive r) (Some lease) (rg_last r) (put lease false))
  | KeepAliveFailed lease _ channel => (false, mkReg channel (Some lease) (rg_last r) (put lease true))
  | Registered lease => (true, mkReg OpenChannel (Some lease) (rg_last r) (put lease true))
  end.

(** What the goroutine waits for: an answer of the keep-alive with the time on the clock,
    or none when its channel is closed, and whether the context is done; or [done], with
    what etcd then answers to the deletion and to the revocation. *)
Inductive Select : Type :=
  | Receive (answer : option Z) (ctxDone : bool)
  | DoneSignal (deleted revoked : result unit).

Definition set_keepAlive (k : KeepAlive) (r : Registration) : Registration :=
  mkReg k (rg_lease r) (rg_last r) (rg_calls r).

(** A closed channel gives no answer. *)
Definition answered (k : KeepAlive) (answer : option Z) : option Z :=
  match k with OpenChannel => answer | _ => None end.

Definition succeeded (r : result unit) : bool := match r with Ok _ => true | Err _ => false end.

Definition select (conf : EtcdPoolConfig) (s : Select) (r : Registration) : outcome (bool * Registration) :=
  match s with
  | Receive answer ctxDone =>
      match answered (rg_keepAlive r) answer with
      | None => Ret (true, set_keepAlive (if ctxDone then ClosedChannel else NilChannel) r)
      | Some now =>
          if leaseTTL * Second <? rg_last r - now then Ret (true, set_keepAlive NilChannel r)
          else Ret (true, mkReg (rg_keepAlive r) (rg_lease r) now (rg_calls r))
      end
  | DoneSignal deleted revoked =>
      match rg_lease r with
      | None => Panic "invalid memory address or nil pointer dereference"
      | Some lease => Ret (false, mkReg (rg_keepAlive r) (rg_lease r) (rg_last r)
          (rg_calls r ++ [(Delete (instanceKey conf), succeeded deleted); (Revoke lease, succeeded revoked)]))
      end
  end.

(** One round of the goroutine: with [keepAlive] lost it registers again, or backs off
    ([doneInBackoff]: and is told to stop meanwhile); then it waits. *)
Record Round : Type := mkRound { rd_attempt : Attempt; rd_doneInBackoff : bool; rd_select : Select }.

Definition round (conf : EtcdPoolConfig) (rd : Round) (r : Registration) : outcome (bool * Registration) :=
  match rg_keepAlive r with
  | NilChannel =>
      match attempt conf (rd_attempt rd) r with
      | (false, r) => Ret (negb (rd_doneInBackoff rd), r)
      | (true, r) => select conf (rd_select rd) r
      end
  | _ => select conf (rd_select rd) r
  end.

Fixpoint rounds (conf : EtcdPoolConfig) (rds : list Round) (r : Registration) : outcome (bool * Registration) :=
  match rds with
  | [] => Ret (true, r)
  | rd :: rds => match round conf rd r with
                 | Panic why => Panic why
                 | Ret (true, r) => rounds conf rds r
                 | Ret (false, r) => Ret (false, r)
                 end
  end.

(** The zero value of [clock.Time]: year 1, in nanoseconds since 1970. *)
Definition zeroTime : Z := -62135596800 * Second.

(** [register]: the first attempt must succeed. *)
Definition register (conf : EtcdPoolConfig) (a : Attempt) : result Registration :=
  let failed e := Err (ErrWrap "during initial peer registration" e) in
  match a with
  | GrantFailed e => failed (ErrWrap "during grant lease" e)
  | PutFailed _ e => failed (ErrWrap "during put" e)
  | KeepAliveFailed _ e _ => failed e
  | Registered _ => Ok (attempt conf a (mkReg NilChannel None zeroTime [])).2
  end.

(** [NewEtcdPool] *)
Definition NewEtcdPool (conf : EtcdPoolConfig) (a : Attempt) (got : result (list string)) (ready : bool)
    : result (EtcdPoolConfig * Registration * EtcdPool) :=
  let conf := mkEtcdConf (ep_Advertise conf) (ep_HasClient conf)
                (if String.eqb (ep_KeyPrefix conf) "" then defaultBaseKey else ep_KeyPrefix conf) in
  if String.eqb (pi_GRPCAddress (ep_Advertise conf)) "" then Err (ErrNew "Advertise.GRPCAddress is required")
  else if negb (ep_HasClient conf) then Err (ErrNew "Client is required")
  else
    match register conf a with
    | Err e => Err e
    | Ok r => match watchPeers conf got ready newEtcdPool with
              | (Err e, _) => Err (ErrWrap "while attempting to start watch" e)
              | (Ok _, e) => Ok (conf, r, e)
              end
    end.

(** Whether [NewEtcdPool] gets as far as the goroutine of the registration. *)
Definition registers (conf : EtcdPoolConfig) (a : Attempt) : bool :=
  negb (String.eqb (pi_GRPCAddress (ep_Advertise conf)) "") && ep_HasClient conf &&
  match a with Registered _ => true | _ => false end.

(** ** Properties *)

(** A pool that is refused although it was registered could not be watched. *)
Lemma registers_refused (conf : EtcdPoolConfig) (a : Attempt) (got : result (list string)) (ready : bool) (e : gerror) :
  registers conf a = true -> NewEtcdPool conf a got ready = Err e ->
  (exists lease, a = Registered lease) /\ ((exists e', got = Err e') \/ ready = false).
Proof.
  unfold registers, NewEtcdPool. cbn [ep_Advertise ep_HasClient]. destruct (String.eqb (pi_GRPCAddress _) ""); [done|].
  destruct (ep_HasClient conf); [|done]. destruct a as [| | |lease]; try done. intros _. cbn [negb register].
  unfold watchPeers, collectPeers. split; [by exists lease|]. destruct got as [kvs|e']; [|by left; exists e']. by destruct ready; [|right].
Qed.

Lemma unMarshall_Marshal (p : PeerInfo) : valid_peer p = true -> unMarshallValue (Marshal p) = p.
Proof. intros Hp. unfold unMarshallValue. by rewrite unmarshal_marshal. Qed.

Lemma collect_snoc (kvs : list string) (v : string) :
  collect (kvs ++ [v]) = <[pi_GRPCAddress (unMarshallValue v) := unMarshallValue v]> (collect kvs).
Proof. unfold collect. by rewrite foldl_app. Qed.

Lemma collect_list (kvs : list string) :
  NoDup (pi_GRPCAddress <$> (unMarshallValue <$> kvs)) ->
  collect kvs = list_to_map ((fun p => (pi_GRPCAddress p, p)) <$> (unMarshallValue <$> kvs)).
Proof.
  induction kvs as [|v kvs IH] using rev_ind; [done|]. rewrite collect_snoc, !fmap_app. intros Hn.
  apply NoDup_app in Hn as (Hn & Hd & _). rewrite IH by done. simpl.
  rewrite list_to_map_snoc; [done|]. rewrite <- list_fmap_compose. intros Hin.
  apply (Hd (pi_GRPCAddress (unMarshallValue v))); [|set_solver]. rewrite <- list_fmap_compose in *. done.
Qed.

(** When etcd returns what the instances have put, in any order, with distinct
    addresses, the pool reports exactly those instances, as each advertised itself, and
    marks as this one exactly the one with its own address. *)
Theorem etcd_discovers (conf : EtcdPoolConfig) (e : EtcdPool) (ps : list PeerInfo) (kvs : list string)
    (Hget : kvs ≡ₚ Marshal <$> ps) (Hvalid : Forall (fun p => valid_peer p = true) ps)
    (Hd : NoDup (pi_GRPCAddress <$> ps)) :
  let own := pi_GRPCAddress (ep_Advertise conf) in
  exists e' report, collectPeers conf (Ok kvs) e = (Ok tt, e') /\ et_reports e' = et_reports e ++ [report] /\
    report ≡ₚ (fun p => if String.eqb (pi_GRPCAddress p) own then with_IsOwner true p else p) <$> ps.
Proof.
  intros own. eexists _, _. split; [done|]. split; [done|].
  assert (unMarshallValue <$> kvs ≡ₚ ps) as Hu.
  { rewrite Hget, <- list_fmap_compose. apply reflexive_eq. transitivity (id <$> ps); [|apply list_fmap_id].
    apply Forall_fmap_ext_1. eapply Forall_impl; [exact Hvalid|]. intros p Hp. by apply unMarshall_Marshal. }
  unfold reportPeers. rewrite collect_list by (by rewrite Hu). rewrite map_to_list_to_map.
  - by rewrite Hu, <- !list_fmap_compose.
  - rewrite <- list_fmap_compose. by rewrite Hu.
Qed.

Definition consistent (conf : EtcdPoolConfig) (e : EtcdPool) : Prop :=
  last (et_reports e) = Some (reportPeers (pi_GRPCAddress (ep_Advertise conf)) (et_peers e)).

(** The list an event brings, when it brings one. *)
Definition fetched (ev : WatchEvent) : option (list string) :=
  match ev with
  | WCanceled => None
  | WError r | WClosed r => if rs_shutdown r then None else match rs_got r with Ok kvs => Some kvs | Err _ => None end
  | WChange (Ok kvs) => Some kvs
  | WChange (Err _) => None
  end.

(** Whether an event ends the goroutine: the watch was cancelled, or the pool is shut down
    before a restart or while it backs off from one that failed. *)
Definition ends (ev : WatchEvent) : bool :=
  match ev with
  | WCanceled => true
  | WChange _ => false
  | WError r | WClosed r =>
      rs_shutdown r || (rs_doneInBackoff r && negb (match rs_got r with Ok _ => rs_ready r | Err _ => false end))
  end.

(** The lists etcd returns to the goroutine, until an event ends it. *)
Fixpoint listings (evs : list WatchEvent) : list (list string) :=
  match evs with
  | [] => []
  | ev :: evs => option_list (fetched ev) ++ if ends ev then [] else listings evs
  end.

Lemma watchEvent_peers (conf : EtcdPoolConfig) (ev : WatchEvent) (e : EtcdPool) : consistent conf e ->
  consistent conf (watchEvent conf ev e).2 /\ (watchEvent conf ev e).1 = negb (ends ev) /\
  et_peers (watchEvent conf ev e).2 = match fetched ev with Some kvs => collect kvs | None => et_peers e end.
Proof.
  intros Hc. unfold watchEvent, restart, watchPeers, collectPeers, fetched, ends, consistent in *.
  repeat (case_match; simplify_eq; simpl in *); rewrite ?last_snoc, ?andb_true_r, ?andb_false_r; by split.
Qed.

Lemma last_default {A} (l : list A) (x y : A) : List.last (x :: l) y = List.last l x.
Proof. revert x y. induction l as [|z l IH]; intros x y; [done|]. change (List.last (z :: l) y = List.last (z :: l) x). by rewrite !IH. Qed.

Lemma watchAll_peers (conf : EtcdPoolConfig) (evs : list WatchEvent) (kvs : list string) (e : EtcdPool) :
  consistent conf e -> et_peers e = collect kvs ->
  consistent conf (watchAll conf evs e) /\ et_peers (watchAll conf evs e) = collect (List.last (listings evs) kvs).
Proof.
  revert kvs e. induction evs as [|ev evs IH]; intros kvs e Hc Hp; [done|]. cbn [watchAll listings].
  destruct (watchEvent_peers conf ev e Hc) as (Hc' & Hgo & Hp'). destruct (watchEvent conf ev e) as [go e'].
  cbn [fst snd] in *. subst go. rewrite Hp in Hp'.
  assert (et_peers e' = collect (default kvs (fetched ev))) as Hk by (by destruct (fetched ev)).
  destruct (ends ev); cbn [negb].
  - split; [done|]. rewrite app_nil_r, Hk. by destruct (fetched ev).
  - destruct (IH _ e' Hc' Hk) as [? ->]. split; [done|]. f_equal. destruct (fetched ev) as [x|]; [|done]. symmetry. apply last_default.
Qed.

(** C29: From the start of a pool on, whatever its watch meets, the peers in use are those
    of the last list etcd returned, be it at the start, after a change or when the watch
    was started again, and they are what was reported last: errors, timeouts, cancelled
    watches and backoff in between never empty the list or change it. *)
Theorem etcd_latest (conf0 conf : EtcdPoolConfig) (a : Attempt) (got : result (list string)) (ready : bool) (r : Registration)
    (e : EtcdPool) (evs : list WatchEvent) (Hnew : NewEtcdPool conf0 a got ready = Ok (conf, r, e)) :
  exists first, got = Ok first /\
    let latest := collect (List.last (listings evs) first) in
    et_peers (watchAll conf evs e) = latest /\
    last (et_reports (watchAll conf evs e)) = Some (reportPeers (pi_GRPCAddress (ep_Advertise conf)) latest).
Proof.
  unfold NewEtcdPool in Hnew. cbv zeta in Hnew.
  match type of Hnew with context [register ?c a] => set (c0 := c) in Hnew end.
  clearbody c0. destruct (String.eqb _ ""); [discriminate Hnew|]. destruct (negb _); [discriminate Hnew|].
  destruct (register c0 a); [|discriminate Hnew].
  unfold watchPeers, collectPeers in Hnew. destruct got as [first|], ready; try discriminate Hnew. injection Hnew as <- <- <-.
  exists first. split; [done|]. cbv zeta.
  match goal with |- context [watchAll c0 evs ?e] => destruct (watchAll_peers c0 evs first e) as [Hc <-]; [done..|] end.
  split; [done|exact Hc].
Qed.

(** *** Registration *)

Section Registration.
Variable conf : EtcdPoolConfig.

Definition ownPut (lease : Z) : EtcdCall := Put (instanceKey conf) (Marshal (ep_Advertise conf)) lease.

(** Nothing was asked of etcd but to put the own key. *)
Definition onlyPuts (calls : list (EtcdCall * bool)) : Prop := Forall (fun c => exists lease, c.1 = ownPut lease) calls.

(** The last call put the own key under the current lease, and succeeded. *)
Definition registered (r : Registration) : Prop :=
  exists lease pre, rg_lease r = Some lease /\ rg_calls r = pre ++ [(ownPut lease, true)] /\ onlyPuts pre.

Definition reg_inv (r : Registration) : Prop :=
  onlyPuts (rg_calls r) /\ (rg_keepAlive r <> NilChannel -> registered r).

(** After it was put, etcd was asked to delete the own key and to revoke its lease, and
    answered so. *)
Definition deregistered (deleted revoked : result unit) (r : Registration) : Prop :=
  exists lease pre, onlyPuts pre /\
    rg_calls r = pre ++ [(ownPut lease, true); (Delete (instanceKey conf), succeeded deleted); (Revoke lease, succeeded revoked)].

(** How a round ends the goroutine: it was waiting, or it was backing off. *)
Definition stopped (rd : Round) (r : Registration) : Prop :=
  (exists deleted revoked, rd_select rd = DoneSignal deleted revoked /\ deregistered deleted revoked r) \/
  rd_doneInBackoff rd = true /\ onlyPuts (rg_calls r).

Lemma onlyPuts_snoc (calls : list (EtcdCall * bool)) (lease : Z) (ok : bool) :
  onlyPuts calls -> onlyPuts (calls ++ [(ownPut lease, ok)]).
Proof. intros Hc. apply Forall_app_2; [done|]. apply Forall_singleton. by exists lease. Qed.

Lemma registered_inv (r : Registration) : registered r -> reg_inv r.
Proof. intros Hr. split; [|done]. destruct Hr as (lease & pre & _ & -> & Hp). by apply onlyPuts_snoc. Qed.

Lemma select_spec (rd : Round) (r : Registration) : registered r ->
  exists go r', select conf (rd_select rd) r = Ret (go, r') /\ (go = true -> reg_inv r') /\ (go = false -> stopped rd r').
Proof.
  intros (lease & pre & Hl & Hc & Hp).
  assert (forall k now, registered (mkReg k (rg_lease r) now (rg_calls r))) as Hk by (intros; by exists lease, pre).
  destruct (rd_select rd) as [answer ctxDone|deleted revoked] eqn:Es; simpl.
  - destruct (answered _ answer); [case_match|]; eexists _, _; (split; [done|]; split; [|done]); intros _; apply registered_inv, Hk.
  - rewrite Hl. eexists _, _. split; [done|]. split; [done|]. intros _. left. exists deleted, revoked. split; [done|].
    exists lease, pre. split; [done|]. simpl. by rewrite Hc, <- app_assoc.
Qed.

Lemma attempt_spec (a : Attempt) (r : Registration) : rg_keepAlive r = NilChannel -> onlyPuts (rg_calls r) ->
  reg_inv (attempt conf a r).2 /\ ((attempt conf a r).1 = true -> registered (attempt conf a r).2).
Proof.
  intros Hk Hp. assert (forall lease ok, onlyPuts (rg_calls r ++ [(ownPut lease, ok)])) as Hs by (intros; by apply onlyPuts_snoc).
  assert (forall k lease, registered (mkReg k (Some lease) (rg_last r) (rg_calls r ++ [(ownPut lease, true)]))) as Hr
    by (intros k lease; by exists lease, (rg_calls r)).
  destruct a as [e|lease e|lease e k|lease]; simpl; (split; [|done || by intros _; apply Hr]).
  - by split.
  - by split; [apply Hs|].
  - apply registered_inv, Hr.
  - apply registered_inv, Hr.
Qed.

Lemma round_spec (rd : Round) (r : Registration) : reg_inv r ->
  exists go r', round conf rd r = Ret (go, r') /\ (go = true -> reg_inv r') /\ (go = false -> stopped rd r').
Proof.
  intros [Hp Hi]. unfold round. destruct (rg_keepAlive r) eqn:Ek; [|by apply select_spec, Hi..].
  destruct (attempt_spec (rd_attempt rd) r Ek Hp) as [Ha Hreg]. destruct (attempt conf (rd_attempt rd) r) as [[] r1]; cbn [fst snd] in *.
  - by apply select_spec, Hreg.
  - eexists _, _. split; [done|]. split; [done|]. intros Hd. right. split; [by destruct (rd_doneInBackoff rd)|apply Ha].
Qed.

Lemma rounds_spec (rds : list Round) (r : Registration) : reg_inv r ->
  exists go r', rounds conf rds r = Ret (go, r') /\ (go = true -> reg_inv r') /\
    (go = false -> exists rd, rd ∈ rds /\ stopped rd r').
Proof.
  revert r. induction rds as [|rd rds IH]; intros r Hi; [by eexists _, _|].
  destruct (round_spec rd r Hi) as (go & r1 & Hr & Ht & Hf). cbn [rounds]. rewrite Hr. destruct go.
  - destruct (IH r1 (Ht eq_refl)) as (go & r' & -> & Ht' & Hf'). exists go, r'. split; [done|]. split; [done|].
    intros Hg. destruct (Hf' Hg) as (rd' & Hin & Hs). exists rd'. split; [set_solver|done].
  - eexists _, _. split; [done|]. split; [done|]. intros _. exists rd. split; [set_solver|by apply Hf].
Qed.
End Registration.


(** When the watch cannot be started, the pool's context is cancelled and the pool dropped,
    but the goroutine that keeps the registration is not told to stop: its channel is
    closed, and it takes one round after the other without waiting, for ever. *)
Theorem abandoned_registration_spins (conf : EtcdPoolConfig) (rds : list Round) (r : Registration)
    (Hk : rg_keepAlive r = ClosedChannel) (Hctx : Forall (fun rd => exists answer, rd_select rd = Receive answer true) rds) :
  rounds conf rds r = Ret (true, r).
Proof.
  induction Hctx as [|rd rds [answer Hs] _ IH]; [done|]. cbn [rounds]. unfold round. rewrite Hk, Hs. cbn. rewrite Hk. cbn.
  replace (set_keepAlive ClosedChannel r) with r; [exact IH|]. destruct r. cbn in *. by subst.
Qed.

(** A keep-alive that comes late is not noticed: [lastKeepAlive.Sub(now)] is
    negative, so with a clock that does not go back the check against the lease never
    holds, however long ago the last one came. *)
Theorem etcd_gap_unnoticed (conf : EtcdPoolConfig) (r : Registration) (now : Z) (ctxDone : bool)
    (Hopen : rg_keepAlive r = OpenChannel) (Hclock : rg_last r <= now) :
  select conf (Receive (Some now) ctxDone) r = Ret (true, mkReg OpenChannel (rg_lease r) now (rg_calls r)).
Proof.
  unfold select. rewrite Hopen. cbn [answered]. replace (_ <? _) with false; [done|].
  symmetry. apply Z.ltb_ge. unfold leaseTTL, Second. lia.
Qed.

(** ** Examples *)

Definition etcdConf : EtcdPoolConfig := mkEtcdConf (mkPeerInfo "" "" "10.0.0.1:1051" false) true "/gubernator-peers".

Definition twoPeers : list PeerInfo := [mkPeerInfo "" "" "10.0.0.1:1051" false; mkPeerInfo "" "" "10.0.0.2:1051" false].

Lemma etcd_discovers_witness : exists e' report,
  collectPeers etcdConf (Ok (reverse (Marshal <$> twoPeers))) newEtcdPool = (Ok tt, e') /\
  et_reports e' = [report] /\
  report ≡ₚ [mkPeerInfo "" "" "10.0.0.1:1051" true; mkPeerInfo "" "" "10.0.0.2:1051" false].
Proof.
  apply (etcd_discovers etcdConf newEtcdPool twoPeers (reverse (Marshal <$> twoPeers))).
  - apply reverse_Permutation.
  - do 2 (apply Forall_cons_2; [vm_compute; reflexivity|]). apply Forall_nil_2.
  - apply (bool_decide_unpack _). vm_compute. exact I.
Defined.

(** A list, an error, a restart that finds another list but no watch, and a cancelled watch. *)
Definition someEvents : list WatchEvent :=
  [WChange (Ok []); WChange (Err Canceled); WError (mkRestart false (Ok (Marshal <$> twoPeers)) false false);
   WClosed (mkRestart false (Err Canceled) true false); WCanceled; WChange (Ok [])].

Lemma etcd_latest_witness : exists conf r e,
  NewEtcdPool etcdConf (Registered 7) (Ok []) true = Ok (conf, r, e) /\
  et_peers (watchAll conf someEvents e) = collect (Marshal <$> twoPeers).
Proof.
  eexists _, _, _. split; [reflexivity|].
  destruct (etcd_latest etcdConf _ (Registered 7) (Ok []) true _ _ someEvents eq_refl) as (first & [= <-] & Hp & _). exact Hp.
Defined.

(** Registered, kept alive, lost, two failed attempts, one of which leaves a closed channel,
    registered again, and stopped; etcd refuses to delete the key. *)
Definition someRounds : list Round :=
  [mkRound (Registered 0) false (Receive (Some 5) false); mkRound (Registered 0) false (Receive None false);
   mkRound (GrantFailed Canceled) false (Receive None false);
   mkRound (KeepAliveFailed 8 Canceled ClosedChannel) false (Receive None false);
   mkRound (Registered 0) false (Receive (Some 8) false); mkRound (Registered 9) false (Receive (Some 9) false);
   mkRound (Registered 0) false (DoneSignal (Err Canceled) (Ok tt))].


(** An hour without a keep-alive. *)
Lemma etcd_gap_unnoticed_witness :
  select etcdConf (Receive (Some (3600 * Second)) false) (mkReg OpenChannel (Some 7) 0 []) =
    Ret (true, mkReg OpenChannel (Some 7) (3600 * Second) []).
Proof. apply (etcd_gap_unnoticed etcdConf (mkReg OpenChannel (Some 7) 0 [])); [reflexivity|]. vm_compute. discriminate. Defined.
