(* ===== verification/K8sPool.v ===== *)
(** * Peer discovery through Kubernetes ([kubernetes.go])

    The pool watches pods or endpoint slices and reports the peers among them; the
    objects the API server delivers are arguments. *)

From stdpp Require Import base gmap strings list sets.
From Stdlib Require Import ZArith Lia Ascii.
From S2P Require Import Prelude Float64 GoStrings ReplicatedHash.

#[local] Set Warnings "-clear-no-such-hyp".

(** ** The mechanism *)

Definition WatchEndpointSlices : string := "endpointslices".
Definition WatchPods : string := "pods".

Definition WatchMechanismFromString (mechanism : string) : result string :=
  if String.eqb mechanism "" then Ok WatchEndpointSlices
  else if String.eqb mechanism WatchEndpointSlices then Ok WatchEndpointSlices
  else if String.eqb mechanism "endpoints" then Ok WatchEndpointSlices
  else if String.eqb mechanism WatchPods then Ok WatchPods
  else Err (ErrNew ("unknown watch mechanism specified: " +:+ mechanism)).

Record K8sPoolConfig : Type := mkK8sConf {
  kc_Mechanism : string;
  kc_Namespace : string;
  kc_Selector : string;
  kc_ServiceName : string;
  kc_PodIP : string;
  kc_PodPort : string
}.

(** ** Objects of the API *)

Record ContainerStatus : Type := mkStatus { cs_Ready : bool; cs_Running : bool }.
Record Pod : Type := mkPod { pod_IP : string; pod_Statuses : list ContainerStatus }.

Record Endpoint : Type := mkEndpoint { ed_Addresses : list string; ed_Ready : option bool }.
Record EndpointSlice : Type := mkSlice { sl_IPv4 : bool; sl_Endpoints : list Endpoint }.

(** What the informer's store lists: objects of the type watched, or others. *)
Inductive Object : Type := OPod (p : Pod) | OSlice (s : EndpointSlice) | OOther.

(** ** Pods *)

Definition peerAt (ip port : string) (isOwner : bool) : PeerInfo := mkPeerInfo "" "" (ip +:+ ":" +:+ port) isOwner.

Fixpoint ExtractPeersFromPods (pods : list Pod) (podIP podPort : string) : list PeerInfo :=
  match pods with
  | [] => []
  | pod :: pods =>
      let isOwner := String.eqb (pod_IP pod) podIP in
      let skip := existsb (fun st => negb (cs_Ready st) || negb (cs_Running st)) (pod_Statuses pod) in
      if negb isOwner && skip then ExtractPeersFromPods pods podIP podPort
      else peerAt (pod_IP pod) podPort isOwner :: ExtractPeersFromPods pods podIP podPort
  end.

Definition updatePeersFromPods (conf : K8sPoolConfig) (objs : list Object) : list PeerInfo :=
  ExtractPeersFromPods (omap (fun o => match o with OPod p => Some p | _ => None end) objs)
    (kc_PodIP conf) (kc_PodPort conf).

(** ** Endpoint slices *)

(** One endpoint in the loop of [ExtractPeersFromEndpointSlices]. *)
Definition addEndpoint (podIP podPort : string) (peerMap : gmap string PeerInfo) (ep : Endpoint) : gmap string PeerInfo :=
  match ed_Addresses ep with
  | [] => peerMap
  | ip :: _ =>
      let isReady := match ed_Ready ep with None => true | Some b => b end in
      let isOwner := String.eqb ip podIP in
      if negb isReady && negb isOwner then peerMap
      else
        let p := peerAt ip podPort isOwner in
        match peerMap !! ip with
        | Some existing => if negb (pi_IsOwner existing) && isOwner then <[ip := p]> peerMap else peerMap
        | None => <[ip := p]> peerMap
        end
  end.

Definition addSlice (podIP podPort : string) (peerMap : gmap string PeerInfo) (s : EndpointSlice) : gmap string PeerInfo :=
  if sl_IPv4 s then foldl (addEndpoint podIP podPort) peerMap (sl_Endpoints s) else peerMap.

(** The result, in some order of the map. *)
Definition ExtractPeersFromEndpointSlices (slices : list EndpointSlice) (podIP podPort : string) : list PeerInfo :=
  (map_to_list (foldl (addSlice podIP podPort) ∅ slices)).*2.

Definition updatePeersFromEndpointSlices (conf : K8sPoolConfig) (objs : list Object) : list PeerInfo :=
  ExtractPeersFromEndpointSlices (omap (fun o => match o with OSlice s => Some s | _ => None end) objs)
    (kc_PodIP conf) (kc_PodPort conf).

(** [start]: the function called on every change of the objects watched. *)
Definition start (conf : K8sPoolConfig) : result (list Object -> list PeerInfo) :=
  if String.eqb (kc_Mechanism conf) WatchEndpointSlices then Ok (updatePeersFromEndpointSlices conf)
  else if String.eqb (kc_Mechanism conf) WatchPods then Ok (updatePeersFromPods conf)
  else Err (ErrNew ("unknown value for watch mechanism: " +:+ kc_Mechanism conf)).

(** The label selector of the list and watch requests. *)
Definition labelSelector (conf : K8sPoolConfig) : string :=
  if String.eqb (kc_Mechanism conf) WatchPods then kc_Selector conf
  else "kubernetes.io/service-name=" +:+ kc_ServiceName conf.

(** ** Watching *)

(** What the informer hands to a handler: an object of the API, or the marker
    [DeletedFinalStateUnknown] of an object whose deletion the watch missed and which a
    new listing no longer has. *)
Inductive Handed : Type := Known (key : string) (o : Object) | Tombstone (key : string).

(** The three handlers of [startGenericWatch]. *)
Inductive Notice : Type :=
  | AddFunc (obj : Handed)
  | UpdateFunc (obj new : Handed)
  | DeleteFunc (obj : Handed).

(** A change of the objects watched: one is there with some contents, or is gone, and the
    informer saw its deletion or only its absence. *)
Inductive Change : Type := Put (key : string) (o : Object) | Gone (key : string) (missed : bool).

(** The informer's store, the notices not yet handled, the lists passed to [OnUpdate], and
    whether the pool is closed. *)
Record Watch : Type := mkWatch {
  w_store : gmap string Object;
  w_pending : list Notice;
  w_reports : list (list PeerInfo);
  w_done : bool
}.

Definition newWatch : Watch := mkWatch ∅ [] [] false.

(** [GetStore().List()], in some order. *)
Definition List (w : Watch) : list Object := (map_to_list (w_store w)).*2.

Section Watching.
(** [cache.MetaNamespaceKeyFunc] *)
Variable MetaNamespaceKeyFunc : Handed -> result string.
(** [updateFunc], as a function of the objects listed; it passes its result to
    [OnUpdate]. *)
Variable updateFunc : list Object -> list PeerInfo.

(** The handlers: an object without a key is logged, and nothing else happens. *)
Definition handler (n : Notice) (w : Watch) : Watch :=
  let obj := match n with AddFunc obj => obj | UpdateFunc obj _ => obj | DeleteFunc obj => obj end in
  match MetaNamespaceKeyFunc obj with
  | Err _ => w
  | Ok _ => mkWatch (w_store w) (w_pending w) (w_reports w ++ [updateFunc (List w)]) (w_done w)
  end.

(** The informer's side, library code: it changes its store and queues the notice. A
    deletion of an object it does not hold changes nothing. *)
Definition noticeOf (c : Change) (store : gmap string Object) : option Notice :=
  match c with
  | Put key o =>
      Some match store !! key with
           | None => AddFunc (Known key o)
           | Some old => UpdateFunc (Known key old) (Known key o)
           end
  | Gone key missed =>
      (fun old => DeleteFunc (if missed : bool then Tombstone key else Known key old)) <$> store !! key
  end.

Definition changeStore (c : Change) (store : gmap string Object) : gmap string Object :=
  match c with Put key o => <[key := o]> store | Gone key _ => delete key store end.

Inductive WatchEvent : Type := Changes (c : Change) | Handles.

(** The store runs ahead of the notices: a handler sees every change made so far. Once
    [done] is closed the store no longer changes; notices may still be handled. *)
Definition watchStep (w : Watch) (ev : WatchEvent) : Watch :=
  match ev with
  | Changes c =>
      if w_done w then w
      else mkWatch (changeStore c (w_store w)) (w_pending w ++ option_list (noticeOf c (w_store w))) (w_reports w) (w_done w)
  | Handles =>
      match w_pending w with
      | [] => w
      | n :: ns => handler n (mkWatch (w_store w) ns (w_reports w) (w_done w))
      end
  end.

Definition watch : Watch -> list WatchEvent -> Watch := foldl watchStep.
End Watching.

(** [Close]: the informer stops; closing [done] a second time panics. *)
Definition Close (w : Watch) : option Watch :=
  if w_done w then None else Some (mkWatch (w_store w) (w_pending w) (w_reports w) true).

(** ** Properties *)

(** An endpoint that makes its address a peer. *)
Definition usable (podIP ip : string) (ep : Endpoint) : Prop :=
  exists rest, ed_Addresses ep = ip :: rest /\ (ed_Ready ep <> Some false \/ ip = podIP).

(** The peers found so far are those of the endpoints seen. *)
Definition k8s_inv (podIP podPort : string) (m : gmap string PeerInfo) (seen : list Endpoint) : Prop :=
  forall ip p, m !! ip = Some p <->
    p = peerAt ip podPort (String.eqb ip podIP) /\ exists ep, ep ∈ seen /\ usable podIP ip ep.

Lemma addEndpoint_inv (podIP podPort : string) (m : gmap string PeerInfo) (seen : list Endpoint) (ep : Endpoint) :
  k8s_inv podIP podPort m seen -> k8s_inv podIP podPort (addEndpoint podIP podPort m ep) (seen ++ [ep]).
Proof.
  intros Hi. unfold addEndpoint.
  assert (forall ip p, (forall rest, ed_Addresses ep <> ip :: rest) \/ ~ usable podIP ip ep ->
    m !! ip = Some p <-> p = peerAt ip podPort (String.eqb ip podIP) /\ exists ep', ep' ∈ seen ++ [ep] /\ usable podIP ip ep') as Hsame.
  { intros ip p Hno. rewrite (Hi ip p). split; intros [-> (ep' & Hin & Hu)]; (split; [done|]); exists ep'.
    - split; [set_solver|done].
    - apply elem_of_app in Hin as [Hin| ->%list_elem_of_singleton]; [done|].
      destruct Hno as [Hno|Hno]; [|done]. destruct Hu as (rest & He & _). by destruct (Hno rest). }
  destruct (ed_Addresses ep) as [|ip rest] eqn:Ea; [intros ip p; apply Hsame; by left|].
  destruct (negb _ && negb _) eqn:Eskip.
  { intros ip' p. apply Hsame. destruct (decide (ip' = ip)) as [->|]; [right|left; congruence].
    intros (rest' & He & Hr). rewrite Ea in He. simplify_eq. apply andb_true_iff in Eskip as [Er Eo].
    destruct Hr as [Hr| ->]; [|by rewrite String.eqb_refl in Eo]. destruct (ed_Ready ep) as [[]|]; done. }
  assert (usable podIP ip ep) as Hu.
  { exists rest. split; [done|]. apply andb_false_iff in Eskip as [Er|Eo].
    - left. intros Hf. by rewrite Hf in Er.
    - right. apply negb_false_iff in Eo. by apply String.eqb_eq. }
  assert (k8s_inv podIP podPort (<[ip := peerAt ip podPort (String.eqb ip podIP)]> m) (seen ++ [ep])) as Hins.
  { intros ip' p. destruct (decide (ip' = ip)) as [->|Hne].
    - rewrite lookup_insert_eq. split; [intros [= <-]; split; [done|]; exists ep; split; [set_solver|done]|].
      by intros [-> _].
    - rewrite lookup_insert_ne by done. apply Hsame. left. congruence. }
  destruct (m !! ip) as [old|] eqn:Eold; [|exact Hins].
  destruct (negb (pi_IsOwner old) && _); [exact Hins|].
  pose proof Eold as [-> _]%Hi. by rewrite insert_id in Hins.
Qed.

Lemma addEndpoints_inv (podIP podPort : string) (eps seen : list Endpoint) (m : gmap string PeerInfo) :
  k8s_inv podIP podPort m seen -> k8s_inv podIP podPort (foldl (addEndpoint podIP podPort) m eps) (seen ++ eps).
Proof.
  revert m seen. induction eps as [|ep eps IH]; intros m seen Hi; [by rewrite app_nil_r|].
  simpl. rewrite cons_middle, app_assoc. by apply IH, addEndpoint_inv.
Qed.

(** The endpoints of the IPv4 slices. *)
Definition endpoints (slices : list EndpointSlice) : list Endpoint :=
  s ← slices; if sl_IPv4 s then sl_Endpoints s else [].

Lemma addSlices_inv (podIP podPort : string) (slices : list EndpointSlice) (seen : list Endpoint) (m : gmap string PeerInfo) :
  k8s_inv podIP podPort m seen -> k8s_inv podIP podPort (foldl (addSlice podIP podPort) m slices) (seen ++ endpoints slices).
Proof.
  revert m seen. induction slices as [|s slices IH]; intros m seen Hi; [by rewrite app_nil_r|].
  unfold endpoints. rewrite bind_cons. cbn [foldl]. rewrite app_assoc. apply IH. unfold addSlice.
  destruct (sl_IPv4 s); [by apply addEndpoints_inv|by rewrite app_nil_r].
Qed.

Lemma slices_inv (podIP podPort : string) (slices : list EndpointSlice) :
  k8s_inv podIP podPort (foldl (addSlice podIP podPort) ∅ slices) (endpoints slices).
Proof.
  apply (addSlices_inv _ _ _ []). intros ip p. rewrite lookup_empty. split; [done|].
  by intros [_ (ep & ?%elem_of_nil & _)].
Qed.

Lemma peerAt_inj (ip ip' port : string) (b b' : bool) : peerAt ip port b = peerAt ip' port b' -> ip = ip'.
Proof. unfold peerAt. intros [= H _]. by apply app_inj_r in H. Qed.

(** From endpoint slices the pool takes every address once, however many slices
    list it: the first address of each endpoint of an IPv4 slice that is ready, or whose
    readiness is unknown, and its own even when it is not ready, which is the one it
    marks as its own. *)
Theorem k8s_slices (slices : list EndpointSlice) (podIP podPort : string) :
  let peers := ExtractPeersFromEndpointSlices slices podIP podPort in
  NoDup peers /\
  forall p, p ∈ peers <-> exists ip, p = peerAt ip podPort (String.eqb ip podIP) /\
    exists s ep, s ∈ slices /\ sl_IPv4 s = true /\ ep ∈ sl_Endpoints s /\ usable podIP ip ep.
Proof.
  intros peers. pose proof (slices_inv podIP podPort slices) as Hi. unfold peers, ExtractPeersFromEndpointSlices. split.
  - apply NoDup_fmap_2_strong; [|apply NoDup_map_to_list].
    intros [ip1 p1] [ip2 p2] H1%elem_of_map_to_list H2%elem_of_map_to_list Hp. simpl in Hp. subst p2.
    apply Hi in H1 as [-> _], H2 as [Hp _]. f_equal. by eapply peerAt_inj.
  - intros p. rewrite list_elem_of_fmap. split.
    + intros ([ip p'] & -> & Hm%elem_of_map_to_list). apply Hi in Hm as [-> (ep & Hin & Hu)]. exists ip. split; [done|].
      apply list_elem_of_bind in Hin as (s & Hep & Hs). destruct (sl_IPv4 s) eqn:E; [|by apply elem_of_nil in Hep].
      by exists s, ep.
    + intros (ip & Hp & s & ep & Hs & H4 & Hep & Hu). exists (ip, p). split; [done|].
      apply elem_of_map_to_list, Hi. split; [done|]. exists ep. split; [|done].
      apply list_elem_of_bind. exists s. by rewrite H4.
Qed.

(** From pods the pool takes, in order, its own and those all of whose containers
    are ready and running, and marks as its own the one with its address. *)
Theorem k8s_pods (pods : list Pod) (podIP podPort : string) :
  ExtractPeersFromPods pods podIP podPort =
    (fun pod => peerAt (pod_IP pod) podPort (bool_decide (pod_IP pod = podIP))) <$>
    filter (fun pod => pod_IP pod = podIP \/ Forall (fun st => cs_Ready st = true /\ cs_Running st = true) (pod_Statuses pod)) pods.
Proof.
  induction pods as [|pod pods IH]; [done|]. cbn [ExtractPeersFromPods]. rewrite filter_cons, IH.
  assert (existsb (fun st => negb (cs_Ready st) || negb (cs_Running st)) (pod_Statuses pod) = false <->
          Forall (fun st => cs_Ready st = true /\ cs_Running st = true) (pod_Statuses pod)) as He.
  { induction (pod_Statuses pod) as [|st sts IHs]; [done|]. simpl. rewrite orb_false_iff, Forall_cons, IHs.
    destruct (cs_Ready st), (cs_Running st); naive_solver. }
  destruct (String.eqb_spec (pod_IP pod) podIP) as [Ho|Ho]; simpl.
  - rewrite decide_True by (by left). rewrite fmap_cons. by rewrite bool_decide_true.
  - destruct (existsb _ _) eqn:E.
    + rewrite decide_False; [done|]. intros [?|Hf]; [done|]. by apply He in Hf.
    + rewrite decide_True by (right; by apply He). rewrite fmap_cons. by rewrite bool_decide_false.
Qed.

(** ** The list follows the store *)

Section Follows.
Context (keyFunc : Handed -> result string) (updateFunc : list Object -> list PeerInfo).
(** Every object of the API has a key. *)
Hypothesis Hkey : forall key o, exists k, keyFunc (Known key o) = Ok k.

(** No deletion was missed. *)
Definition seen (ev : WatchEvent) : bool := match ev with Changes (Gone _ missed) => negb missed | _ => true end.

(** The notice carries an object, and not a marker. *)
Definition carries (n : Notice) : Prop :=
  match n with
  | AddFunc obj | UpdateFunc obj _ | DeleteFunc obj => exists key o, obj = Known key o
  end.

(** The list last reported is that of the store, unless a notice is still to come. *)
Definition follows (w : Watch) : Prop :=
  Forall carries (w_pending w) /\
  (w_pending w = [] ->
   (w_store w = ∅ /\ w_reports w = []) \/ last (w_reports w) = Some (updateFunc (List w))).

Lemma handler_carries (n : Notice) (w : Watch) :
  carries n -> handler keyFunc updateFunc n w =
    mkWatch (w_store w) (w_pending w) (w_reports w ++ [updateFunc (List w)]) (w_done w).
Proof.
  unfold handler. intros Hn. destruct n as [obj|obj new|obj]; destruct Hn as (key & o & ->);
    destruct (Hkey key o) as [k ->]; done.
Qed.

Lemma watchStep_follows (w : Watch) (ev : WatchEvent) :
  seen ev = true -> follows w -> follows (watchStep keyFunc updateFunc w ev).
Proof.
  intros Hs [Hc Hr]. unfold watchStep. destruct ev as [c|].
  - destruct (w_done w); [done|]. destruct (noticeOf c (w_store w)) as [n|] eqn:E; simpl.
    + split; simpl; [|by intros [? ?]%app_eq_nil]. apply Forall_app; split; [done|].
      apply Forall_singleton. destruct c as [key o|key missed]; simpl in E.
      * injection E as <-. destruct (w_store w !! key); simpl; eauto.
      * apply fmap_Some in E as (old & _ & ->). destruct missed; [done|]. simpl. eauto.
    + unfold follows. simpl. rewrite app_nil_r. split; [done|]. intros Hp.
      destruct c as [key o|key missed]; [done|]. simpl in *. apply fmap_None in E. unfold List. simpl.
      rewrite delete_id by done. by apply Hr.
  - destruct (w_pending w) as [|n ns] eqn:E; [split; rewrite E; [done|by intros _; apply Hr]|].
    apply Forall_cons in Hc as [Hn Hns]. rewrite handler_carries by done.
    split; [done|]. intros _. right. simpl. by rewrite last_snoc.
Qed.

Lemma watch_follows (evs : list WatchEvent) : forallb seen evs = true -> follows (watch keyFunc updateFunc newWatch evs).
Proof.
  induction evs as [|ev evs IH] using rev_ind; intros Hs.
  - split; [by apply Forall_nil_2|by left].
  - rewrite forallb_app in Hs. apply andb_true_iff in Hs as [Hs He]. simpl in He. rewrite andb_true_r in He.
    unfold watch. rewrite foldl_app. apply watchStep_follows; [done|by apply IH].
Qed.
End Follows.

(** C31: However the changes of the objects and the handlers interleave, once every notice
    is handled the list last given to the instance is the one made of the objects the
    informer holds, for either mechanism, provided no deletion was missed by the watch. *)
Theorem k8s_list_follows (keyFunc : Handed -> result string) (conf : K8sPoolConfig)
    (updateFunc : list Object -> list PeerInfo) (evs : list WatchEvent)
    (Hkey : forall key o, exists k, keyFunc (Known key o) = Ok k)
    (Hstart : start conf = Ok updateFunc) (Hseen : forallb seen evs = true) :
  let w := watch keyFunc updateFunc newWatch evs in
  w_pending w = [] -> w_store w <> ∅ ->
  exists objs, objs ≡ₚ (map_to_list (w_store w)).*2 /\ last (w_reports w) = Some (updateFunc objs).
Proof.
  intros w Hp Hs. destruct (watch_follows keyFunc updateFunc Hkey evs Hseen) as [_ Hf].
  exists (List w). split; [done|]. by destruct (Hf Hp) as [[? _]|?].
Qed.

(** [MetaNamespaceKeyFunc] on objects with a name: a marker has no metadata. *)
Definition objectKey (obj : Handed) : result string :=
  match obj with Known key _ => Ok key | Tombstone _ => Err (ErrNew "object has no meta") end.

Definition podsConf : K8sPoolConfig := mkK8sConf WatchPods "default" "app=gubernator" "" "10.0.0.1" "1051".
Definition podAt (ip : string) : Object := OPod (mkPod ip [mkStatus true true]).

(** Two pods come, one goes, and the notices are handled late. *)
Definition podEvents : list WatchEvent :=
  [Changes (Put "a" (podAt "10.0.0.1")); Changes (Put "b" (podAt "10.0.0.2")); Handles;
   Changes (Gone "b" false); Handles; Handles].

Lemma k8s_list_follows_witness :
  last (w_reports (watch objectKey (updatePeersFromPods podsConf) newWatch podEvents)) =
    Some [peerAt "10.0.0.1" "1051" true] /\
  exists objs, objs ≡ₚ [podAt "10.0.0.1"] /\
    last (w_reports (watch objectKey (updatePeersFromPods podsConf) newWatch podEvents)) =
      Some (updatePeersFromPods podsConf objs).
Proof.
  split; [vm_compute; reflexivity|].
  apply (k8s_list_follows objectKey podsConf (updatePeersFromPods podsConf) podEvents);
    [by intros key o; exists key|vm_compute; reflexivity..|].
  intros H%(f_equal size). vm_compute in H. discriminate.
Defined.

(** A deletion that the watch missed is handed over as a marker, for which
    [MetaNamespaceKeyFunc] fails; the handler returns without an update, and the list
    given to the instance keeps the peer that is gone until something else changes. *)
Theorem k8s_missed_deletion (keyFunc : Handed -> result string) (updateFunc : list Object -> list PeerInfo)
    (w : Watch) (key : string) (o : Object) (e : gerror)
    (Hmeta : keyFunc (Tombstone key) = Err e) (Hopen : w_done w = false)
    (Hp : w_pending w = []) (Ho : w_store w !! key = Some o) :
  let w' := watch keyFunc updateFunc w [Changes (Gone key true); Handles] in
  w_store w' = delete key (w_store w) /\ w_pending w' = [] /\ w_reports w' = w_reports w.
Proof.
  unfold watch. cbn [foldl]. unfold watchStep. rewrite Hopen, Hp. simpl. rewrite Ho. simpl.
  unfold handler. by rewrite Hmeta.
Qed.

Lemma k8s_missed_deletion_witness :
  let update := updatePeersFromPods podsConf in
  let w := watch objectKey update newWatch
    [Changes (Put "a" (podAt "10.0.0.1")); Changes (Put "b" (podAt "10.0.0.2")); Handles; Handles] in
  let w' := watch objectKey update w [Changes (Gone "b" true); Handles] in
  w_pending w' = [] /\
  (exists r, last (w_reports w') = Some r /\ peerAt "10.0.0.2" "1051" false ∈ r) /\
  w_store w' = delete "b" (w_store w) /\ w_pending w' = [] /\ w_reports w' = w_reports w.
Proof.
  intros update w w'. split; [vm_compute; reflexivity|]. split.
  - exists (update [podAt "10.0.0.1"; podAt "10.0.0.2"]). split; [vm_compute; reflexivity|].
    vm_compute. right. left.
  - apply (k8s_missed_deletion objectKey update w "b" (podAt "10.0.0.2") (ErrNew "object has no meta"));
      vm_compute; reflexivity.
Defined.

(** After [Close] the objects held no longer change, so the list settles on them; a
    second [Close] panics. *)
Theorem k8s_closed (keyFunc : Handed -> result string) (updateFunc : list Object -> list PeerInfo)
    (w w' : Watch) (evs : list WatchEvent) (Hclose : Close w = Some w') :
  w_store (watch keyFunc updateFunc w' evs) = w_store w /\ Close (watch keyFunc updateFunc w' evs) = None.
Proof.
  assert (w_store w' = w_store w /\ w_done w' = true) as [<- Hd]
    by (unfold Close in Hclose; destruct (w_done w); [done|by injection Hclose as <-]).
  clear Hclose. revert w' Hd. induction evs as [|ev evs IH]; intros w' Hd; [by unfold Close; cbn; rewrite Hd|].
  unfold watch in *. cbn [foldl]. assert (w_store (watchStep keyFunc updateFunc w' ev) = w_store w' /\
    w_done (watchStep keyFunc updateFunc w' ev) = true) as [<- Hd']; [|by apply IH].
  unfold watchStep, handler. rewrite Hd. destruct ev; [done|]. destruct (w_pending w') as [|n ns]; [done|].
  simpl. by destruct (keyFunc _).
Qed.
