(* ===== verification/PeerClient.v ===== *)
(** * Peer clients ([peer_client.go])

    A [PeerClient] forwards requests to one peer, alone or in batches.  [runBatch] is
    a state machine that collects queued requests and hands them over in batches;
    [sendBatch] makes one call for a batch and answers every request of it.  The call
    itself is another process's: its outcome is an argument. *)

From stdpp Require Import base gmap strings list.
From Stdlib Require Import ZArith Lia.
From S2P Require Import Prelude Types.

Local Open Scope Z_scope.

(** ** Recorded errors *)

(** [collections.LRUCache] of the holster library, as far as it is used: entries under a
    key with a time to live.  The clock is an argument. *)
Class ErrCache : Type := {
  ec : Type;
  ec_New : ec;                                              (* [NewLRUCache] *)
  ec_AddWithTTL : Z -> string -> gerror -> Z -> ec -> ec;   (* now, key, value, time to live *)
  ec_Keys : ec -> list string;
  ec_Get : Z -> string -> ec -> option gerror * ec          (* now, key *)
}.

(** What it documents: an entry can be had under its key until its time has passed, adding
    one may evict others, reading drops at most the expired entry that was read. *)
Class ErrCacheLaws `{EC : ErrCache} : Type := {
  ec_view : ec -> string -> option (gerror * Z);            (* value and expiry *)
  ec_New_view : forall k, ec_view ec_New k = None;
  ec_Add_own : forall now k v ttl c, ec_view (ec_AddWithTTL now k v ttl c) k = Some (v, now + ttl);
  ec_Add_other : forall now k v ttl c k', k' <> k ->
    ec_view (ec_AddWithTTL now k v ttl c) k' = ec_view c k' \/ ec_view (ec_AddWithTTL now k v ttl c) k' = None;
  ec_Keys_all : forall c k, is_Some (ec_view c k) -> k ∈ ec_Keys c;
  ec_Get_live : forall now k c v exp, ec_view c k = Some (v, exp) -> now < exp -> (ec_Get now k c).1 = Some v;
  ec_Get_expired : forall now k c v exp, ec_view c k = Some (v, exp) -> exp < now -> (ec_Get now k c).1 = None;
  ec_Get_none : forall now k c, ec_view c k = None -> (ec_Get now k c).1 = None;
  ec_Get_view : forall now k c k', ec_view (ec_Get now k c).2 k' = ec_view c k' \/
    (k' = k /\ (ec_Get now k c).1 = None /\ ec_view (ec_Get now k c).2 k' = None)
}.

Section Client.
Context `{EC : ErrCache}.

(** ** State *)

(** A queued request; [rq_resp] identifies the channel its answer goes to, [rq_ctx]
    is the error of the caller's context when the batch is sent, if it is done. *)
Record request : Type := mkRequest {
  rq_request : RateLimitReq;
  rq_resp : nat;
  rq_ctx : option gerror
}.

(** [pc_lastErrs] holds the errors recorded against the peer. *)
Record PeerClient : Type := mkPeerClient {
  pc_Address : string;
  pc_DisableBatching : bool;
  pc_BatchLimit : Z;
  pc_queueClosed : bool;
  pc_isShutdown : bool;
  pc_lastErrs : ec;
  pc_mismatches : Z                   (* "Item mismatch" of the error counter *)
}.

Definition with_lastErrs (l : ec) (c : PeerClient) : PeerClient :=
  mkPeerClient (pc_Address c) (pc_DisableBatching c) (pc_BatchLimit c) (pc_queueClosed c)
    (pc_isShutdown c) l (pc_mismatches c).

Definition with_mismatches (n : Z) (c : PeerClient) : PeerClient :=
  mkPeerClient (pc_Address c) (pc_DisableBatching c) (pc_BatchLimit c) (pc_queueClosed c)
    (pc_isShutdown c) (pc_lastErrs c) n.

(** [clock.Minute*5], in nanoseconds. *)
Definition errTTL : Z := 5 * 60 * 1000000000.

(** [setLastErr]: a five minute entry under the text of the error. *)
Definition setLastErr (now : Z) (err : gerror) (c : PeerClient) : PeerClient :=
  with_lastErrs (ec_AddWithTTL now (err_text err) (ErrWrap ("from host " +:+ pc_Address c) err) errTTL (pc_lastErrs c)) c.

(** [GetLastErr]: the entries that have not expired. *)
Fixpoint getErrs (now : Z) (keys : list string) (l : ec) : list string * ec :=
  match keys with
  | [] => ([], l)
  | key :: keys =>
      let '(err, l1) := ec_Get now key l in
      let '(errs, l2) := getErrs now keys l1 in
      (match err with Some e => err_text e :: errs | None => errs end, l2)
  end.

Definition GetLastErr (now : Z) (c : PeerClient) : list string * PeerClient :=
  let '(errs, l) := getErrs now (ec_Keys (pc_lastErrs c)) (pc_lastErrs c) in (errs, with_lastErrs l c).

(** An answer put on the channel of a request. *)
Definition answer : Type := nat * result RateLimitResp.

(** ** One batch *)

Section Batch.
(** [propagation.TraceContext.Inject]: what tracing adds to a request's metadata. *)
Variable inject : gmap string string -> gmap string string.

Definition with_trace (r : RateLimitReq) : RateLimitReq :=
  mkReq (r_Name r) (r_UniqueKey r) (r_Hits r) (r_Limit r) (r_Duration r) (r_Algorithm r)
    (r_Behavior r) (r_Burst r) (inject (r_Metadata r)) (r_CreatedAt r) (r_MaxWait r).

(** The requests whose caller already left are answered and not sent. *)
Definition refused (queue : list request) : list answer :=
  omap (fun r => (fun e => (rq_resp r, Err (ErrWrap "Context error before sending batch" e))) <$> rq_ctx r) queue.

Definition live (queue : list request) : list request := filter (fun r => rq_ctx r = None) queue.

(** [sendBatch]: the request sent to the peer, if any, then its outcome [rpc] turned
    into answers. *)
Definition batchRequest (queue : list request) : list RateLimitReq :=
  (fun r => with_trace (rq_request r)) <$> live queue.

(** What the outcome of the call answers the requests that were sent, and what it records
    against the peer. *)
Definition batchOutcome (now : Z) (queue : list request) (rpc : result (list RateLimitResp)) (c : PeerClient)
    : list answer * PeerClient :=
  match rpc with
  | Err e =>
      let err := ErrWrap "Error in client.GetPeerRateLimits" e in
      ((fun r => (rq_resp r, Err err)) <$> queue, setLastErr now err c)
  | Ok rls =>
      if Nat.eqb (length rls) (length queue) then (zip_with (fun r rl => (rq_resp r, Ok rl)) queue rls, c)
      else
        let err := ErrNew "server responded with incorrect rate limit list size" in
        ((fun r => (rq_resp r, Err err)) <$> queue,
         with_mismatches (pc_mismatches c + Z.of_nat (length queue)) (setLastErr now err c))
  end.

Definition sendBatch (now : Z) (queue : list request) (rpc : list RateLimitReq -> result (list RateLimitResp))
    (c : PeerClient) : list answer * PeerClient :=
  match live queue with
  | [] => (refused queue, c)
  | queue' =>
      let '(out, c') := batchOutcome now queue' (rpc (batchRequest queue)) c in (refused queue ++ out, c')
  end.
End Batch.

End Client.

(** ** Collecting batches *)

(** What [runBatch] sees: a queued request, the tick of its interval, the closed
    queue; [interval.Next] is called when a batch begins. *)
Inductive batchEvent (A : Type) : Type :=
  | Queued (r : A)
  | Tick
  | QueueClosed.
Arguments Queued {A}.
Arguments Tick {A}.
Arguments QueueClosed {A}.

Record Batcher (A : Type) : Type := mkBatcher {
  ba_queue : list A;
  ba_sent : list (list A);      (* batches handed to [sendBatch], oldest first *)
  ba_nexts : nat;                     (* calls of [interval.Next] *)
  ba_running : bool
}.
Arguments mkBatcher {A}.
Arguments ba_queue {A}.
Arguments ba_sent {A}.
Arguments ba_nexts {A}.
Arguments ba_running {A}.

Definition newBatcher {A} : Batcher A := mkBatcher [] [] 0 true.

Definition runBatch {A} (limit : Z) (ev : batchEvent A) (b : Batcher A) : Batcher A :=
  if ba_running b then
    match ev with
    | QueueClosed =>
        mkBatcher [] (match ba_queue b with [] => ba_sent b | _ => ba_sent b ++ [ba_queue b] end)
          (ba_nexts b) false
    | Queued r =>
        let queue := ba_queue b ++ [r] in
        if limit <=? Z.of_nat (length queue) then mkBatcher [] (ba_sent b ++ [queue]) (ba_nexts b) true
        else mkBatcher queue (ba_sent b)
               (if Nat.eqb (length queue) 1 then S (ba_nexts b) else ba_nexts b) true
    | Tick =>
        match ba_queue b with
        | [] => b
        | _ => mkBatcher [] (ba_sent b ++ [ba_queue b]) (ba_nexts b) true
        end
    end
  else b.

(** ** Calls *)

Section Calls.
Context `{EC : ErrCache}.

(** How the wait for an answer ended. *)
Inductive wait : Type :=
  | GotResponse (res : result RateLimitResp)
  | CtxDone (e : gerror).

Definition awaitResponse (w : wait) : result RateLimitResp :=
  match w with
  | GotResponse (Ok rl) => Ok rl
  | GotResponse (Err e) => Err (ErrWrap "Request error" e)
  | CtxDone e => Err (ErrWrap "Context error while waiting for response" e)
  end.

(** [status.Error(codes.Canceled, ...)]: a gRPC status, not the context's sentinel. *)
Definition errClosing : gerror := ErrNew "rpc error: code = Canceled desc = grpc: the client connection is closing".

Definition getPeerRateLimitSingle (c : PeerClient) (ctx : option gerror) (w : wait) : result RateLimitResp :=
  if pc_queueClosed c then Err errClosing
  else match ctx with
       | Some e => Err (ErrWrap "Context error before sending request" e)
       | None => awaitResponse w
       end.

(** [enq]: the context's error when the caller gave up on a full queue. *)
Definition getPeerRateLimitsBatch (c : PeerClient) (ctx enq : option gerror) (w : wait) : result RateLimitResp :=
  if pc_queueClosed c then Err errClosing
  else match ctx, enq with
       | Some e, _ => Err (ErrWrap "Context error while enqueuing request" e)
       | None, Some e => Err (ErrWrap "Context error while enqueuing request" e)
       | None, None => awaitResponse w
       end.

Definition GetPeerRateLimit (c : PeerClient) (r : RateLimitReq) (ctx enq : option gerror) (w : wait)
    : result RateLimitResp :=
  if pc_DisableBatching c || HasBehavior (r_Behavior r) NO_BATCHING then
    match getPeerRateLimitSingle c ctx w with
    | Ok rl => Ok rl
    | Err e => Err (ErrWrap "Error in getPeerRateLimitSingle" e)
    end
  else
    match getPeerRateLimitsBatch c ctx enq w with
    | Ok rl => Ok rl
    | Err e => Err (ErrWrap "Error in getPeerRateLimitsBatch" e)
    end.

(** [GetPeerRateLimits]: used for the hits of global limits. *)
Definition GetPeerRateLimits (now : Z) (reqs : list RateLimitReq) (rpc : result (list RateLimitResp)) (c : PeerClient)
    : result (list RateLimitResp) * PeerClient :=
  match rpc with
  | Err e => let err := ErrWrap "Error in client.GetPeerRateLimits" e in (Err err, setLastErr now err c)
  | Ok rls =>
      if Nat.eqb (length rls) (length reqs) then (Ok rls, c)
      else
        let err := ErrNew "number of rate limits in peer response does not match request" in
        (Err err, with_mismatches (pc_mismatches c + 1) (setLastErr now err c))
  end.

Definition UpdatePeerGlobals (now : Z) (rpc : result unit) (c : PeerClient) : result unit * PeerClient :=
  match rpc with
  | Err e => (Err e, setLastErr now e c)
  | Ok _ => (Ok tt, c)
  end.

(** [Shutdown]: the first call drains, forgets the errors and closes the queue. When the
    caller's context ends first the caller gets its error and the drain goes on: the
    state is the one the drain ends in. *)
Definition Shutdown (ctx : option gerror) (c : PeerClient) : result unit * PeerClient :=
  if pc_isShutdown c then (Ok tt, c)
  else
    let c' := mkPeerClient (pc_Address c) (pc_DisableBatching c) (pc_BatchLimit c) true true ec_New (pc_mismatches c) in
    (match ctx with Some e => Err e | None => Ok tt end, c').

(** ** What a peer client promises *)

Lemma refused_live_ids (queue : list request) :
  (refused queue).*1 ++ (rq_resp <$> live queue) ≡ₚ rq_resp <$> queue.
Proof.
  unfold refused, live. induction queue as [|r queue IH]; [done|]. rewrite fmap_cons, <- IH.
  destruct (rq_ctx r) as [e|] eqn:E.
  - rewrite filter_cons_False by congruence. simpl. by rewrite E.
  - rewrite filter_cons_True by done. simpl. rewrite E. simpl. by rewrite Permutation_middle.
Qed.

Lemma zip_ids (q : list request) (rls : list RateLimitResp) : length rls = length q ->
  (zip_with (fun r rl => (rq_resp r, Ok rl)) q rls : list answer).*1 = rq_resp <$> q.
Proof.
  revert rls. induction q as [|r q IH]; intros [|rl rls] Hl; simplify_eq/=; [done|]. f_equal. by apply IH.
Qed.

Lemma outcome_ids (now : Z) (queue : list request) (rpc : result (list RateLimitResp)) (c : PeerClient) :
  (batchOutcome now queue rpc c).1.*1 = rq_resp <$> queue.
Proof.
  unfold batchOutcome. destruct rpc as [rls|e]; [|simpl; by rewrite <- list_fmap_compose].
  destruct (Nat.eqb_spec (length rls) (length queue)); simpl; [by apply zip_ids|by rewrite <- list_fmap_compose].
Qed.

Lemma batch_ids (now : Z) (inject : gmap string string -> gmap string string)
    (queue : list request) (rpc : list RateLimitReq -> result (list RateLimitResp)) (c : PeerClient) :
  (sendBatch inject now queue rpc c).1.*1 ≡ₚ rq_resp <$> queue.
Proof.
  rewrite <- (refused_live_ids queue). unfold sendBatch.
  destruct (live queue) as [|r0 q0] eqn:El; [by rewrite app_nil_r|]. rewrite <- El. clear r0 q0 El.
  pose proof (outcome_ids now (live queue) (rpc (batchRequest inject queue)) c) as Ho.
  destruct (batchOutcome _ _ _) as [out c']. simpl in *. by rewrite fmap_app, Ho.
Qed.

(** A batch answers every request in it exactly once, whatever the peer does: the
    call fails, answers with the wrong number of limits, or succeeds. Requests whose
    caller already left are answered with an error and not sent. When the peer answers
    as it should, every caller that still waits gets the limit that stands at its own
    place in the batch, and no error is recorded against the peer. *)
Theorem send_batch_answers (now : Z) (inject : gmap string string -> gmap string string)
    (queue : list request) (rpc : list RateLimitReq -> result (list RateLimitResp)) (c : PeerClient) :
  (sendBatch inject now queue rpc c).1.*1 ≡ₚ rq_resp <$> queue /\
  (forall r e, r ∈ queue -> rq_ctx r = Some e ->
     (rq_resp r, Err (ErrWrap "Context error before sending batch" e)) ∈ (sendBatch inject now queue rpc c).1) /\
  (forall rls, rpc (batchRequest inject queue) = Ok rls -> length rls = length (live queue) ->
     (forall i r rl, live queue !! i = Some r -> rls !! i = Some rl ->
        (rq_resp r, Ok rl) ∈ (sendBatch inject now queue rpc c).1) /\
     (sendBatch inject now queue rpc c).2 = c).
Proof.
  split; [apply batch_ids|]. split.
  - intros r e Hr He.
    assert ((rq_resp r, Err (ErrWrap "Context error before sending batch" e)) ∈ refused queue) as Hin.
    { apply list_elem_of_omap. exists r. by rewrite He. }
    unfold sendBatch. destruct (live queue); [done|]. destruct (batchOutcome _ _ _). apply elem_of_app. by left.
  - intros rls Hrpc Hlen. unfold sendBatch, batchOutcome. rewrite Hrpc.
    destruct (live queue) as [|r0 q0] eqn:El; [done|]. rewrite <- El in *. clear r0 q0 El.
    rewrite (proj2 (Nat.eqb_eq _ _) Hlen). split; [|done]. simpl. intros i r rl Hr Hrl.
    apply elem_of_app. right. apply list_elem_of_lookup_2 with i. by rewrite lookup_zip_with, Hr, Hrl.
Qed.

End Calls.

Section Collect.
Context {A : Type}.

Definition batchRun (limit : Z) (evs : list (batchEvent A)) : Batcher A :=
  fold_left (fun b ev => runBatch limit ev b) evs newBatcher.

(** The requests received before the queue was closed. *)
Fixpoint received (evs : list (batchEvent A)) : list A :=
  match evs with
  | [] => []
  | Queued r :: evs => r :: received evs
  | Tick :: evs => received evs
  | QueueClosed :: _ => []
  end.

Record batcher_ok (limit : Z) (b : Batcher A) : Prop := {
  bo_short : Z.of_nat (length (ba_queue b)) < limit;
  bo_sizes : Forall (fun q => q <> [] /\ Z.of_nat (length q) <= limit) (ba_sent b);
  bo_stopped : ba_running b = false -> ba_queue b = []
}.

Lemma runBatch_ok (limit : Z) (ev : batchEvent A) (b : Batcher A) : 0 < limit ->
  batcher_ok limit b -> batcher_ok limit (runBatch limit ev b).
Proof.
  intros Hl [Hs Hz Hst]. unfold runBatch. destruct (ba_running b) eqn:Er; [|by constructor; rewrite ?Er].
  destruct ev as [r| |].
  - assert (length (ba_queue b ++ [r]) = S (length (ba_queue b))) as El by (rewrite length_app; simpl; lia).
    destruct (Z.leb_spec limit (Z.of_nat (length (ba_queue b ++ [r])))) as [Hle|Hgt];
      constructor; simpl; try done.
    apply Forall_app. split; [done|]. constructor; [|done]. split; [by destruct (ba_queue b)|lia].
  - destruct (ba_queue b) as [|x q] eqn:Eq; [by constructor; rewrite ?Eq|]. constructor; simpl; [done| |done].
    apply Forall_app. split; [done|]. constructor; [|done]. split; [done|lia].
  - constructor; simpl; [done| |done]. destruct (ba_queue b) as [|x q] eqn:Eq; [done|].
    apply Forall_app. split; [done|]. constructor; [|done]. split; [done|lia].
Qed.

Lemma runBatch_concat (limit : Z) (evs : list (batchEvent A)) (b : Batcher A) : ba_running b = true ->
  let b' := fold_left (fun b ev => runBatch limit ev b) evs b in
  concat (ba_sent b') ++ ba_queue b' = concat (ba_sent b) ++ ba_queue b ++ received evs.
Proof.
  revert b. induction evs as [|ev evs IH]; intros b Hr; cbn [fold_left received]; [by rewrite app_nil_r|].
  destruct ev as [r| |].
  - rewrite IH by (unfold runBatch; rewrite Hr; by destruct (_ <=? _)).
    unfold runBatch. rewrite Hr. destruct (_ <=? _); simpl.
    + rewrite concat_app. simpl. by rewrite app_nil_r, <- !app_assoc.
    + by rewrite <- !app_assoc.
  - rewrite IH by (unfold runBatch; rewrite Hr; by destruct (ba_queue b)).
    unfold runBatch. rewrite Hr. destruct (ba_queue b) as [|x q] eqn:Eq; simpl; [by rewrite Eq|].
    rewrite concat_app. simpl. by rewrite app_nil_r, <- !app_assoc.
  - assert (forall es (b0 : Batcher A), ba_running b0 = false -> fold_left (fun b ev => runBatch limit ev b) es b0 = b0) as Hstop.
    { induction es as [|e es IHe]; intros b0 H0; cbn [fold_left]; [done|]. unfold runBatch at 2. rewrite H0. by apply IHe. }
    rewrite Hstop by (unfold runBatch; by rewrite Hr).
    unfold runBatch. rewrite Hr. simpl. destruct (ba_queue b) as [|x q]; simpl; [done|].
    rewrite concat_app. simpl. by rewrite !app_nil_r.
Qed.

End Collect.

(** The batcher loses nothing, repeats nothing and keeps the order: after any events
    the requests of the batches sent, followed by those still queued, are the requests
    received; no batch is empty or longer than the batch limit; and nothing is left
    behind when the queue is closed. *)
Theorem batcher_conserves (limit : Z) (evs : list (batchEvent request)) (Hl : 0 < limit) :
  let b := batchRun limit evs in
  concat (ba_sent b) ++ ba_queue b = received evs /\
  Forall (fun q => q <> [] /\ Z.of_nat (length q) <= limit) (ba_sent b) /\
  (ba_running b = false -> concat (ba_sent b) = received evs).
Proof.
  intros b. pose proof (runBatch_concat limit evs newBatcher eq_refl) as Hc. fold (batchRun limit evs) in Hc. fold b in Hc.
  assert (forall es (b0 : Batcher request), batcher_ok limit b0 ->
    batcher_ok limit (fold_left (fun b ev => runBatch limit ev b) es b0)) as Hok.
  { induction es as [|e es IH]; intros b0 H0; [done|]. cbn [fold_left]. by apply IH, runBatch_ok. }
  destruct (Hok evs newBatcher) as [_ Hz Hst]; [by constructor|]. fold (batchRun limit evs) in Hz, Hst. fold b in Hz, Hst.
  simpl in Hc. split; [done|]. split; [done|]. intros Hr. rewrite <- Hc, (Hst Hr). by rewrite app_nil_r.
Qed.

(** Three requests and a limit of two: one full batch, one on the tick. *)
Lemma batcher_conserves_witness :
  let r n := mkRequest (mkReq "n" "k" 1 10 1000 TOKEN_BUCKET BATCHING 0 ∅ None 0) n None in
  concat (ba_sent (batchRun 2 [Queued (r 1%nat); Queued (r 2%nat); Tick; Queued (r 3%nat); Tick])) =
  [r 1%nat; r 2%nat; r 3%nat].
Proof.
  intros r.
  destruct (batcher_conserves 2 [Queued (r 1%nat); Queued (r 2%nat); Tick; Queued (r 3%nat); Tick] ltac:(done))
    as [Hc _].
  change (ba_queue (batchRun 2 [Queued (r 1%nat); Queued (r 2%nat); Tick; Queued (r 3%nat); Tick])) with (@nil request) in Hc.
  rewrite app_nil_r in Hc. exact Hc.
Defined.

(** ** How long an error is reported *)

Section Errors.
Context `{EC : ErrCache} `{!ErrCacheLaws}.

Lemma getErrs_live (now : Z) (keys : list string) (l : ec) (k : string) (v : gerror) (exp : Z) :
  ec_view l k = Some (v, exp) -> now < exp -> k ∈ keys -> err_text v ∈ (getErrs now keys l).1.
Proof.
  intros Hv Hlt. revert l Hv. induction keys as [|k0 keys IH]; intros l Hv Hk; [by apply elem_of_nil in Hk|]. simpl.
  pose proof (ec_Get_view now k0 l k) as Hview. pose proof (ec_Get_live now k0 l v exp) as Hlive.
  destruct (ec_Get now k0 l) as [err l1]. simpl in *. specialize (IH l1). destruct (getErrs now keys l1) as [errs l2]. simpl in *.
  destruct (decide (k0 = k)) as [->|Hne]; [rewrite (Hlive Hv Hlt); left|].
  apply elem_of_cons in Hk as [?|Hk]; [congruence|]. destruct Hview as [Hview|(? & _)]; [|congruence].
  assert (err_text v ∈ errs) as Hin by (apply IH; [congruence|done]). destruct err; [by right|done].
Qed.

Lemma getErrs_expired (now : Z) (keys : list string) (l : ec) :
  (forall k v exp, ec_view l k = Some (v, exp) -> exp < now) -> (getErrs now keys l).1 = [].
Proof.
  revert l. induction keys as [|k0 keys IH]; intros l Hexp; [done|]. simpl.
  assert ((ec_Get now k0 l).1 = None) as Hnone.
  { destruct (ec_view l k0) as [[v exp]|] eqn:E; [by eapply ec_Get_expired; [|eapply Hexp]|by apply ec_Get_none]. }
  assert (forall k v exp, ec_view (ec_Get now k0 l).2 k = Some (v, exp) -> exp < now) as Hexp'.
  { intros k v exp Hv. destruct (ec_Get_view now k0 l k) as [He|(_ & _ & He)]; rewrite He in Hv; [by eapply Hexp|done]. }
  destruct (ec_Get now k0 l) as [err l1]. simpl in *. specialize (IH l1 Hexp'). destruct (getErrs now keys l1). simpl in *. by subst.
Qed.

(** The errors a client reports at some moment. *)
Definition reported (now : Z) (c : PeerClient) : list string :=
  (getErrs now (ec_Keys (pc_lastErrs c)) (pc_lastErrs c)).1.

Lemma GetLastErr_reported (now : Z) (c : PeerClient) : (GetLastErr now c).1 = reported now c.
Proof. unfold reported, GetLastErr. by destruct (getErrs now _ _). Qed.

Lemma reported_new (t now : Z) (err : gerror) (c : PeerClient) : now < t + errTTL ->
  err_text (ErrWrap ("from host " +:+ pc_Address c) err) ∈ reported now (setLastErr t err c).
Proof.
  intros Hlt. apply (getErrs_live _ _ _ (err_text err) _ (t + errTTL)); [apply ec_Add_own|done|].
  apply ec_Keys_all. eexists. apply ec_Add_own.
Qed.

Lemma reported_old (now : Z) (c : PeerClient) :
  (forall k v exp, ec_view (pc_lastErrs c) k = Some (v, exp) -> exp < now) -> reported now c = [].
Proof. apply getErrs_expired. Qed.
End Errors.

(** A cache without a bound, as a list of entries. *)
Definition listErrs : ErrCache := {|
  ec := list (string * (gerror * Z));
  ec_New := [];
  ec_AddWithTTL now k v ttl l := (k, (v, now + ttl)) :: l;
  ec_Keys l := l.*1;
  ec_Get now k l :=
    (match list_find (fun e => e.1 = k) l with Some (_, (_, (v, exp))) => if exp <? now then None else Some v | None => None end, l)
|}.

Definition listView (l : list (string * (gerror * Z))) (k : string) : option (gerror * Z) :=
  (fun ie => ie.2.2) <$> list_find (fun e => e.1 = k) l.

Definition listErrs_laws : ErrCacheLaws (EC := listErrs).
Proof.
  refine {| ec_view := listView : @ec listErrs -> _ |}; unfold listView; simpl.
  - done.
  - intros. by rewrite decide_True.
  - intros now k v ttl c k' Hne. left. rewrite decide_False by done. by destruct (list_find _ c) as [[]|].
  - intros c k [x Hx]. apply fmap_Some in Hx as ([i [k' e]] & Hf & _). apply list_find_Some in Hf as (Hi & Hk & _). simpl in Hk. subst k'.
    apply list_elem_of_fmap. exists (k, e). split; [done|]. by eapply list_elem_of_lookup_2.
  - intros now k c v exp Hv Hlt. destruct (list_find _ c) as [[i [k' [v' exp']]]|]; simplify_eq/=.
    by destruct (Z.ltb_spec exp now); [lia|].
  - intros now k c v exp Hv Hlt. destruct (list_find _ c) as [[i [k' [v' exp']]]|]; simplify_eq/=.
    by destruct (Z.ltb_spec exp now); [|lia].
  - intros now k c Hv. by destruct (list_find _ c) as [[i [k' [v' exp']]]|]; simplify_eq/=.
  - intros. by left.
Defined.
