(* ===== verification/PeerLoop.v ===== *)
(** * Calls in flight to a peer ([peer_client.go])

    A peer client as a transition system: callers that forward a request alone or through
    the batcher, calls for global limits, the goroutine of [runBatch] with its ticker, the
    goroutines that send batches, and [Shutdown], which drains the calls in flight under
    the mutex and closes the queue.  Nothing is sent on the closed queue; a request is
    sent at most once and its caller gets the answer at its own place; all calls return,
    and so does [Shutdown]; what is left in the queue when it closes is not sent. *)

From stdpp Require Import base gmap strings list relations.
From Stdlib Require Import ZArith Lia.
From S2P Require Import Prelude Types Interval PeerClient.

Local Open Scope Z_scope.

Import Ticker.

(** ** State *)

(** The methods that make calls: [GetPeerRateLimit], [GetPeerRateLimits] and
    [UpdatePeerGlobals]. *)
Inductive Method : Type :=
  | Forward (r : RateLimitReq)
  | SendHits (reqs : list RateLimitReq)
  | SendGlobals.

(** Where a caller is: before the mutex; counted in [wg] and before the check of
    [queueClosed]; past it; past the check of its context; waiting for the answer; or
    returned, with what [GetPeerRateLimit] returned. *)
Inductive CallAt : Type :=
  | Arriving
  | Counted
  | Unclosed
  | Sending
  | Waiting
  | Gone (res : option (result RateLimitResp)).

(** A call: its method, [ctx.Err()] of its context, where it is, and what is in the
    buffer of its response channel. *)
Record Call : Type := mkCall {
  ca_method : Method;
  ca_ctx : option gerror;
  ca_at : CallAt;
  ca_resp : option (result RateLimitResp)
}.

Definition moved (a : CallAt) (c : Call) : Call := mkCall (ca_method c) (ca_ctx c) a (ca_resp c).
Definition given (res : result RateLimitResp) (c : Call) : Call := mkCall (ca_method c) (ca_ctx c) (ca_at c) (Some res).

(** A goroutine of [sendBatch]: started with the calls of its batch, in the call to the
    peer with the requests it sent, or returned. *)
Inductive BatchAt : Type :=
  | Started (ids : list nat)
  | Calling (reqs : list request)
  | Answered.

(** The goroutine of [runBatch]: not started when batching is disabled. *)
Inductive LoopAt : Type := Off | Running | Ended.

(** The goroutine of [Shutdown]: waiting for the mutex, draining with it held, with
    [queueClosed] stored, finished. *)
Inductive DrainAt : Type := NoDrain | WantLock | Draining | Storing | Finished.

(** The caller of [Shutdown]. *)
Inductive ShutAt : Type := NotCalled | ShutWaits (ctx : option gerror) | ShutDone (res : result unit).

Section System.
Context `{EC : ErrCache}.

Record System : Type := mkSystem {
  sy_client : PeerClient;
  sy_calls : list Call;
  sy_queue : list nat;                 (* the channel [queue] *)
  sy_closed : bool;                    (* it is closed *)
  sy_loop : LoopAt;
  sy_batcher : Batcher nat;
  sy_ticker : Interval;
  sy_batches : list BatchAt;
  sy_drain : DrainAt;
  sy_shut : ShutAt;
  sy_log : list (list request * result (list RateLimitResp))    (* calls to the peer that returned *)
}.

(** The capacity of [queue]. *)
Definition queueCap : nat := 1000.

(** [NewPeerClient]. *)
Definition newSystem (addr : string) (disable : bool) (limit : Z) : System :=
  mkSystem (mkPeerClient addr disable limit false false ec_New 0) [] [] false (if disable then Off else Running)
    newBatcher NewInterval [] NoDrain NotCalled [].

(** A request that is sent without the batcher. *)
Definition unbatched (c : PeerClient) (r : RateLimitReq) : bool :=
  pc_DisableBatching c || HasBehavior (r_Behavior r) NO_BATCHING.

(** What [GetPeerRateLimit] makes of the result of the method it called. *)
Definition wrapped (c : PeerClient) (r : RateLimitReq) (res : result RateLimitResp) : result RateLimitResp :=
  match res with
  | Ok rl => Ok rl
  | Err e => Err (ErrWrap (if unbatched c r then "Error in getPeerRateLimitSingle" else "Error in getPeerRateLimitsBatch") e)
  end.

Definition leaves (c : PeerClient) (r : RateLimitReq) (res : result RateLimitResp) : CallAt := Gone (Some (wrapped c r res)).

(** The message for a context that ended before the request was handed over. *)
Definition ctxMessage (c : PeerClient) (r : RateLimitReq) : string :=
  if unbatched c r then "Context error before sending request" else "Context error while enqueuing request".

(** The requests of a batch as its goroutine sees them. *)
Definition requestAt (calls : list Call) (i : nat) : option request :=
  match calls !! i with
  | Some (mkCall (Forward r) ctx _ _) => Some (mkRequest r i ctx)
  | _ => None
  end.

Definition deliver (answers : list answer) (calls : list Call) : list Call :=
  fold_left (fun cs a => alter (given a.2) a.1 cs) answers calls.

(** The call is counted in [wg]. *)
Definition counted (a : CallAt) : bool :=
  match a with Counted | Unclosed | Sending | Waiting => true | _ => false end.

(** The drain holds the mutex. *)
Definition lockFree (d : DrainAt) : bool := match d with Draining | Storing => false | _ => true end.

(** The batches a round of [runBatch] started. *)
Definition newBatches (b b' : Batcher nat) : list BatchAt := Started <$> drop (length (ba_sent b)) (ba_sent b').

Definition nextIf (b b' : Batcher nat) (t : Interval) : Interval :=
  if Nat.eqb (ba_nexts b') (ba_nexts b) then t else Next t.

Definition clearErrs (c : PeerClient) : PeerClient :=
  mkPeerClient (pc_Address c) (pc_DisableBatching c) (pc_BatchLimit c) true (pc_isShutdown c) ec_New (pc_mismatches c).

Definition shuttingDown (c : PeerClient) : PeerClient :=
  mkPeerClient (pc_Address c) (pc_DisableBatching c) (pc_BatchLimit c) (pc_queueClosed c) true (pc_lastErrs c) (pc_mismatches c).

(** ** Steps *)

Definition with_calls (cs : list Call) (s : System) : System :=
  mkSystem (sy_client s) cs (sy_queue s) (sy_closed s) (sy_loop s) (sy_batcher s) (sy_ticker s) (sy_batches s)
    (sy_drain s) (sy_shut s) (sy_log s).

Definition put (i : nat) (c : Call) (s : System) : System := with_calls (<[i := c]> (sy_calls s)) s.

Definition with_client (c : PeerClient) (s : System) : System :=
  mkSystem c (sy_calls s) (sy_queue s) (sy_closed s) (sy_loop s) (sy_batcher s) (sy_ticker s) (sy_batches s)
    (sy_drain s) (sy_shut s) (sy_log s).

Definition with_queue (q : list nat) (s : System) : System :=
  mkSystem (sy_client s) (sy_calls s) q (sy_closed s) (sy_loop s) (sy_batcher s) (sy_ticker s) (sy_batches s)
    (sy_drain s) (sy_shut s) (sy_log s).

Definition with_batches (bs : list BatchAt) (s : System) : System :=
  mkSystem (sy_client s) (sy_calls s) (sy_queue s) (sy_closed s) (sy_loop s) (sy_batcher s) (sy_ticker s) bs
    (sy_drain s) (sy_shut s) (sy_log s).

Definition with_drain (d : DrainAt) (sh : ShutAt) (s : System) : System :=
  mkSystem (sy_client s) (sy_calls s) (sy_queue s) (sy_closed s) (sy_loop s) (sy_batcher s) (sy_ticker s) (sy_batches s)
    d sh (sy_log s).

(** A round of the loop on an event: what it does to batcher, ticker and batches. *)
Definition round (ev : batchEvent nat) (lp : LoopAt) (t : Interval) (q : list nat) (s : System) : System :=
  let b := sy_batcher s in
  let b' := runBatch (pc_BatchLimit (sy_client s)) ev b in
  mkSystem (sy_client s) (sy_calls s) q (sy_closed s) lp b' (nextIf b b' t) (sy_batches s ++ newBatches b b')
    (sy_drain s) (sy_shut s) (sy_log s).

(** What happens from outside: a method is called, a context ends, [Shutdown] is called
    (later calls of it return at once and change nothing). *)
Inductive env_step (s : System) : System -> Prop :=
  | e_call m : env_step s (with_calls (sy_calls s ++ [mkCall m None Arriving None]) s)
  | e_ctx i c e : sy_calls s !! i = Some c -> ca_ctx c = None ->
      env_step s (put i (mkCall (ca_method c) (Some e) (ca_at c) (ca_resp c)) s)
  | e_shutdown : pc_isShutdown (sy_client s) = false ->
      env_step s (with_drain WantLock (ShutWaits None) (with_client (shuttingDown (sy_client s)) s))
  | e_shut_ctx e : sy_shut s = ShutWaits None -> env_step s (with_drain (sy_drain s) (ShutWaits (Some e)) s).

(** What the goroutines do. *)
Inductive run_step (s : System) : System -> Prop :=
  (* a caller: [c.wg.Add(1)] under the mutex, the checks, the hand-over, the wait *)
  | r_count i c : sy_calls s !! i = Some c -> ca_at c = Arriving -> lockFree (sy_drain s) = true ->
      run_step s (put i (moved Counted c) s)
  | r_closed i c r : sy_calls s !! i = Some c -> ca_method c = Forward r -> ca_at c = Counted ->
      pc_queueClosed (sy_client s) = true ->
      run_step s (put i (moved (leaves (sy_client s) r (Err errClosing)) c) s)
  | r_open i c r : sy_calls s !! i = Some c -> ca_method c = Forward r -> ca_at c = Counted ->
      pc_queueClosed (sy_client s) = false -> run_step s (put i (moved Unclosed c) s)
  | r_left i c r e : sy_calls s !! i = Some c -> ca_method c = Forward r -> ca_at c = Unclosed -> ca_ctx c = Some e ->
      run_step s (put i (moved (leaves (sy_client s) r (Err (ErrWrap (ctxMessage (sy_client s) r) e))) c) s)
  | r_stays i c r : sy_calls s !! i = Some c -> ca_method c = Forward r -> ca_at c = Unclosed -> ca_ctx c = None ->
      run_step s (put i (moved Sending c) s)
  | r_enqueue i c r : sy_calls s !! i = Some c -> ca_method c = Forward r -> ca_at c = Sending ->
      unbatched (sy_client s) r = false -> sy_closed s = false -> (length (sy_queue s) < queueCap)%nat ->
      run_step s (with_queue (sy_queue s ++ [i]) (put i (moved Waiting c) s))
  | r_enqueue_ctx i c r e : sy_calls s !! i = Some c -> ca_method c = Forward r -> ca_at c = Sending ->
      unbatched (sy_client s) r = false -> ca_ctx c = Some e ->
      run_step s (put i (moved (leaves (sy_client s) r (Err (ErrWrap (ctxMessage (sy_client s) r) e))) c) s)
  | r_spawn i c r : sy_calls s !! i = Some c -> ca_method c = Forward r -> ca_at c = Sending ->
      unbatched (sy_client s) r = true ->
      run_step s (with_batches (sy_batches s ++ [Started [i]]) (put i (moved Waiting c) s))
  | r_receive i c r res : sy_calls s !! i = Some c -> ca_method c = Forward r -> ca_at c = Waiting -> ca_resp c = Some res ->
      run_step s (put i (moved (leaves (sy_client s) r (awaitResponse (GotResponse res))) c) s)
  | r_give_up i c r e : sy_calls s !! i = Some c -> ca_method c = Forward r -> ca_at c = Waiting -> ca_ctx c = Some e ->
      run_step s (put i (moved (leaves (sy_client s) r (awaitResponse (CtxDone e))) c) s)
  | r_hits i c now reqs rpc : sy_calls s !! i = Some c -> ca_method c = SendHits reqs -> ca_at c = Counted ->
      run_step s (with_client (GetPeerRateLimits now reqs rpc (sy_client s)).2 (put i (moved (Gone None) c) s))
  | r_globals i c now rpc : sy_calls s !! i = Some c -> ca_method c = SendGlobals -> ca_at c = Counted ->
      run_step s (with_client (UpdatePeerGlobals now rpc (sy_client s)).2 (put i (moved (Gone None) c) s))
  (* the loop of [runBatch] and its ticker; nobody waits for the loop, so the wait of its
     deferred [interval.Stop] is left out *)
  | l_queued i q : sy_loop s = Running -> sy_queue s = i :: q ->
      run_step s (round (Queued i) Running (sy_ticker s) q s)
  | l_closed : sy_loop s = Running -> sy_queue s = [] -> sy_closed s = true ->
      run_step s (round QueueClosed Ended (Stop (sy_ticker s)) [] s)
  | l_tick t : sy_loop s = Running -> step (sy_ticker s) Receive = Some t ->
      run_step s (round PeerClient.Tick Running t (sy_queue s) s)
  | l_ticker ev t : ev = Begin \/ ev = Ticker.Tick \/ ev = Quit -> step (sy_ticker s) ev = Some t ->
      run_step s (mkSystem (sy_client s) (sy_calls s) (sy_queue s) (sy_closed s) (sy_loop s) (sy_batcher s) t
                    (sy_batches s) (sy_drain s) (sy_shut s) (sy_log s))
  (* a goroutine of [sendBatch] *)
  | b_start j ids reqs : sy_batches s !! j = Some (Started ids) -> reqs = omap (requestAt (sy_calls s)) ids ->
      run_step s (with_batches (<[j := match live reqs with [] => Answered | l => Calling l end]> (sy_batches s))
                    (with_calls (deliver (refused reqs) (sy_calls s)) s))
  | b_finish j now reqs rpc out c' : sy_batches s !! j = Some (Calling reqs) ->
      batchOutcome now reqs rpc (sy_client s) = (out, c') ->
      run_step s (mkSystem c' (deliver out (sy_calls s)) (sy_queue s) (sy_closed s) (sy_loop s) (sy_batcher s) (sy_ticker s)
                    (<[j := Answered]> (sy_batches s)) (sy_drain s) (sy_shut s) (sy_log s ++ [(reqs, rpc)]))
  (* [Shutdown]: its goroutine, then its caller *)
  | d_lock : sy_drain s = WantLock -> run_step s (with_drain Draining (sy_shut s) s)
  | d_drained : sy_drain s = Draining -> Forall (fun c => counted (ca_at c) = false) (sy_calls s) ->
      run_step s (with_drain Storing (sy_shut s) (with_client (clearErrs (sy_client s)) s))
  | d_close : sy_drain s = Storing ->
      run_step s (mkSystem (sy_client s) (sy_calls s) (sy_queue s) true (sy_loop s) (sy_batcher s) (sy_ticker s)
                    (sy_batches s) Finished (sy_shut s) (sy_log s))
  | s_return ctx : sy_shut s = ShutWaits ctx -> sy_drain s = Finished ->
      run_step s (with_drain Finished (ShutDone (Ok tt)) s)
  | s_give_up e : sy_shut s = ShutWaits (Some e) ->
      run_step s (with_drain (sy_drain s) (ShutDone (Err e)) s).

Definition sys_step (s s' : System) : Prop := env_step s s' \/ run_step s s'.

(** ** Delivering answers *)

Lemma deliver_length (l : list answer) (calls : list Call) : length (deliver l calls) = length calls.
Proof. revert calls. induction l as [|a l IH]; intros calls; simpl; [done|]. by rewrite IH, length_alter. Qed.

Lemma deliver_other (l : list answer) (calls : list Call) (i : nat) : (i ∉ l.*1) -> deliver l calls !! i = calls !! i.
Proof.
  revert calls. induction l as [|a l IH]; intros calls Hi; [done|]. rewrite fmap_cons, not_elem_of_cons in Hi.
  destruct Hi as [Hne Hi]. simpl. rewrite IH by done. by apply list_lookup_alter_ne.
Qed.

Lemma deliver_own (l : list answer) (calls : list Call) (i : nat) (res : result RateLimitResp) : NoDup l.*1 ->
  (i, res) ∈ l -> deliver l calls !! i = given res <$> calls !! i.
Proof.
  revert calls. induction l as [|a l IH]; intros calls Hn Hi; [by apply elem_of_nil in Hi|].
  rewrite fmap_cons in Hn. apply NoDup_cons in Hn as [Hna Hn]. simpl. apply elem_of_cons in Hi as [<-|Hi].
  - simpl. rewrite deliver_other by done. apply list_lookup_alter_eq.
  - rewrite (IH _ Hn Hi). rewrite list_lookup_alter_ne; [done|]. intros Heq. apply Hna. rewrite Heq.
    by apply (list_elem_of_fmap_2 fst l (i, res)).
Qed.

(** What delivery does to one call: nothing, or it fills the buffer. *)
Lemma deliver_call (l : list answer) (calls : list Call) (i : nat) (c : Call) : NoDup l.*1 ->
  deliver l calls !! i = Some c ->
  ((i ∉ l.*1) /\ calls !! i = Some c) \/
  exists res c0, (i, res) ∈ l /\ calls !! i = Some c0 /\ c = given res c0.
Proof.
  intros Hn Hi. destruct (decide (i ∈ l.*1)) as [Hin|Hin].
  - right. apply list_elem_of_fmap in Hin as ([i' res] & -> & Hin). simpl in *.
    rewrite (deliver_own _ _ _ _ Hn Hin) in Hi. apply fmap_Some in Hi as (c0 & Hc0 & ->). by exists res, c0.
  - left. by rewrite deliver_other in Hi by done.
Qed.

(** ** Invariants *)

(** The calls of a batch. *)
Definition idsOf (b : BatchAt) : list nat :=
  match b with Started ids => ids | Calling reqs => rq_resp <$> reqs | Answered => [] end.

(** The calls whose request is on its way: queued, collected, or in a batch. *)
Definition held (s : System) : list nat :=
  sy_queue s ++ ba_queue (sy_batcher s) ++ concat (idsOf <$> sy_batches s).

(** The calls whose request the peer has answered or failed. *)
Definition logged (s : System) : list nat := concat (((fun l : list request => rq_resp <$> l) ∘ fst) <$> sy_log s).

Definition active (a : CallAt) : bool := match a with Unclosed | Sending | Waiting => true | _ => false end.
Definition early (a : CallAt) : bool := match a with Arriving | Counted | Unclosed | Sending => true | _ => false end.

(** What a call in some place may look like. *)
Definition pending (c : Call) : Prop :=
  (exists r, ca_method c = Forward r) /\ ca_resp c = None /\
  (ca_at c = Waiting \/ exists res, ca_at c = Gone res /\ is_Some (ca_ctx c)).

(** The calls of a system, given where requests are. *)
Record calls_ok (hs ls : list nat) (closed : bool) (calls : list Call) : Prop := {
  co_once : NoDup (ls ++ hs);
  co_held : forall i, i ∈ hs -> exists c, calls !! i = Some c /\ pending c;
  co_logged : forall i, i ∈ ls -> exists c, calls !! i = Some c /\ is_Some (ca_resp c);
  co_wait : forall i c, calls !! i = Some c -> ca_at c = Waiting -> i ∈ hs \/ is_Some (ca_resp c);
  co_active : forall i c, calls !! i = Some c -> active (ca_at c) = true ->
    (exists r, ca_method c = Forward r) /\ closed = false;
  co_early : forall i c, calls !! i = Some c -> early (ca_at c) = true -> ca_resp c = None
}.

Lemma calls_ok_perm (hs hs' ls : list nat) (closed : bool) (calls : list Call) : hs ≡ₚ hs' ->
  calls_ok hs ls closed calls -> calls_ok hs' ls closed calls.
Proof.
  intros Hp [H1 H2 H3 H4 H5 H6]. constructor; try done.
  - by rewrite <- Hp.
  - intros i. rewrite <- Hp. apply H2.
  - intros i c Hi Hw. rewrite <- Hp. by apply (H4 i c).
Qed.

Lemma pending_not_early (c : Call) : pending c -> early (ca_at c) = false.
Proof. by intros (_ & _ & [->|(res & -> & _)]). Qed.

Lemma insert_call (calls : list Call) (i j : nat) (c c' : Call) : <[i := c]> calls !! j = Some c' ->
  (i = j /\ c' = c) \/ (i <> j /\ calls !! j = Some c').
Proof. intros Hj. apply list_lookup_insert_Some in Hj as [(-> & -> & _)|(? & ?)]; auto. Qed.

(** A call moves. *)
Lemma calls_ok_move (hs ls : list nat) (closed : bool) (calls : list Call) (i : nat) (c : Call) (a : CallAt) :
  calls_ok hs ls closed calls -> calls !! i = Some c -> a <> Waiting ->
  (early (ca_at c) = true \/
   ca_at c = Waiting /\ (exists res, a = Gone res) /\ (is_Some (ca_ctx c) \/ is_Some (ca_resp c))) ->
  (active a = true -> (exists r, ca_method c = Forward r) /\ closed = false) ->
  calls_ok hs ls closed (<[i := moved a c]> calls).
Proof.
  intros [H1 H2 H3 H4 H5 H6] Hc Hw Hfrom Ha. pose proof (lookup_lt_Some _ _ _ Hc) as Hlt. constructor; [done|..].
  - intros j Hj. destruct (H2 j Hj) as (c0 & Hc0 & Hp). destruct (decide (i = j)) as [<-|Hne].
    2: { exists c0. by rewrite list_lookup_insert_ne. }
    exists (moved a c). rewrite list_lookup_insert_eq by done. split; [done|]. simplify_eq.
    destruct Hfrom as [He|(_ & (res & ->) & Hgo)]; [by rewrite (pending_not_early _ Hp) in He|].
    destruct Hp as (? & Hr & _). split; [done|]. split; [done|]. right. exists res. split; [done|].
    destruct Hgo as [|[x Hx]]; [done|congruence].
  - intros j Hj. destruct (H3 j Hj) as (c0 & Hc0 & Hr). destruct (decide (i = j)) as [<-|Hne].
    2: { exists c0. by rewrite list_lookup_insert_ne. }
    exists (moved a c). rewrite list_lookup_insert_eq by done. by simplify_eq.
  - intros j cj Hj Hat. apply insert_call in Hj as [[<- ->]|[_ Hj]]; [done|by apply (H4 j cj)].
  - intros j cj Hj Hat. apply insert_call in Hj as [[<- ->]|[_ Hj]]; [by apply Ha|by apply (H5 j cj)].
  - intros j cj Hj Hat. apply insert_call in Hj as [[<- ->]|[_ Hj]]; [|by apply (H6 j cj)]. simpl in *.
    destruct Hfrom as [He|(_ & (res & ->) & _)]; [by apply (H6 i c)|done].
Qed.

(** A call hands its request over. *)
Lemma calls_ok_hand (hs ls : list nat) (calls : list Call) (i : nat) (c : Call) (r : RateLimitReq) (closed : bool) :
  calls_ok hs ls closed calls -> calls !! i = Some c -> ca_method c = Forward r -> ca_at c = Sending ->
  calls_ok (i :: hs) ls closed (<[i := moved Waiting c]> calls).
Proof.
  intros [H1 H2 H3 H4 H5 H6] Hc Hm Hs. pose proof (lookup_lt_Some _ _ _ Hc) as Hlt.
  assert (early (ca_at c) = true) as He by (by rewrite Hs). pose proof (H6 i c Hc He) as Hnone.
  assert (i ∉ hs) as Hih. { intros Hin. destruct (H2 i Hin) as (c0 & Hc0 & Hp). simplify_eq. by rewrite (pending_not_early _ Hp) in He. }
  assert (i ∉ ls) as Hil. { intros Hin. destruct (H3 i Hin) as (c0 & Hc0 & [x Hx]). congruence. }
  constructor.
  - rewrite <- Permutation_middle. apply NoDup_cons. split; [|done]. rewrite elem_of_app. by intros [?|?].
  - intros j Hj. destruct (decide (i = j)) as [<-|Hne].
    { exists (moved Waiting c). rewrite list_lookup_insert_eq by done. split; [done|]. split; [by exists r|]. split; [done|by left]. }
    apply elem_of_cons in Hj as [->|Hj]; [done|]. rewrite list_lookup_insert_ne by done. by apply H2.
  - intros j Hj. destruct (decide (i = j)) as [<-|Hne]; [done|]. rewrite list_lookup_insert_ne by done. by apply H3.
  - intros j cj Hj Hat. apply insert_call in Hj as [[<- ->]|[_ Hj]]; [left; left|].
    destruct (H4 j cj Hj Hat); [left; by right|by right].
  - intros j cj Hj Hat. apply insert_call in Hj as [[<- ->]|[_ Hj]]; [|by apply (H5 j cj)].
    apply (H5 i c Hc). by rewrite Hs.
  - intros j cj Hj Hat. apply insert_call in Hj as [[<- ->]|[_ Hj]]; [done|by apply (H6 j cj)].
Qed.

(** Requests are answered: [out] are held, and are logged if they were sent. *)
Lemma calls_ok_deliver (hs hs' ls ls' : list nat) (closed : bool) (calls : list Call) (out : list answer) :
  calls_ok hs ls closed calls -> hs ≡ₚ out.*1 ++ hs' -> ls' = ls \/ ls' ≡ₚ ls ++ out.*1 ->
  calls_ok hs' ls' closed (deliver out calls).
Proof.
  intros [H1 H2 H3 H4 H5 H6] Hp Hls. rewrite Hp in H1.
  assert (NoDup (out.*1)) as Hn by (apply NoDup_app in H1 as (_ & _ & H1); by apply NoDup_app in H1 as (? & _ & _)).
  assert (forall i, i ∈ hs' -> (i ∉ out.*1)) as Hdis.
  { intros i Hi Ho. apply NoDup_app in H1 as (_ & _ & H1). apply NoDup_app in H1 as (_ & Hd & _). by apply (Hd i). }
  assert (forall i, i ∈ out.*1 -> exists c, deliver out calls !! i = Some c /\ is_Some (ca_resp c)) as Hgiven.
  { intros i Hi. destruct (H2 i) as (c & Hc & _); [rewrite Hp; apply elem_of_app; by left|].
    apply list_elem_of_fmap in Hi as ([i' res] & -> & Hi). simpl in *. exists (given res c).
    by rewrite (deliver_own _ _ _ _ Hn Hi), Hc. }
  constructor.
  - destruct Hls as [->|Hls]; [|by rewrite Hls, <- app_assoc]. rewrite Permutation_app_comm in H1.
    rewrite <- app_assoc in H1. apply NoDup_app in H1 as (_ & _ & H1). by rewrite Permutation_app_comm.
  - intros i Hi. rewrite deliver_other by auto. apply H2. rewrite Hp. apply elem_of_app. by right.
  - intros i Hi. assert (i ∈ ls \/ i ∈ out.*1) as [Hl|]; [|destruct (H3 i Hl) as (c & Hc & Hr)|by apply Hgiven].
    { destruct Hls as [->|Hls]; [by left|]. rewrite Hls in Hi. by apply elem_of_app in Hi. }
    rewrite deliver_other; [by exists c|]. intros Ho. apply NoDup_app in H1 as (_ & Hd & _). apply (Hd i Hl).
    apply elem_of_app. by left.
  - intros i c Hi Hat. apply (deliver_call _ _ _ _ Hn) in Hi as [[Hno Hi]|(res & c0 & _ & _ & ->)]; [|by right].
    destruct (H4 i c Hi Hat) as [Hh|]; [left|by right]. rewrite Hp in Hh. by apply elem_of_app in Hh as [?|?].
  - intros i c Hi Hat. apply (deliver_call _ _ _ _ Hn) in Hi as [[Hno Hi]|(res & c0 & _ & Hi & ->)]; [by apply (H5 i c)|by apply (H5 i c0)].
  - intros i c Hi Hat. apply (deliver_call _ _ _ _ Hn) in Hi as [[Hno Hi]|(res & c0 & Hin & Hi & ->)]; [by apply (H6 i c)|].
    destruct (H2 i) as (c1 & Hc1 & Hpd).
    { rewrite Hp. apply elem_of_app. left. by apply (list_elem_of_fmap_2 fst out (i, res)). }
    simplify_eq. simpl in Hat. by rewrite (pending_not_early _ Hpd) in Hat.
Qed.

(** ** The batcher's rounds *)

Lemma runBatch_new (limit : Z) (ev : batchEvent nat) (b : Batcher nat) : ba_running b = true ->
  let b' := runBatch limit ev b in
  concat (idsOf <$> newBatches b b') ++ ba_queue b' = ba_queue b ++ received [ev].
Proof.
  intros Hr b'. pose proof (runBatch_concat limit [ev] b Hr) as Hc. cbn [fold_left] in Hc. fold b' in Hc.
  assert (exists new, ba_sent b' = ba_sent b ++ new) as [new Hnew].
  { unfold b', runBatch. rewrite Hr. destruct ev; [destruct (_ <=? _)|destruct (ba_queue b)|destruct (ba_queue b)]; simpl;
      eauto; exists []; by rewrite app_nil_r. }
  unfold newBatches. rewrite Hnew in *. rewrite drop_app_length, <- list_fmap_compose.
  replace (idsOf ∘ Started <$> new) with new by (symmetry; apply list_fmap_id). rewrite concat_app, <- !app_assoc in Hc.
  by apply app_inv_head in Hc.
Qed.

Definition armed (t : Interval) : Prop := iv_in t = true \/ iv_phase t = Sleeping \/ iv_C t = true.

(** A round on a request leaves nothing behind, or asks for a tick. *)
Lemma runBatch_armed (limit : Z) (i : nat) (b : Batcher nat) (t : Interval) : ba_running b = true ->
  let b' := runBatch limit (Queued i) b in
  ba_running b' = true /\ (ba_queue b' <> [] -> (ba_queue b <> [] -> armed t) -> armed (nextIf b b' t)).
Proof.
  intros Hr. unfold runBatch. rewrite Hr. destruct (_ <=? _); [done|]. split; [done|]. intros _ Ht. unfold nextIf.
  cbn [ba_nexts]. destruct (ba_queue b) as [|x q] eqn:Eq.
  - change (Nat.eqb (length ([] ++ [i])) 1) with true. cbv iota.
    destruct (Nat.eqb_spec (S (ba_nexts b)) (ba_nexts b)); [lia|by left].
  - assert (Nat.eqb (length ((x :: q) ++ [i])) 1 = false) as -> by (rewrite length_app; simpl; apply Nat.eqb_neq; lia).
    rewrite Nat.eqb_refl. by apply Ht.
Qed.

Lemma nextIf_fields (b b' : Batcher nat) (t : Interval) :
  iv_done (nextIf b b' t) = iv_done t /\ iv_phase (nextIf b b' t) = iv_phase t.
Proof. unfold nextIf. by destruct (Nat.eqb _ _). Qed.

(** ** The invariant *)

Record loop_ok (s : System) : Prop := {
  lo_off : sy_loop s = Off -> pc_DisableBatching (sy_client s) = true;
  lo_on : pc_DisableBatching (sy_client s) = true -> sy_loop s = Off;
  lo_idle : sy_loop s <> Running -> sy_queue s = [] /\ ba_queue (sy_batcher s) = [];
  lo_ended : sy_loop s = Ended -> sy_closed s = true;
  lo_running : sy_loop s = Running -> ba_running (sy_batcher s) = true /\ iv_done (sy_ticker s) = false /\
    iv_phase (sy_ticker s) <> Stopped;
  lo_armed : sy_loop s = Running -> ba_queue (sy_batcher s) <> [] -> armed (sy_ticker s)
}.

Record ctl_ok (s : System) : Prop := {
  ct_closed : sy_closed s = true <-> sy_drain s = Finished;
  ct_stored : pc_queueClosed (sy_client s) = true <-> sy_drain s = Storing \/ sy_drain s = Finished;
  ct_shut : pc_isShutdown (sy_client s) = true <-> sy_drain s <> NoDrain;
  ct_waits : forall ctx, sy_shut s = ShutWaits ctx -> sy_drain s <> NoDrain
}.

Record sys_ok (s : System) : Prop := {
  so_calls : calls_ok (held s) (logged s) (pc_queueClosed (sy_client s)) (sy_calls s);
  so_loop : loop_ok s;
  so_ctl : ctl_ok s
}.

(** A client that only recorded errors. *)
Definition sameClient (c c' : PeerClient) : Prop :=
  pc_DisableBatching c' = pc_DisableBatching c /\ pc_BatchLimit c' = pc_BatchLimit c /\
  pc_queueClosed c' = pc_queueClosed c /\ pc_isShutdown c' = pc_isShutdown c.

Lemma outcome_client (now : Z) (reqs : list request) (rpc : result (list RateLimitResp)) (c : PeerClient) :
  sameClient c (batchOutcome now reqs rpc c).2.
Proof. unfold batchOutcome. destruct rpc; [|done]. by destruct (Nat.eqb _ _). Qed.

Lemma hits_client (now : Z) (reqs : list RateLimitReq) (rpc : result (list RateLimitResp)) (c : PeerClient) :
  sameClient c (GetPeerRateLimits now reqs rpc c).2.
Proof. unfold GetPeerRateLimits. destruct rpc; [|done]. by destruct (Nat.eqb _ _). Qed.

Lemma globals_client (now : Z) (rpc : result unit) (c : PeerClient) : sameClient c (UpdatePeerGlobals now rpc c).2.
Proof. by destruct rpc. Qed.

Lemma loop_ok_same (s s' : System) : loop_ok s ->
  pc_DisableBatching (sy_client s') = pc_DisableBatching (sy_client s) ->
  sy_loop s' = sy_loop s -> sy_queue s' = sy_queue s -> sy_batcher s' = sy_batcher s -> sy_closed s' = sy_closed s ->
  sy_ticker s' = sy_ticker s -> loop_ok s'.
Proof.
  intros [H1 H2 H3 H4 H5 H6] Hd El Eq Eb Ec Et. constructor; rewrite ?El, ?Eq, ?Eb, ?Ec, ?Et, ?Hd; done.
Qed.

Lemma ctl_ok_same (s s' : System) : ctl_ok s -> sameClient (sy_client s) (sy_client s') ->
  sy_closed s' = sy_closed s -> sy_drain s' = sy_drain s -> sy_shut s' = sy_shut s -> ctl_ok s'.
Proof.
  intros [H1 H2 H3 H4] (_ & _ & Hq & Hs) Ec Ed Es. constructor; rewrite ?Ec, ?Ed, ?Es, ?Hq, ?Hs; done.
Qed.

(** A step that changes calls, batches and recorded errors. *)
Lemma sys_ok_calls (s s' : System) : sys_ok s -> sameClient (sy_client s) (sy_client s') ->
  sy_loop s' = sy_loop s -> sy_queue s' = sy_queue s -> sy_batcher s' = sy_batcher s -> sy_closed s' = sy_closed s ->
  sy_ticker s' = sy_ticker s -> sy_drain s' = sy_drain s -> sy_shut s' = sy_shut s ->
  calls_ok (held s') (logged s') (pc_queueClosed (sy_client s)) (sy_calls s') -> sys_ok s'.
Proof.
  intros [Hc Hl Ht] Hs El Eq Eb Ec Et Ed Esh Hc'. constructor; [|by eapply loop_ok_same; [|apply Hs|..]|by eapply ctl_ok_same].
  destruct Hs as (_ & _ & Hq & _). by rewrite Hq.
Qed.

Lemma calls_ok_new (hs ls : list nat) (closed : bool) (calls : list Call) (m : Method) :
  calls_ok hs ls closed calls -> calls_ok hs ls closed (calls ++ [mkCall m None Arriving None]).
Proof.
  intros [H1 H2 H3 H4 H5 H6].
  assert (forall i c, (calls ++ [mkCall m None Arriving None]) !! i = Some c ->
    calls !! i = Some c \/ c = mkCall m None Arriving None) as Hinv.
  { intros i c Hi. apply lookup_snoc_Some in Hi as [(_ & Hi)|(_ & <-)]; auto. }
  constructor; [done|..].
  - intros i Hi. destruct (H2 i Hi) as (c & Hc & Hp). exists c. split; [by apply lookup_app_l_Some|done].
  - intros i Hi. destruct (H3 i Hi) as (c & Hc & Hp). exists c. split; [by apply lookup_app_l_Some|done].
  - intros i c Hi Hat. destruct (Hinv i c Hi) as [Hc| ->]; [by apply (H4 i c)|done].
  - intros i c Hi Hat. destruct (Hinv i c Hi) as [Hc| ->]; [by apply (H5 i c)|done].
  - intros i c Hi Hat. destruct (Hinv i c Hi) as [Hc| ->]; [by apply (H6 i c)|done].
Qed.

Lemma calls_ok_ctx (hs ls : list nat) (closed : bool) (calls : list Call) (i : nat) (c : Call) (e : gerror) :
  calls_ok hs ls closed calls -> calls !! i = Some c -> ca_ctx c = None ->
  calls_ok hs ls closed (<[i := mkCall (ca_method c) (Some e) (ca_at c) (ca_resp c)]> calls).
Proof.
  intros [H1 H2 H3 H4 H5 H6] Hc Hn. pose proof (lookup_lt_Some _ _ _ Hc) as Hlt. constructor; [done|..].
  - intros j Hj. destruct (H2 j Hj) as (c0 & Hc0 & Hp). destruct (decide (i = j)) as [<-|Hne].
    2: { exists c0. by rewrite list_lookup_insert_ne. }
    eexists. rewrite list_lookup_insert_eq by done. split; [done|]. simplify_eq. destruct Hp as (? & ? & Hat).
    split; [done|]. split; [done|]. destruct Hat as [?|(res & ? & _)]; [by left|right; by exists res].
  - intros j Hj. destruct (H3 j Hj) as (c0 & Hc0 & Hr). destruct (decide (i = j)) as [<-|Hne].
    2: { exists c0. by rewrite list_lookup_insert_ne. }
    eexists. rewrite list_lookup_insert_eq by done. by simplify_eq.
  - intros j cj Hj Hat. apply insert_call in Hj as [[<- ->]|[_ Hj]]; [by apply (H4 i c)|by apply (H4 j cj)].
  - intros j cj Hj Hat. apply insert_call in Hj as [[<- ->]|[_ Hj]]; [by apply (H5 i c)|by apply (H5 j cj)].
  - intros j cj Hj Hat. apply insert_call in Hj as [[<- ->]|[_ Hj]]; [by apply (H6 i c)|by apply (H6 j cj)].
Qed.

Lemma env_step_ok (s s' : System) : env_step s s' -> sys_ok s -> sys_ok s'.
Proof.
  intros Hstep Hok. destruct Hstep as [m|i c e Hc Hn|Hsh|e Hsh].
  - eapply sys_ok_calls; try done. by apply calls_ok_new, Hok.
  - eapply sys_ok_calls; try done. by apply calls_ok_ctx, Hn; [apply Hok|].
  - destruct Hok as [Hcalls Hloop [H1 H2 H3 H4]]. constructor; [done|by eapply loop_ok_same|].
    assert (sy_drain s = NoDrain) as Hd.
    { destruct (sy_drain s) eqn:Ed; try done; rewrite (proj2 H3) in Hsh; done. }
    rewrite Hd in *. constructor; simpl; try done; [rewrite H1|rewrite H2]; split; try intros [?|?]; done.
  - destruct Hok as [Hcalls Hloop [H1 H2 H3 H4]]. constructor; [done|by eapply loop_ok_same|].
    constructor; simpl; try done. intros ctx _. by eapply H4.
Qed.

(** A call moves, and nothing else. *)
Lemma put_ok (s : System) (i : nat) (c : Call) (a : CallAt) : sys_ok s -> sy_calls s !! i = Some c -> a <> Waiting ->
  (early (ca_at c) = true \/
   ca_at c = Waiting /\ (exists res, a = Gone res) /\ (is_Some (ca_ctx c) \/ is_Some (ca_resp c))) ->
  (active a = true -> (exists r, ca_method c = Forward r) /\ pc_queueClosed (sy_client s) = false) ->
  sys_ok (put i (moved a c) s).
Proof.
  intros Hok Hc Hw Hfrom Ha. eapply sys_ok_calls; try done. by apply calls_ok_move; [apply Hok|..].
Qed.

Lemma perm_move {A} (r q b c n b' : list A) : n ++ b' = b ++ r -> (r ++ q) ++ b ++ c ≡ₚ q ++ b' ++ c ++ n.
Proof.
  intros He. transitivity (q ++ c ++ (b ++ r)).
  - rewrite (Permutation_app_comm r q), <- app_assoc. apply Permutation_app_head.
    by rewrite (Permutation_app_comm r (b ++ c)), (Permutation_app_comm b c), <- app_assoc.
  - rewrite <- He. apply Permutation_app_head. by rewrite (Permutation_app_comm b'), <- app_assoc.
Qed.

(** A round of the loop moves requests, and keeps the ticker armed. *)
Lemma round_ok (s : System) (ev : batchEvent nat) (lp : LoopAt) (t : Interval) (q : list nat) : sys_ok s ->
  sy_loop s = Running -> sy_queue s = received [ev] ++ q ->
  loop_ok (round ev lp t q s) -> sys_ok (round ev lp t q s).
Proof.
  intros [Hc Hl Ht] Hlp Hq Hl'. constructor; [|done|by destruct Ht; constructor].
  eapply calls_ok_perm; [|exact Hc]. unfold held. simpl. rewrite Hq.
  destruct (lo_running _ Hl Hlp) as [Hr _]. pose proof (runBatch_new (pc_BatchLimit (sy_client s)) ev _ Hr) as Hnew. simpl in Hnew.
  rewrite fmap_app, concat_app. by apply perm_move.
Qed.

Lemma batches_replace (bs : list BatchAt) (j : nat) (b : BatchAt) : bs !! j = Some b ->
  exists rest, concat (idsOf <$> bs) ≡ₚ idsOf b ++ rest /\
    forall b', concat (idsOf <$> <[j := b']> bs) ≡ₚ idsOf b' ++ rest.
Proof.
  intros Hj. exists (concat (idsOf <$> take j bs) ++ concat (idsOf <$> drop (S j) bs)).
  assert (forall x, concat (idsOf <$> (take j bs ++ x :: drop (S j) bs)) ≡ₚ
    idsOf x ++ concat (idsOf <$> take j bs) ++ concat (idsOf <$> drop (S j) bs)) as Hx.
  { intros x. rewrite fmap_app, fmap_cons, concat_app. simpl. by rewrite Permutation_app_swap_app. }
  split; [by rewrite <- Hx, take_drop_middle|]. intros b'. rewrite <- Hx.
  by rewrite insert_take_drop by (by eapply lookup_lt_Some).
Qed.

(** What a batch that answers some of its requests does to what is held. *)
Lemma held_replace (s : System) (j : nat) (b b' : BatchAt) (out : list nat) : sy_batches s !! j = Some b ->
  idsOf b ≡ₚ out ++ idsOf b' ->
  held s ≡ₚ out ++ (sy_queue s ++ ba_queue (sy_batcher s) ++ concat (idsOf <$> <[j := b']> (sy_batches s))).
Proof.
  intros Hj Hb. destruct (batches_replace _ _ _ Hj) as (rest & Hr & Hr'). unfold held. rewrite Hr, Hr', Hb.
  by rewrite <- !app_assoc, (Permutation_app_swap_app (ba_queue _) out), (Permutation_app_swap_app (sy_queue s) out).
Qed.

(** The requests of a started batch are those of its calls. *)
Lemma started_requests (s : System) (j : nat) (ids : list nat) : sys_ok s -> sy_batches s !! j = Some (Started ids) ->
  rq_resp <$> omap (requestAt (sy_calls s)) ids = ids.
Proof.
  intros Hok Hj. assert (forall i, i ∈ ids -> exists r ctx, requestAt (sy_calls s) i = Some (mkRequest r i ctx)) as Hall.
  { intros i Hi. destruct (co_held _ _ _ _ (so_calls _ Hok) i) as (c & Hc & (r & Hm) & _).
    { unfold held. apply elem_of_app. right. apply elem_of_app. right. destruct (batches_replace _ _ _ Hj) as (rest & -> & _).
      apply elem_of_app. by left. }
    exists r, (ca_ctx c). unfold requestAt. rewrite Hc. destruct c. simpl in *. by subst. }
  clear Hj. induction ids as [|i ids IH]; [done|]. destruct (Hall i) as (r & ctx & Hr); [left|].
  simpl. rewrite Hr. simpl. f_equal. apply IH. intros k Hk. apply Hall. by right.
Qed.

Lemma start_ok (s : System) (j : nat) (ids : list nat) (reqs : list request) : sys_ok s ->
  sy_batches s !! j = Some (Started ids) -> reqs = omap (requestAt (sy_calls s)) ids ->
  sys_ok (with_batches (<[j := match live reqs with [] => Answered | l => Calling l end]> (sy_batches s))
            (with_calls (deliver (refused reqs) (sy_calls s)) s)).
Proof.
  intros Hok Hj Hreqs. pose proof (started_requests s j ids Hok Hj) as Hids. rewrite <- Hreqs in Hids.
  eapply sys_ok_calls; try done. eapply calls_ok_deliver; [apply Hok| |by left].
  apply (held_replace s j (Started ids)); [done|]. simpl. rewrite <- Hids, <- refused_live_ids. by destruct (live reqs).
Qed.

Lemma finish_ok (s : System) (j : nat) (now : Z) (reqs : list request) (rpc : result (list RateLimitResp)) (out : list answer)
    (c' : PeerClient) : sys_ok s -> sy_batches s !! j = Some (Calling reqs) ->
  batchOutcome now reqs rpc (sy_client s) = (out, c') ->
  sys_ok (mkSystem c' (deliver out (sy_calls s)) (sy_queue s) (sy_closed s) (sy_loop s) (sy_batcher s) (sy_ticker s)
            (<[j := Answered]> (sy_batches s)) (sy_drain s) (sy_shut s) (sy_log s ++ [(reqs, rpc)])).
Proof.
  intros Hok Hj Hout. pose proof (outcome_client now reqs rpc (sy_client s)) as Hcl. pose proof (outcome_ids now reqs rpc (sy_client s)) as Hids.
  rewrite Hout in Hcl, Hids. simpl in Hcl, Hids. eapply sys_ok_calls; try done.
  eapply calls_ok_deliver; [apply Hok| |right].
  - apply (held_replace s j (Calling reqs)); [done|]. simpl. by rewrite Hids, app_nil_r.
  - unfold logged. simpl. rewrite fmap_app, concat_app. simpl. by rewrite app_nil_r, Hids.
Qed.

Lemma enqueue_ok (s : System) (i : nat) (c : Call) (r : RateLimitReq) : sys_ok s -> sy_calls s !! i = Some c ->
  ca_method c = Forward r -> ca_at c = Sending -> unbatched (sy_client s) r = false -> sy_closed s = false ->
  sys_ok (with_queue (sy_queue s ++ [i]) (put i (moved Waiting c) s)).
Proof.
  intros [Hc Hl Ht] Hi Hm Hat Hu Hcl. constructor; simpl; [|..|by destruct Ht; constructor].
  - eapply calls_ok_perm; [|by apply (calls_ok_hand _ _ _ i c r _ Hc)]. unfold held. simpl.
    rewrite <- app_assoc. by rewrite Permutation_middle.
  - destruct Hl as [H1 H2 H3 H4 H5 H6]. constructor; try done. simpl. intros Hlp. destruct (sy_loop s) eqn:El; [|done|].
    + unfold unbatched in Hu. by rewrite (H1 eq_refl) in Hu.
    + by rewrite (H4 eq_refl) in Hcl.
Qed.

Lemma spawn_ok (s : System) (i : nat) (c : Call) (r : RateLimitReq) : sys_ok s -> sy_calls s !! i = Some c ->
  ca_method c = Forward r -> ca_at c = Sending ->
  sys_ok (with_batches (sy_batches s ++ [Started [i]]) (put i (moved Waiting c) s)).
Proof.
  intros Hok Hi Hm Hat. eapply sys_ok_calls; try done.
  eapply calls_ok_perm; [|by apply (calls_ok_hand _ _ _ i c r _ (so_calls _ Hok))]. unfold held. simpl.
  rewrite fmap_app, concat_app. simpl. by rewrite !app_assoc, Permutation_cons_append.
Qed.

Lemma queued_loop (s : System) (i : nat) (q : list nat) : loop_ok s -> sy_loop s = Running ->
  loop_ok (round (Queued i) Running (sy_ticker s) q s).
Proof.
  intros [H1 H2 H3 H4 H5 H6] Hlp. destruct (H5 Hlp) as (Hr & Hd & Hp).
  destruct (runBatch_armed (pc_BatchLimit (sy_client s)) i (sy_batcher s) (sy_ticker s) Hr) as [Hr' Ha].
  constructor; simpl; try done.
  - intros Hdis. rewrite (H2 Hdis) in Hlp. done.
  - intros _. by rewrite !(proj1 (nextIf_fields _ _ _)), !(proj2 (nextIf_fields _ _ _)).
  - intros _ Hne. apply Ha; [done|]. by apply H6.
Qed.

Lemma closed_loop (s : System) : loop_ok s -> sy_loop s = Running -> sy_closed s = true ->
  loop_ok (round QueueClosed Ended (Stop (sy_ticker s)) [] s).
Proof.
  intros [H1 H2 H3 H4 H5 H6] Hlp Hcl. destruct (H5 Hlp) as (Hr & _). constructor; simpl; try done.
  - intros Hdis. rewrite (H2 Hdis) in Hlp. done.
  - intros _. split; [done|]. unfold runBatch. by rewrite Hr.
Qed.

Lemma tick_loop (s : System) (t : Interval) : loop_ok s -> sy_loop s = Running -> step (sy_ticker s) Receive = Some t ->
  loop_ok (round PeerClient.Tick Running t (sy_queue s) s).
Proof.
  intros [H1 H2 H3 H4 H5 H6] Hlp Ht. destruct (H5 Hlp) as (Hr & Hd & Hp).
  assert (ba_running (runBatch (pc_BatchLimit (sy_client s)) PeerClient.Tick (sy_batcher s)) = true /\
    ba_queue (runBatch (pc_BatchLimit (sy_client s)) PeerClient.Tick (sy_batcher s)) = []) as [Hr' Hq'].
  { unfold runBatch. rewrite Hr. by destruct (ba_queue (sy_batcher s)) eqn:E. }
  constructor; simpl; try done.
  - intros Hdis. rewrite (H2 Hdis) in Hlp. done.
  - intros _. split; [done|]. rewrite !(proj1 (nextIf_fields _ _ _)), !(proj2 (nextIf_fields _ _ _)).
    destruct (sy_ticker s) as [i c ph dn]. simpl in *. by destruct c; simplify_eq/=.
Qed.

Lemma ticker_loop (s : System) (ev : event) (t : Interval) : loop_ok s -> ev = Begin \/ ev = Ticker.Tick \/ ev = Quit ->
  step (sy_ticker s) ev = Some t ->
  loop_ok (mkSystem (sy_client s) (sy_calls s) (sy_queue s) (sy_closed s) (sy_loop s) (sy_batcher s) t
             (sy_batches s) (sy_drain s) (sy_shut s) (sy_log s)).
Proof.
  intros [H1 H2 H3 H4 H5 H6] Hev Ht. constructor; simpl; try done; intros Hlp; destruct (H5 Hlp) as (Hr & Hd & Hp);
    [split; [done|]|intros Hne; specialize (H6 Hlp Hne); unfold armed in *];
    destruct (sy_ticker s) as [i c ph dn]; simpl in *; subst dn; destruct Hev as [->|[->| ->]], i, c, ph; simplify_eq/=; auto.
Qed.

Lemma drain_ok (s : System) : sys_ok s -> sy_drain s = WantLock -> sys_ok (with_drain Draining (sy_shut s) s).
Proof.
  intros [Hc Hl [H1 H2 H3 H4]] Hd. constructor; [done|by eapply loop_ok_same|]. rewrite Hd in *.
  constructor; simpl; try done; [rewrite H1|rewrite H2|rewrite H3]; split; try intros [?|?]; done.
Qed.

Lemma drained_ok (s : System) : sys_ok s -> sy_drain s = Draining ->
  Forall (fun c => counted (ca_at c) = false) (sy_calls s) ->
  sys_ok (with_drain Storing (sy_shut s) (with_client (clearErrs (sy_client s)) s)).
Proof.
  intros [[C1 C2 C3 C4 C5 C6] Hl [H1 H2 H3 H4]] Hd Hf. constructor; [|by eapply loop_ok_same|].
  - constructor; try done. simpl. intros i c Hi Hact. rewrite Forall_lookup in Hf. specialize (Hf i c Hi).
    by destruct (ca_at c).
  - rewrite Hd in *. constructor; simpl; try done; [rewrite H1; done|split; [by left|done]|rewrite H3; done].
Qed.

Lemma close_ok (s : System) : sys_ok s -> sy_drain s = Storing ->
  sys_ok (mkSystem (sy_client s) (sy_calls s) (sy_queue s) true (sy_loop s) (sy_batcher s) (sy_ticker s)
            (sy_batches s) Finished (sy_shut s) (sy_log s)).
Proof.
  intros [Hc [L1 L2 L3 L4 L5 L6] [H1 H2 H3 H4]] Hd. constructor; [done|by constructor|]. rewrite Hd in *.
  constructor; simpl; try done; [rewrite H2; split; [by right|by left]|rewrite H3; done].
Qed.

Lemma client_step_ok (s s' : System) : run_step s s' -> sys_ok s -> sys_ok s'.
Proof.
  intros Hstep Hok. destruct Hstep as
    [i c Hc Hat Hl|i c r Hc Hm Hat Hq|i c r Hc Hm Hat Hq|i c r e Hc Hm Hat He|i c r Hc Hm Hat He|i c r Hc Hm Hat Hu Hcl Hlen
    |i c r e Hc Hm Hat Hu He|i c r Hc Hm Hat Hu|i c r res Hc Hm Hat Hr|i c r e Hc Hm Hat He|i c now reqs rpc Hc Hm Hat|i c now rpc Hc Hm Hat
    |i q Hl Hq|Hl Hq Hcl|t Hl Ht|ev t Hev Ht|j ids reqs Hj Hr|j now reqs rpc out c' Hj Ho|Hd|Hd Hf|Hd|ctx Hs Hd|e Hs].
  - apply put_ok; try done. left. by rewrite Hat.
  - apply put_ok; try done. left. by rewrite Hat.
  - apply put_ok; try done; [left; by rewrite Hat|]. eauto.
  - apply put_ok; try done. left. by rewrite Hat.
  - apply put_ok; try done; [left; by rewrite Hat|]. intros _. apply (co_active _ _ _ _ (so_calls _ Hok) i c Hc). by rewrite Hat.
  - by apply (enqueue_ok s i c r).
  - apply put_ok; try done. left. by rewrite Hat.
  - by apply (spawn_ok s i c r).
  - apply put_ok; try done. right. eauto.
  - apply put_ok; try done. right. eauto.
  - eapply sys_ok_calls; [exact Hok|apply hits_client|done..|]. apply calls_ok_move; [apply Hok|done|done|left; by rewrite Hat|done].
  - eapply sys_ok_calls; [exact Hok|apply globals_client|done..|]. apply calls_ok_move; [apply Hok|done|done|left; by rewrite Hat|done].
  - apply round_ok; try done. by apply (queued_loop s i q); [apply Hok|..].
  - apply round_ok; try done. by apply closed_loop; [apply Hok|..].
  - apply round_ok; try done. by apply tick_loop; [apply Hok|..].
  - destruct Hok as [Hcalls Hloop [? ? ? ?]]. constructor; [done|by apply (ticker_loop s ev t)|by constructor].
  - by apply (start_ok s j ids).
  - by apply (finish_ok s j now reqs rpc).
  - by apply drain_ok.
  - by apply drained_ok.
  - by apply close_ok.
  - destruct Hok as [Hcalls Hloop [H1 H2 H3 H4]]. constructor; [done|by eapply loop_ok_same|]. rewrite <- Hd. by constructor.
  - destruct Hok as [Hcalls Hloop [H1 H2 H3 H4]]. constructor; [done|by eapply loop_ok_same|]. by constructor.
Qed.

Lemma sys_step_ok (s s' : System) : sys_step s s' -> sys_ok s -> sys_ok s'.
Proof. intros [Hs|Hs]; [by apply env_step_ok|by apply client_step_ok]. Qed.

(** Everything a client created by [NewPeerClient] can get to. *)
Definition reachable (addr : string) (disable : bool) (limit : Z) : System -> Prop :=
  rtc sys_step (newSystem addr disable limit).

Lemma newSystem_ok (addr : string) (disable : bool) (limit : Z) : sys_ok (newSystem addr disable limit).
Proof.
  constructor.
  - constructor; simpl; try (by intros i Hi; apply elem_of_nil in Hi); [constructor|by intros ? ? ?..].
  - destruct disable; constructor; simpl; try done.
  - constructor; simpl; try done; split; try intros [?|?]; done.
Qed.

Lemma client_reachable_ok (addr : string) (disable : bool) (limit : Z) (s : System) : reachable addr disable limit s -> sys_ok s.
Proof.
  apply rtc_invariant; [apply sys_step_ok|apply newSystem_ok].
Qed.

(** ** Answers *)

(** The peer answered call [i] with [rl] at its place in a batch. *)
Definition answeredBy (s : System) (i : nat) (rl : RateLimitResp) : Prop :=
  exists reqs rls n q, (reqs, Ok rls) ∈ sy_log s /\ reqs !! n = Some q /\ rq_resp q = i /\ rls !! n = Some rl.

Record answers_ok (s : System) : Prop := {
  an_answer : forall i c rl, sy_calls s !! i = Some c -> ca_resp c = Some (Ok rl) -> answeredBy s i rl;
  an_sent : forall reqs q, (exists rpc, (reqs, rpc) ∈ sy_log s) \/ Calling reqs ∈ sy_batches s -> q ∈ reqs ->
    exists c, sy_calls s !! rq_resp q = Some c /\ ca_method c = Forward (rq_request q);
  an_result : forall i c r res, sy_calls s !! i = Some c -> ca_method c = Forward r -> ca_at c = Gone (Some res) ->
    (exists c0 ctx enq w, res = GetPeerRateLimit c0 r ctx enq w) /\ (forall rl, res = Ok rl -> ca_resp c = Some (Ok rl))
}.

(** The calls keep their method; log and batches in a call to the peer only grow, or
    stay. *)
Lemma answers_move (s s' : System) (i : nat) (c : Call) (a : CallAt) : answers_ok s -> sy_calls s !! i = Some c ->
  sy_calls s' = <[i := moved a c]> (sy_calls s) -> sy_log s' = sy_log s ->
  (forall reqs, Calling reqs ∈ sy_batches s' -> Calling reqs ∈ sy_batches s) ->
  (forall r res, ca_method c = Forward r -> a = Gone (Some res) ->
     (exists c0 ctx enq w, res = GetPeerRateLimit c0 r ctx enq w) /\ (forall rl, res = Ok rl -> ca_resp c = Some (Ok rl))) ->
  answers_ok s'.
Proof.
  intros [H1 H2 H3] Hc Hcalls Hlog Hb Ha. constructor; rewrite ?Hcalls.
  - intros j cj rl Hj Hr. unfold answeredBy. rewrite Hlog.
    apply insert_call in Hj as [[<- ->]|[_ Hj]]; [by apply (H1 i c)|by apply (H1 j cj)].
  - intros reqs q Hr Hq. rewrite Hlog in Hr. destruct (H2 reqs q) as (c0 & Hc0 & Hm); [|done|].
    { destruct Hr as [?|?]; auto. }
    destruct (decide (i = rq_resp q)) as [->|Hne]; [|exists c0; by rewrite list_lookup_insert_ne].
    exists (moved a c). rewrite list_lookup_insert_eq by (by eapply lookup_lt_Some). simplify_eq. done.
  - intros j cj r res Hj Hm Hat. apply insert_call in Hj as [[<- ->]|[_ Hj]]; [by apply Ha|by apply (H3 j cj)].
Qed.

Lemma answers_same (s s' : System) : answers_ok s -> sy_calls s' = sy_calls s -> sy_log s' = sy_log s ->
  (forall reqs, Calling reqs ∈ sy_batches s' -> Calling reqs ∈ sy_batches s) -> answers_ok s'.
Proof.
  intros [H1 H2 H3] Hc Hl Hb. constructor; unfold answeredBy; rewrite ?Hc, ?Hl; try done.
  intros reqs q Hr. apply H2. destruct Hr as [?|?]; auto.
Qed.

Lemma started_calling (bs : list BatchAt) (l : list (list nat)) (reqs : list request) :
  Calling reqs ∈ bs ++ (Started <$> l) -> Calling reqs ∈ bs.
Proof. intros Hin. apply elem_of_app in Hin as [?|Hin]; [done|]. by apply list_elem_of_fmap in Hin as (? & ? & _). Qed.

(** What [GetPeerRateLimit] returns for a call that left. *)
Lemma wrapped_closed (c : PeerClient) (r : RateLimitReq) : pc_queueClosed c = true ->
  wrapped c r (Err errClosing) = GetPeerRateLimit c r None None (CtxDone Canceled).
Proof.
  intros Hq. unfold wrapped, GetPeerRateLimit, unbatched, getPeerRateLimitSingle, getPeerRateLimitsBatch. rewrite Hq.
  by destruct (_ || _).
Qed.

Lemma wrapped_ctx (c : PeerClient) (r : RateLimitReq) (e : gerror) : pc_queueClosed c = false ->
  wrapped c r (Err (ErrWrap (ctxMessage c r) e)) = GetPeerRateLimit c r (Some e) None (CtxDone e).
Proof.
  intros Hq. unfold wrapped, GetPeerRateLimit, ctxMessage, unbatched, getPeerRateLimitSingle, getPeerRateLimitsBatch. rewrite Hq.
  by destruct (_ || _).
Qed.

Lemma wrapped_await (c : PeerClient) (r : RateLimitReq) (w : wait) : pc_queueClosed c = false ->
  wrapped c r (awaitResponse w) = GetPeerRateLimit c r None None w.
Proof.
  intros Hq. unfold wrapped, GetPeerRateLimit, unbatched, getPeerRateLimitSingle, getPeerRateLimitsBatch. rewrite Hq.
  by destruct (_ || _); destruct (awaitResponse w).
Qed.

(** Answers are delivered to calls that have none. *)
Lemma answers_deliver (s s' : System) (out : list answer) : answers_ok s -> NoDup out.*1 ->
  (forall i, i ∈ out.*1 -> exists c, sy_calls s !! i = Some c /\ ca_resp c = None) ->
  sy_calls s' = deliver out (sy_calls s) -> (forall x, x ∈ sy_log s -> x ∈ sy_log s') ->
  (forall i rl, (i, Ok rl) ∈ out -> answeredBy s' i rl) ->
  (forall reqs q, (exists rpc, (reqs, rpc) ∈ sy_log s') \/ Calling reqs ∈ sy_batches s' -> q ∈ reqs ->
     exists c, sy_calls s !! rq_resp q = Some c /\ ca_method c = Forward (rq_request q)) ->
  answers_ok s'.
Proof.
  intros [H1 H2 H3] Hn Hempty Hcalls Hlog Hout Hsent.
  assert (forall i c, sy_calls s' !! i = Some c -> exists c0, sy_calls s !! i = Some c0 /\
    (c = c0 \/ exists res, (i, res) ∈ out /\ c = given res c0 /\ ca_resp c0 = None)) as Hinv.
  { intros i c Hi. rewrite Hcalls in Hi. apply (deliver_call _ _ _ _ Hn) in Hi as [[_ Hi]|(res & c0 & Hin & Hi & ->)]; [by eauto|].
    exists c0. split; [done|]. right. exists res. destruct (Hempty i) as (c1 & Hc1 & Hr).
    { by apply (list_elem_of_fmap_2 fst out (i, res)). } simplify_eq. done. }
  constructor.
  - intros i c rl Hi Hr. destruct (Hinv i c Hi) as (c0 & Hc0 & [->|(res & Hin & -> & _)]).
    + destruct (H1 i c0 rl Hc0 Hr) as (reqs & rls & n & q & Hl & ?). exists reqs, rls, n, q. auto.
    + simpl in Hr. simplify_eq. by apply Hout.
  - intros reqs q Hr Hq. destruct (Hsent reqs q Hr Hq) as (c0 & Hc0 & Hm). rewrite Hcalls.
    destruct (deliver out (sy_calls s) !! rq_resp q) as [c|] eqn:E.
    + rewrite <- Hcalls in E. destruct (Hinv _ _ E) as (c1 & Hc1 & Hcase). simplify_eq.
      exists c. split; [done|]. by destruct Hcase as [->|(res & _ & -> & _)].
    + apply lookup_ge_None in E. rewrite deliver_length in E. apply lookup_lt_Some in Hc0. lia.
  - intros i c r res Hi Hm Hat. destruct (Hinv i c Hi) as (c0 & Hc0 & [->|(res' & Hin & -> & Hnone)]); [by apply (H3 i c0)|].
    destruct (H3 i c0 r res Hc0 Hm Hat) as [Hex Hok]. split; [done|]. intros rl Hrl. specialize (Hok rl Hrl). congruence.
Qed.

Lemma refused_err (reqs : list request) (i : nat) (rl : RateLimitResp) : ~ (i, Ok rl) ∈ refused reqs.
Proof.
  unfold refused. intros Hin. apply list_elem_of_omap in Hin as (r & _ & Hr). destruct (rq_ctx r); simplify_eq/=.
Qed.

Lemma outcome_own (now : Z) (reqs : list request) (rpc : result (list RateLimitResp)) (c : PeerClient) (i : nat) (rl : RateLimitResp) :
  (i, Ok rl) ∈ (batchOutcome now reqs rpc c).1 ->
  exists rls n q, rpc = Ok rls /\ reqs !! n = Some q /\ rq_resp q = i /\ rls !! n = Some rl.
Proof.
  unfold batchOutcome. destruct rpc as [rls|e].
  - destruct (Nat.eqb _ _); simpl; intros Hin.
    + apply list_elem_of_lookup in Hin as [n Hn]. rewrite lookup_zip_with in Hn.
      destruct (reqs !! n) as [q|] eqn:Eq; [|done]. destruct (rls !! n) as [rl'|] eqn:Er; [|done]. simplify_eq/=.
      by exists rls, n, q.
    + apply list_elem_of_fmap in Hin as (? & ? & _). simplify_eq.
  - simpl. intros Hin. apply list_elem_of_fmap in Hin as (? & ? & _). simplify_eq.
Qed.

Lemma insert_calling (bs : list BatchAt) (j : nat) (b : BatchAt) (reqs : list request) :
  Calling reqs ∈ <[j := b]> bs -> b = Calling reqs \/ Calling reqs ∈ bs.
Proof.
  intros Hin. apply list_elem_of_lookup in Hin as [n Hn].
  apply list_lookup_insert_Some in Hn as [(-> & -> & _)|(_ & Hn)]; [by left|right]. by eapply list_elem_of_lookup_2.
Qed.

(** The calls of a batch wait for their answer. *)
Lemma batch_empty (s : System) (j : nat) (b : BatchAt) (i : nat) : sys_ok s -> sy_batches s !! j = Some b -> i ∈ idsOf b ->
  exists c, sy_calls s !! i = Some c /\ ca_resp c = None.
Proof.
  intros Hok Hj Hi. destruct (co_held _ _ _ _ (so_calls _ Hok) i) as (c & Hc & _ & Hr & _); [|by exists c].
  unfold held. apply elem_of_app. right. apply elem_of_app. right. destruct (batches_replace _ _ _ Hj) as (rest & -> & _).
  apply elem_of_app. by left.
Qed.

Lemma batch_nodup (s : System) (j : nat) (b : BatchAt) : sys_ok s -> sy_batches s !! j = Some b -> NoDup (idsOf b).
Proof.
  intros Hok Hj. pose proof (co_once _ _ _ _ (so_calls _ Hok)) as Hn. destruct (batches_replace _ _ _ Hj) as (rest & Hr & _).
  unfold held in Hn. rewrite Hr in Hn. apply NoDup_app in Hn as (_ & _ & Hn). apply NoDup_app in Hn as (_ & _ & Hn).
  apply NoDup_app in Hn as (_ & _ & Hn). by apply NoDup_app in Hn as (? & _).
Qed.

Lemma start_answers (s : System) (j : nat) (ids : list nat) (reqs : list request) : sys_ok s -> answers_ok s ->
  sy_batches s !! j = Some (Started ids) -> reqs = omap (requestAt (sy_calls s)) ids ->
  answers_ok (with_batches (<[j := match live reqs with [] => Answered | l => Calling l end]> (sy_batches s))
            (with_calls (deliver (refused reqs) (sy_calls s)) s)).
Proof.
  intros Hok Ha Hj Hreqs. pose proof (started_requests s j ids Hok Hj) as Hids. rewrite <- Hreqs in Hids.
  pose proof (refused_live_ids reqs) as Hp. rewrite Hids in Hp. pose proof (batch_nodup s j _ Hok Hj) as Hn. simpl in Hn.
  rewrite <- Hp in Hn. apply (answers_deliver s _ (refused reqs)); try done.
  - by apply NoDup_app in Hn as (? & _).
  - intros i Hi. apply (batch_empty s j (Started ids)); [done|done|]. simpl. rewrite <- Hp. apply elem_of_app. by left.
  - intros i rl Hin. by apply refused_err in Hin.
  - intros qs q [Hq|Hq] Hin; [apply (an_sent _ Ha qs q); auto|]. simpl in Hq. apply insert_calling in Hq as [Hq|Hq];
      [|apply (an_sent _ Ha qs q); auto].
    assert (q ∈ reqs) as Hqr. { destruct (live reqs) eqn:El; [done|]. injection Hq as <-. rewrite <- El in Hin.
      by apply list_elem_of_filter in Hin as [_ ?]. }
    rewrite Hreqs in Hqr. apply list_elem_of_omap in Hqr as (i & _ & Hi). unfold requestAt in Hi.
    destruct (sy_calls s !! i) as [[[r| |] ctx at_ resp]|] eqn:E; simplify_eq/=. by eexists.
Qed.

Lemma finish_answers (s : System) (j : nat) (now : Z) (reqs : list request) (rpc : result (list RateLimitResp)) (out : list answer)
    (c' : PeerClient) : sys_ok s -> answers_ok s -> sy_batches s !! j = Some (Calling reqs) ->
  batchOutcome now reqs rpc (sy_client s) = (out, c') ->
  answers_ok (mkSystem c' (deliver out (sy_calls s)) (sy_queue s) (sy_closed s) (sy_loop s) (sy_batcher s) (sy_ticker s)
            (<[j := Answered]> (sy_batches s)) (sy_drain s) (sy_shut s) (sy_log s ++ [(reqs, rpc)])).
Proof.
  intros Hok Ha Hj Hout. pose proof (outcome_ids now reqs rpc (sy_client s)) as Hids. rewrite Hout in Hids. simpl in Hids.
  pose proof (batch_nodup s j _ Hok Hj) as Hn. simpl in Hn. apply (answers_deliver s _ out); try done.
  - by rewrite Hids.
  - intros i Hi. rewrite Hids in Hi. by apply (batch_empty s j (Calling reqs)).
  - intros x Hx. simpl. apply elem_of_app. by left.
  - intros i rl Hin. pose proof (outcome_own now reqs rpc (sy_client s) i rl) as Ho. rewrite Hout in Ho.
    destruct (Ho Hin) as (rls & n & q & -> & Hq & Hi & Hrl). exists reqs, rls, n, q. split; [|done]. simpl.
    apply elem_of_app. right. by apply list_elem_of_singleton.
  - intros qs q [[rpc' Hq]|Hq] Hin; simpl in Hq.
    + apply elem_of_app in Hq as [Hq|Hq]; [apply (an_sent _ Ha qs q); eauto|]. apply list_elem_of_singleton in Hq. simplify_eq.
      apply (an_sent _ Ha reqs q); [right; by eapply list_elem_of_lookup_2|done].
    + apply insert_calling in Hq as [?|Hq]; [done|]. apply (an_sent _ Ha qs q); auto.
Qed.

Lemma env_answers (s s' : System) : env_step s s' -> answers_ok s -> answers_ok s'.
Proof.
  intros Hstep Ha. destruct Hstep as [m|i c e Hc Hn|Hsh|e Hsh]; try (by eapply answers_same).
  - destruct Ha as [H1 H2 H3]. constructor; simpl.
    + intros i c rl Hi Hr. apply lookup_snoc_Some in Hi as [[_ Hi]|[_ <-]]; [by apply (H1 i c)|done].
    + intros reqs q Hr Hq. destruct (H2 reqs q Hr Hq) as (c & Hc & Hm). exists c. split; [by apply lookup_app_l_Some|done].
    + intros i c r res Hi Hm Hat. apply lookup_snoc_Some in Hi as [[_ Hi]|[_ <-]]; [by apply (H3 i c)|done].
  - destruct Ha as [H1 H2 H3]. constructor; simpl.
    + intros j cj rl Hj Hr. apply insert_call in Hj as [[<- ->]|[_ Hj]]; [by apply (H1 i c)|by apply (H1 j cj)].
    + intros reqs q Hr Hq. destruct (H2 reqs q Hr Hq) as (c0 & Hc0 & Hm).
      destruct (decide (i = rq_resp q)) as [->|Hne]; [|exists c0; by rewrite list_lookup_insert_ne].
      eexists. rewrite list_lookup_insert_eq by (by eapply lookup_lt_Some). simplify_eq. done.
    + intros j cj r res Hj Hm Hat. apply insert_call in Hj as [[<- ->]|[_ Hj]]; [by apply (H3 i c)|by apply (H3 j cj)].
Qed.

Lemma leaves_inv (c : PeerClient) (k : Call) (r r' : RateLimitReq) (x res : result RateLimitResp) :
  ca_method k = Forward r -> ca_method k = Forward r' -> leaves c r x = Gone (Some res) -> r' = r /\ res = wrapped c r x.
Proof. intros Hr Hr' Hg. split; [congruence|]. unfold leaves in Hg. congruence. Qed.

Lemma run_answers (s s' : System) : run_step s s' -> sys_ok s -> answers_ok s -> answers_ok s'.
Proof.
  intros Hstep Hok Ha.
  assert (forall i c, sy_calls s !! i = Some c -> active (ca_at c) = true -> pc_queueClosed (sy_client s) = false) as Hopen.
  { intros i c Hc Hact. by apply (co_active _ _ _ _ (so_calls _ Hok) i c Hc). }
  destruct Hstep as
    [i c Hc Hat Hl|i c r Hc Hm Hat Hq|i c r Hc Hm Hat Hq|i c r e Hc Hm Hat He|i c r Hc Hm Hat He|i c r Hc Hm Hat Hu Hcl Hlen
    |i c r e Hc Hm Hat Hu He|i c r Hc Hm Hat Hu|i c r res Hc Hm Hat Hr|i c r e Hc Hm Hat He|i c now reqs rpc Hc Hm Hat|i c now rpc Hc Hm Hat
    |i q Hl Hq|Hl Hq Hcl|t Hl Ht|ev t Hev Ht|j ids reqs Hj Hr|j now reqs rpc out c' Hj Ho|Hd|Hd Hf|Hd|ctx Hs Hd|e Hs].
  - by eapply (answers_move s _ i c).
  - eapply (answers_move s _ i c); try done. intros r' res Hm' Hg. destruct (leaves_inv _ _ _ _ _ _ Hm Hm' Hg) as [-> ->]. split; [|done]. rewrite wrapped_closed by done. eauto.
  - by eapply (answers_move s _ i c).
  - eapply (answers_move s _ i c); try done. intros r' res Hm' Hg. destruct (leaves_inv _ _ _ _ _ _ Hm Hm' Hg) as [-> ->]. split; [|done].
    rewrite wrapped_ctx by (eapply Hopen; [exact Hc|by rewrite Hat]). eauto.
  - by eapply (answers_move s _ i c).
  - by eapply (answers_move s _ i c).
  - eapply (answers_move s _ i c); try done. intros r' res Hm' Hg. destruct (leaves_inv _ _ _ _ _ _ Hm Hm' Hg) as [-> ->]. split; [|done].
    rewrite wrapped_ctx by (eapply Hopen; [exact Hc|by rewrite Hat]). eauto.
  - eapply (answers_move s _ i c); try done. intros qs Hqs. by apply (started_calling _ [[i]]).
  - eapply (answers_move s _ i c); try done. intros r' res' Hm' Hg. destruct (leaves_inv _ _ _ _ _ _ Hm Hm' Hg) as [-> ->]. split.
    + rewrite wrapped_await by (eapply Hopen; [exact Hc|by rewrite Hat]). eauto.
    + intros rl Hrl. destruct res; simplify_eq/=. done.
  - eapply (answers_move s _ i c); try done. intros r' res Hm' Hg. destruct (leaves_inv _ _ _ _ _ _ Hm Hm' Hg) as [-> ->]. split; [|done].
    rewrite wrapped_await by (eapply Hopen; [exact Hc|by rewrite Hat]). eauto.
  - by eapply (answers_move s _ i c).
  - by eapply (answers_move s _ i c).
  - eapply answers_same; try done. intros qs. apply started_calling.
  - eapply answers_same; try done. intros qs. apply started_calling.
  - eapply answers_same; try done. intros qs. apply started_calling.
  - by eapply answers_same.
  - by apply (start_answers s j ids).
  - by apply (finish_answers s j now reqs rpc).
  - by eapply answers_same.
  - by eapply answers_same.
  - by eapply answers_same.
  - by eapply answers_same.
  - by eapply answers_same.
Qed.

Lemma reachable_answers (addr : string) (disable : bool) (limit : Z) (s : System) :
  reachable addr disable limit s -> answers_ok s.
Proof.
  intros Hr. assert (answers_ok (newSystem addr disable limit)) as Ha.
  { constructor; [by intros ? ? ? ?| |by intros ? ? ? ? ?]. intros reqs q [[rpc Hin]|Hin]; by apply elem_of_nil in Hin. }
  apply (rtc_invariant sys_step (fun s => sys_ok s /\ answers_ok s) (newSystem addr disable limit)); [|by split; [apply newSystem_ok|]|done].
  intros x y Hxy [Hx Hax]. split; [by apply (sys_step_ok x)|].
  destruct Hxy as [Hxy|Hxy]; [by apply (env_answers x)|by apply (run_answers x)].
Qed.

(** C12: A peer client is safe in every interleaving of calls, contexts, batches and
    [Shutdown].  No caller is about to send on the queue once it is closed (which would
    panic); a request is handed to the peer at most once; a caller that returned got what
    [GetPeerRateLimit] returns for some outcome of its wait, and a limit only if the peer
    answered its own request with it at its own place in a batch. *)
Theorem peer_client_safe (addr : string) (disable : bool) (limit : Z) (s : System) (Hs : reachable addr disable limit s) :
  (sy_closed s = true -> forall i c, sy_calls s !! i = Some c -> ca_at c <> Sending) /\
  NoDup (logged s ++ held s) /\
  (forall i c r res, sy_calls s !! i = Some c -> ca_method c = Forward r -> ca_at c = Gone (Some res) ->
     (exists c0 ctx enq w, res = GetPeerRateLimit c0 r ctx enq w) /\
     forall rl, res = Ok rl -> exists reqs rls n,
       (reqs, Ok rls) ∈ sy_log s /\ rls !! n = Some rl /\ (fun q => (rq_resp q, rq_request q)) <$> reqs !! n = Some (i, r)).
Proof.
  pose proof (client_reachable_ok _ _ _ _ Hs) as Hok. pose proof (reachable_answers _ _ _ _ Hs) as [H1 H2 H3]. split; [|split].
  - intros Hcl i c Hc Hat. destruct (co_active _ _ _ _ (so_calls _ Hok) i c Hc) as [_ Hq]; [by rewrite Hat|].
    destruct (so_ctl _ Hok) as [C1 C2 _ _]. rewrite (proj2 C2) in Hq; [done|]. right. by apply C1.
  - apply (so_calls _ Hok).
  - intros i c r res Hc Hm Hat. destruct (H3 i c r res Hc Hm Hat) as [Hex Hrl]. split; [done|]. intros rl ->.
    destruct (H1 i c rl Hc (Hrl rl eq_refl)) as (reqs & rls & n & q & Hlog & Hq & Hi & Hr). exists reqs, rls, n.
    split; [done|]. split; [done|]. rewrite Hq. simpl.
    destruct (H2 reqs q) as (c0 & Hc0 & Hm0); [left; by eexists|by eapply list_elem_of_lookup_2|]. rewrite Hi in *.
    assert (c0 = c) as -> by congruence. by assert (rq_request q = r) as -> by congruence.
Qed.

(** ** All calls return *)

Definition callWork (c : Call) : nat :=
  match ca_at c with Arriving => 12 | Counted => 11 | Unclosed => 10 | Sending => 9 | Waiting => 1 | Gone _ => 0 end.

Definition batchWork (b : BatchAt) : nat := match b with Started _ => 2 | Calling _ => 1 | Answered => 0 end.

Definition tickerWork (t : Interval) : nat :=
  ((if iv_in t then 3 else 0) + match iv_phase t with Ready => 1 | Sleeping => 3 | Stopped => 0 end +
   (if iv_C t then 1 else 0))%nat.

Definition loopWork (s : System) : nat :=
  (match sy_loop s with Running => 1 | _ => 0 end + 7 * length (sy_queue s) + 3 * length (ba_queue (sy_batcher s)) +
   tickerWork (sy_ticker s))%nat.

Definition shutWork (s : System) : nat :=
  (match sy_drain s with WantLock => 3 | Draining => 2 | Storing => 1 | _ => 0 end +
   match sy_shut s with ShutWaits _ => 1 | _ => 0 end)%nat.

(** A bound on the steps the goroutines still take if nothing happens from outside. *)
Definition work (s : System) : nat :=
  (sum_list_with callWork (sy_calls s) + sum_list_with batchWork (sy_batches s) + loopWork s + shutWork s)%nat.

Lemma move_work (calls : list Call) (i : nat) (c : Call) (a : CallAt) : calls !! i = Some c ->
  (sum_list_with callWork (<[i := moved a c]> calls) + callWork c = sum_list_with callWork calls + callWork (moved a c))%nat.
Proof. apply sum_insert. Qed.

Lemma deliver_work (out : list answer) (calls : list Call) :
  sum_list_with callWork (deliver out calls) = sum_list_with callWork calls.
Proof.
  revert calls. induction out as [|a out IH]; intros calls; simpl; [done|]. rewrite IH. clear IH.
  generalize a.1. induction calls as [|c calls IHc]; intros [|n]; simpl; [done..|]. f_equal. apply IHc.
Qed.

Lemma nextIf_work (b b' : Batcher nat) (t : Interval) : (tickerWork (nextIf b b' t) <= tickerWork t + 3)%nat.
Proof. unfold nextIf, tickerWork. destruct (Nat.eqb _ _); [lia|]. destruct t as [[] c ph dn]; simpl; lia. Qed.

(** A round trades the requests it takes for the batches it starts. *)
Lemma round_work (limit : Z) (ev : batchEvent nat) (b : Batcher nat) : ba_running b = true ->
  let b' := runBatch limit ev b in
  (sum_list_with batchWork (newBatches b b') + 3 * length (ba_queue b') <=
   3 * length (ba_queue b) + match ev with Queued _ => 3 | _ => 0 end)%nat /\
  match ev with Queued _ => True | _ => ba_nexts b' = ba_nexts b end.
Proof.
  intros Hr. unfold runBatch, newBatches. rewrite Hr. destruct ev as [i| |].
  - destruct (_ <=? _); cbn [ba_queue ba_sent]; (split; [|done]).
    + rewrite drop_app_length. simpl. lia.
    + rewrite drop_all, length_app. simpl. lia.
  - destruct (ba_queue b) as [|x q] eqn:Eq; cbn [ba_queue ba_sent ba_nexts]; (split; [|done]).
    + rewrite drop_all, Eq. simpl. lia.
    + rewrite drop_app_length. simpl. lia.
  - destruct (ba_queue b) as [|x q] eqn:Eq; cbn [ba_queue ba_sent ba_nexts]; (split; [|done]).
    + rewrite drop_all. simpl. lia.
    + rewrite drop_app_length. simpl. lia.
Qed.

Lemma round_lowers (s : System) (ev : batchEvent nat) (lp : LoopAt) (t : Interval) (q : list nat) : sys_ok s ->
  sy_loop s = Running -> sy_queue s = received [ev] ++ q ->
  match ev with
  | Queued _ => lp = Running /\ t = sy_ticker s
  | PeerClient.Tick => lp = Running /\ (tickerWork t < tickerWork (sy_ticker s))%nat
  | QueueClosed => lp = Ended /\ tickerWork t = tickerWork (sy_ticker s)
  end -> (work (round ev lp t q s) < work s)%nat.
Proof.
  intros Hok Hlp Hq Hev. destruct (lo_running _ (so_loop _ Hok) Hlp) as [Hr _].
  pose proof (round_work (pc_BatchLimit (sy_client s)) ev (sy_batcher s) Hr) as [Hw Hn]. simpl in Hw.
  unfold work, loopWork, shutWork. simpl. rewrite Hlp, Hq, sum_list_with_app.
  pose proof (nextIf_work (sy_batcher s) (runBatch (pc_BatchLimit (sy_client s)) ev (sy_batcher s)) t) as Hnx.
  destruct ev as [i| |]; [destruct Hev as [-> ->]; simpl in *; lia| |]; destruct Hev as [-> Ht]; simpl in *;
    unfold nextIf in *; rewrite Hn, Nat.eqb_refl in *; lia.
Qed.

(** A call that moves forward. *)
Lemma put_lowers (s : System) (i : nat) (c : Call) (a : CallAt) : sy_calls s !! i = Some c ->
  (callWork (moved a c) < callWork c)%nat -> (work (put i (moved a c) s) < work s)%nat.
Proof. intros Hc Hlt. pose proof (move_work _ _ _ a Hc). unfold work, loopWork, shutWork. simpl. lia. Qed.

Lemma client_step_work (s s' : System) : run_step s s' -> sys_ok s -> (work s' < work s)%nat.
Proof.
  intros Hstep Hok. destruct Hstep as
    [i c Hc Hat Hl|i c r Hc Hm Hat Hq|i c r Hc Hm Hat Hq|i c r e Hc Hm Hat He|i c r Hc Hm Hat He|i c r Hc Hm Hat Hu Hcl Hlen
    |i c r e Hc Hm Hat Hu He|i c r Hc Hm Hat Hu|i c r res Hc Hm Hat Hr|i c r e Hc Hm Hat He|i c now reqs rpc Hc Hm Hat|i c now rpc Hc Hm Hat
    |i q Hl Hq|Hl Hq Hcl|t Hl Ht|ev t Hev Ht|j ids reqs Hj Hr|j now reqs rpc out c' Hj Ho|Hd|Hd Hf|Hd|ctx Hs Hd|e Hs].
  1-5, 7, 9-10: apply put_lowers; [done|]; unfold callWork; rewrite Hat; simpl; lia.
  - pose proof (move_work _ _ _ Waiting Hc) as Hw. unfold callWork in Hw at 2 4. rewrite Hat in Hw. simpl in Hw.
    unfold work, loopWork, shutWork. simpl. rewrite length_app. simpl. lia.
  - pose proof (move_work _ _ _ Waiting Hc) as Hw. unfold callWork in Hw at 2 4. rewrite Hat in Hw. simpl in Hw.
    unfold work, loopWork, shutWork. simpl. rewrite sum_list_with_app. simpl. lia.
  - pose proof (move_work _ _ _ (Gone None) Hc) as Hw. unfold callWork in Hw at 2 4. rewrite Hat in Hw. simpl in Hw.
    unfold work, loopWork, shutWork. simpl. lia.
  - pose proof (move_work _ _ _ (Gone None) Hc) as Hw. unfold callWork in Hw at 2 4. rewrite Hat in Hw. simpl in Hw.
    unfold work, loopWork, shutWork. simpl. lia.
  - by apply round_lowers.
  - by apply round_lowers.
  - apply round_lowers; [done..|]. split; [done|]. destruct (sy_ticker s) as [i c ph dn]. unfold tickerWork.
    destruct c; simplify_eq/=. lia.
  - unfold work, loopWork, shutWork. simpl. destruct (sy_ticker s) as [i c ph dn]. unfold tickerWork.
    destruct Hev as [->|[->| ->]], i, c, ph; simplify_eq/=; try destruct dn; simplify_eq/=; lia.
  - unfold work, loopWork, shutWork. simpl. rewrite deliver_work.
    pose proof (sum_insert batchWork _ _ _ (match live reqs with [] => Answered | l => Calling l end) Hj) as Hw.
    destruct (live reqs); simpl in *; lia.
  - unfold work, loopWork, shutWork. simpl. rewrite deliver_work. pose proof (sum_insert batchWork _ _ _ Answered Hj). simpl in *. lia.
  - unfold work, loopWork, shutWork. simpl. rewrite Hd. lia.
  - unfold work, loopWork, shutWork. simpl. rewrite Hd. lia.
  - unfold work, loopWork, shutWork. simpl. rewrite Hd. lia.
  - unfold work, loopWork, shutWork. simpl. rewrite Hd, Hs. lia.
  - unfold work, loopWork, shutWork. simpl. rewrite Hs. lia.
Qed.

(** All calls have returned, and so has [Shutdown] if it was called, with the queue
    closed. *)
Definition settled (s : System) : Prop :=
  Forall (fun c => exists res, ca_at c = Gone res) (sy_calls s) /\
  (pc_isShutdown (sy_client s) = true -> sy_closed s = true /\ exists res, sy_shut s = ShutDone res).

(** A loop with something to do can do it. *)
Lemma loop_moves (s : System) : sys_ok s -> sy_queue s <> [] \/ ba_queue (sy_batcher s) <> [] -> exists s', run_step s s'.
Proof.
  intros [_ [_ _ Hidle _ Hrun Harm] _] Hne. destruct (sy_loop s) eqn:El.
  - destruct (Hidle ltac:(done)) as [? ?]. by destruct Hne.
  - destruct (sy_queue s) as [|i q] eqn:Eq; [|eexists; by eapply l_queued]. destruct Hne as [?|Hne]; [done|].
    specialize (Harm eq_refl Hne). destruct (Hrun eq_refl) as (_ & Hd & Hp).
    destruct (sy_ticker s) as [i c ph dn] eqn:Et. unfold armed in Harm. simpl in *. destruct c.
    { eexists. eapply l_tick; [done|]. by rewrite Et. }
    destruct ph; [|eexists; eapply (l_ticker s Ticker.Tick); [auto|by rewrite Et]|done].
    destruct Harm as [->|[?|?]]; try done. eexists. eapply (l_ticker s Begin); [auto|by rewrite Et].
  - destruct (Hidle ltac:(done)) as [? ?]. by destruct Hne.
Qed.

Lemma batch_moves (s : System) (b : BatchAt) : b ∈ sy_batches s -> b <> Answered -> exists s', run_step s s'.
Proof.
  intros Hb Hne. apply list_elem_of_lookup in Hb as [j Hj]. destruct b as [ids|reqs|]; [| |done].
  - eexists. by eapply b_start.
  - destruct (batchOutcome 0 reqs (Err Canceled) (sy_client s)) as [out c'] eqn:E. eexists. by eapply b_finish.
Qed.

(** A call that has passed the mutex can move when nothing is held. *)
Lemma call_moves (s : System) (i : nat) (c : Call) : sys_ok s -> held s = [] -> sy_calls s !! i = Some c ->
  counted (ca_at c) = true -> exists s', run_step s s'.
Proof.
  intros Hok Hheld Hc Hat. pose proof (so_calls _ Hok) as Hcalls. rewrite Hheld in Hcalls.
  assert (sy_queue s = []) as Hq by (unfold held in Hheld; by apply app_eq_nil in Hheld as [? _]).
  assert (active (ca_at c) = true -> (exists r, ca_method c = Forward r) /\ pc_queueClosed (sy_client s) = false) as Hact.
  { intros Ha. by apply (co_active _ _ _ _ Hcalls i c). }
  destruct (ca_at c) eqn:Ea; try done.
  - destruct (ca_method c) as [r|reqs|] eqn:Em.
    + destruct (pc_queueClosed (sy_client s)) eqn:Eq; eexists; [by eapply r_closed|by eapply r_open].
    + eexists. eapply (r_hits s i c 0 reqs (Ok [])); done.
    + eexists. eapply (r_globals s i c 0 (Ok tt)); done.
  - destruct (Hact eq_refl) as [[r Hr] _]. destruct (ca_ctx c) as [e|] eqn:Ec; eexists; [by eapply r_left|by eapply r_stays].
  - destruct (Hact eq_refl) as [[r Hr] Hopen]. destruct (unbatched (sy_client s) r) eqn:Eu; eexists; [by eapply r_spawn|].
    eapply r_enqueue; try done.
    + destruct (so_ctl _ Hok) as [C1 C2 _ _]. destruct (sy_closed s) eqn:Ecl; [|done]. rewrite (proj2 C2) in Hopen; [done|].
      right. by apply C1.
    + rewrite Hq. simpl. unfold queueCap. lia.
  - destruct (Hact eq_refl) as [[r Hr] _]. destruct (co_wait _ _ _ _ Hcalls i c Hc Ea) as [Hin|[res Hres]].
    + by apply elem_of_nil in Hin.
    + eexists. by eapply r_receive.
Qed.

Lemma all_or_some {A} (f : A -> bool) (l : list A) :
  Forall (fun x => f x = false) l \/ exists i x, l !! i = Some x /\ f x = true.
Proof.
  induction l as [|x l [IH|(i & y & Hi & Hy)]]; [by left| |right; by exists (S i), y].
  destruct (f x) eqn:E; [right; by exists 0%nat, x|left; by constructor].
Qed.

Lemma system_moves (s : System) : sys_ok s -> (sy_shut s = NotCalled -> pc_isShutdown (sy_client s) = false) ->
  (exists s', run_step s s') \/ settled s.
Proof.
  intros Hok Hnc. destruct (all_or_some (fun b => match b with Answered => false | _ => true end) (sy_batches s)) as [Hb|(j & b & Hj & Hb)].
  2: { left. apply (batch_moves s b); [by eapply list_elem_of_lookup_2|]. by intros ->. }
  destruct (decide (sy_queue s = [])) as [Eq|]; [|left; apply loop_moves; auto].
  destruct (decide (ba_queue (sy_batcher s) = [])) as [Ebq|]; [|left; apply loop_moves; auto].
  assert (held s = []) as Hheld.
  { unfold held. rewrite Eq, Ebq. simpl. clear -Hb. induction Hb as [|b bs Hb _ IH]; [done|]. rewrite fmap_cons. cbn [concat]. rewrite IH. by destruct b. }
  destruct (all_or_some (fun c => counted (ca_at c)) (sy_calls s)) as [Hc|(i & c & Hi & Hc)]; [|left; by apply (call_moves s i c)].
  destruct (so_ctl _ Hok) as [C1 C2 C3 C4].
  assert (sy_drain s = NoDrain \/ sy_drain s = Finished \/ exists s', run_step s s') as [Hd|[Hd|Hm]]; [| | |by left].
  { destruct (sy_drain s) eqn:Ed; [by left|..|by right; left]; right; right; eexists;
      [by apply d_lock|by apply d_drained|by apply d_close]. }
  - destruct (all_or_some (fun c => match ca_at c with Arriving => true | _ => false end) (sy_calls s)) as [Ha|(i & c & Hi & Ha)].
    2: { left. eexists. eapply (r_count s i c); [done|by destruct (ca_at c)|by rewrite Hd]. }
    right. split; [|intros Hs; apply C3 in Hs; done].
    apply Forall_lookup. intros i c Hi. rewrite Forall_lookup in Hc, Ha. specialize (Hc i c Hi). specialize (Ha i c Hi).
    destruct (ca_at c); try done. eauto.
  - destruct (all_or_some (fun c => match ca_at c with Arriving => true | _ => false end) (sy_calls s)) as [Ha|(i & c & Hi & Ha)].
    2: { left. eexists. eapply (r_count s i c); [done|by destruct (ca_at c)|by rewrite Hd]. }
    destruct (sy_shut s) as [|ctx|res] eqn:Es; [|left; eexists; by eapply s_return|].
    { rewrite (proj2 C3) in Hnc; [by specialize (Hnc eq_refl)|by rewrite Hd]. }
    right. split; [|intros _; split; [by apply C1|eauto]].
    apply Forall_lookup. intros i c Hi. rewrite Forall_lookup in Hc, Ha. specialize (Hc i c Hi). specialize (Ha i c Hi).
    destruct (ca_at c); try done. eauto.
Qed.

(** [Shutdown] is the one that sets the flag. *)
Lemma called_step (s s' : System) : sys_step s s' -> (sy_shut s = NotCalled -> pc_isShutdown (sy_client s) = false) ->
  sy_shut s' = NotCalled -> pc_isShutdown (sy_client s') = false.
Proof.
  intros [Hs|Hs] Hn; destruct Hs; simpl; try done; intros Hsh; specialize (Hn Hsh).
  - by destruct (hits_client now reqs rpc (sy_client s)) as (_ & _ & _ & ->).
  - by destruct (globals_client now rpc (sy_client s)) as (_ & _ & _ & ->).
  - pose proof (outcome_client now reqs rpc (sy_client s)) as (_ & _ & _ & Ho). rewrite H0 in Ho. simpl in Ho. by rewrite Ho.
Qed.

(** C13: Every call to a peer returns, and so does [Shutdown].  From any state a client can
    be in, if nothing more happens from outside its goroutines take at most [work] further
    steps, whatever the order, and they never block each other: while a call has not
    returned, or [Shutdown] was called and has not returned with the queue closed, one of
    them can move.  The call to the peer itself ends because of its timeout. *)
Theorem peer_calls_return (addr : string) (disable : bool) (limit : Z) (s s' : System) (n : nat)
    (Hs : reachable addr disable limit s) (Hrun : nsteps run_step n s s') :
  (n <= work s)%nat /\ ((exists s'', run_step s' s'') \/ settled s').
Proof.
  assert (sy_shut s = NotCalled -> pc_isShutdown (sy_client s) = false) as Hn.
  { apply (rtc_invariant sys_step (fun s => sy_shut s = NotCalled -> pc_isShutdown (sy_client s) = false)
      (newSystem addr disable limit)); [apply called_step|done|done]. }
  destruct (nsteps_bounded run_step (fun s => sys_ok s /\ (sy_shut s = NotCalled -> pc_isShutdown (sy_client s) = false))
    work n s s') as [[Hok Hn'] Hw]; [|split; [by eapply client_reachable_ok|done]|done|split; [lia|by apply system_moves]].
  intros x y Hxy [Hx Hnx]. split; [split; [by apply (client_step_ok x)|by apply (called_step x); [right|]]|by apply client_step_work].
Qed.

(** The calls to the peer that are being made. *)
Definition inCall (s : System) : list (list request) :=
  omap (fun b => match b with Calling reqs => Some reqs | _ => None end) (sy_batches s).

Lemma elem_of_inCall (s : System) (reqs : list request) : reqs ∈ inCall s <-> Calling reqs ∈ sy_batches s.
Proof.
  unfold inCall. rewrite list_elem_of_omap. split; [intros ([| |] & Hb & ?); by simplify_eq|intros Hb; by exists (Calling reqs)].
Qed.

(** What is left when the queue closes is not sent.  Once a shutdown has drained the
    client, no step starts a call to the peer for queued requests: their callers have
    left, and the batches that hold them skip them. *)
Theorem shutdown_sends_nothing (addr : string) (disable : bool) (limit : Z) (s s' : System)
    (Hs : reachable addr disable limit s) (Hclosed : sy_closed s = true) (Hstep : run_step s s') :
  inCall s' ⊆ inCall s.
Proof.
  intros reqs. rewrite !elem_of_inCall.
  pose proof (client_reachable_ok _ _ _ _ Hs) as Hok.
  assert (forall j ids, sy_batches s !! j = Some (Started ids) -> live (omap (requestAt (sy_calls s)) ids) = []) as Hlive.
  { intros j ids Hj. unfold live. destruct (filter _ _) as [|q l] eqn:Ef; [done|].
    assert (q ∈ filter (fun r => rq_ctx r = None) (omap (requestAt (sy_calls s)) ids)) as Hq by (rewrite Ef; left).
    apply list_elem_of_filter in Hq as [Hnone Hq]. apply list_elem_of_omap in Hq as (i & Hi & Hreq).
    destruct (co_held _ _ _ _ (so_calls _ Hok) i) as (c & Hc & _ & _ & Hat).
    { unfold held. apply elem_of_app. right. apply elem_of_app. right. destruct (batches_replace _ _ _ Hj) as (rest & -> & _).
      apply elem_of_app. by left. }
    destruct (so_ctl _ Hok) as [C1 C2 _ _]. destruct Hat as [Hat|(res & _ & [e He])].
    - destruct (co_active _ _ _ _ (so_calls _ Hok) i c Hc) as [_ Hopen]; [by rewrite Hat|]. rewrite (proj2 C2) in Hopen; [done|].
      right. by apply C1.
    - unfold requestAt in Hreq. rewrite Hc in Hreq. destruct c as [[r| |] ctx a resp]; simplify_eq/=. }
  destruct Hstep as [| | | | | | | | | | | | | | | |j ids qs Hj Hr|j now qs rpc out c' Hj Ho| | | | |]; simpl; try done.
  - apply (started_calling _ [[i]]).
  - apply started_calling.
  - apply started_calling.
  - apply started_calling.
  - intros Hin. apply insert_calling in Hin as [Hin|Hin]; [|done]. rewrite Hr, (Hlive j ids Hj) in Hin. done.
  - intros Hin. by apply insert_calling in Hin as [?|?].
Qed.

End System.

(** ** Witnesses *)

Definition forwardedReq : RateLimitReq := mkReq "requests" "account:12" 1 100 60000 TOKEN_BUCKET BATCHING 0 ∅ (Some 1000) 0.

Definition peerAnswer : RateLimitResp := mkResp UNDER_LIMIT 100 99 61000 "" ∅ 0.

(** A client that batches one request at a time, after the call was made and shut down
    was called. *)
Definition called : System (EC := listErrs) :=
  mkSystem (mkPeerClient (EC := listErrs) "10.0.0.2:81" false 1 false true [] 0) [mkCall (Forward forwardedReq) None Arriving None] [] false Running
    newBatcher NewInterval [] WantLock (ShutWaits None) [].

(** The same client when the caller has its answer. *)
Definition answered : System (EC := listErrs) :=
  mkSystem (mkPeerClient (EC := listErrs) "10.0.0.2:81" false 1 false true [] 0)
    [mkCall (Forward forwardedReq) None (Gone (Some (Ok peerAnswer))) (Some (Ok peerAnswer))] [] false Running
    (mkBatcher [] [[0%nat]] 0 true) NewInterval [Answered] WantLock (ShutWaits None)
    [([mkRequest forwardedReq 0 None], Ok [peerAnswer])].

Lemma called_reachable : reachable (EC := listErrs) "10.0.0.2:81" false 1 called.
Proof.
  unfold reachable. eapply rtc_l; [left; apply (e_call _ (Forward forwardedReq))|].
  eapply rtc_l; [left; apply e_shutdown; reflexivity|]. apply rtc_refl.
Qed.

Lemma called_answered : nsteps run_step 8 called answered.
Proof.
  eapply nsteps_l; [eapply (r_count _ 0); reflexivity|].
  eapply nsteps_l; [eapply (r_open _ 0); reflexivity|].
  eapply nsteps_l; [eapply (r_stays _ 0); reflexivity|].
  eapply nsteps_l; [eapply (r_enqueue _ 0); [reflexivity..|cbn; unfold queueCap; lia]|].
  eapply nsteps_l; [eapply l_queued; reflexivity|].
  eapply nsteps_l; [eapply (b_start _ 0); reflexivity|].
  eapply nsteps_l; [eapply (b_finish _ 0 0 _ (Ok [peerAnswer])); reflexivity|].
  eapply nsteps_l; [eapply (r_receive _ 0); reflexivity|]. apply nsteps_O.
Qed.

Lemma answered_reachable : reachable (EC := listErrs) "10.0.0.2:81" false 1 answered.
Proof.
  unfold reachable. etransitivity; [apply called_reachable|]. eapply (rtc_subrel run_step); [by right|].
  eapply rtc_nsteps. eexists. apply called_answered.
Qed.

Lemma peer_client_safe_witness : exists reqs rls n,
  (reqs, Ok rls) ∈ sy_log answered /\ rls !! n = Some peerAnswer /\
  (fun q => (rq_resp q, rq_request q)) <$> reqs !! n = Some (0%nat, forwardedReq).
Proof.
  destruct (peer_client_safe (EC := listErrs) "10.0.0.2:81" false 1 answered answered_reachable) as (_ & _ & Hres).
  exact (proj2 (Hres 0%nat _ forwardedReq (Ok peerAnswer) eq_refl eq_refl eq_refl) peerAnswer eq_refl).
Defined.

Lemma peer_calls_return_witness : (8 <= work called)%nat /\ ((exists s'', run_step answered s'') \/ settled answered).
Proof. exact (peer_calls_return (EC := listErrs) "10.0.0.2:81" false 1 called answered 8 called_reachable called_answered). Defined.

(** A client that was shut down with a request in its queue whose caller had left, when
    the loop has made a batch of it, and after that batch was sent. *)
Definition leftover (b : BatchAt) (resp : option (result RateLimitResp)) : System (EC := listErrs) :=
  mkSystem (mkPeerClient (EC := listErrs) "10.0.0.2:81" false 1 true true [] 0)
    [mkCall (Forward forwardedReq) (Some Canceled)
       (leaves (mkPeerClient (EC := listErrs) "10.0.0.2:81" false 1 false false [] 0) forwardedReq (awaitResponse (CtxDone Canceled))) resp]
    [] true Running (mkBatcher [] [[0%nat]] 0 true) NewInterval [b] Finished (ShutWaits None) [].

Lemma leftover_reachable : reachable (EC := listErrs) "10.0.0.2:81" false 1 (leftover (Started [0%nat]) None).
Proof.
  unfold reachable. eapply rtc_l; [left; apply (e_call _ (Forward forwardedReq))|].
  eapply rtc_l; [right; eapply (r_count _ 0); reflexivity|].
  eapply rtc_l; [right; eapply (r_open _ 0); reflexivity|].
  eapply rtc_l; [right; eapply (r_stays _ 0); reflexivity|].
  eapply rtc_l; [right; eapply (r_enqueue _ 0); [reflexivity..|cbn; unfold queueCap; lia]|].
  eapply rtc_l; [left; eapply (e_ctx _ 0 _ Canceled); reflexivity|].
  eapply rtc_l; [right; eapply (r_give_up _ 0); reflexivity|].
  eapply rtc_l; [left; apply e_shutdown; reflexivity|].
  eapply rtc_l; [right; eapply d_lock; reflexivity|].
  eapply rtc_l; [right; eapply d_drained; [reflexivity|by repeat constructor]|].
  eapply rtc_l; [right; eapply d_close; reflexivity|].
  eapply rtc_l; [right; eapply l_queued; reflexivity|]. apply rtc_refl.
Qed.

Lemma shutdown_sends_nothing_witness :
  inCall (leftover Answered (Some (Err (ErrWrap "Context error before sending batch" Canceled)))) ⊆
  inCall (leftover (Started [0%nat]) None).
Proof.
  apply (shutdown_sends_nothing (EC := listErrs) "10.0.0.2:81" false 1 (leftover (Started [0%nat]) None)
    (leftover Answered (Some (Err (ErrWrap "Context error before sending batch" Canceled)))) leftover_reachable eq_refl).
  exact (b_start (leftover (Started [0%nat]) None) 0 [0%nat] _ eq_refl eq_refl).
Defined.
