(* ===== verification/Global.v ===== *)
(** * GLOBAL rate limits ([global.go], [UpdatePeerGlobals] of [gubernator.go])

    A member that does not own a GLOBAL limit answers from its own cache and sends
    the hits on to the owner; the owner tells the others the state of the limits that
    changed.  [runAsyncHits] and [runBroadcasts] are state machines over their queues;
    [sendHits] groups hits by owner; [broadcastPeers] reads the state of each limit
    from the worker pool and [UpdatePeerGlobals] installs it at the receiver. *)

From stdpp Require Import base gmap strings list.
From Stdlib Require Import ZArith Lia.
From S2P Require Import Prelude Float64 Types GoTime LeakyMath Runtime LRUCache TokenBucket LeakyBucket Workers ReplicatedHash.

Local Open Scope Z_scope.
Local Open Scope go_scope.

(** ** Queues *)

(** What [QueueHit] and [QueueUpdate] put on their channel: a clone of a request that
    has hits. *)
Definition QueueHit (r : RateLimitReq) : option RateLimitReq :=
  if negb (r_Hits r =? 0) then Some r else None.
Definition QueueUpdate (r : RateLimitReq) : option RateLimitReq :=
  if negb (r_Hits r =? 0) then Some r else None.

(** ** Hits on their way to the owner *)

(** One queued hit added to the pending ones. *)
Definition aggregateHit (r : RateLimitReq) (hits : gmap string RateLimitReq) : gmap string RateLimitReq :=
  let key := HashKey r in
  match hits !! key with
  | Some h =>
      let h := if HasBehavior (r_Behavior r) RESET_REMAINING
               then with_Behavior (SetBehavior (r_Behavior h) RESET_REMAINING true) h else h in
      <[key := with_Hits (r_Hits h +i r_Hits r) h]> hits
  | None => <[key := r]> hits
  end.

Inductive globalEvent : Type :=
  | GQueued (r : RateLimitReq)
  | GTick
  | GDone.

(** The loop's pending map, and the maps it has sent, oldest first. *)
Record Aggregator : Type := mkAggregator {
  ag_pending : gmap string RateLimitReq;
  ag_sent : list (gmap string RateLimitReq);
  ag_nexts : nat;                    (* calls of [interval.Next] *)
  ag_running : bool
}.

Definition newAggregator : Aggregator := mkAggregator ∅ [] 0 true.

(** One round of [runAsyncHits]. *)
Definition runAsyncHits (batchLimit : Z) (ev : globalEvent) (a : Aggregator) : Aggregator :=
  if ag_running a then
    match ev with
    | GQueued r =>
        let hits := aggregateHit r (ag_pending a) in
        if Z.of_nat (size hits) =? batchLimit then mkAggregator ∅ (ag_sent a ++ [hits]) (ag_nexts a) true
        else mkAggregator hits (ag_sent a)
               (if Nat.eqb (size hits) 1 then S (ag_nexts a) else ag_nexts a) true
    | GTick =>
        if Nat.eqb (size (ag_pending a)) 0 then a
        else mkAggregator ∅ (ag_sent a ++ [ag_pending a]) (ag_nexts a) true
    | GDone => mkAggregator (ag_pending a) (ag_sent a) (ag_nexts a) false
    end
  else a.

(** One round of [runBroadcasts]: of the updates of a key the last one counts. *)
Definition runBroadcasts (batchLimit : Z) (ev : globalEvent) (a : Aggregator) : Aggregator :=
  if ag_running a then
    match ev with
    | GQueued r =>
        let updates := <[HashKey r := r]> (ag_pending a) in
        if batchLimit <=? Z.of_nat (size updates) then mkAggregator ∅ (ag_sent a ++ [updates]) (ag_nexts a) true
        else mkAggregator updates (ag_sent a)
               (if Nat.eqb (size updates) 1 then S (ag_nexts a) else ag_nexts a) true
    | GTick =>
        if Nat.eqb (size (ag_pending a)) 0 then a
        else mkAggregator ∅ (ag_sent a ++ [ag_pending a]) (ag_nexts a) true
    | GDone => mkAggregator (ag_pending a) (ag_sent a) (ag_nexts a) false
    end
  else a.

(** [sendHits]: the requests for each owner, by its address; those without an owner are
    logged and dropped. [pick] is [GetPeer]. *)
Definition assignHit {Peer} (addr : Peer -> string) (pick : string -> result Peer)
    (acc : gmap string (Peer * list RateLimitReq)) (r : RateLimitReq) : gmap string (Peer * list RateLimitReq) :=
  match pick (HashKey r) with
  | Err _ => acc
  | Ok peer =>
      match acc !! addr peer with
      | Some (client, reqs) => <[addr peer := (client, reqs ++ [r])]> acc
      | None => <[addr peer := (peer, [r])]> acc
      end
  end.

Definition sendHits {Peer} (addr : Peer -> string) (pick : string -> result Peer)
    (hits : gmap string RateLimitReq) : gmap string (Peer * list RateLimitReq) :=
  fold_left (assignHit addr pick) (map_to_list hits).*2 ∅.

(** ** The state of a limit on its way to the others *)

Record UpdatePeerGlobal : Type := mkUpdate {
  up_Key : string;
  up_Status : RateLimitResp;
  up_Algorithm : Algorithm;
  up_Duration : Z;
  up_CreatedAt : Z
}.

Section Updates.
Context `{Arch} `{Hash64} {C S : Type} `{CacheOps C} `{StoreOps S}.

Abbreviation P := (WorkerPool C S).

Definition onProcess {A} (m : M Env A) : M P A :=
  zoom po_env (fun e po => mkPool e (po_workers po) (po_store po) (po_hashRingStep po) (po_conf po)) m.

(** One update of [broadcastPeers], read with no hits and not as the owner; one that
    cannot be read is logged and left out. *)
Definition readStatus (update : RateLimitReq) : M P (option UpdatePeerGlobal) :=
  res ← GetRateLimit None (with_Hits 0 update) (mkReqState false 0);
  match res with
  | Ok status =>
      match r_CreatedAt update with
      | Some createdAt =>
          mret (Some (mkUpdate (HashKey update) status (r_Algorithm update) (r_Duration update) createdAt))
      | None => panic "invalid memory address or nil pointer dereference"
      end
  | Err _ => mret None
  end.

Fixpoint broadcastPeers (updates : list RateLimitReq) : M P (list UpdatePeerGlobal) :=
  match updates with
  | [] => mret []
  | u :: us => o ← readStatus u; rest ← broadcastPeers us; mret (option_list o ++ rest)
  end.

(** The peers a broadcast goes to: all but this one. *)
Definition broadcastTo {Peer} (isOwner : Peer -> bool) (peers : list Peer) : list Peer :=
  filter (fun p => isOwner p = false) peers.

(** The item [UpdatePeerGlobals] installs for one update. *)
Definition globalItem (g : UpdatePeerGlobal) (now : Z) : CacheItem :=
  let value :=
    if up_Algorithm g =? LEAKY_BUCKET then
      VLeaky (mkLeaky (rl_Limit (up_Status g)) (up_Duration g) (f64_of_int (rl_Remaining (up_Status g))) now
                (rl_Limit (up_Status g)))
    else if up_Algorithm g =? TOKEN_BUCKET then
      VToken (mkToken (rl_Status (up_Status g)) (rl_Limit (up_Status g)) (up_Duration g)
                (rl_Remaining (up_Status g)) now)
    else VNil in
  mkItem (up_Algorithm g) (up_Key g) value (rl_ResetTime (up_Status g)) 0.

(** The loop of [UpdatePeerGlobals]; [gaveUp i] says how the caller's context ended the
    call on the pool for update [i], if it did. *)
Fixpoint installGlobals (gaveUp : nat -> option (bool * gerror)) (i : nat) (now : Z) (gs : list UpdatePeerGlobal)
    : M P (result unit) :=
  match gs with
  | [] => mret (Ok tt)
  | g :: gs =>
      p ← onProcess (alloc (globalItem g now));
      res ← AddCacheItem (gaveUp i) (up_Key g) p;
      match res with
      | Err e => mret (Err (ErrWrap "Error in workerPool.AddCacheItem" e))
      | Ok _ => installGlobals gaveUp (Datatypes.S i) now gs
      end
  end.

Definition UpdatePeerGlobals (gaveUp : nat -> option (bool * gerror)) (gs : list UpdatePeerGlobal)
    : M P (result unit) :=
  now ← onProcess MillisecondNow; installGlobals gaveUp 0 now gs.
End Updates.

(** ** No hit is lost or counted twice *)

(** Equality of 64-bit sums. *)
Definition eq64 (a b : Z) : Prop := wrap64 a = wrap64 b.

#[global] Instance eq64_equiv : Equivalence eq64.
Proof. split; [by intros a|by intros a b|intros a b c; unfold eq64; congruence]. Qed.

#[global] Instance eq64_add : Proper (eq64 ==> eq64 ==> eq64) Z.add.
Proof.
  intros a a' Ha b b' Hb. unfold eq64 in *.
  rewrite <- (wrap64_add_l a b), Ha, wrap64_add_l, (Z.add_comm a' b), <- (wrap64_add_l b a'), Hb, wrap64_add_l.
  by rewrite Z.add_comm.
Qed.

Lemma eq64_wrap (a : Z) : eq64 (wrap64 a) a.
Proof. apply wrap64_id, wrap64_range. Qed.

Definition hitsAt (k : string) (m : gmap string RateLimitReq) : Z :=
  match m !! k with Some h => r_Hits h | None => 0 end.

(** Hits for [k] that were sent or are pending. *)
Definition accountedHits (k : string) (a : Aggregator) : Z :=
  fold_right Z.add 0 (hitsAt k <$> ag_sent a) + hitsAt k (ag_pending a).

(** Hits for [k] queued while the loop runs. *)
Fixpoint queuedHits (k : string) (evs : list globalEvent) : Z :=
  match evs with
  | [] => 0
  | GQueued r :: evs => (if String.eqb (HashKey r) k then r_Hits r else 0) + queuedHits k evs
  | GTick :: evs => queuedHits k evs
  | GDone :: _ => 0
  end.

Lemma aggregateHit_hits (k : string) (r : RateLimitReq) (m : gmap string RateLimitReq) :
  eq64 (hitsAt k (aggregateHit r m)) (hitsAt k m + if String.eqb (HashKey r) k then r_Hits r else 0).
Proof.
  unfold aggregateHit, hitsAt. destruct (String.eqb_spec (HashKey r) k) as [<-|Hne].
  - destruct (m !! HashKey r) as [h|] eqn:E; rewrite lookup_insert_eq; [|by rewrite Z.add_0_l].
    simpl. destruct (HasBehavior _ _); apply eq64_wrap.
  - rewrite Z.add_0_r. destruct (m !! HashKey r) as [h|] eqn:E; by rewrite lookup_insert_ne.
Qed.

Lemma sum_snoc (f : gmap string RateLimitReq -> Z) (l : list (gmap string RateLimitReq)) (m : gmap string RateLimitReq) :
  fold_right Z.add 0 (f <$> (l ++ [m])) = fold_right Z.add 0 (f <$> l) + f m.
Proof.
  induction l as [|x l IH]; [simpl; lia|]. cbn [app]. rewrite !fmap_cons. cbn [fold_right]. rewrite IH. lia.
Qed.

Lemma runAsyncHits_accounts (k : string) (limit : Z) (evs : list globalEvent) (a : Aggregator) :
  ag_running a = true ->
  eq64 (accountedHits k (fold_left (fun a ev => runAsyncHits limit ev a) evs a))
       (accountedHits k a + queuedHits k evs).
Proof.
  revert a. induction evs as [|ev evs IH]; intros a Hr; cbn [fold_left queuedHits]; [by rewrite Z.add_0_r|].
  destruct ev as [r| |].
  - rewrite IH by (unfold runAsyncHits; rewrite Hr; by destruct (_ =? _)).
    rewrite Z.add_assoc. apply eq64_add; [|done]. unfold runAsyncHits. rewrite Hr.
    destruct (_ =? _); unfold accountedHits; simpl.
    + rewrite sum_snoc. replace (hitsAt k ∅) with 0 by done. rewrite Z.add_0_r, <- Z.add_assoc.
      by rewrite (aggregateHit_hits k r).
    + by rewrite <- Z.add_assoc, (aggregateHit_hits k r).
  - rewrite IH by (unfold runAsyncHits; rewrite Hr; by destruct (Nat.eqb _ _)).
    apply eq64_add; [|done]. unfold runAsyncHits. rewrite Hr. destruct (Nat.eqb _ _); [done|].
    unfold accountedHits. simpl. rewrite sum_snoc. replace (hitsAt k ∅) with 0 by done. by rewrite Z.add_0_r.
  - assert (forall es a0, ag_running a0 = false -> fold_left (fun a ev => runAsyncHits limit ev a) es a0 = a0) as Hstop.
    { induction es as [|e es IHe]; intros a0 H0; cbn [fold_left]; [done|].
      unfold runAsyncHits at 2. rewrite H0. by apply IHe. }
    rewrite Hstop by (unfold runAsyncHits; by rewrite Hr). unfold runAsyncHits. rewrite Hr. by rewrite Z.add_0_r.
Qed.

(** Aggregation conserves hits: for every key, the hits in the requests sent to the
    owner plus those still pending are the hits queued, as 64-bit sums, whatever the
    order of hits, ticks and full batches. *)
Theorem global_hits_conserved (k : string) (limit : Z) (evs : list globalEvent) :
  eq64 (accountedHits k (fold_left (fun a ev => runAsyncHits limit ev a) evs newAggregator)) (queuedHits k evs).
Proof. rewrite (runAsyncHits_accounts k limit evs newAggregator eq_refl). done. Qed.

(** ** Every hit goes to the owner of its key *)

Section Send.
Context {Peer : Type} (addr : Peer -> string) (pick : string -> result Peer).

Definition hasOwner (r : RateLimitReq) : bool :=
  match pick (HashKey r) with Ok _ => true | Err _ => false end.

(** Every list holds requests owned by the peer at its address. *)
Definition assigned (m : gmap string (Peer * list RateLimitReq)) : Prop :=
  forall a client reqs, m !! a = Some (client, reqs) ->
    addr client = a /\ Forall (fun r => exists p, pick (HashKey r) = Ok p /\ addr p = a) reqs.

Definition allAssigned (m : gmap string (Peer * list RateLimitReq)) : list RateLimitReq :=
  concat ((fun kv => kv.2.2) <$> map_to_list m).

Lemma allAssigned_insert (m : gmap string (Peer * list RateLimitReq)) (a : string) (x : Peer * list RateLimitReq) :
  m !! a = None -> allAssigned (<[a := x]> m) ≡ₚ x.2 ++ allAssigned m.
Proof. intros Ha. unfold allAssigned. by rewrite map_to_list_insert. Qed.

Lemma assignHit_spec (m : gmap string (Peer * list RateLimitReq)) (r : RateLimitReq) : assigned m ->
  assigned (assignHit addr pick m r) /\
  allAssigned (assignHit addr pick m r) ≡ₚ allAssigned m ++ (if hasOwner r then [r] else []).
Proof.
  intros Hm. unfold assignHit, hasOwner. destruct (pick (HashKey r)) as [p|e] eqn:Hp; [|by rewrite app_nil_r].
  destruct (m !! addr p) as [[client reqs]|] eqn:E.
  - destruct (Hm _ _ _ E) as [Hc Hall]. split.
    + intros a c l. destruct (decide (addr p = a)) as [<-|Hne]; [|rewrite lookup_insert_ne by done; apply Hm].
      rewrite lookup_insert_eq. intros [= <- <-]. split; [done|]. apply Forall_app. split; [done|].
      constructor; [by exists p|done].
    + rewrite <- (insert_delete_id m _ _ E) at 2. rewrite <- (insert_delete_eq m), !allAssigned_insert by apply lookup_delete_eq.
      simpl. rewrite <- !app_assoc. apply Permutation_app_head, Permutation_app_comm.
  - split.
    + intros a c l. destruct (decide (addr p = a)) as [<-|Hne]; [|rewrite lookup_insert_ne by done; apply Hm].
      rewrite lookup_insert_eq. intros [= <- <-]. split; [done|]. constructor; [by exists p|done].
    + rewrite allAssigned_insert by done. simpl. by rewrite Permutation_cons_append.
Qed.

(** [sendHits] puts every aggregated request whose key has an owner into exactly one
    call, the one to that owner. *)
Theorem send_hits_to_owners (hits : gmap string RateLimitReq) :
  assigned (sendHits addr pick hits) /\
  allAssigned (sendHits addr pick hits) ≡ₚ filter (fun r => hasOwner r = true) (map_to_list hits).*2.
Proof.
  unfold sendHits. set (l := (map_to_list hits).*2). clearbody l.
  assert (forall m, assigned m -> assigned (fold_left (assignHit addr pick) l m) /\
    allAssigned (fold_left (assignHit addr pick) l m) ≡ₚ allAssigned m ++ filter (fun r => hasOwner r = true) l) as Hfold.
  { induction l as [|r l IH]; intros m Hm; cbn [fold_left]; [by rewrite filter_nil, app_nil_r|].
    destruct (assignHit_spec m r Hm) as [Hm' Hp]. destruct (IH _ Hm') as [Ha Hall]. split; [done|].
    rewrite Hall, Hp, filter_cons. destruct (hasOwner r); simpl; by rewrite <- ?app_assoc, ?app_nil_r. }
  destruct (Hfold ∅) as [Ha Hall]; [by intros a c l0; rewrite lookup_empty|].
  split; [done|]. rewrite Hall. unfold allAssigned. by rewrite map_to_list_empty.
Qed.
End Send.
