(* ===== verification/GlobalSpec.v ===== *)
(** * What GLOBAL limits promise

    The state of a token bucket travels unchanged from the owner to the other members:
    what [broadcastPeers] reads is what the owner would answer, and a member that
    installed it answers the same. *)

From stdpp Require Import base gmap strings list.
From Stdlib Require Import ZArith Lia.
From S2P Require Import Prelude Float64 Types GoTime LeakyMath Runtime LRUCache Store Demo TokenBucket TokenSpec LeakyBucket Workers WorkersSpec Global.

Local Open Scope Z_scope.

Section Replica.
Context `{Arch} `{Hash64} {C S : Type} `{CacheLaws C} `{StoreLaws S}.

Abbreviation P := (WorkerPool C S).

(** No reading of the clock is past [t]. *)
Definition clock_until (e : Env) (t : Z) : Prop :=
  forall n, epochMillis (mkTime (e_clock e n) (e_loc e)) <= t.

(** [k] has a worker. *)
Definition has_worker (po : P) (k : string) : Prop :=
  (workerIndex (po_hashRingStep po) k < length (po_workers po))%nat.

(** A token bucket [t] that expires at [expire], cached under [k] on its worker. *)
Definition token_at (po : P) (k : string) (p : Ptr) (expire : Z) (t : TokenBucketItem) : Prop :=
  exists it, at_key po k p it /\ it_Value it = VToken t /\ it_InvalidAt it = 0 /\ it_ExpireAt it = expire.

Lemma pool_ok_env (po : P) (e : Env) : pool_ok po -> env_ok e -> keys_kept (po_env po) e ->
  pool_ok (mkPool e (po_workers po) (po_store po) (po_hashRingStep po) (po_conf po)).
Proof.
  intros [He Hw Hs] He' Hk. constructor; simpl; [done| |by eapply store_wf_env].
  intros i c Hi. eapply c_wf_env; [by eapply Hw|done].
Qed.

(** Adding an item under its own key puts it there. *)
Lemma add_item_run (po : P) (k : string) (p : Ptr) (it : CacheItem) :
  pool_ok po -> has_worker po k -> e_heap (po_env po) !! p = Some it -> it_Key it = k ->
  exists po', runCommand (CAddCacheItem k p) po = Ret (RAdded, po') /\ pool_ok po' /\
    at_key po' k p it /\ env_quiet (po_env po) (po_env po') /\
    po_hashRingStep po' = po_hashRingStep po /\ length (po_workers po') = length (po_workers po).
Proof.
  intros Hok Hw Hp Hk. rewrite runCommand_worker by done. simpl cmdKey.
  destruct (lookup_lt_is_Some_2 _ _ Hw) as [c Hc].
  pose proof (workerWorld_ok po _ c Hok Hc) as Hwok.
  destruct (c_Add_ok (po_env po) c p it (wo_cache _ Hwok) Hp) as (b & e' & c' & Hr & Hq & Hwf & Hv & _).
  destruct (cache_call_step _ (workerWorld po c) _ _ _ Hwok Hr Hq Hwf) as (Hrun & Hok' & _).
  set (w' := mkWorld e' c' (po_store po)) in *.
  assert (exists e2, dispatch (pc_ScheduleMaxWait (po_conf po)) (CAddCacheItem k p) (workerWorld po c) =
    Ret (RAdded, mkWorld e2 c' (po_store po)) /\ env_quiet e' e2) as (e2 & Hdis & Hq2).
  { simpl. unfold handleAddCacheItem. rewrite (bind_ret_run _ _ _ _ _ Hrun).
    eexists. split; [reflexivity|apply counters_quiet]. }
  assert (env_quiet (po_env po) e2) as Hq12 by (by etransitivity).
  destruct (onWorker_run po _ c _ _ _ Hok Hc Hdis) as [Hon Hok2].
  { by apply (world_ok_quiet w'). }
  { by apply env_quiet_keys. }
  eexists. split; [exact Hon|]. split; [done|]. simpl. split; [|split; [done|]].
  - exists c'. simpl. rewrite list_lookup_insert_eq by (by eapply lookup_lt_Some).
    split; [done|]. split; [congruence|]. by rewrite (eq_heap _ _ Hq12).
  - split; [done|apply length_insert].
Qed.

(** Installing one update. *)
Lemma install_run (po : P) (g : UpdatePeerGlobal) : pool_ok po -> has_worker po (up_Key g) ->
  exists now p po', UpdatePeerGlobals (fun _ => None) [g] po = Ret (Ok tt, po') /\ pool_ok po' /\ has_worker po' (up_Key g) /\
    at_key po' (up_Key g) p (globalItem g now) /\
    now = epochMillis (mkTime (e_clock (po_env po) (e_tick (po_env po))) (e_loc (po_env po))) /\
    e_clock (po_env po') = e_clock (po_env po) /\ e_loc (po_env po') = e_loc (po_env po).
Proof.
  intros Hok Hw. set (e := po_env po) in *.
  set (now := epochMillis (mkTime (e_clock e (e_tick e)) (e_loc e))).
  set (e1 := with_tick (Datatypes.S (e_tick e)) e).
  set (it := globalItem g now). set (p := e_next e).
  set (e2 := mkEnv (<[p := it]> (e_heap e)) (Datatypes.S p) (e_clock e) (Datatypes.S (e_tick e)) (e_loc e)
               (e_counters e) (e_lost e)).
  assert (e_heap e !! p = None) as Hfresh by (by apply (pk_env _ Hok)).
  set (po2 := mkPool e2 (po_workers po) (po_store po) (po_hashRingStep po) (po_conf po)).
  assert (pool_ok po2) as Hok2.
  { apply pool_ok_env; [done| |].
    - intros q Hq. simpl in *. rewrite lookup_insert_ne by lia. apply (pk_env _ Hok). unfold p, e in Hq. lia.
    - intros q iq Hq. exists iq. split; [|done]. simpl. rewrite lookup_insert_ne; [done|].
      intros <-. fold e in Hq. congruence. }
  destruct (add_item_run po2 (up_Key g) p it Hok2 Hw) as (po' & Hr & Hok' & Hat & Hq & Hs & Hlen).
  { simpl. apply lookup_insert_eq. }
  { done. }
  exists now, p, po'. split.
  { unfold UpdatePeerGlobals, installGlobals.
    rewrite (bind_ret_run _ _ _ (mkPool e1 (po_workers po) (po_store po) (po_hashRingStep po) (po_conf po)) now) by done.
    rewrite (bind_ret_run _ _ _ po2 p) by done. unfold AddCacheItem, callPool.
    by rewrite !bind_assoc, (bind_ret_run _ _ _ _ _ Hr). }
  split; [done|]. split; [unfold has_worker; rewrite Hs, Hlen; exact Hw|]. split; [done|]. split; [done|].
  by rewrite (eq_clock _ _ Hq), (eq_loc _ _ Hq).
Qed.

(** A status query on its worker. *)
Lemma query_run (po : P) (r : RateLimitReq) (st : RateLimitReqState) (p : Ptr) (expire : Z) (t : TokenBucketItem) :
  pool_ok po -> token_at po (HashKey r) p expire t -> clock_until (po_env po) expire ->
  r_Algorithm r = TOKEN_BUCKET -> plain r -> r_Limit r = tb_Limit t -> r_Duration r = tb_Duration t ->
  r_Hits r = 0 ->
  exists po' rl, runCommand (CGetRateLimit r st) po = Ret (RRateLimit (Ok rl), po') /\ pool_ok po' /\
    rl_Limit rl = tb_Limit t /\ rl_Remaining rl = tb_Remaining t /\ rl_ResetTime rl = expire /\
    rl_Status rl = (if tb_Remaining t =? 0 then tb_Status t else UNDER_LIMIT).
Proof.
  intros Hok (it & Hat & Ht & Hinv & Hexp) Hclk Ha Hplain Hl Hd Hh.
  destruct (token_command_run po r st p it t Hok Hat Ht Hinv) as (po' & Hrun & Hok' & _);
    [by rewrite Hexp|done|done|done|done|].
  pose proof (decide_token_query t (tokenResp it t r) r Hh eq_refl eq_refl) as Hq.
  destruct (decide_token t (tokenResp it t r) r) as [t' rl]. simpl in Hrun.
  destruct Hq as (? & _ & El & Er & _ & _ & _ & ? & _). simpl in El, Er.
  exists po', rl. do 2 (split; [done|]). split; [congruence|]. split; [done|]. split; [congruence|done].
Qed.

(** The request a member asks the state of a limit with. *)
Definition asksFor (r u : RateLimitReq) : Prop :=
  HashKey r = HashKey u /\ r_Algorithm r = r_Algorithm u /\ plain r /\
  r_Limit r = r_Limit u /\ r_Duration r = r_Duration u /\ r_Hits r = 0.

(** Reading an update at the owner, installing it at a member, and asking there. *)
Lemma replica_run (po pr : P) (u r : RateLimitReq) (p : Ptr) (expire createdAt : Z) (t : TokenBucketItem)
    (Hok : pool_ok po) (Hat : token_at po (HashKey u) p expire t) (Hclk : clock_until (po_env po) expire)
    (Ha : r_Algorithm u = TOKEN_BUCKET) (Hcr : r_CreatedAt u = Some createdAt)
    (Hreset : HasBehavior (r_Behavior u) RESET_REMAINING = false)
    (Hl : r_Limit u = tb_Limit t) (Hd : r_Duration u = tb_Duration t)
    (Hokr : pool_ok pr) (Hw : has_worker pr (HashKey u)) (Hclkr : clock_until (po_env pr) expire)
    (Hr : asksFor r u) (st : RateLimitReqState) :
  exists g po' pr1 pr2 rl,
    broadcastPeers [u] po = Ret ([g], po') /\
    UpdatePeerGlobals (fun _ => None) [g] pr = Ret (Ok tt, pr1) /\
    runCommand (CGetRateLimit r st) pr1 = Ret (RRateLimit (Ok rl), pr2) /\
    rl_Limit rl = tb_Limit t /\ rl_Remaining rl = tb_Remaining t /\ rl_ResetTime rl = expire /\
    rl_Status rl = (if tb_Remaining t =? 0 then tb_Status t else UNDER_LIMIT).
Proof.
  destruct (query_run po (with_Hits 0 u) (mkReqState false 0) p expire t) as (po' & s & Hrun & _ & Es1 & Es2 & Es3 & Es4);
    try done.
  set (g := mkUpdate (HashKey u) s (r_Algorithm u) (r_Duration u) createdAt).
  assert (broadcastPeers [u] po = Ret ([g], po')) as Hb.
  { simpl. unfold readStatus, GetRateLimit, callPool. by rewrite !bind_assoc, (bind_ret_run _ _ _ _ _ Hrun), Hcr. }
  destruct (install_run pr g Hokr Hw) as (now & q & pr1 & Hi & Hok1 & _ & Hat1 & _ & Hc1 & Hloc1).
  destruct Hr as (Hk & Har & Hp & Hlr & Hdr & Hh).
  destruct (query_run pr1 r st q expire (mkToken (rl_Status s) (rl_Limit s) (r_Duration u) (rl_Remaining s) now))
    as (pr2 & rl & Hq & _ & E1 & E2 & E3 & E4); try done.
  { exists (globalItem g now). rewrite Hk. split; [done|]. unfold globalItem. simpl. rewrite Ha. by rewrite Es3. }
  { intros n. rewrite Hc1, Hloc1. apply Hclkr. }
  { congruence. }
  { simpl. congruence. }
  exists g, po', pr1, pr2, rl. simpl in *. do 3 (split; [done|]). rewrite E1, E2, E3, E4, Es1, Es2, Es4.
  do 3 (split; [done|]). by destruct (_ =? _).
Qed.

(** C17: What the owner broadcasts is what the other members answer. Take a token bucket
    live at its owner, a request [u] on it that the owner broadcasts for, and another
    member. After the broadcast is read at the owner and installed at the member, a
    status query there is answered with the limit, tokens, reset time and status the
    owner's bucket has. *)
Theorem global_replica_agrees (po pr : P) (u r : RateLimitReq) (p : Ptr) (expire createdAt : Z) (t : TokenBucketItem)
    (Hok : pool_ok po) (Hat : token_at po (HashKey u) p expire t) (Hclk : clock_until (po_env po) expire)
    (Ha : r_Algorithm u = TOKEN_BUCKET) (Hcr : r_CreatedAt u = Some createdAt)
    (Hreset : HasBehavior (r_Behavior u) RESET_REMAINING = false)
    (Hl : r_Limit u = tb_Limit t) (Hd : r_Duration u = tb_Duration t)
    (Hokr : pool_ok pr) (Hw : has_worker pr (HashKey u)) (Hclkr : clock_until (po_env pr) expire)
    (Hr : asksFor r u) (st : RateLimitReqState) :
  exists g po' pr1 pr2 rl,
    broadcastPeers [u] po = Ret ([g], po') /\
    UpdatePeerGlobals (fun _ => None) [g] pr = Ret (Ok tt, pr1) /\
    runCommand (CGetRateLimit r st) pr1 = Ret (RRateLimit (Ok rl), pr2) /\
    rl_Limit rl = tb_Limit t /\ rl_Remaining rl = tb_Remaining t /\ rl_ResetTime rl = expire /\
    rl_Status rl = (if tb_Remaining t =? 0 then tb_Status t else UNDER_LIMIT).
Proof. by eapply replica_run. Qed.
End Replica.

(** ** Examples *)

(** The owner of [tokenWorld]'s bucket, and a member that has not seen the key. *)
Lemma global_replica_agrees_witness : exists g po' pr1 pr2 rl,
  broadcastPeers (H := amd64) [demoReq TOKEN_BUCKET 4 2000] (demoPool tokenWorld) = Ret ([g], po') /\
  UpdatePeerGlobals (H := amd64) (fun _ => None) [g] (demoPool (demoWorld 2000 None)) = Ret (Ok tt, pr1) /\
  runCommand (H := amd64) (CGetRateLimit (demoReq TOKEN_BUCKET 0 3000) replica) pr1 = Ret (RRateLimit (Ok rl), pr2) /\
  rl_Remaining rl = 7.
Proof.
  destruct demo_window as (Hok & Hclk & it & t & Hat & Ht & Hinv & Hexp & Hl & Hd & Hr & _).
  destruct (global_replica_agrees (H := amd64) (demoPool tokenWorld) (demoPool (demoWorld 2000 None))
    (demoReq TOKEN_BUCKET 4 2000) (demoReq TOKEN_BUCKET 0 3000) 0%nat 61000 2000 t
    Hok (ex_intro _ it (conj Hat (conj Ht (conj Hinv Hexp)))) Hclk eq_refl eq_refl eq_refl
    (eq_sym Hl) (eq_sym Hd) (demoPool_ok _ (demoWorld_ok 2000)) (demo_has_worker _) ltac:(intros n; by vm_compute))
    with (st := replica)
    as (g & po' & pr1 & pr2 & rl & H1 & H2 & H3 & _ & H4 & _).
  { do 2 (split; [done|]). split; [apply demo_plain|done]. }
  exists g, po', pr1, pr2, rl. do 3 (split; [done|]). congruence.
Defined.

(** ** A reset is applied again by its own broadcast *)

Definition resetGlobal : RateLimitReq :=
  with_Behavior (Z.lor GLOBAL RESET_REMAINING) (demoReq LEAKY_BUCKET 10 1000).

(** An owner with a leaky bucket of which four tokens of ten are used. *)
Definition usedLeaky : WorkerPool LRUCache MockStore :=
  demoPool (after (leakyBucket (H := amd64) (demoReq LEAKY_BUCKET 4 1000) owner) (demoWorld 1000 None)).

(** The reset, its broadcast, and a query at the owner: what each reports as remaining. *)
Definition resetAndBroadcast : M (WorkerPool LRUCache MockStore) (option (Status * Z * Z * Z)) :=
  rep ← runCommand (H := amd64) (CGetRateLimit resetGlobal owner);
  gs ← broadcastPeers (H := amd64) [resetGlobal];
  later ← runCommand (H := amd64) (CGetRateLimit (demoReq LEAKY_BUCKET 0 1000) owner);
  mret (match rep, gs, later with
        | RRateLimit (Ok rl), [g], RRateLimit (Ok query) =>
            Some (rl_Status rl, rl_Remaining rl, rl_Remaining (up_Status g), rl_Remaining query)
        | _, _, _ => None
        end).

(** A GLOBAL leaky bucket request with RESET_REMAINING refills the bucket and takes
    its ten hits, which leaves none; the broadcast that follows reads the state with the
    same flag, so it refills the bucket again, and the ten hits are forgotten at the
    owner and never reach the other members. *)
Theorem broadcast_repeats_reset :
  (match resetAndBroadcast usedLeaky with Ret (o, _) => o | Panic _ => None end) = Some (UNDER_LIMIT, 0, 10, 10).
Proof. vm_compute. reflexivity. Qed.
