(* ===== verification/GlobalLoop.v ===== *)
(** * The loops of the global manager ([global.go], with the ticker of [interval.go])

    [runAsyncHits] and [runBroadcasts] as goroutines: a queue of bounded capacity, the
    loop, and the goroutine of its ticker, interleaved in any order.  While the manager
    is open whatever is queued is sent after a bounded number of steps; closing it can
    hang. *)

From stdpp Require Import base gmap strings list relations.
From Stdlib Require Import ZArith Lia.
From S2P Require Import Prelude Types Interval Global.

Local Open Scope Z_scope.

Import Ticker.

(** Where the goroutine of a loop is: at its [select], in [interval.Stop], or returned. *)
Inductive LoopAt : Type := AtSelect | InStop | Ended.

Record LoopSys : Type := mkLoopSys {
  ls_queue : list RateLimitReq;      (* the channel *)
  ls_agg : Aggregator;
  ls_ticker : Interval;
  ls_loop : LoopAt;
  ls_done : bool;                    (* [gm.wg] is being stopped *)
  ls_given : list RateLimitReq       (* everything ever queued *)
}.

(** A loop as [newGlobalManager] starts it. *)
Definition startLoop : LoopSys := mkLoopSys [] newAggregator NewInterval AtSelect false [].

Section Loop.
(** One round of the loop, what a request becomes on the queue, and the capacity. *)
Variables (round : globalEvent -> Aggregator -> Aggregator) (enqueue : RateLimitReq -> option RateLimitReq) (cap : nat).

(** [interval.Next] when the round called it. *)
Definition nextIf (a a' : Aggregator) (t : Interval) : Interval :=
  if Nat.eqb (ag_nexts a') (ag_nexts a) then t else Next t.

(** What callers do: queue a request when the channel has room, close the manager. *)
Inductive out_step : LoopSys -> LoopSys -> Prop :=
  | out_queue r r' q a t lp d given : enqueue r = Some r' -> (length q < cap)%nat ->
      out_step (mkLoopSys q a t lp d given) (mkLoopSys (q ++ [r']) a t lp d (given ++ [r']))
  | out_close q a t lp d given :
      out_step (mkLoopSys q a t lp d given) (mkLoopSys q a t lp true given).

(** What the goroutines of loop and ticker do. *)
Inductive loop_step : LoopSys -> LoopSys -> Prop :=
  | loop_queued r q a t d given :
      loop_step (mkLoopSys (r :: q) a t AtSelect d given)
                (mkLoopSys q (round (GQueued r) a) (nextIf a (round (GQueued r) a) t) AtSelect d given)
  | loop_tick q a t t' d given : step t Receive = Some t' ->
      loop_step (mkLoopSys q a t AtSelect d given) (mkLoopSys q (round GTick a) t' AtSelect d given)
  | loop_done q a t given :
      loop_step (mkLoopSys q a t AtSelect true given) (mkLoopSys q (round GDone a) (Stop t) InStop true given)
  | loop_stopped q a t d given : iv_phase t = Stopped ->
      loop_step (mkLoopSys q a t InStop d given) (mkLoopSys q a t Ended d given)
  | loop_ticker ev q a t t' lp d given : ev = Begin \/ ev = Tick \/ ev = Quit -> step t ev = Some t' ->
      loop_step (mkLoopSys q a t lp d given) (mkLoopSys q a t' lp d given).

Definition any_step (s s' : LoopSys) : Prop := out_step s s' \/ loop_step s s'.

Definition loop_reachable : LoopSys -> Prop := rtc any_step startLoop.

(** What a round promises: it keeps running until done, a tick sends everything, and
    when a request makes the pending map non-empty the ticker is asked for a tick. *)
Class Rounds : Prop := {
  round_running : forall ev a, ag_running a = true -> ev <> GDone -> ag_running (round ev a) = true;
  round_tick : forall a, ag_running a = true -> ag_pending (round GTick a) = ∅ /\ ag_nexts (round GTick a) = ag_nexts a;
  round_armed : forall r a, ag_running a = true -> ag_pending (round (GQueued r) a) <> ∅ ->
    ag_pending a <> ∅ \/ ag_nexts (round (GQueued r) a) <> ag_nexts a
}.

Context `{Rounds}.

(** A tick is on its way: asked for, being slept for, or waiting to be read. *)
Definition armed (t : Interval) : Prop := iv_in t = true \/ iv_phase t = Sleeping \/ iv_C t = true.

Record loop_ok (s : LoopSys) : Prop := {
  lk_running : ls_loop s = AtSelect -> ag_running (ls_agg s) = true;
  lk_armed : ls_loop s = AtSelect -> ag_pending (ls_agg s) <> ∅ -> armed (ls_ticker s);
  lk_ticker : ls_loop s = AtSelect -> iv_done (ls_ticker s) = false /\ iv_phase (ls_ticker s) <> Stopped
}.

Lemma armed_step (t t' : Interval) (ev : event) : ev = Begin \/ ev = Tick \/ ev = Quit -> step t ev = Some t' ->
  iv_done t = false -> iv_phase t <> Stopped ->
  iv_done t' = false /\ iv_phase t' <> Stopped /\ (armed t -> armed t').
Proof.
  destruct t as [i c ph dn]. unfold armed. intros [->|[->| ->]] Hs Hd Hp; simpl in *; subst dn;
    destruct i, c, ph; simplify_eq/=; split; try done; (split; [done|]); auto.
Qed.

Lemma loop_step_ok (s s' : LoopSys) : any_step s s' -> loop_ok s -> loop_ok s'.
Proof.
  intros [Hstep|Hstep] [Hrun Harm Htk].
  - destruct Hstep; constructor; simpl in *; auto.
  - destruct Hstep as [r q a t d given|q a t t' d given Ht|q a t given|q a t d given Hp|ev q a t t' lp d given Hev Ht];
      constructor; simpl in *; try done; try specialize (Hrun eq_refl); try specialize (Harm eq_refl);
      try specialize (Htk eq_refl).
    + intros _. by apply round_running.
    + intros _ Hne. unfold nextIf. destruct (Nat.eqb_spec (ag_nexts (round (GQueued r) a)) (ag_nexts a)) as [Heq|Hneq]; [|by left].
      apply Harm. by destruct (round_armed r a Hrun Hne).
    + intros _. unfold nextIf. destruct (Nat.eqb _ _); [done|]. by destruct t.
    + intros _. by apply round_running.
    + intros _ Hne. by destruct (round_tick a Hrun) as [? _].
    + intros _. destruct t as [i c ph dn], c; simplify_eq/=; done.
    + intros -> Hne. destruct (Htk eq_refl) as [Hd Hp]. destruct (armed_step t t' ev Hev Ht Hd Hp) as (_ & _ & Ha). auto.
    + intros ->. destruct (Htk eq_refl) as [Hd Hp]. by destruct (armed_step t t' ev Hev Ht Hd Hp) as (? & ? & _).
Qed.

Lemma reachable_ok (s : LoopSys) : loop_reachable s -> loop_ok s.
Proof.
  intros Hr. assert (loop_ok startLoop) as H0 by (constructor; done).
  by apply (rtc_invariant any_step loop_ok startLoop); [apply loop_step_ok|..].
Qed.

(** ** Everything queued is sent *)

Definition tickerWork (t : Interval) : nat :=
  ((if iv_in t then 3 else 0) + match iv_phase t with Sleeping => 2 | _ => 0 end + (if iv_C t then 1 else 0))%nat.

(** A bound on the steps of the goroutines while the manager is open. *)
Definition loopWork (s : LoopSys) : nat := (4 * length (ls_queue s) + tickerWork (ls_ticker s))%nat.

Lemma open_step_work (s s' : LoopSys) : loop_step s s' -> loop_ok s -> ls_loop s = AtSelect -> ls_done s = false ->
  (loopWork s' < loopWork s)%nat /\ ls_loop s' = AtSelect /\ ls_done s' = false.
Proof.
  intros Hstep [_ _ Htk] Hlp Hd. specialize (Htk Hlp).
  destruct Hstep as [r q a t d given|q a t t' d given Ht|q a t given|q a t d given Hp|ev q a t t' lp d given Hev Ht];
    unfold loopWork, tickerWork in *; simpl in *; try done.
  - split; [|done]. unfold nextIf. destruct (Nat.eqb _ _); [lia|]. destruct t as [[] [] []]; simpl; lia.
  - split; [|done]. destruct t as [i c ph dn], c; simplify_eq/=. lia.
  - split; [|done]. destruct Htk as [Hdn Hph]. destruct t as [i c ph dn]. simpl in *. subst dn.
    destruct Hev as [->|[->| ->]], i, c, ph; simplify_eq/=; lia.
Qed.

Lemma open_progress (s : LoopSys) : loop_ok s -> ls_loop s = AtSelect -> ls_done s = false ->
  (exists s', loop_step s s') \/ ls_queue s = [] /\ ag_pending (ls_agg s) = ∅.
Proof.
  destruct s as [q a t lp d given]. intros [_ Harm Htk] Hlp Hd. simpl in *. subst lp d. destruct (Htk eq_refl) as [Hdn Hph].
  destruct q as [|r q]; [|left; eexists; apply loop_queued].
  destruct (decide (ag_pending a = ∅)) as [He|Hne]; [by right|left]. specialize (Harm eq_refl Hne).
  destruct t as [i c ph dn]. unfold armed in Harm. simpl in *. destruct c.
  { eexists. eapply loop_tick. reflexivity. }
  destruct ph; [|eexists; eapply (loop_ticker Tick); [auto|reflexivity]|done].
  destruct Harm as [->|[?|?]]; try done. eexists. eapply (loop_ticker Begin); [auto|reflexivity].
Qed.

Lemma loop_drains (s s' : LoopSys) (n : nat) : loop_reachable s -> ls_loop s = AtSelect -> ls_done s = false ->
  nsteps loop_step n s s' ->
  (n <= loopWork s)%nat /\
  ((exists s'', loop_step s' s'') \/ ls_queue s' = [] /\ ag_pending (ls_agg s') = ∅).
Proof.
  intros Hr Hlp Hd Hsteps.
  destruct (nsteps_bounded loop_step (fun s => loop_ok s /\ ls_loop s = AtSelect /\ ls_done s = false) loopWork n s s')
    as [(Hok & ? & ?) Hn]; [|by split; [apply reachable_ok|]|done|split; [lia|by apply open_progress]].
  intros x y Hxy (Hx & Hl & Hdx). destruct (open_step_work x y Hxy Hx Hl Hdx) as (? & ? & ?).
  split; [|done]. split; [|done]. by apply (loop_step_ok x); [right|].
Qed.
End Loop.

#[global] Instance runAsyncHits_rounds (limit : Z) : Rounds (runAsyncHits limit).
Proof.
  constructor; unfold runAsyncHits.
  - intros ev a Ha Hev. rewrite Ha. destruct ev; [by destruct (_ =? _)|by destruct (Nat.eqb _ _)|done].
  - intros a Ha. rewrite Ha. destruct (Nat.eqb_spec (size (ag_pending a)) 0) as [Hz|]; [|done].
    split; [by apply map_size_empty_inv|done].
  - intros r a Ha. rewrite Ha. destruct (_ =? _); simpl; [done|]. intros _.
    destruct (decide (ag_pending a = ∅)) as [He|]; [right|by left].
    rewrite He. unfold aggregateHit. rewrite lookup_empty, map_size_insert_None, map_size_empty by done. simpl. lia.
Qed.

#[global] Instance runBroadcasts_rounds (limit : Z) : Rounds (runBroadcasts limit).
Proof.
  constructor; unfold runBroadcasts.
  - intros ev a Ha Hev. rewrite Ha. destruct ev; [by destruct (_ <=? _)|by destruct (Nat.eqb _ _)|done].
  - intros a Ha. rewrite Ha. destruct (Nat.eqb_spec (size (ag_pending a)) 0) as [Hz|]; [|done].
    split; [by apply map_size_empty_inv|done].
  - intros r a Ha. rewrite Ha. destruct (_ <=? _); simpl; [done|]. intros _.
    destruct (decide (ag_pending a = ∅)) as [He|]; [right|by left].
    rewrite He, map_size_insert_None, map_size_empty by done. simpl. lia.
Qed.

(** ** Hits *)

Definition givenHits (k : string) (l : list RateLimitReq) : Z :=
  fold_right Z.add 0 ((fun r => if String.eqb (HashKey r) k then r_Hits r else 0) <$> l).

Lemma givenHits_app (k : string) (l1 l2 : list RateLimitReq) : givenHits k (l1 ++ l2) = givenHits k l1 + givenHits k l2.
Proof.
  unfold givenHits. induction l1 as [|r l1 IH]; [done|]. cbn [app]. rewrite !fmap_cons. cbn [fold_right]. rewrite IH. lia.
Qed.

(** The hits loop with its queue and capacity. *)
Definition hitsLoop (limit : Z) : LoopSys -> Prop := loop_reachable (runAsyncHits limit) QueueHit (Z.to_nat limit).

Definition hitsConserved (k : string) (s : LoopSys) : Prop :=
  eq64 (accountedHits k (ls_agg s) + givenHits k (ls_queue s)) (givenHits k (ls_given s)).

Lemma round_accounts (k : string) (limit : Z) (ev : globalEvent) (a : Aggregator) : ag_running a = true ->
  eq64 (accountedHits k (runAsyncHits limit ev a)) (accountedHits k a + queuedHits k [ev]).
Proof. intros Ha. exact (runAsyncHits_accounts k limit [ev] a Ha). Qed.

Lemma hits_step_conserved (k : string) (limit : Z) (s s' : LoopSys) :
  any_step (runAsyncHits limit) QueueHit (Z.to_nat limit) s s' -> loop_ok s -> hitsConserved k s -> hitsConserved k s'.
Proof.
  intros [Hstep|Hstep] [Hrun _ _] Hc; unfold hitsConserved in *.
  - destruct Hstep; simpl in *; [|done]. rewrite !givenHits_app, Z.add_assoc. by rewrite Hc.
  - destruct Hstep; simpl in *; try done; rewrite round_accounts by (by apply Hrun); simpl queuedHits; rewrite ?Z.add_0_r.
    + rewrite <- Hc. unfold givenHits. rewrite fmap_cons. cbn [fold_right]. by rewrite Z.add_assoc.
    + exact Hc.
    + exact Hc.
Qed.

Lemma hits_conserved (k : string) (limit : Z) (s : LoopSys) : hitsLoop limit s -> hitsConserved k s.
Proof.
  intros Hr. assert (loop_ok startLoop /\ hitsConserved k startLoop) as H0 by (split; [constructor; done|done]).
  apply (rtc_invariant (any_step (runAsyncHits limit) QueueHit (Z.to_nat limit)) (fun s => loop_ok s /\ hitsConserved k s) startLoop);
    [|done|done]. intros x y Hxy [Hx Hcx]. split; [exact (loop_step_ok _ _ _ _ _ Hxy Hx)|by eapply hits_step_conserved].
Qed.

(** C16: Every hit reaches the owner's batch.  In any interleaving of callers, of the loop
    of [runAsyncHits] and of its ticker, a manager that is open and left to itself sends
    within [loopWork] steps everything that was queued: when no goroutine can move, the
    requests sent carry for every key the hits queued for it, as 64-bit sums. *)
Theorem global_hits_sent (limit : Z) (s s' : LoopSys) (n : nat) (Hreach : hitsLoop limit s)
    (Hloop : ls_loop s = AtSelect) (Hopen : ls_done s = false) (Hsteps : nsteps (loop_step (runAsyncHits limit)) n s s') :
  (n <= loopWork s)%nat /\
  ((exists s'', loop_step (runAsyncHits limit) s' s'') \/
   forall k, eq64 (fold_right Z.add 0 (hitsAt k <$> ag_sent (ls_agg s'))) (givenHits k (ls_given s'))).
Proof.
  destruct (loop_drains (runAsyncHits limit) QueueHit (Z.to_nat limit) s s' n Hreach Hloop Hopen Hsteps) as [Hn [Hs|[Hq Hp]]].
  { split; [done|by left]. }
  split; [done|right]. intros k. assert (hitsLoop limit s') as Hr'.
  { unfold hitsLoop, loop_reachable in *. etransitivity; [exact Hreach|].
    eapply (rtc_subrel (loop_step (runAsyncHits limit))); [by right|]. eapply rtc_nsteps. eauto. }
  pose proof (hits_conserved k limit s' Hr') as Hc. unfold hitsConserved, accountedHits in Hc. rewrite Hq, Hp in Hc.
  replace (hitsAt k ∅) with 0 in Hc by done. replace (givenHits k []) with 0 in Hc by done. by rewrite !Z.add_0_r in Hc.
Qed.

(** ** Updates *)

(** The last request for a key, in a list and in the maps sent. *)
Definition lastGiven (k : string) (l : list RateLimitReq) : option RateLimitReq :=
  last (filter (fun r => HashKey r = k) l).

Definition lastSent (k : string) (ms : list (gmap string RateLimitReq)) : option RateLimitReq :=
  last (omap (fun m : gmap string RateLimitReq => m !! k) ms).

Definition orElse {A} (o o' : option A) : option A := match o with Some a => Some a | None => o' end.

(** The update of [k] that counts: queued, else pending, else sent. *)
Definition latest (k : string) (s : LoopSys) : option RateLimitReq :=
  orElse (lastGiven k (ls_queue s)) (orElse (ag_pending (ls_agg s) !! k) (lastSent k (ag_sent (ls_agg s)))).

Definition updatesLoop (limit : Z) : LoopSys -> Prop := loop_reachable (runBroadcasts limit) QueueUpdate (Z.to_nat limit).

Lemma last_orElse {A} (l1 l2 : list A) : last (l1 ++ l2) = orElse (last l2) (last l1).
Proof. rewrite last_app. by destruct (last l2). Qed.

Lemma lastGiven_app (k : string) (l1 l2 : list RateLimitReq) :
  lastGiven k (l1 ++ l2) = orElse (lastGiven k l2) (lastGiven k l1).
Proof. unfold lastGiven. by rewrite filter_app, last_orElse. Qed.

Lemma lastSent_snoc (k : string) (ms : list (gmap string RateLimitReq)) (m : gmap string RateLimitReq) :
  lastSent k (ms ++ [m]) = orElse (m !! k) (lastSent k ms).
Proof. unfold lastSent. rewrite omap_app, last_orElse. simpl. by destruct (m !! k). Qed.

(** What a round does to the update of a key that counts. *)
Lemma broadcast_round (k : string) (limit : Z) (ev : globalEvent) (a : Aggregator) : ag_running a = true ->
  let a' := runBroadcasts limit ev a in
  orElse (ag_pending a' !! k) (lastSent k (ag_sent a')) =
  orElse (match ev with GQueued r => if decide (HashKey r = k) then Some r else None | _ => None end)
    (orElse (ag_pending a !! k) (lastSent k (ag_sent a))).
Proof.
  intros Ha. unfold runBroadcasts. rewrite Ha. destruct ev as [r| |]; simpl.
  - assert (orElse (<[HashKey r:=r]> (ag_pending a) !! k) (lastSent k (ag_sent a)) =
      orElse (if decide (HashKey r = k) then Some r else None) (orElse (ag_pending a !! k) (lastSent k (ag_sent a)))) as Hm.
    { destruct (decide (HashKey r = k)) as [<-|Hne]; [by rewrite lookup_insert_eq|by rewrite lookup_insert_ne]. }
    destruct (_ <=? _); simpl; [by rewrite lastSent_snoc, lookup_empty|done].
  - destruct (Nat.eqb _ _); [done|]. simpl. by rewrite lastSent_snoc, lookup_empty.
  - done.
Qed.

Lemma latest_step (k : string) (limit : Z) (s s' : LoopSys) :
  any_step (runBroadcasts limit) QueueUpdate (Z.to_nat limit) s s' -> loop_ok s ->
  latest k s = lastGiven k (ls_given s) -> latest k s' = lastGiven k (ls_given s').
Proof.
  intros [Hstep|Hstep] [Hrun _ _] Hc; unfold latest in *.
  - destruct Hstep; simpl in *; [|done]. rewrite !lastGiven_app, <- Hc. by destruct (lastGiven k [r']).
  - destruct Hstep; simpl in *; try done; rewrite broadcast_round by (by apply Hrun); rewrite <- Hc; simpl; try done.
    change (r :: q) with ([r] ++ q). rewrite lastGiven_app. destruct (lastGiven k q) as [x|]; [done|]. simpl.
    unfold lastGiven. rewrite filter_cons, filter_nil. by destruct (decide (HashKey r = k)).
Qed.

(** C33: The others learn the last update of every key.  A manager that is open and left to
    itself broadcasts within [loopWork] steps everything that was queued: when no
    goroutine can move, the last broadcast that has a key carries the last update queued
    for it. *)
Theorem global_updates_sent (limit : Z) (s s' : LoopSys) (n : nat) (Hreach : updatesLoop limit s)
    (Hloop : ls_loop s = AtSelect) (Hopen : ls_done s = false) (Hsteps : nsteps (loop_step (runBroadcasts limit)) n s s') :
  (n <= loopWork s)%nat /\
  ((exists s'', loop_step (runBroadcasts limit) s' s'') \/
   forall k, lastSent k (ag_sent (ls_agg s')) = lastGiven k (ls_given s')).
Proof.
  destruct (loop_drains (runBroadcasts limit) QueueUpdate (Z.to_nat limit) s s' n Hreach Hloop Hopen Hsteps) as [Hn [Hs|[Hq Hp]]].
  { split; [done|by left]. }
  split; [done|right]. intros k. assert (updatesLoop limit s') as Hr'.
  { unfold updatesLoop, loop_reachable in *. etransitivity; [exact Hreach|].
    eapply (rtc_subrel (loop_step (runBroadcasts limit))); [by right|]. eapply rtc_nsteps. eauto. }
  assert (latest k s' = lastGiven k (ls_given s')) as <-; [|unfold latest; by rewrite Hq, Hp, lookup_empty].
  assert (loop_ok startLoop /\ latest k startLoop = lastGiven k (ls_given startLoop)) as H0 by (split; [constructor; done|done]).
  apply (rtc_invariant (any_step (runBroadcasts limit) QueueUpdate (Z.to_nat limit))
    (fun s => loop_ok s /\ latest k s = lastGiven k (ls_given s)) startLoop); [|done|done].
  intros x y Hxy [Hx Hcx]. split; [exact (loop_step_ok _ _ _ _ _ Hxy Hx)|by eapply latest_step].
Qed.

(** ** Closing the manager *)

(** One more hit of the key that is pending asks for one more tick. *)
Lemma repeated_hit (limit : Z) (r : RateLimitReq) (a : Aggregator) : 1 < limit -> ag_running a = true ->
  ag_pending a = ∅ \/ (exists h, ag_pending a = {[HashKey r := h]}) ->
  let a' := runAsyncHits limit (GQueued r) a in
  ag_running a' = true /\ ag_nexts a' = S (ag_nexts a) /\ exists h, ag_pending a' = {[HashKey r := h]}.
Proof.
  intros Hl Ha Hp. assert (exists h, aggregateHit r (ag_pending a) = {[HashKey r := h]}) as [h Hh].
  { unfold aggregateHit. destruct Hp as [->|[h ->]]; [eexists; by rewrite lookup_empty|].
    rewrite lookup_singleton_eq, insert_singleton_eq. eauto. }
  unfold runAsyncHits. rewrite Ha, Hh, map_size_singleton. change (Z.of_nat 1) with 1.
  destruct (Z.eqb_spec 1 limit); [lia|]. simpl. eauto.
Qed.

(** The loop waits in [interval.Stop] for a ticker that waits for the loop. *)
Definition stuck (s : LoopSys) : Prop :=
  ls_loop s = InStop /\ iv_phase (ls_ticker s) = Sleeping /\ iv_C (ls_ticker s) = true.

Lemma stuck_forever (round : globalEvent -> Aggregator -> Aggregator) (enqueue : RateLimitReq -> option RateLimitReq)
    (cap : nat) (s s' : LoopSys) : stuck s -> rtc (any_step round enqueue cap) s s' -> stuck s'.
Proof.
  intros Hs Hr. induction Hr as [|s1 s2 s3 Hstep _ IH]; [done|]. apply IH. clear IH.
  destruct Hs as (Hl & Hp & Hc). unfold stuck. destruct Hstep as [Ho|Hi].
  - destruct Ho; simpl in *; auto.
  - destruct Hi as [| | |q a t d given Ht|ev q a t t' lp d given Hev Ht]; simpl in *; try done; [congruence|].
    destruct t as [i c ph dn]. simpl in *. subst. by destruct Hev as [->|[->| ->]], i; simplify_eq/=.
Qed.

(** C40: Closing the manager can hang.  Two hits of one key are enough: the second asks for
    a tick while the first is on its way, and a loop that is told to stop when one tick is
    unread and the next is due waits in [interval.Stop] for the ticker's goroutine, which
    waits for the loop to read [interval.C]; whatever happens afterwards the loop stays
    there, so [globalManager.Close] does not return. *)
Theorem global_close_hangs (limit : Z) (r : RateLimitReq) (Hlimit : 1 < limit) (Hhits : r_Hits r <> 0) :
  exists s, hitsLoop limit s /\ ls_given s = [r; r] /\ ls_done s = true /\
    forall s', rtc (any_step (runAsyncHits limit) QueueHit (Z.to_nat limit)) s s' -> ls_loop s' = InStop.
Proof.
  set (a1 := runAsyncHits limit (GQueued r) newAggregator). set (a2 := runAsyncHits limit (GQueued r) a1).
  destruct (repeated_hit limit r newAggregator Hlimit eq_refl (or_introl eq_refl)) as (R1 & N1 & P1). fold a1 in R1, N1, P1.
  destruct (repeated_hit limit r a1 Hlimit R1 (or_intror P1)) as (_ & N2 & _). fold a2 in N2.
  assert (QueueHit r = Some r) as Hq by (unfold QueueHit; by destruct (Z.eqb_spec (r_Hits r) 0)).
  assert (forall a a' t, ag_nexts a' = S (ag_nexts a) -> nextIf a a' t = Next t) as Hnext.
  { intros a a' t Hn. unfold nextIf. destruct (Nat.eqb_spec (ag_nexts a') (ag_nexts a)); [lia|done]. }
  exists (mkLoopSys [] (runAsyncHits limit GDone a2) (mkInterval false true Sleeping true) InStop true [r; r]).
  split; [|split; [done|split; [done|]]].
  - assert (forall q a t lp d given, (length q < Z.to_nat limit)%nat ->
      any_step (runAsyncHits limit) QueueHit (Z.to_nat limit) (mkLoopSys q a t lp d given) (mkLoopSys (q ++ [r]) a t lp d (given ++ [r])))
      as Hout by (intros; left; by apply out_queue with (r := r)).
    unfold hitsLoop, loop_reachable, startLoop.
    eapply rtc_l; [apply Hout; simpl; lia|]. eapply rtc_l; [right; apply loop_queued|]. fold a1.
    rewrite (Hnext newAggregator a1) by exact N1.
    eapply rtc_l; [right; apply loop_ticker with (ev := Begin); [auto|reflexivity]|].
    eapply rtc_l; [apply Hout; simpl; lia|]. eapply rtc_l; [right; apply loop_queued|]. fold a2. rewrite (Hnext a1 a2) by exact N2.
    eapply rtc_l; [right; apply loop_ticker with (ev := Tick); [auto|reflexivity]|].
    eapply rtc_l; [right; apply loop_ticker with (ev := Begin); [auto|reflexivity]|].
    eapply rtc_l; [left; apply out_close|]. eapply rtc_l; [right; apply loop_done|]. apply rtc_refl.
  - intros s' Hs'. assert (stuck s') as [? _]; [|done]. by eapply stuck_forever; [|exact Hs'].
Qed.

(** Ticks on their way to the loop. *)
Definition outstanding (t : Interval) : nat := (bit (iv_in t) + sleeping t + bit (iv_C t))%nat.

Definition closeWork (s : LoopSys) : nat :=
  ((if iv_in (ls_ticker s) then 2 else 0) +
   match iv_phase (ls_ticker s) with Ready => 1 | Sleeping => 2 | Stopped => 0 end +
   match ls_loop s with Ended => 0 | _ => 1 end)%nat.

Record closing (s : LoopSys) : Prop := {
  cl_loop : ls_loop s <> AtSelect;
  cl_done : iv_done (ls_ticker s) = true;
  cl_room : (outstanding (ls_ticker s) <= 1)%nat
}.

Lemma closing_step (round : globalEvent -> Aggregator -> Aggregator) (s s' : LoopSys) : loop_step round s s' ->
  closing s -> closing s' /\ (closeWork s' < closeWork s)%nat.
Proof.
  intros Hstep [Hl Hd Hr]. unfold closeWork, outstanding in *.
  destruct Hstep as [| | |q a t d given Ht|ev q a t t' lp d given Hev Ht]; simpl in *; try done.
  - split; [|rewrite Ht; lia]. by constructor.
  - destruct t as [i c ph dn]. simpl in *. subst. destruct Hev as [->|[->| ->]], i, c, ph; unfold outstanding, sleeping, bit in *;
      simplify_eq/=; split; try lia; constructor; unfold outstanding, sleeping, bit; simpl; auto; lia.
Qed.

(** A loop that left its [select] has told the ticker to stop. *)
Lemma left_stops (round : globalEvent -> Aggregator -> Aggregator) (enqueue : RateLimitReq -> option RateLimitReq)
    (cap : nat) (s : LoopSys) : loop_reachable round enqueue cap s -> ls_loop s <> AtSelect -> iv_done (ls_ticker s) = true.
Proof.
  unfold loop_reachable. intros Hr. assert (ls_loop startLoop <> AtSelect -> iv_done (ls_ticker startLoop) = true) as Hs by done.
  revert Hs. induction Hr as [|s1 s2 s3 Hstep _ IH]; [done|]. intros Hs. apply IH. clear IH. destruct Hstep as [Ho|Hi].
  - by destruct Ho.
  - destruct Hi as [| | |q a t d given Ht|ev q a t t' lp d given Hev Ht]; simpl in *; try done; [intros _; by apply Hs|].
    intros Hl. specialize (Hs Hl). destruct t as [i c ph dn]. simpl in *. subst. by destruct Hev as [->|[->| ->]], i, c, ph; simplify_eq/=.
Qed.

(** Closing ends when no more than one tick is on its way: the loop leaves
    [interval.Stop] and returns after at most four steps of the two goroutines, and until
    it has returned one of them can move. *)
Theorem global_close_ends (limit : Z) (s s' : LoopSys) (n : nat) (Hreach : hitsLoop limit s) (Hstop : ls_loop s = InStop)
    (Hroom : (outstanding (ls_ticker s) <= 1)%nat) (Hsteps : nsteps (loop_step (runAsyncHits limit)) n s s') :
  (n <= 4)%nat /\ ((exists s'', loop_step (runAsyncHits limit) s' s'') \/ ls_loop s' = Ended).
Proof.
  assert (closing s) as Hc.
  { constructor; [by rewrite Hstop| |done]. eapply left_stops; [exact Hreach|by rewrite Hstop]. }
  assert (closeWork s <= 4)%nat as Hw.
  { unfold closeWork, outstanding, sleeping, bit in *. rewrite Hstop. destruct (iv_in _), (iv_phase _); lia. }
  destruct (nsteps_bounded (loop_step (runAsyncHits limit)) closing closeWork n s s') as [Hc' Hn]; [apply closing_step|done|done|].
  split; [lia|]. destruct Hc' as [Hl Hd Hr], s' as [q a [i c ph dn] lp d given]. unfold outstanding, sleeping, bit in Hr. simpl in *.
  subst dn. destruct lp; [done|left|by right]. destruct ph.
  - eexists. apply loop_ticker with (ev := Quit); [auto|reflexivity].
  - destruct c; [destruct i; lia|]. eexists. apply loop_ticker with (ev := Tick); [auto|reflexivity].
  - eexists. by apply loop_stopped.
Qed.

(** ** The manager *)

(** How far [Close] is: not called, waiting in [gm.wg.Stop], shutting the peers down. *)
Inductive ManagerAt : Type := Open | Stopping | ShuttingDown.

Record Manager (Peer : Type) : Type := mkManager {
  gm_hits : LoopSys;
  gm_updates : LoopSys;
  gm_at : ManagerAt;
  gm_peers : list Peer;             (* what [GetPeerList] returns *)
  gm_down : list Peer               (* those [Shutdown] was called on *)
}.
Arguments mkManager {Peer}.
Arguments gm_hits {Peer}.
Arguments gm_updates {Peer}.
Arguments gm_at {Peer}.
Arguments gm_peers {Peer}.
Arguments gm_down {Peer}.

Definition closeLoop (s : LoopSys) : LoopSys :=
  mkLoopSys (ls_queue s) (ls_agg s) (ls_ticker s) (ls_loop s) true (ls_given s).

Section Manager.
Context {Peer : Type}.
Variable limit : Z.

Definition newGlobalManager (peers : list Peer) : Manager Peer := mkManager startLoop startLoop Open peers [].

(** One step of a loop that is not the closing of the manager. *)
Definition own_step (round : globalEvent -> Aggregator -> Aggregator) (enqueue : RateLimitReq -> option RateLimitReq)
    (s s' : LoopSys) : Prop :=
  any_step round enqueue (Z.to_nat limit) s s' /\ ls_done s' = ls_done s.

Inductive manager_step : Manager Peer -> Manager Peer -> Prop :=
  | m_hits h h' u at_ ps down : own_step (runAsyncHits limit) QueueHit h h' ->
      manager_step (mkManager h u at_ ps down) (mkManager h' u at_ ps down)
  | m_updates h u u' at_ ps down : own_step (runBroadcasts limit) QueueUpdate u u' ->
      manager_step (mkManager h u at_ ps down) (mkManager h u' at_ ps down)
  | m_close h u ps down :
      manager_step (mkManager h u Open ps down) (mkManager (closeLoop h) (closeLoop u) Stopping ps down)
  | m_stopped h u ps down : ls_loop h = Ended -> ls_loop u = Ended ->
      manager_step (mkManager h u Stopping ps down) (mkManager h u ShuttingDown ps down)
  | m_shutdown h u ps down peer rest : ps = down ++ peer :: rest ->
      manager_step (mkManager h u ShuttingDown ps down) (mkManager h u ShuttingDown ps (down ++ [peer])).

Lemma ended_step (round : globalEvent -> Aggregator -> Aggregator) (enqueue : RateLimitReq -> option RateLimitReq)
    (s s' : LoopSys) : own_step round enqueue s s' -> ls_loop s = Ended ->
  ls_loop s' = Ended /\ ag_sent (ls_agg s') = ag_sent (ls_agg s).
Proof. intros [[Ho|Hi] _] He; [by destruct Ho|by destruct Hi]. Qed.

(** The loops have ended before the first peer is shut down. *)
Definition ordered (m : Manager Peer) : Prop :=
  gm_down m `prefix_of` gm_peers m /\
  (gm_at m = ShuttingDown -> ls_loop (gm_hits m) = Ended /\ ls_loop (gm_updates m) = Ended) /\
  (gm_at m <> ShuttingDown -> gm_down m = []).

Lemma ordered_step (m m' : Manager Peer) : manager_step m m' -> ordered m -> ordered m'.
Proof.
  intros Hstep (Hp & He & Hd). destruct Hstep as [h h' u at_ ps down Ho|h u u' at_ ps down Ho|h u ps down|h u ps down Hh Hu|h u ps down peer rest Hps];
    unfold ordered in *; simpl in *.
  - split; [done|]. split; [|done]. intros Hat. destruct (He Hat) as [H1 ?]. split; [|done]. by eapply ended_step.
  - split; [done|]. split; [|done]. intros Hat. destruct (He Hat) as [? H2]. split; [done|]. by eapply ended_step.
  - split; [done|]. split; [done|]. intros _. by apply Hd.
  - split; [done|]. split; [done|]. done.
  - split; [|by split]. rewrite Hps. exists rest. by rewrite <- app_assoc.
Qed.

(** Nothing is sent to a peer that was shut down: [Close] shuts peers down, in the order
    of the list, only after both loops have returned, and from the first shutdown on
    neither loop sends anything. *)
Theorem close_order (peers : list Peer) (m m' : Manager Peer) (Hm : rtc manager_step (newGlobalManager peers) m)
    (Hdown : gm_at m = ShuttingDown) (Hm' : rtc manager_step m m') :
  gm_down m `prefix_of` gm_peers m /\ gm_at m' = ShuttingDown /\
  ag_sent (ls_agg (gm_hits m')) = ag_sent (ls_agg (gm_hits m)) /\
  ag_sent (ls_agg (gm_updates m')) = ag_sent (ls_agg (gm_updates m)).
Proof.
  assert (ordered m) as Hord.
  { assert (ordered (newGlobalManager peers)) as Hs by (split; [by exists peers|by split]).
    by apply (rtc_invariant manager_step ordered (newGlobalManager peers)); [apply ordered_step|..]. }
  split; [apply Hord|]. clear Hm. induction Hm' as [|m1 m2 m3 Hst _ IH]; [done|].
  pose proof Hord as (_ & He & _). destruct (He Hdown) as [Hh Hu]. pose proof (ordered_step _ _ Hst Hord) as Hord2.
  destruct Hst as [h h' u at_ ps down Ho|h u u' at_ ps down Ho| | |]; simpl in *; try done;
    [destruct (ended_step _ _ _ _ Ho Hh) as [_ Hs]|destruct (ended_step _ _ _ _ Ho Hu) as [_ Hs]|];
    destruct (IH Hdown Hord2) as (? & ? & ?); by rewrite <- ?Hs.
Qed.
End Manager.

(** ** Calling the other members *)

Section Fan.
Context {Peer Req : Type} (call : Peer -> Req -> result unit).

(** What the goroutines of a fan-out leave: the calls made and the errors counted. *)
Record Fan : Type := mkFan { fan_calls : list (Peer * Req); fan_errors : nat }.

Definition fanRun (f : Fan) (t : Peer * Req) : Fan :=
  mkFan (fan_calls f ++ [t])
    match call t.1 t.2 with Err _ => S (fan_errors f) | Ok _ => fan_errors f end.

(** [fan.Run] for every task and [fan.Wait]; the tasks finish in some order. *)
Definition fanOut (tasks : list (Peer * Req)) : Fan := fold_left fanRun tasks (mkFan [] 0).

Definition failing (t : Peer * Req) : bool := match call t.1 t.2 with Err _ => true | Ok _ => false end.

Lemma fanOut_runs (tasks : list (Peer * Req)) :
  fanOut tasks = mkFan tasks (length (filter (fun t => failing t = true) tasks)).
Proof.
  unfold fanOut. assert (forall f, fold_left fanRun tasks f =
    mkFan (fan_calls f ++ tasks) (fan_errors f + length (filter (fun t => failing t = true) tasks))) as Hg; [|by rewrite Hg].
  induction tasks as [|t tasks IH]; intros f; cbn [fold_left].
  - rewrite app_nil_r, filter_nil. cbn. rewrite Nat.add_0_r. by destruct f.
  - rewrite IH, filter_cons. unfold fanRun. cbn [fan_calls fan_errors]. rewrite <- app_assoc. f_equal.
    destruct (failing t) eqn:E; unfold failing in E; destruct (call t.1 t.2); try done; simpl; lia.
Qed.
End Fan.

(** The fan-out of [sendHits], one task for each owner, and that of [broadcastPeers], one
    for each other member; [order] is the order in which the tasks finish. *)
Definition sendBatches {Peer} (call : Peer -> list RateLimitReq -> result unit)
    (order : list (Peer * list RateLimitReq) -> list (Peer * list RateLimitReq))
    (peerRequests : gmap string (Peer * list RateLimitReq)) : Fan :=
  fanOut call (order (map_to_list peerRequests).*2).

Definition sendUpdates {Peer} (call : Peer -> list UpdatePeerGlobal -> result unit)
    (order : list (Peer * list UpdatePeerGlobal) -> list (Peer * list UpdatePeerGlobal))
    (isOwner : Peer -> bool) (peers : list Peer) (globals : list UpdatePeerGlobal) : Fan :=
  fanOut call (order ((fun p => (p, globals)) <$> broadcastTo isOwner peers)).

(** A broadcast calls every other member exactly once with all the updates, whatever the
    calls return and in whatever order they do, and counts those that failed. *)
Theorem broadcast_reaches_all {Peer} (call : Peer -> list UpdatePeerGlobal -> result unit)
    (order : list (Peer * list UpdatePeerGlobal) -> list (Peer * list UpdatePeerGlobal)) (Horder : forall l, order l ≡ₚ l)
    (isOwner : Peer -> bool) (peers : list Peer) (globals : list UpdatePeerGlobal) :
  let f := sendUpdates call order isOwner peers globals in
  (fan_calls f).*1 ≡ₚ filter (fun p => isOwner p = false) peers /\ Forall (fun t => t.2 = globals) (fan_calls f) /\
  fan_errors f = length (filter (fun p => isOwner p = false /\ failing call (p, globals) = true) peers).
Proof.
  unfold sendUpdates. rewrite fanOut_runs. cbn [fan_calls fan_errors]. split; [|split].
  - rewrite Horder, <- list_fmap_compose. by rewrite list_fmap_id.
  - rewrite Horder. apply Forall_fmap, Forall_true. done.
  - rewrite Horder. unfold broadcastTo. induction peers as [|p peers IH]; [done|]. rewrite !filter_cons.
    destruct (isOwner p) eqn:Ho.
    + rewrite decide_False by done. rewrite decide_False by (by intros [? _]). done.
    + rewrite decide_True by done. rewrite fmap_cons, filter_cons. destruct (failing call (p, globals)) eqn:Hc.
      * rewrite !decide_True by done. simpl. by rewrite IH.
      * rewrite decide_False by done. rewrite decide_False by (by intros [_ ?]). done.
Qed.

(** ** Witnesses *)

Definition hit (n : Z) : RateLimitReq := mkReq "requests" "account:12" n 100 60000 TOKEN_BUCKET GLOBAL 0 ∅ (Some 1000) 0.

(** A loop with two hits of one key in its queue, and the loop that has sent their sum. *)
Definition twoQueued : LoopSys := mkLoopSys [hit 2; hit 3] newAggregator NewInterval AtSelect false [hit 2; hit 3].

Definition afterRounds (round : globalEvent -> Aggregator -> Aggregator) (evs : list globalEvent) : Aggregator :=
  fold_left (fun a ev => round ev a) evs newAggregator.

Definition allSent (round : globalEvent -> Aggregator -> Aggregator) : LoopSys :=
  mkLoopSys [] (afterRounds round [GQueued (hit 2); GQueued (hit 3); GTick]) (mkInterval false false Ready false) AtSelect false [hit 2; hit 3].

Lemma two_queued (round : globalEvent -> Aggregator -> Aggregator) (enqueue : RateLimitReq -> option RateLimitReq) :
  enqueue (hit 2) = Some (hit 2) -> enqueue (hit 3) = Some (hit 3) -> loop_reachable round enqueue (Z.to_nat 100) twoQueued.
Proof.
  intros H2 H3. unfold loop_reachable, startLoop, twoQueued.
  eapply rtc_l; [left; apply out_queue with (r := hit 2); [exact H2|simpl; lia]|].
  eapply rtc_l; [left; apply out_queue with (r := hit 3); [exact H3|simpl; lia]|]. apply rtc_refl.
Qed.

Lemma both_sent (round : globalEvent -> Aggregator -> Aggregator) :
  ag_nexts (afterRounds round [GQueued (hit 2)]) = 1%nat ->
  ag_nexts (afterRounds round [GQueued (hit 2); GQueued (hit 3)]) = 2%nat ->
  nsteps (loop_step round) 5 twoQueued (allSent round).
Proof.
  intros N1 N2. unfold twoQueued, allSent.
  eapply nsteps_l; [apply loop_queued|]. unfold nextIf at 1. change (round (GQueued (hit 2)) newAggregator) with (afterRounds round [GQueued (hit 2)]).
  rewrite N1. eapply nsteps_l; [apply loop_queued|]. unfold nextIf at 1.
  change (round (GQueued (hit 3)) (afterRounds round [GQueued (hit 2)])) with (afterRounds round [GQueued (hit 2); GQueued (hit 3)]).
  rewrite N1, N2. simpl.
  eapply nsteps_l; [apply loop_ticker with (ev := Begin); [auto|reflexivity]|].
  eapply nsteps_l; [apply loop_ticker with (ev := Tick); [auto|reflexivity]|].
  eapply nsteps_l; [by apply loop_tick|]. apply nsteps_O.
Qed.

Lemma global_hits_sent_witness :
  (5 <= loopWork twoQueued)%nat /\
  ((exists s'', loop_step (runAsyncHits 100) (allSent (runAsyncHits 100)) s'') \/
   forall k, eq64 (fold_right Z.add 0 (hitsAt k <$> ag_sent (ls_agg (allSent (runAsyncHits 100))))) (givenHits k [hit 2; hit 3])).
Proof.
  apply (global_hits_sent 100 twoQueued (allSent (runAsyncHits 100)) 5).
  - by apply two_queued.
  - reflexivity.
  - reflexivity.
  - by apply both_sent.
Defined.

Lemma global_updates_sent_witness :
  (5 <= loopWork twoQueued)%nat /\
  ((exists s'', loop_step (runBroadcasts 100) (allSent (runBroadcasts 100)) s'') \/
   forall k, lastSent k (ag_sent (ls_agg (allSent (runBroadcasts 100)))) = lastGiven k [hit 2; hit 3]).
Proof.
  apply (global_updates_sent 100 twoQueued (allSent (runBroadcasts 100)) 5).
  - by apply two_queued.
  - reflexivity.
  - reflexivity.
  - by apply both_sent.
Defined.

Lemma global_close_hangs_witness :
  exists s, hitsLoop 100 s /\ ls_given s = [hit 1; hit 1] /\ ls_done s = true /\
    forall s', rtc (any_step (runAsyncHits 100) QueueHit (Z.to_nat 100)) s s' -> ls_loop s' = InStop.
Proof. apply (global_close_hangs 100 (hit 1)); [lia|done]. Defined.

(** An idle loop told to stop, before and after its ticker has stopped. *)
Definition idleClosed (ph : Phase) (lp : LoopAt) : LoopSys :=
  mkLoopSys [] (runAsyncHits 100 GDone newAggregator) (mkInterval false false ph true) lp true [].

Lemma global_close_ends_witness :
  (2 <= 4)%nat /\
  ((exists s'', loop_step (runAsyncHits 100) (idleClosed Stopped Ended) s'') \/ ls_loop (idleClosed Stopped Ended) = Ended).
Proof.
  apply (global_close_ends 100 (idleClosed Ready InStop) (idleClosed Stopped Ended) 2).
  - unfold hitsLoop, loop_reachable, startLoop. eapply rtc_l; [left; apply out_close|].
    eapply rtc_l; [right; apply loop_done|]. apply rtc_refl.
  - reflexivity.
  - cbn. lia.
  - eapply nsteps_l; [apply loop_ticker with (ev := Quit); [auto|reflexivity]|].
    eapply nsteps_l; [by apply loop_stopped|]. apply nsteps_O.
Defined.
