(* ===== verification/Instance.v ===== *)
(** * A member of the cluster ([gubernator.go])

    The service methods of [V1Instance].  What the rest of the world decides (the owner
    a picker returns at some moment, the answer of another member, whether the caller's
    context is done, whether a worker took a command before the caller left) is an
    oracle indexed by the number of times it was consulted, so a statement for all
    oracles is a statement for all of these behaviours. *)

From stdpp Require Import base gmap strings list pretty.
From Stdlib Require Import ZArith Lia.
From S2P Require Import Prelude Float64 Types GoTime LeakyMath Runtime LRUCache TokenBucket LeakyBucket Workers ReplicatedHash Global.

Local Open Scope Z_scope.

(** [maxBatchSize] of gubernator.go. *)
Definition maxBatchSize : nat := 1000.

(** What is decided elsewhere. *)
Record Surroundings (Peer : Type) : Type := mkSurroundings {
  su_pick : nat -> string -> result Peer;                  (* [LocalPicker.Get] *)
  su_answer : nat -> Peer -> RateLimitReq -> result RateLimitResp;  (* [PeerClient.GetPeerRateLimit] *)
  su_ctx : nat -> option gerror;                           (* [ctx.Err] *)
  su_gaveUp : nat -> option (bool * gerror);   (* the context ended a call on the pool; was it executed? *)
  su_eventTaken : nat -> bool                              (* the event channel was ready first *)
}.
Arguments mkSurroundings {Peer}.
Arguments su_pick {Peer}.
Arguments su_answer {Peer}.
Arguments su_ctx {Peer}.
Arguments su_gaveUp {Peer}.
Arguments su_eventTaken {Peer}.

(** The instance: its workers, its queues and the calls it has made. *)
Record Node (C S Peer : Type) : Type := mkNode {
  nd_pool : WorkerPool C S;
  nd_hits : list RateLimitReq;                     (* put on [hitsQueue], oldest first *)
  nd_updates : list RateLimitReq;                  (* put on [broadcastQueue] *)
  nd_events : list (RateLimitReq * RateLimitResp); (* put on the event channel *)
  nd_calls : list (Peer * RateLimitReq);           (* forwarded, oldest first *)
  nd_consulted : nat
}.
Arguments mkNode {C S Peer}.
Arguments nd_pool {C S Peer}.
Arguments nd_hits {C S Peer}.
Arguments nd_updates {C S Peer}.
Arguments nd_events {C S Peer}.
Arguments nd_calls {C S Peer}.
Arguments nd_consulted {C S Peer}.

(** The parts of [Config] the methods below read. *)
Record NodeConf : Type := mkNodeConf {
  nc_ForceGlobal : bool;
  nc_HasEventChannel : bool
}.

Section Methods.
Context `{Arch} `{Hash64} {C S : Type} `{CacheOps C} `{StoreOps S}.
Context {Peer : Type} (Info : Peer -> PeerInfo) (conf : NodeConf) (su : Surroundings Peer).

Abbreviation N := (Node C S Peer).

(** ** Effects *)

Definition onPool {A} (m : M (WorkerPool C S) A) : M N A :=
  zoom nd_pool (fun po nd => mkNode po (nd_hits nd) (nd_updates nd) (nd_events nd) (nd_calls nd) (nd_consulted nd)) m.

Definition count (name : string) : M N unit := onPool (onProcess (incr name)).

Definition consult {A} (ask : nat -> A) : M N A := fun nd =>
  Ret (ask (nd_consulted nd),
       mkNode (nd_pool nd) (nd_hits nd) (nd_updates nd) (nd_events nd) (nd_calls nd)
         (Datatypes.S (nd_consulted nd))).

Definition queueHit (r : RateLimitReq) : M N unit := fun nd =>
  Ret (tt, mkNode (nd_pool nd) (nd_hits nd ++ option_list (QueueHit r)) (nd_updates nd) (nd_events nd)
             (nd_calls nd) (nd_consulted nd)).

Definition queueUpdate (r : RateLimitReq) : M N unit := fun nd =>
  Ret (tt, mkNode (nd_pool nd) (nd_hits nd) (nd_updates nd ++ option_list (QueueUpdate r)) (nd_events nd)
             (nd_calls nd) (nd_consulted nd)).

Definition putEvent (r : RateLimitReq) (rl : RateLimitResp) : M N unit := fun nd =>
  Ret (tt, mkNode (nd_pool nd) (nd_hits nd) (nd_updates nd) (nd_events nd ++ [(r, rl)]) (nd_calls nd)
             (nd_consulted nd)).

Definition sendEvent (r : RateLimitReq) (rl : RateLimitResp) : M N unit :=
  taken ← consult (su_eventTaken su); if (taken : bool) then putEvent r rl else mret tt.

Definition recordCall (peer : Peer) (r : RateLimitReq) : M N unit := fun nd =>
  Ret (tt, mkNode (nd_pool nd) (nd_hits nd) (nd_updates nd) (nd_events nd) (nd_calls nd ++ [(peer, r)])
             (nd_consulted nd)).

(** [peer.GetPeerRateLimit] *)
Definition forwardTo (peer : Peer) (r : RateLimitReq) : M N (result RateLimitResp) :=
  recordCall peer r;; consult (fun n => su_answer su n peer r).

(** [workerPool.GetRateLimit]: the answer, or the error of a context that ended. *)
Definition poolGetRateLimit (r : RateLimitReq) (st : RateLimitReqState) : M N (result RateLimitResp) :=
  o ← consult (su_gaveUp su); onPool (GetRateLimit o r st).

(** ** Evaluating a limit here *)

Definition getLocalRateLimit (r : RateLimitReq) (st : RateLimitReqState) : M N (result RateLimitResp) :=
  let msg := validateMaxWait r in
  if negb (String.eqb msg "") then
    count "gubernator_check_error_counter/Invalid request";; mret (Ok (respError msg))
  else
    res ← poolGetRateLimit r st;
    match res with
    | Err e => mret (Err (ErrWrap "during workerPool.GetRateLimit" e))
    | Ok rl =>
        let r := handledReq r in
        (if HasBehavior (r_Behavior r) GLOBAL then queueUpdate r else mret tt);;
        (if IsOwner st then
           count "gubernator_getratelimit_counter/local";;
           (if nc_HasEventChannel conf then sendEvent r rl else mret tt)
         else mret tt);;
        mret (Ok rl)
    end.

Definition getGlobalRateLimit (req : RateLimitReq) : M N (result RateLimitResp) :=
  let b := SetBehavior (r_Behavior req) NO_BATCHING true in
  let b := SetBehavior b GLOBAL false in
  res ← getLocalRateLimit (with_Behavior b req) (mkReqState false 0);
  match res with
  | Err e => mret (Err (ErrWrap "during in getLocalRateLimit" e))
  | Ok rl => count "gubernator_getratelimit_counter/global";; queueHit req;; mret (Ok rl)
  end.

Definition GetPeer (key : string) : M N (result Peer) :=
  res ← consult (fun n => su_pick su n key);
  mret (match res with
        | Ok p => Ok p
        | Err e => Err (ErrWrap "Error in conf.LocalPicker.Get" e)
        end).

(** ** Forwarding *)

Definition ownedBy (peer : Peer) (rl : RateLimitResp) : RateLimitResp :=
  with_Metadata {[ "owner" := pi_GRPCAddress (Info peer) ]} rl.

Definition errIsCtx (e : gerror) : bool := err_is_canceled e || err_is_deadline e.

(** The request as it is forwarded. *)
Definition forwarded (req : RateLimitReq) : RateLimitReq :=
  if 0 <? r_MaxWait req then with_Behavior (SetBehavior (r_Behavior req) NO_BATCHING true) req else req.

(** [countError] walks the chain of an error. *)
Definition countNodeError (e : gerror) (dflt : string) : M N unit := onPool (onProcess (countError e dflt)).

(** The loop of [asyncRequest] with [left = 6 - attempts]; [lastErr] is the error of the
    attempt before. *)
Fixpoint asyncLoop (left : nat) (lastErr : gerror) (key : string) (peer : Peer) (req : RateLimitReq)
    : M N RateLimitResp :=
  let again (attempt : M N RateLimitResp) :=
    if negb (Nat.eqb left 6) && pi_IsOwner (Info peer) then
      res ← getLocalRateLimit req (mkReqState true 0);
      mret (match res with
            | Ok rl => rl
            | Err e => respError (err_text (ErrWrap ("during getLocalRateLimit() for '" +:+ key +:+ "'") e))
            end)
    else attempt in
  match left with
  | O =>
      countNodeError lastErr "Peer not connected";;
      mret (respError (err_text (ErrWrap ("GetPeer() keeps returning peers that are not connected for '"
                                          +:+ key +:+ "'") lastErr)))
  | Datatypes.S left' => again (
      res ← forwardTo peer (forwarded req);
      match res with
      | Ok rl => mret (ownedBy peer rl)
      | Err e =>
          let failed := respError (err_text (ErrWrap ("while fetching rate limit '" +:+ key +:+ "' from peer") e)) in
          if 0 <? r_MaxWait (forwarded req) then mret failed
          else if errIsCtx e then
            c ← consult (su_ctx su);
            match c with
            | Some ce => mret (respError (err_text (ErrWrap ("caller gave up on rate limit '" +:+ key +:+ "'") ce)))
            | None =>
                count ("gubernator_batch_send_retries/" +:+ r_Name req);;
                p ← GetPeer key;
                match p with
                | Err pe =>
                    countNodeError pe "during GetPeer()";;
                    mret (respError (err_text (ErrWrap ("while finding peer that owns rate limit '" +:+ key +:+ "'") pe)))
                | Ok peer' => asyncLoop left' e key peer' req
                end
            end
          else mret failed
      end)
  end.

Definition asyncRequest (key : string) (peer : Peer) (req : RateLimitReq) : M N RateLimitResp :=
  resp ← asyncLoop 6 Canceled key peer req;
  c ← consult (su_ctx su);
  (match c with
   | Some e => if err_is_deadline e then count "gubernator_check_error_counter/Timeout forwarding to peer" else mret tt
   | None => mret tt
   end);;
  mret resp.

(** ** Requests of clients *)

Definition withCreatedAt (createdAt : Z) (r : RateLimitReq) : RateLimitReq :=
  match r_CreatedAt r with
  | None => with_CreatedAt (Some createdAt) r
  | Some c => if c =? 0 then with_CreatedAt (Some createdAt) r else r
  end.

Definition forceGlobal (r : RateLimitReq) : RateLimitReq :=
  if nc_ForceGlobal conf then with_Behavior (SetBehavior (r_Behavior r) GLOBAL true) r else r.

(** One round of the loop of [GetRateLimits]: an answer, or a request to forward. *)
Definition checkOne (createdAt : Z) (req : RateLimitReq) : M N (RateLimitResp + Peer * RateLimitReq) :=
  let key := HashKey req in
  if String.eqb (r_UniqueKey req) "" then
    count "gubernator_check_error_counter/Invalid request";;
    mret (inl (respError "field 'unique_key' cannot be empty"))
  else if String.eqb (r_Name req) "" then
    count "gubernator_check_error_counter/Invalid request";;
    mret (inl (respError "field 'namespace' cannot be empty"))
  else
    let req := withCreatedAt createdAt req in
    c ← consult (su_ctx su);
    match c with
    | Some e => mret (inl (respError (err_text (ErrWrap "Error while iterating request items" e))))
    | None =>
        let req := forceGlobal req in
        let msg := validateMaxWait req in
        if negb (String.eqb msg "") then
          count "gubernator_check_error_counter/Invalid request";; mret (inl (respError msg))
        else
          p ← GetPeer key;
          match p with
          | Err e =>
              countNodeError e "Error in GetPeer";;
              mret (inl (respError (err_text
                (ErrWrap ("Error in GetPeer, looking up peer that owns rate limit '" +:+ key +:+ "'") e))))
          | Ok peer =>
              if pi_IsOwner (Info peer) then
                res ← getLocalRateLimit req (mkReqState true 0);
                mret (inl (match res with
                           | Ok rl => rl
                           | Err e => respError (err_text (ErrWrap ("Error while apply rate limit for '" +:+ key +:+ "'") e))
                           end))
              else if HasBehavior (r_Behavior req) GLOBAL then
                res ← getGlobalRateLimit req;
                mret (inl (ownedBy peer (match res with
                                         | Ok rl => rl
                                         | Err e => respError (err_text (ErrWrap "Error in getGlobalRateLimit" e))
                                         end)))
              else mret (inr (peer, req))
          end
    end.

Fixpoint checkAll (createdAt : Z) (reqs : list RateLimitReq) : M N (list (RateLimitResp + Peer * RateLimitReq)) :=
  match reqs with
  | [] => mret []
  | r :: rs => slot ← checkOne createdAt r; slots ← checkAll createdAt rs; mret (slot :: slots)
  end.

(** The requests to forward, each with its place. *)
Definition asyncTasks (slots : list (RateLimitResp + Peer * RateLimitReq)) : list (nat * (Peer * RateLimitReq)) :=
  omap (fun ix => match ix.2 with inl _ => None | inr t => Some (ix.1, t) end) (imap pair slots).

(** Their goroutines, in some order, and what they put on the channel. *)
Fixpoint runAsync (tasks : list (nat * (Peer * RateLimitReq))) : M N (list (nat * RateLimitResp)) :=
  match tasks with
  | [] => mret []
  | (i, (peer, req)) :: ts =>
      resp ← asyncRequest (HashKey req) peer req; outs ← runAsync ts; mret ((i, resp) :: outs)
  end.

Definition place (outs : list (nat * RateLimitResp)) (rs : list (option RateLimitResp)) : list (option RateLimitResp) :=
  fold_left (fun rs o => <[o.1 := Some o.2]> rs) outs rs.

(** [GetRateLimits]; [order] is the order in which the goroutines run. *)
Definition GetRateLimits (order : list (nat * (Peer * RateLimitReq)) -> list (nat * (Peer * RateLimitReq)))
    (reqs : list RateLimitReq) : M N (result (list (option RateLimitResp))) :=
  if (maxBatchSize <? length reqs)%nat then
    count "gubernator_check_error_counter/Request too large";;
    mret (Err (ErrNew ("rpc error: code = OutOfRange desc = Requests.RateLimits list too large; max size is '"
                       +:+ Itoa maxBatchSize +:+ "'")))
  else
    createdAt ← onPool (onProcess MillisecondNow);
    slots ← checkAll createdAt reqs;
    outs ← runAsync (order (asyncTasks slots));
    mret (Ok (place outs ((fun s => match s with inl rl => Some rl | inr _ => None end) <$> slots))).

(** ** Requests of other members *)

(** The request evaluated for a forwarded one. *)
Definition drainGlobal (r : RateLimitReq) : RateLimitReq :=
  if HasBehavior (r_Behavior r) GLOBAL
  then with_Behavior (SetBehavior (r_Behavior r) DRAIN_OVER_LIMIT true) r else r.

Definition peerOne (r : RateLimitReq) : M N RateLimitResp :=
  let r := drainGlobal r in
  r ← (match r_CreatedAt r with
       | Some c => if c =? 0 then t ← onPool (onProcess MillisecondNow); mret (with_CreatedAt (Some t) r) else mret r
       | None => t ← onPool (onProcess MillisecondNow); mret (with_CreatedAt (Some t) r)
       end);
  res ← getLocalRateLimit r (mkReqState true 0);
  mret (match res with
        | Ok rl => rl
        | Err e => respError (err_text (ErrWrap "Error in getLocalRateLimit" e))
        end).

Fixpoint runFan (tasks : list (nat * RateLimitReq)) : M N (list (nat * RateLimitResp)) :=
  match tasks with
  | [] => mret []
  | (i, r) :: ts => rl ← peerOne r; outs ← runFan ts; mret ((i, rl) :: outs)
  end.

(** [GetPeerRateLimits]; [order] is the order in which the fan-out runs the requests. *)
Definition GetPeerRateLimits (order : list (nat * RateLimitReq) -> list (nat * RateLimitReq))
    (reqs : list RateLimitReq) : M N (result (list (option RateLimitResp))) :=
  if (maxBatchSize <? length reqs)%nat then
    count "gubernator_check_error_counter/Request too large";;
    mret (Err (ErrNew ("rpc error: code = OutOfRange desc = 'PeerRequest.rate_limits' list too large; max size is '"
                       +:+ Itoa maxBatchSize +:+ "'")))
  else
    outs ← runFan (order (imap pair reqs));
    mret (Ok (place outs (replicate (length reqs) None))).
End Methods.
