(* ===== verification/InstanceSpec.v ===== *)
(** * What a member of the cluster promises

    Every request of a call is answered, in its place, whatever other members and
    contexts do; nothing is forwarded more often than allowed; hits on GLOBAL limits are
    queued for the owner exactly when they were answered here. *)

From stdpp Require Import base gmap strings list.
From Stdlib Require Import ZArith Lia.
From S2P Require Import Prelude Float64 Types GoTime LeakyMath Runtime LRUCache Store Demo TokenBucket TokenSpec LeakyBucket Workers WorkersSpec ReplicatedHash PeerClient Global GlobalSpec Instance.

Local Open Scope Z_scope.

Section Node.
Context `{Arch} `{Hash64} {C S : Type} `{CacheLaws C} `{StoreLaws S}.
Context {Peer : Type} (Info : Peer -> PeerInfo) (conf : NodeConf) (su : Surroundings Peer).

Abbreviation P := (WorkerPool C S).
Abbreviation N := (Node C S Peer).

(** The pool is well formed and every key has a worker. *)
Record node_ok (nd : N) : Prop := {
  no_pool : pool_ok (nd_pool nd);
  no_workers : forall k, has_worker (nd_pool nd) k
}.

(** A well-formed instance with these queues and calls. *)
Record frame (hs us : list RateLimitReq) (cs : list (Peer * RateLimitReq)) (nd : N) : Prop := {
  fr_ok : node_ok nd;
  fr_hits : nd_hits nd = hs;
  fr_updates : nd_updates nd = us;
  fr_calls : nd_calls nd = cs
}.

Lemma frame_start (nd : N) : node_ok nd -> frame (nd_hits nd) (nd_updates nd) (nd_calls nd) nd.
Proof. by constructor. Qed.

Lemma consult_frame {A} (ask : nat -> A) hs us cs :
  triple (frame hs us cs) (consult ask) (fun _ => frame hs us cs).
Proof.
  intros nd [[Hp Hw] Hh Hu Hc]. eexists _, _. split; [done|]. by constructor.
Qed.

(** A step of the pool that keeps it well formed and its size. *)
Lemma onPool_frame {A} (m : M P A) hs us cs :
  (forall po, pool_ok po -> (forall k, has_worker po k) ->
     exists a po', m po = Ret (a, po') /\ pool_ok po' /\ forall k, has_worker po' k) ->
  triple (frame hs us cs) (onPool m) (fun _ => frame hs us cs).
Proof.
  intros Hm nd [[Hp Hw] Hh Hu Hc]. destruct (Hm _ Hp Hw) as (a & po' & Hr & Hp' & Hw').
  eexists a, _. split; [unfold onPool, zoom; by rewrite Hr|]. constructor; [by constructor|done..].
Qed.

Lemma quiet_pool {A} (m : M Env A) (po : P) :
  (forall e, exists a e', m e = Ret (a, e') /\ env_quiet e e') -> pool_ok po -> (forall k, has_worker po k) ->
  exists a po', onProcess m po = Ret (a, po') /\ pool_ok po' /\ forall k, has_worker po' k.
Proof.
  intros Hm Hp Hw. destruct (Hm (po_env po)) as (a & e' & Hr & Hq). eexists a, _.
  split; [unfold onProcess, zoom; by rewrite Hr|]. split; [|done].
  apply pool_ok_env; [done|apply (env_quiet_ok (po_env po)); [done|apply Hp]|auto with env].
Qed.

Lemma MillisecondNow_calm (e : Env) : exists a e', MillisecondNow e = Ret (a, e') /\ env_quiet e e'.
Proof. eexists _, _. split; [reflexivity|apply Now_quiet]. Qed.

Lemma process_frame {A} (m : M Env A) hs us cs :
  (forall e, exists a e', m e = Ret (a, e') /\ env_quiet e e') ->
  triple (frame hs us cs) (onPool (onProcess m)) (fun _ => frame hs us cs).
Proof. intros Hm. apply onPool_frame. intros po. by apply quiet_pool. Qed.

Lemma count_frame (name : string) hs us cs :
  triple (frame hs us cs) (count name) (fun _ => frame hs us cs).
Proof. apply process_frame, incr_calm. Qed.

Lemma countNodeError_frame (e : gerror) (dflt : string) hs us cs :
  triple (frame hs us cs) (countNodeError e dflt) (fun _ => frame hs us cs).
Proof. apply process_frame, incr_calm. Qed.

Lemma GetRateLimit_frame (o : option (bool * gerror)) (r : RateLimitReq) (st : RateLimitReqState) hs us cs :
  is_Some (r_CreatedAt r) -> triple (frame hs us cs) (onPool (GetRateLimit o r st)) (fun _ => frame hs us cs).
Proof.
  intros [c Hc]. apply onPool_frame. intros po Hp Hw.
  destruct (runCommand_iso po r st c Hp Hc (Hw _)) as (rep & po' & Hr & Hp' & _ & Hs & _ & Hl).
  assert (forall k, has_worker po' k) as Hw' by (intros k; unfold has_worker; rewrite Hs, Hl; apply Hw).
  pose proof (runCommand_reply po r st rep po' Hr) as (res & ->).
  unfold GetRateLimit, callPool. destruct o as [[[|] e]|].
  - exists (Err e), po'. split; [|done]. by rewrite bind_assoc, (bind_ret_run _ _ _ _ _ Hr).
  - exists (Err e), po. split; [|done]. unfold getWorker, mbind, M_bind. simpl. by rewrite decide_True by apply Hw.
  - exists res, po'. split; [|done]. by rewrite bind_assoc, (bind_ret_run _ _ _ _ _ Hr).
Qed.

Lemma sendEvent_frame (r : RateLimitReq) (rl : RateLimitResp) hs us cs :
  triple (frame hs us cs) (sendEvent su r rl) (fun _ => frame hs us cs).
Proof.
  eapply triple_bind; [apply consult_frame|]. intros [|]; cbv beta; [|by apply triple_ret].
  intros nd [? ? ? ?]. eexists _, _. split; [done|]. constructor; try done. by destruct fr_ok0.
Qed.

Lemma queueUpdate_frame (r : RateLimitReq) hs us cs :
  triple (frame hs us cs) (queueUpdate r) (fun _ => frame hs (us ++ option_list (QueueUpdate r)) cs).
Proof.
  intros nd [[? ?] ? ? ?]. eexists _, _. split; [done|]. constructor; simpl; try done. congruence.
Qed.

Lemma queueHit_frame (r : RateLimitReq) hs us cs :
  triple (frame hs us cs) (queueHit r) (fun _ => frame (hs ++ option_list (QueueHit r)) us cs).
Proof.
  intros nd [[? ?] ? ? ?]. eexists _, _. split; [done|]. constructor; simpl; try done. congruence.
Qed.

Lemma forwardTo_frame (peer : Peer) (r : RateLimitReq) hs us cs :
  triple (frame hs us cs) (forwardTo su peer r) (fun _ => frame hs us (cs ++ [(peer, r)])).
Proof.
  eapply triple_bind; [|intros ?; apply consult_frame].
  intros nd [[? ?] ? ? ?]. eexists tt, _. split; [done|]. constructor; simpl; try done. congruence.
Qed.

Lemma poolGetRateLimit_frame (r : RateLimitReq) (st : RateLimitReqState) hs us cs : is_Some (r_CreatedAt r) ->
  triple (frame hs us cs) (poolGetRateLimit su r st) (fun _ => frame hs us cs).
Proof.
  intros Hc. eapply triple_bind; [apply consult_frame|]. intros o. by apply GetRateLimit_frame.
Qed.

Lemma GetPeer_frame (key : string) hs us cs :
  triple (frame hs us cs) (GetPeer su key) (fun _ => frame hs us cs).
Proof. eapply triple_bind; [apply consult_frame|]. intros ?. by apply triple_ret. Qed.

(** The updates a request evaluated here queues for the other members. *)
Definition updatesOf (r : RateLimitReq) (res : result RateLimitResp) : list RateLimitReq :=
  match res with
  | Ok _ => if String.eqb (validateMaxWait r) "" && HasBehavior (r_Behavior r) GLOBAL
            then option_list (QueueUpdate (handledReq r)) else []
  | Err _ => []
  end.

Lemma handledReq_behavior (r : RateLimitReq) : r_Behavior (handledReq r) = r_Behavior r.
Proof. unfold handledReq, leakyReq. by repeat destruct (_ =? _). Qed.

Lemma getLocalRateLimit_frame (r : RateLimitReq) (st : RateLimitReqState) hs us cs : is_Some (r_CreatedAt r) ->
  triple (frame hs us cs) (getLocalRateLimit conf su r st) (fun res => frame hs (us ++ updatesOf r res) cs).
Proof.
  intros Hc. unfold getLocalRateLimit, updatesOf. destruct (String.eqb (validateMaxWait r) "") eqn:Hv; simpl.
  2: { eapply triple_bind; [apply count_frame|]. intros ?. apply triple_ret. intros nd. by rewrite app_nil_r. }
  eapply triple_bind; [by apply poolGetRateLimit_frame|].
  intros [rl|e]; cbv beta; [|apply triple_ret; intros nd; by rewrite app_nil_r].
  rewrite handledReq_behavior.
  set (us' := us ++ if HasBehavior (r_Behavior r) GLOBAL then option_list (QueueUpdate (handledReq r)) else []).
  apply (triple_bind _ _ _ (fun _ => frame hs us' cs)); unfold us'.
  { destruct (HasBehavior _ _); [apply queueUpdate_frame|]. apply triple_ret. intros nd. by rewrite app_nil_r. }
  intros ?; cbv beta. fold us'.
  apply (triple_bind _ _ _ (fun _ => frame hs us' cs)); [|intros ?; by apply triple_ret].
  destruct (IsOwner st); [|by apply triple_ret].
  eapply triple_bind; [apply count_frame|]. intros ?; cbv beta.
  destruct (nc_HasEventChannel conf); [apply sendEvent_frame|by apply triple_ret].
Qed.

(** An owner that evaluates a GLOBAL request with hits queues exactly one update for
    the other members, and none for other requests, for status queries, for rejected
    requests or after an error. Nothing is forwarded and no hit is queued. *)
Theorem local_queues_updates (nd : N) (r : RateLimitReq) (st : RateLimitReqState)
    (Hok : node_ok nd) (Hc : is_Some (r_CreatedAt r)) :
  exists res nd', getLocalRateLimit conf su r st nd = Ret (res, nd') /\ node_ok nd' /\
    nd_calls nd' = nd_calls nd /\ nd_hits nd' = nd_hits nd /\
    nd_updates nd' = nd_updates nd ++ updatesOf r res.
Proof.
  destruct (getLocalRateLimit_frame r st _ _ _ Hc nd (frame_start nd Hok)) as (res & nd' & Hr & []).
  by exists res, nd'.
Qed.

Lemma getGlobalRateLimit_frame (r : RateLimitReq) hs us cs : is_Some (r_CreatedAt r) ->
  triple (frame hs us cs) (getGlobalRateLimit conf su r)
    (fun res => frame (hs ++ match res with Ok _ => option_list (QueueHit r) | Err _ => [] end) us cs).
Proof.
  intros Hc. unfold getGlobalRateLimit.
  set (r2 := with_Behavior _ r). set (st := mkReqState false 0).
  assert (forall res, updatesOf r2 res = []) as Hno.
  { intros [rl|e]; [|done]. unfold updatesOf. replace (HasBehavior (r_Behavior r2) GLOBAL) with false; [by rewrite andb_false_r|].
    symmetry. unfold r2, with_Behavior. cbn [r_Behavior]. by rewrite SetBehavior_has by (by exists 1). }
  eapply triple_bind; [by apply (getLocalRateLimit_frame r2 st)|].
  intros res; cbv beta. rewrite Hno, app_nil_r. destruct res as [rl|e].
  - eapply triple_bind; [apply count_frame|]. intros ?; cbv beta.
    eapply triple_bind; [apply queueHit_frame|]. intros ?; cbv beta. by apply triple_ret.
  - apply triple_ret. intros nd'. by rewrite app_nil_r.
Qed.

(** A member that does not own a GLOBAL limit answers from its own cache: it calls no
    other member and broadcasts nothing, and it queues the hits for the owner exactly
    when the answer is not an error and there are hits. *)
Theorem global_answers_locally (nd : N) (r : RateLimitReq) (Hok : node_ok nd) (Hc : is_Some (r_CreatedAt r)) :
  exists res nd', getGlobalRateLimit conf su r nd = Ret (res, nd') /\ node_ok nd' /\
    nd_calls nd' = nd_calls nd /\ nd_updates nd' = nd_updates nd /\
    nd_hits nd' = nd_hits nd ++ match res with Ok _ => option_list (QueueHit r) | Err _ => [] end.
Proof.
  destruct (getGlobalRateLimit_frame r _ _ _ Hc nd (frame_start nd Hok)) as (res & nd' & Hr & []).
  by exists res, nd'.
Qed.

(** ** Forwarding *)

(** Errors of package context come only from the caller's own context: when one is the
    outcome of a call, that context is done by the time it is looked at next. *)
Definition ctx_errors_are_callers : Prop :=
  forall n peer r e, su_answer su n peer r = Err e -> errIsCtx e = true -> is_Some (su_ctx su (Datatypes.S n)).

(** The calls of an attempt and those after it. *)
Definition attempts (left : nat) (peer : Peer) (req : RateLimitReq) (l : list (Peer * RateLimitReq)) : Prop :=
  Forall (fun c => c.2 = forwarded req) l /\ (length l <= left)%nat /\
  (left = 6%nat -> exists l', l = (peer, forwarded req) :: l') /\
  (0 < r_MaxWait req \/ ctx_errors_are_callers -> (length l <= 1)%nat).

Definition forwardedTo (hs : list RateLimitReq) (cs : list (Peer * RateLimitReq)) (left : nat) (peer : Peer)
    (req : RateLimitReq) (nd : N) : Prop :=
  exists us l, frame hs us (cs ++ l) nd /\ attempts left peer req l.

Lemma attempts_one (left : nat) (peer : Peer) (req : RateLimitReq) :
  attempts (Datatypes.S left) peer req [(peer, forwarded req)].
Proof. split; [by constructor|]. split; [simpl; lia|]. split; [by eexists|simpl; lia]. Qed.

Lemma forwarded_MaxWait (req : RateLimitReq) : r_MaxWait (forwarded req) = r_MaxWait req.
Proof. unfold forwarded. by destruct (_ <? _). Qed.

(** The answer to a call and the look at the context that follows it. *)
Lemma forward_then_ctx (peer : Peer) (r : RateLimitReq) hs us cs :
  triple (frame hs us cs) (forwardTo su peer r)
    (fun res nd => frame hs us (cs ++ [(peer, r)]) nd /\
       forall e, res = Err e -> errIsCtx e = true -> ctx_errors_are_callers -> is_Some (su_ctx su (nd_consulted nd))).
Proof.
  intros nd [[? ?] ? ? ?]. eexists _, _. split; [reflexivity|]. split; [constructor; simpl; try done; congruence|].
  simpl. intros e He Hc Hown. by eapply Hown.
Qed.

Lemma asyncLoop_frame (left : nat) (lastErr : gerror) (key : string) (peer : Peer) (req : RateLimitReq) hs us cs :
  is_Some (r_CreatedAt req) -> (left <= 6)%nat ->
  triple (frame hs us cs) (asyncLoop Info conf su left lastErr key peer req)
    (fun _ => forwardedTo hs cs left peer req).
Proof.
  intros Hc. revert lastErr peer us cs. induction left as [|left IH]; intros lastErr peer us cs Hleft; cbn [asyncLoop].
  { eapply triple_bind; [apply countNodeError_frame|]. intros ?. apply triple_ret. intros nd Hf.
    exists us, []. rewrite app_nil_r. split; [done|]. split; [done|]. split; [simpl; lia|]. split; [done|simpl; lia]. }
  destruct (negb _ && pi_IsOwner (Info peer)) eqn:Hown.
  { eapply triple_bind; [by apply getLocalRateLimit_frame|]. intros res. apply triple_ret. intros nd Hf.
    exists (us ++ updatesOf req res), []. rewrite app_nil_r. split; [done|]. split; [done|]. split; [simpl; lia|].
    split; [|simpl; lia]. intros Hl. rewrite Hl in Hown. discriminate Hown. }
  assert (forall nd, frame hs us (cs ++ [(peer, forwarded req)]) nd ->
    forwardedTo hs cs (Datatypes.S left) peer req nd) as Hone.
  { intros nd Hf. eexists us, _. split; [done|apply attempts_one]. }
  eapply triple_bind; [apply forward_then_ctx|]. intros [rl|e]; cbv beta; [apply triple_ret; intros nd [? _]; auto|].
  rewrite forwarded_MaxWait. destruct (Z.ltb_spec 0 (r_MaxWait req)); [apply triple_ret; intros nd [? _]; auto|].
  destruct (errIsCtx e) eqn:Hctx; [|apply triple_ret; intros nd [? _]; auto].
  apply (triple_bind _ _ _ (fun c nd => (ctx_errors_are_callers -> is_Some c) /\
    frame hs us (cs ++ [(peer, forwarded req)]) nd)).
  { intros nd [Hf Hcall]. eexists _, _. split; [reflexivity|]. split; [by intros Hcc; eapply Hcall|].
    destruct Hf as [[? ?] ? ? ?]. by constructor. }
  intros c. cbv beta. apply triple_pure. intros Hdone. destruct c as [ce|]; [by apply triple_ret|].
  eapply triple_bind; [apply count_frame|]. intros ?; cbv beta.
  eapply triple_bind; [apply GetPeer_frame|]. intros [peer'|pe]; cbv beta.
  - eapply triple_post; [|apply IH; lia]. intros resp nd (us' & l & Hf & Hall & Hlen & _ & _).
    exists us', ((peer, forwarded req) :: l). rewrite <- app_assoc in Hf. split; [done|].
    split; [by constructor|]. split; [simpl; lia|]. split; [by eexists|].
    intros [?|Hcc]; [lia|]. by destruct (Hdone Hcc).
  - eapply triple_bind; [apply countNodeError_frame|]. intros ?. apply triple_ret. auto.
Qed.

Lemma asyncRequest_frame (key : string) (peer : Peer) (req : RateLimitReq) hs us cs :
  is_Some (r_CreatedAt req) ->
  triple (frame hs us cs) (asyncRequest Info conf su key peer req) (fun _ => forwardedTo hs cs 6 peer req).
Proof.
  intros Hc. eapply triple_bind; [apply asyncLoop_frame; [done|lia]|]. intros resp; cbv beta.
  assert (forall m : M N unit, (forall us l, triple (frame hs us (cs ++ l)) m (fun _ => frame hs us (cs ++ l))) ->
    triple (forwardedTo hs cs 6 peer req) m (fun _ => forwardedTo hs cs 6 peer req)) as Hkeep.
  { intros m Hm nd (us' & l & Hf & Ha). destruct (Hm us' l nd Hf) as (a & nd' & Hr & Hf').
    exists a, nd'. split; [done|]. by exists us', l. }
  eapply triple_bind.
  { intros nd (us' & l & Hf & Ha). destruct (consult_frame (su_ctx su) _ _ _ nd Hf) as (c & nd' & Hr & Hf').
    exists c, nd'. split; [exact Hr|]. instantiate (1 := fun _ => forwardedTo hs cs 6 peer req). by exists us', l. }
  intros c; cbv beta.
  apply (triple_bind _ _ _ (fun _ => forwardedTo hs cs 6 peer req)); [|intros ?; by apply triple_ret].
  apply Hkeep. intros us' l. destruct c as [e|]; [|by apply triple_ret].
  destruct (err_is_deadline e); [apply count_frame|by apply triple_ret].
Qed.

(** C18: Forwarding terminates and is bounded: a request is sent to its owner at least
    once and at most six times, always unchanged but for NO_BATCHING; a max_wait request,
    which books tokens, is sent exactly once whatever happens. No hit is queued. *)
Theorem forward_bounded (nd : N) (key : string) (peer : Peer) (req : RateLimitReq)
    (Hok : node_ok nd) (Hc : is_Some (r_CreatedAt req)) :
  exists resp nd' l, asyncRequest Info conf su key peer req nd = Ret (resp, nd') /\ node_ok nd' /\
    nd_hits nd' = nd_hits nd /\ nd_calls nd' = nd_calls nd ++ (peer, forwarded req) :: l /\
    (length l <= 5)%nat /\ Forall (fun c => c.2 = forwarded req) l /\ (0 < r_MaxWait req -> l = []).
Proof.
  destruct (asyncRequest_frame key peer req _ _ _ Hc nd (frame_start nd Hok))
    as (resp & nd' & Hr & us & l & [] & Hall & Hlen & Hhd & Hmw).
  destruct (Hhd eq_refl) as [l' ->]. exists resp, nd', l'. simpl in Hlen. apply Forall_cons in Hall as [_ Hall].
  do 4 (split; [done|]). split; [lia|]. split; [done|]. intros Hw. specialize (Hmw (or_introl Hw)).
  simpl in Hmw. by destruct l'; [|simpl in Hmw; lia].
Qed.

(** When context errors come only from the caller's own context, as they do when
    calls to other members fail with gRPC statuses, nothing is ever retried: every
    forwarded request is sent exactly once. *)
Theorem forward_not_retried (nd : N) (key : string) (peer : Peer) (req : RateLimitReq)
    (Hok : node_ok nd) (Hc : is_Some (r_CreatedAt req)) (Hctx : ctx_errors_are_callers) :
  exists resp nd', asyncRequest Info conf su key peer req nd = Ret (resp, nd') /\
    nd_calls nd' = nd_calls nd ++ [(peer, forwarded req)].
Proof.
  destruct (asyncRequest_frame key peer req _ _ _ Hc nd (frame_start nd Hok))
    as (resp & nd' & Hr & us & l & [] & Hall & Hlen & Hhd & Hmw).
  destruct (Hhd eq_refl) as [l' ->]. exists resp, nd'. split; [done|].
  specialize (Hmw (or_intror Hctx)). by destruct l'; [|simpl in Hmw; lia].
Qed.
End Node.

(** ** Whole calls *)

(** Answers are put in their places. *)
Lemma place_other (outs : list (nat * RateLimitResp)) (rs : list (option RateLimitResp)) (i : nat) :
  i ∉ outs.*1 -> place outs rs !! i = rs !! i.
Proof.
  revert rs. unfold place. induction outs as [|[j rl] outs IH]; intros rs Hi; [done|].
  rewrite fmap_cons in Hi. apply not_elem_of_cons in Hi as [Hne Hi]. cbn [fold_left fst snd] in *.
  rewrite IH by done. by apply list_lookup_insert_ne.
Qed.

Lemma place_length (outs : list (nat * RateLimitResp)) (rs : list (option RateLimitResp)) :
  length (place outs rs) = length rs.
Proof.
  revert rs. unfold place. induction outs as [|o outs IH]; intros rs; [done|]. cbn [fold_left].
  by rewrite IH, length_insert.
Qed.

Lemma place_at (outs : list (nat * RateLimitResp)) (rs : list (option RateLimitResp)) (i : nat) (rl : RateLimitResp) :
  NoDup outs.*1 -> (i, rl) ∈ outs -> (i < length rs)%nat -> place outs rs !! i = Some (Some rl).
Proof.
  revert rs. induction outs as [|[j rl'] outs IH]; intros rs Hnd Hin Hlt; [by apply not_elem_of_nil in Hin|].
  rewrite fmap_cons in Hnd. apply NoDup_cons in Hnd as [Hj Hnd]. apply elem_of_cons in Hin as [[= <- <-]|Hin].
  - change (place outs (<[i:=Some rl]> rs) !! i = Some (Some rl)). rewrite place_other by done.
    by apply list_lookup_insert_eq.
  - change (place outs (<[j:=Some rl']> rs) !! i = Some (Some rl)). apply IH; [done..|]. by rewrite length_insert.
Qed.

Lemma imap_fst_seq {A} (l : list A) : (imap pair l).*1 = seq 0 (length l).
Proof.
  apply list_eq. intros i. rewrite list_lookup_fmap, list_lookup_imap.
  destruct (l !! i) as [x|] eqn:E; simpl.
  - symmetry. apply lookup_seq. apply lookup_lt_Some in E. lia.
  - symmetry. apply lookup_seq_ge. by apply lookup_ge_None.
Qed.

(** Places that are all filled hold a list of answers. *)
Lemma all_filled {A B} (R : A -> B -> Prop) (xs : list A) (ys : list (option B)) :
  length ys = length xs -> (forall i x, xs !! i = Some x -> exists y, ys !! i = Some (Some y) /\ R x y) ->
  exists bs, ys = Some <$> bs /\ Forall2 R xs bs.
Proof.
  revert ys. induction xs as [|x xs IH]; intros [|y ys] Hl Hall; simplify_eq/=; [by exists []|].
  destruct (Hall 0%nat x eq_refl) as (b & Hb & HR). injection Hb as ->.
  destruct (IH ys Hl) as (bs & -> & Hf); [intros i x' Hi; exact (Hall (S i) x' Hi)|].
  exists (b :: bs). split; [done|by constructor].
Qed.

Section Calls.
Context `{Arch} `{Hash64} {C S : Type} `{CacheLaws C} `{StoreLaws S}.
Context {Peer : Type} (Info : Peer -> PeerInfo) (conf : NodeConf) (su : Surroundings Peer).

Abbreviation N := (Node C S Peer).
Abbreviation slot := (RateLimitResp + Peer * RateLimitReq)%type.

Lemma frame_ok (m : M N unit) : (forall hs us cs, triple (frame hs us cs) m (fun _ => frame hs us cs)) ->
  triple node_ok m (fun _ => node_ok).
Proof.
  intros Hm nd Hok. destruct (Hm _ _ _ nd (frame_start nd Hok)) as (a & nd' & Hr & []). by exists a, nd'.
Qed.

Lemma consult_ok {A} (ask : nat -> A) : triple (node_ok (Peer := Peer)) (consult ask : M N A) (fun _ => node_ok).
Proof.
  intros nd Hok. destruct (consult_frame ask _ _ _ nd (frame_start nd Hok)) as (a & nd' & Hr & []). by exists a, nd'.
Qed.

Lemma count_ok (name : string) : triple (node_ok (Peer := Peer)) (count name : M N unit) (fun _ => node_ok).
Proof. apply frame_ok. intros. apply count_frame. Qed.

Lemma GetPeer_ok (key : string) : triple (node_ok (Peer := Peer)) (GetPeer su key : M N _) (fun _ => node_ok).
Proof. eapply triple_bind; [apply consult_ok|]. intros ?. by apply triple_ret. Qed.

Lemma now_ok : triple (node_ok (Peer := Peer)) (onPool (onProcess MillisecondNow) : M N Z) (fun _ => node_ok).
Proof.
  intros nd Hok. destruct (process_frame _ _ _ _ MillisecondNow_calm nd (frame_start nd Hok)) as (a & nd' & Hr & []).
  by exists a, nd'.
Qed.

Lemma local_ok (r : RateLimitReq) (st : RateLimitReqState) : is_Some (r_CreatedAt r) ->
  triple node_ok (getLocalRateLimit conf su r st : M N _) (fun _ => node_ok).
Proof.
  intros Hc nd Hok. destruct (getLocalRateLimit_frame conf su r st _ _ _ Hc nd (frame_start nd Hok)) as (a & nd' & Hr & []).
  by exists a, nd'.
Qed.

Lemma global_ok (r : RateLimitReq) : is_Some (r_CreatedAt r) ->
  triple node_ok (getGlobalRateLimit conf su r : M N _) (fun _ => node_ok).
Proof.
  intros Hc nd Hok. destruct (getGlobalRateLimit_frame conf su r _ _ _ Hc nd (frame_start nd Hok)) as (a & nd' & Hr & []).
  by exists a, nd'.
Qed.

Lemma async_ok (key : string) (peer : Peer) (r : RateLimitReq) : is_Some (r_CreatedAt r) ->
  triple node_ok (asyncRequest Info conf su key peer r : M N _) (fun _ => node_ok).
Proof.
  intros Hc nd Hok. destruct (asyncRequest_frame Info conf su key peer r _ _ _ Hc nd (frame_start nd Hok))
    as (a & nd' & Hr & us & l & [] & _). by exists a, nd'.
Qed.

(** What a round of the loop leaves to forward. *)
Definition slot_ok (req : RateLimitReq) (s : slot) : Prop :=
  match s with
  | inl rl => (r_UniqueKey req = "" -> rl = respError "field 'unique_key' cannot be empty") /\
              (r_UniqueKey req <> "" -> r_Name req = "" -> rl = respError "field 'namespace' cannot be empty")
  | inr (peer, req') => is_Some (r_CreatedAt req') /\ HashKey req' = HashKey req /\
                        r_UniqueKey req <> "" /\ r_Name req <> "" /\ pi_IsOwner (Info peer) = false
  end.

Lemma withCreatedAt_fields (c : Z) (req : RateLimitReq) :
  is_Some (r_CreatedAt (forceGlobal conf (withCreatedAt c req))) /\
  HashKey (forceGlobal conf (withCreatedAt c req)) = HashKey req.
Proof.
  unfold forceGlobal, withCreatedAt, HashKey.
  destruct (r_CreatedAt req) as [c0|] eqn:E; [destruct (c0 =? 0)|]; destruct (nc_ForceGlobal conf); simpl; rewrite ?E; eauto.
Qed.

Lemma checkOne_ok (c : Z) (req : RateLimitReq) :
  triple node_ok (checkOne Info conf su c req : M N slot) (fun s nd => slot_ok req s /\ node_ok nd).
Proof.
  unfold checkOne. destruct (String.eqb_spec (r_UniqueKey req) "") as [Hu|Hu].
  { eapply triple_bind; [apply count_ok|]. intros ?. apply triple_ret. done. }
  destruct (String.eqb_spec (r_Name req) "") as [Hn|Hn].
  { eapply triple_bind; [apply count_ok|]. intros ?. apply triple_ret. done. }
  assert (forall rl, slot_ok req (inl rl)) as Hinl by done.
  destruct (withCreatedAt_fields c req) as [Hc Hk]. set (req' := forceGlobal conf (withCreatedAt c req)) in *.
  eapply triple_bind; [apply consult_ok|]. intros [e|]; cbv beta; [by apply triple_ret|].
  destruct (negb _); [eapply triple_bind; [apply count_ok|]; intros ?; by apply triple_ret|].
  eapply triple_bind; [apply GetPeer_ok|]. intros [peer|e]; cbv beta.
  - destruct (pi_IsOwner (Info peer)) eqn:Ho.
    { eapply triple_bind; [by apply local_ok|]. intros ?. by apply triple_ret. }
    destruct (HasBehavior _ _); [eapply triple_bind; [by apply global_ok|]; intros ?; by apply triple_ret|].
    by apply triple_ret.
  - eapply triple_bind; [apply frame_ok; intros; apply countNodeError_frame|]. intros ?. by apply triple_ret.
Qed.

(** [slot] is what a round of the loop made of [req]. *)
Definition checked (c : Z) (req : RateLimitReq) (s : slot) : Prop :=
  slot_ok req s /\ exists nd1 nd2 : N, checkOne Info conf su c req nd1 = Ret (s, nd2).

Lemma checkAll_ok (c : Z) (reqs : list RateLimitReq) :
  triple node_ok (checkAll Info conf su c reqs : M N _)
    (fun slots nd => Forall2 (checked c) reqs slots /\ node_ok nd).
Proof.
  induction reqs as [|r reqs IH]; cbn [checkAll]; [by apply triple_ret|].
  intros nd Hok. destruct (checkOne_ok c r nd Hok) as (s & nd1 & Hr & Hs & Hok1).
  destruct (IH nd1 Hok1) as (slots & nd2 & Hr2 & Hall & Hok2). exists (s :: slots), nd2.
  rewrite (bind_ret_run _ _ _ _ _ Hr), (bind_ret_run _ _ _ _ _ Hr2). split; [done|]. split; [|done].
  constructor; [|done]. split; [done|]. by exists nd, nd1.
Qed.

(** [rl] is an answer to a request that was forwarded. *)
Definition fetched (t : nat * (Peer * RateLimitReq)) (o : nat * RateLimitResp) : Prop :=
  o.1 = t.1 /\ exists nd1 nd2 : N, asyncRequest Info conf su (HashKey t.2.2) t.2.1 t.2.2 nd1 = Ret (o.2, nd2).

Lemma runAsync_ok (tasks : list (nat * (Peer * RateLimitReq))) :
  Forall (fun t => is_Some (r_CreatedAt t.2.2)) tasks ->
  triple node_ok (runAsync Info conf su tasks : M N _) (fun outs nd => Forall2 fetched tasks outs /\ node_ok nd).
Proof.
  induction tasks as [|[i [peer r]] tasks IH]; intros Hc; cbn [runAsync]; [by apply triple_ret|].
  apply Forall_cons in Hc as [Hc Hall]. intros nd Hok.
  destruct (async_ok (HashKey r) peer r Hc nd Hok) as (rl & nd1 & Hr & Hok1).
  destruct (IH Hall nd1 Hok1) as (outs & nd2 & Hr2 & Hf & Hok2). exists ((i, rl) :: outs), nd2.
  rewrite (bind_ret_run _ _ _ _ _ Hr), (bind_ret_run _ _ _ _ _ Hr2). split; [done|]. split; [|done].
  constructor; [|done]. split; [done|]. by exists nd, nd1.
Qed.

Lemma elem_of_asyncTasks (slots : list slot) (i : nat) (t : Peer * RateLimitReq) :
  (i, t) ∈ asyncTasks slots <-> slots !! i = Some (inr t).
Proof.
  unfold asyncTasks. rewrite list_elem_of_omap. split.
  - intros ([j s] & Hin & Hs). simpl in Hs. destruct s as [rl|t']; [done|]. injection Hs as <- <-.
    apply list_elem_of_lookup in Hin as (k & Hk). rewrite list_lookup_imap in Hk.
    destruct (slots !! k) as [s|] eqn:E; [|done]. injection Hk as <- ->. done.
  - intros Hi. exists (i, inr t). split; [|done]. apply list_elem_of_lookup. exists i.
    by rewrite list_lookup_imap, Hi.
Qed.

Lemma NoDup_asyncTasks (slots : list slot) : NoDup (asyncTasks slots).*1.
Proof.
  unfold asyncTasks. set (f := fun ix : nat * slot => _).
  assert (forall l : list (nat * slot), NoDup l.*1 -> NoDup (omap f l).*1 /\ forall i, i ∈ (omap f l).*1 -> i ∈ l.*1) as Hgen.
  { induction l as [|[j s] l IH]; intros Hnd; [done|]. rewrite fmap_cons in *. apply NoDup_cons in Hnd as [Hj Hnd].
    destruct (IH Hnd) as [Hn Hsub]. rewrite omap_cons. destruct s as [rl|t]; simpl.
    - split; [done|]. intros i Hi. apply elem_of_cons. by right; apply Hsub.
    - split; [apply NoDup_cons; split; [by intros ?%Hsub|done]|].
      intros i [->|Hi]%elem_of_cons; apply elem_of_cons; [by left|by right; apply Hsub]. }
  apply Hgen. rewrite imap_fst_seq. apply NoDup_seq.
Qed.

(** [rl] answers [req]: the loop of [GetRateLimits] answered it, or it was forwarded and
    this came back. *)
Definition answers (c : Z) (req : RateLimitReq) (rl : RateLimitResp) : Prop :=
  checked c req (inl rl) \/
  exists peer req', checked c req (inr (peer, req')) /\
    exists nd1 nd2 : N, asyncRequest Info conf su (HashKey req') peer req' nd1 = Ret (rl, nd2).

Lemma fetched_fst (tasks : list (nat * (Peer * RateLimitReq))) (outs : list (nat * RateLimitResp)) :
  Forall2 fetched tasks outs -> outs.*1 = tasks.*1.
Proof. induction 1 as [|t o tasks outs [He _] _ IH]; [done|]. by rewrite !fmap_cons, He, IH. Qed.

Lemma placed_answers (c : Z) (reqs : list RateLimitReq) (slots : list slot)
    (tasks : list (nat * (Peer * RateLimitReq))) (outs : list (nat * RateLimitResp)) :
  Forall2 (checked c) reqs slots -> tasks ≡ₚ asyncTasks slots -> Forall2 fetched tasks outs ->
  exists resps, place outs ((fun s => match s with inl rl => Some rl | inr _ => None end) <$> slots) = Some <$> resps /\
    Forall2 (answers c) reqs resps.
Proof.
  intros Hchk Hperm Hout.
  assert (NoDup outs.*1) as Hnd by (rewrite (fetched_fst _ _ Hout), Hperm; apply NoDup_asyncTasks).
  apply all_filled; [by rewrite place_length, length_fmap, (Forall2_length _ _ _ Hchk)|].
  intros i req Hi. destruct (Forall2_lookup_l _ _ _ _ _ Hchk Hi) as (s & Hs & Hc). destruct s as [rl|[peer req']].
  - exists rl. split; [|by left]. rewrite place_other; [by rewrite list_lookup_fmap, Hs|].
    rewrite (fetched_fst _ _ Hout), Hperm. intros ([j t] & -> & Hin)%list_elem_of_fmap.
    apply elem_of_asyncTasks in Hin. simpl in Hs. congruence.
  - assert ((i, (peer, req')) ∈ tasks) as Hin by (rewrite Hperm; by apply elem_of_asyncTasks).
    apply list_elem_of_lookup in Hin as (k & Hk). destruct (Forall2_lookup_l _ _ _ _ _ Hout Hk) as ([j rl] & Ho & Hj & Hf).
    simpl in Hj, Hf. subst j. exists rl. split; [|right; by exists peer, req'].
    apply place_at; [done|by eapply list_elem_of_lookup_2|]. rewrite length_fmap. by eapply lookup_lt_Some.
Qed.

(** A call with up to a thousand requests is answered completely and in order: it
    does not panic, and place [i] of the reply holds the answer to request [i],
    whatever other members and contexts do and in whatever order the forwarded requests
    finish. A request without a key or without a name gets its own error and spoils no
    other. *)
Theorem get_rate_limits_in_order (nd : N) (reqs : list RateLimitReq)
    (order : list (nat * (Peer * RateLimitReq)) -> list (nat * (Peer * RateLimitReq)))
    (Hok : node_ok nd) (Hlen : (length reqs <= maxBatchSize)%nat) (Horder : forall ts, order ts ≡ₚ ts) :
  exists c resps nd', GetRateLimits Info conf su order reqs nd = Ret (Ok (Some <$> resps), nd') /\
    node_ok nd' /\ Forall2 (answers c) reqs resps.
Proof.
  unfold GetRateLimits. destruct (Nat.ltb_spec maxBatchSize (length reqs)); [lia|].
  destruct (now_ok nd Hok) as (c & nd1 & Hr1 & Hok1). rewrite (bind_ret_run _ _ _ _ _ Hr1).
  destruct (checkAll_ok c reqs nd1 Hok1) as (slots & nd2 & Hr2 & Hchk & Hok2). rewrite (bind_ret_run _ _ _ _ _ Hr2).
  assert (Forall (fun t => is_Some (r_CreatedAt t.2.2)) (order (asyncTasks slots))) as Hcr.
  { rewrite Horder. apply Forall_forall. intros [i [peer req']] Hin%elem_of_asyncTasks.
    destruct (Forall2_lookup_r _ _ _ _ _ Hchk Hin) as (req & _ & (? & _) & _). done. }
  destruct (runAsync_ok _ Hcr nd2 Hok2) as (outs & nd3 & Hr3 & Hout & Hok3). rewrite (bind_ret_run _ _ _ _ _ Hr3).
  destruct (placed_answers c reqs slots _ outs Hchk (Horder _) Hout) as (resps & -> & Hans).
  exists c, resps, nd3. done.
Qed.

(** ** Requests of other members *)

(** [rl] is what evaluating [r] as its owner answered. *)
Definition evaluated (r : RateLimitReq) (rl : RateLimitResp) : Prop :=
  exists nd1 nd2 : N, peerOne conf su r nd1 = Ret (rl, nd2).

Lemma peerOne_ok (r : RateLimitReq) : triple node_ok (peerOne conf su r : M N _) (fun _ => node_ok).
Proof.
  apply (triple_bind _ _ _ (fun r' nd => is_Some (r_CreatedAt r') /\ node_ok nd)).
  - set (r0 := drainGlobal r).
    assert (triple node_ok (t ← onPool (onProcess MillisecondNow); mret (with_CreatedAt (Some t) r0) : M N _)
      (fun r' nd => is_Some (r_CreatedAt r') /\ node_ok nd)) as Hnow.
    { eapply triple_bind; [apply now_ok|]. intros t. apply triple_ret. intros nd Hok. split; [by eexists|done]. }
    destruct (r_CreatedAt r0) as [c|] eqn:E; [|done]. destruct (c =? 0); [done|].
    apply triple_ret. intros nd Hok. split; [by eexists|done].
  - intros r'. apply triple_pure. intros Hc. eapply triple_bind; [by apply local_ok|]. intros ?. by apply triple_ret.
Qed.

Lemma runFan_ok (tasks : list (nat * RateLimitReq)) :
  triple node_ok (runFan conf su tasks : M N _)
    (fun outs nd => Forall2 (fun t o => o.1 = t.1 /\ evaluated t.2 o.2) tasks outs /\ node_ok nd).
Proof.
  induction tasks as [|[i r] tasks IH]; cbn [runFan]; [by apply triple_ret|]. intros nd Hok.
  destruct (peerOne_ok r nd Hok) as (rl & nd1 & Hr & Hok1).
  destruct (IH nd1 Hok1) as (outs & nd2 & Hr2 & Hf & Hok2). exists ((i, rl) :: outs), nd2.
  rewrite (bind_ret_run _ _ _ _ _ Hr), (bind_ret_run _ _ _ _ _ Hr2). split; [done|]. split; [|done].
  constructor; [|done]. split; [done|]. by exists nd, nd1.
Qed.

(** A call from another member with up to a thousand requests is answered completely
    and in order, whatever the order in which its requests are run: place [i] of the
    reply is the evaluation of request [i] as its owner. *)
Theorem get_peer_rate_limits_in_order (nd : N) (reqs : list RateLimitReq)
    (order : list (nat * RateLimitReq) -> list (nat * RateLimitReq))
    (Hok : node_ok nd) (Hlen : (length reqs <= maxBatchSize)%nat) (Horder : forall ts, order ts ≡ₚ ts) :
  exists resps nd', GetPeerRateLimits conf su order reqs nd = Ret (Ok (Some <$> resps), nd') /\
    node_ok nd' /\ Forall2 evaluated reqs resps.
Proof.
  unfold GetPeerRateLimits. destruct (Nat.ltb_spec maxBatchSize (length reqs)); [lia|].
  destruct (runFan_ok (order (imap pair reqs)) nd Hok) as (outs & nd1 & Hr & Hout & Hok1).
  rewrite (bind_ret_run _ _ _ _ _ Hr).
  assert (outs.*1 ≡ₚ seq 0 (length reqs)) as Hids.
  { rewrite <- (imap_fst_seq reqs), <- (Horder (imap pair reqs)).
    clear -Hout. induction Hout as [|t o ts os [He _] _ IH]; [done|]. by rewrite !fmap_cons, He, IH. }
  destruct (all_filled evaluated reqs (place outs (replicate (length reqs) None))) as (resps & -> & Hall).
  - by rewrite place_length, length_replicate.
  - intros i r Hi. assert ((i, r) ∈ order (imap pair reqs)) as Hin.
    { rewrite Horder. apply list_elem_of_lookup. exists i. by rewrite list_lookup_imap, Hi. }
    apply list_elem_of_lookup in Hin as (k & Hk). destruct (Forall2_lookup_l _ _ _ _ _ Hout Hk) as ([j rl] & Ho & Hj & He).
    simpl in Hj, He. subst j. exists rl. split; [|done].
    apply place_at; [rewrite Hids; apply NoDup_seq|by eapply list_elem_of_lookup_2|].
    rewrite length_replicate. by eapply lookup_lt_Some.
  - exists resps, nd1. done.
Qed.
End Calls.

(** ** Examples *)

Definition demoNode : Node LRUCache MockStore PeerInfo := mkNode (demoPool tokenWorld) [] [] [] [] 0.

Lemma demoNode_ok : node_ok demoNode.
Proof.
  destruct (tokenWorld_live (demoReq TOKEN_BUCKET 4 2000) eq_refl) as (Hw & _).
  constructor; [by apply demoPool_ok|]. intros k. unfold has_worker, workerIndex. simpl length.
  pose proof (ComputeHash63_range k) as Hk. change (po_hashRingStep (nd_pool demoNode)) with (2 ^ 60).
  assert (ComputeHash63 k / 2 ^ 60 < 8) by (apply Z.div_lt_upper_bound; lia).
  assert (0 <= ComputeHash63 k / 2 ^ 60) by (apply Z.div_pos; lia). lia.
Qed.

(** Another member owns every key, and its connection is closing. *)
Definition farOwner : PeerInfo := mkPeerInfo "" "10.0.0.2:80" "10.0.0.2:81" false.

Definition closingPeer : Surroundings PeerInfo :=
  mkSurroundings (fun _ _ => Ok farOwner)
    (fun _ _ r => GetPeerRateLimit (EC := listErrs) (mkPeerClient "10.0.0.2:81" false 100 true false ec_New 0) r None None
                    (CtxDone Canceled))
    (fun _ => None) (fun _ => None) (fun _ => true).

Definition plainConf : NodeConf := mkNodeConf false false.

Definition globalReq (hits : Z) : RateLimitReq := with_Behavior GLOBAL (demoReq TOKEN_BUCKET hits 2000).

Lemma local_queues_updates_witness : exists res nd',
  getLocalRateLimit (H := amd64) plainConf closingPeer (globalReq 1) owner demoNode = Ret (res, nd') /\
  nd_updates nd' = updatesOf (globalReq 1) res.
Proof.
  destruct (local_queues_updates (H := amd64) plainConf closingPeer demoNode (globalReq 1) owner demoNode_ok
    (mk_is_Some _ _ eq_refl)) as (res & nd' & Hr & _ & _ & _ & Hu).
  exists res, nd'. split; [exact Hr|exact Hu].
Defined.

Lemma global_answers_locally_witness : exists res nd',
  getGlobalRateLimit (H := amd64) plainConf closingPeer (globalReq 1) demoNode = Ret (res, nd') /\
  nd_calls nd' = [].
Proof.
  destruct (global_answers_locally (H := amd64) plainConf closingPeer demoNode (globalReq 1) demoNode_ok
    (mk_is_Some _ _ eq_refl)) as (res & nd' & Hr & _ & Hc & _).
  exists res, nd'. split; [exact Hr|exact Hc].
Defined.

Definition waitingReq : RateLimitReq :=
  mkReq "requests_per_min" "account:1234" 1 10 60000 LEAKY_BUCKET BATCHING 0 ∅ (Some 2000) 500.

Lemma forward_bounded_witness : exists resp nd',
  asyncRequest (H := amd64) (fun p => p) plainConf closingPeer (HashKey waitingReq) farOwner waitingReq demoNode = Ret (resp, nd') /\
  nd_calls nd' = [(farOwner, forwarded waitingReq)].
Proof.
  destruct (forward_bounded (H := amd64) (fun p => p) plainConf closingPeer demoNode (HashKey waitingReq) farOwner waitingReq
    demoNode_ok (mk_is_Some _ _ eq_refl)) as (resp & nd' & l & Hr & _ & _ & Hc & _ & _ & Hl).
  exists resp, nd'. split; [exact Hr|]. rewrite Hc, Hl; reflexivity.
Defined.

Lemma forward_not_retried_witness : exists resp nd',
  asyncRequest (H := amd64) (fun p => p) plainConf closingPeer demoKey farOwner (demoReq TOKEN_BUCKET 1 2000) demoNode = Ret (resp, nd') /\
  nd_calls nd' = [(farOwner, demoReq TOKEN_BUCKET 1 2000)].
Proof.
  destruct (forward_not_retried (H := amd64) (fun p => p) plainConf closingPeer demoNode demoKey farOwner
    (demoReq TOKEN_BUCKET 1 2000) demoNode_ok (mk_is_Some _ _ eq_refl)) as (resp & nd' & Hr & Hc).
  { intros n peer r e. simpl. unfold GetPeerRateLimit. simpl. by destruct (HasBehavior _ _); intros [= <-]. }
  exists resp, nd'. split; [exact Hr|exact Hc].
Defined.

Lemma get_rate_limits_in_order_witness : exists resps nd',
  GetRateLimits (H := amd64) (fun p => p) plainConf closingPeer (@rev _)
    [demoReq TOKEN_BUCKET 1 2000; mkReq "" "k" 1 10 1000 TOKEN_BUCKET BATCHING 0 ∅ None 0] demoNode =
    Ret (Ok (Some <$> resps), nd') /\ length resps = 2%nat.
Proof.
  destruct (get_rate_limits_in_order (H := amd64) (fun p => p) plainConf closingPeer demoNode
    [demoReq TOKEN_BUCKET 1 2000; mkReq "" "k" 1 10 1000 TOKEN_BUCKET BATCHING 0 ∅ None 0] (@rev _) demoNode_ok)
    as (c & resps & nd' & Hr & _ & Hall).
  { apply Nat.leb_le. vm_compute. reflexivity. }
  { intros ts. symmetry. apply Permutation_rev. }
  exists resps, nd'. split; [exact Hr|]. by rewrite <- (Forall2_length _ _ _ Hall).
Defined.

Lemma get_peer_rate_limits_in_order_witness : exists resps nd',
  GetPeerRateLimits (H := amd64) plainConf closingPeer (@rev _) [demoReq TOKEN_BUCKET 1 2000; globalReq 2] demoNode =
    Ret (Ok (Some <$> resps), nd') /\ length resps = 2%nat.
Proof.
  destruct (get_peer_rate_limits_in_order (H := amd64) plainConf closingPeer demoNode
    [demoReq TOKEN_BUCKET 1 2000; globalReq 2] (@rev _) demoNode_ok) as (resps & nd' & Hr & _ & Hall).
  { apply Nat.leb_le. vm_compute. reflexivity. }
  { intros ts. symmetry. apply Permutation_rev. }
  exists resps, nd'. split; [exact Hr|]. by rewrite <- (Forall2_length _ _ _ Hall).
Defined.
