(* ===== verification/Goroutine.v ===== *)
(** * Goroutines as programs

    A goroutine that shares its state with others is a tree of actions, each of which runs
    at once, with what is done after each answer. Run alone it is a function of the monad
    [M]; among others, any of their actions may come between two of its own. [spends] is
    the logic for that: every action finds an invariant and leaves it, the actions are
    bounded in number, and what they take from a shared budget is charged to the goroutine
    that takes it. *)

From stdpp Require Import base list.
From Stdlib Require Import ZArith Lia.
From S2P Require Import Prelude Runtime.

Local Open Scope Z_scope.

(** ** Programs *)

Inductive Prog (St A : Type) : Type :=
  | Done (a : A)
  | Act {B : Type} (m : M St B) (k : B -> Prog St A).
Arguments Done {St A} a.
Arguments Act {St A B} m k.

Fixpoint bindProg {St A B} (f : A -> Prog St B) (p : Prog St A) : Prog St B :=
  match p with
  | Done a => f a
  | Act m k => Act m (fun b => bindProg f (k b))
  end.

#[global] Instance Prog_ret {St} : MRet (Prog St) := fun A a => Done a.
#[global] Instance Prog_bind {St} : MBind (Prog St) := fun A B f p => bindProg f p.

(** One action. *)
Definition atomic {St A} (m : M St A) : Prog St A := Act m Done.

(** The program with nothing in between. *)
Fixpoint alone {St A} (p : Prog St A) : M St A :=
  match p with
  | Done a => mret a
  | Act m k => b ← m; alone (k b)
  end.

Lemma alone_bind {St A B} (p : Prog St A) (f : A -> Prog St B) (s : St) :
  alone (p ≫= f) s = (alone p ≫= fun a => alone (f a)) s.
Proof.
  revert s. induction p as [a|B0 m k IH]; intros s; [done|].
  change (alone (Act m k ≫= f) s) with ((m ≫= fun b => alone (k b ≫= f)) s).
  change (alone (Act m k)) with (m ≫= fun b => alone (k b)). rewrite bind_assoc. unfold mbind at 1 3, M_bind.
  destruct (m s) as [[b s']|]; [apply IH|done].
Qed.

Lemma alone_atomic {St A} (m : M St A) (s : St) : alone (atomic m) s = m s.
Proof. unfold atomic. cbn [alone]. unfold mbind, M_bind. by destruct (m s) as [[a s']|]. Qed.

Lemma alone_ret {St A} (a : A) (s : St) : alone (mret a : Prog St A) s = (mret a : M St A) s.
Proof. done. Qed.

(** Two sequences agree when their parts do. *)
Lemma bind_ext {St A B} (m m' : M St A) (f f' : A -> M St B) (s : St) :
  (forall s, m s = m' s) -> (forall a s, f a s = f' a s) -> (m ≫= f) s = (m' ≫= f') s.
Proof. intros Hm Hf. unfold mbind, M_bind. rewrite Hm. destruct (m' s) as [[a s']|]; [apply Hf|done]. Qed.

(** A result some course of the program ends with. *)
Inductive yields {St A} : Prog St A -> A -> Prop :=
  | yields_done a : yields (Done a) a
  | yields_act {B} (m : M St B) k s b s' a : m s = Ret (b, s') -> yields (k b) a -> yields (Act m k) a.

(** ** A logic for programs among others *)

Section Logic.
Context {St : Type}.
(** The invariant, for what is left of the budget, as long as the state is in [K]. *)
Context (K : St -> Prop) (I : Z -> St -> Prop).

(** [spends p n c Q]: [p] takes at most [n] actions; each of them runs from every state of
    the invariant, takes something from the budget and leaves the invariant; the result is
    in [Q] together with what was taken, [c] before [p]. *)
Fixpoint spends {A} (p : Prog St A) (n : nat) (c : Z) (Q : A -> Z -> Prop) : Prop :=
  match p with
  | Done a => Q a c
  | Act m k =>
      match n with
      | O => False
      | S n =>
          forall rem s, I rem s -> exists b s' d,
            m s = Ret (b, s') /\ 0 <= d /\ (K s' -> I (rem - d) s') /\ spends (k b) n (c + d) Q
      end
  end.

Lemma spends_ret {A} (a : A) (n : nat) (c : Z) (Q : A -> Z -> Prop) : Q a c -> spends (mret a) n c Q.
Proof. done. Qed.

Lemma spends_weaken {A} (p : Prog St A) (n n' : nat) (c : Z) (Q Q' : A -> Z -> Prop) :
  spends p n c Q -> (n <= n')%nat -> (forall a c', c <= c' -> Q a c' -> Q' a c') -> spends p n' c Q'.
Proof.
  revert n n' c Q'. induction p as [a|B m k IH]; intros n n' c Q' Hp Hn HQ; simpl in *; [apply HQ; [lia|done]|].
  destruct n as [|n]; [done|]. destruct n' as [|n']; [lia|]. intros rem s HI.
  destruct (Hp rem s HI) as (b & s' & d & Hm & Hd & HI' & Hk). exists b, s', d. split_and!; [done..|].
  eapply IH; [exact Hk|lia|]. intros a c' Hc. apply HQ. lia.
Qed.

Lemma spends_bind {A B} (p : Prog St A) (f : A -> Prog St B) (n1 n2 n : nat) (c : Z)
    (R : A -> Z -> Prop) (Q : B -> Z -> Prop) :
  spends p n1 c R -> (forall a c', c <= c' -> R a c' -> spends (f a) n2 c' Q) -> (n1 + n2 <= n)%nat ->
  spends (p ≫= f) n c Q.
Proof.
  revert n1 n c. induction p as [a|B0 m k IH]; intros n1 n c Hp Hf Hn; simpl in *.
  - eapply spends_weaken; [apply (Hf a c); [lia|done]|lia|done].
  - destruct n1 as [|n1]; [done|]. destruct n as [|n]; [lia|]. intros rem s HI.
    destruct (Hp rem s HI) as (b & s' & d & Hm & Hd & HI' & Hk). exists b, s', d. split_and!; [done..|].
    eapply IH; [exact Hk| |lia]. intros a c' Hc. apply Hf. lia.
Qed.

Lemma spends_atomic {A} (m : M St A) (n : nat) (c : Z) (Q : A -> Z -> Prop) : (1 <= n)%nat ->
  (forall rem s, I rem s -> exists b s' d, m s = Ret (b, s') /\ 0 <= d /\ (K s' -> I (rem - d) s') /\ Q b (c + d)) ->
  spends (atomic m) n c Q.
Proof. intros Hn Hm. destruct n as [|n]; [lia|]. exact Hm. Qed.

(** An action that keeps the invariant and takes nothing. *)
Lemma spends_free {A} (m : M St A) (n : nat) (c : Z) (Q : A -> Z -> Prop) : (1 <= n)%nat ->
  (forall rem, triple (I rem) m (fun a s => I rem s /\ Q a c)) -> spends (atomic m) n c Q.
Proof.
  intros Hn Hm. apply spends_atomic; [done|]. intros rem s HI. destruct (Hm rem s HI) as (a & s' & Hr & HI' & HQ).
  exists a, s', 0. rewrite Z.sub_0_r, Z.add_0_r. split_and!; [done|lia|done|done].
Qed.

(** A result is one the program yields. *)
Lemma spends_yields {A} (p : Prog St A) (n : nat) (c : Z) (Q : A -> Z -> Prop) :
  spends p n c Q -> spends p n c (fun a c' => Q a c' /\ yields p a).
Proof.
  revert n c. induction p as [a|B m k IH]; intros n c Hp; simpl in *; [split; [done|constructor]|].
  destruct n as [|n]; [done|]. intros rem s HI.
  destruct (Hp rem s HI) as (b & s' & d & Hm & Hd & HI' & Hk). exists b, s', d. split_and!; [done..|].
  eapply spends_weaken; [apply IH, Hk|done|]. intros a c' _ [HQ Hy]. split; [done|]. by econstructor.
Qed.
End Logic.
