(* ===== verification/InstanceLoop.v ===== *)
(** * Calls of an instance in flight ([gubernator.go])

    Any number of calls of [GetRateLimits] and [GetPeerRateLimits] run at once on an
    instance: the goroutine of each call, the goroutines that forward its requests or
    evaluate them for another member, and the one that collects answers. They share the
    instance and interleave action by action: a call on the worker pool, a look at the
    ring or at a context, sending a request and receiving its answer, an entry in a queue
    or on the event channel, a counter. *)

From stdpp Require Import base gmap strings list relations.
From Stdlib Require Import ZArith Lia Bool.
From S2P Require Import Prelude Float64 Types GoTime LeakyMath Runtime LRUCache TokenBucket LeakyBucket Workers WorkersSpec ReplicatedHash Global GlobalSpec Instance InstanceSpec Goroutine.

Local Open Scope Z_scope.

(** ** The methods as programs *)

Section Programs.
Context `{Arch} `{Hash64} {C S : Type} `{CacheOps C} `{StoreOps S}.
Context {Peer : Type} (Info : Peer -> PeerInfo) (conf : NodeConf) (su : Surroundings Peer).

Abbreviation N := (Node C S Peer).
Abbreviation slot := (RateLimitResp + Peer * RateLimitReq)%type.

Definition countP (name : string) : Prog N unit := atomic (count name).
Definition ctxErrP : Prog N (option gerror) := atomic (consult (su_ctx su)).

Definition getLocalRateLimitP (r : RateLimitReq) (st : RateLimitReqState) : Prog N (result RateLimitResp) :=
  let msg := validateMaxWait r in
  if negb (String.eqb msg "") then
    countP "gubernator_check_error_counter/Invalid request";; mret (Ok (respError msg))
  else
    res ← atomic (poolGetRateLimit su r st);
    match res with
    | Err e => mret (Err (ErrWrap "during workerPool.GetRateLimit" e))
    | Ok rl =>
        let r := handledReq r in
        (if HasBehavior (r_Behavior r) GLOBAL then atomic (queueUpdate r) else mret tt);;
        (if IsOwner st then
           countP "gubernator_getratelimit_counter/local";;
           (if nc_HasEventChannel conf then atomic (sendEvent su r rl) else mret tt)
         else mret tt);;
        mret (Ok rl)
    end.

Definition getGlobalRateLimitP (req : RateLimitReq) : Prog N (result RateLimitResp) :=
  let b := SetBehavior (r_Behavior req) NO_BATCHING true in
  let b := SetBehavior b GLOBAL false in
  res ← getLocalRateLimitP (with_Behavior b req) (mkReqState false 0);
  match res with
  | Err e => mret (Err (ErrWrap "during in getLocalRateLimit" e))
  | Ok rl =>
      countP "gubernator_getratelimit_counter/global";; atomic (queueHit req);; mret (Ok rl)
  end.

Definition GetPeerP (key : string) : Prog N (result Peer) := atomic (GetPeer su key).

(** The loop of [asyncRequest], as [asyncLoop]; a request is on its way between the two
    actions of its call. *)
Fixpoint asyncLoopP (left : nat) (lastErr : gerror) (key : string) (peer : Peer) (req : RateLimitReq)
    : Prog N RateLimitResp :=
  let again (attempt : Prog N RateLimitResp) :=
    if negb (Nat.eqb left 6) && pi_IsOwner (Info peer) then
      res ← getLocalRateLimitP req (mkReqState true 0);
      mret (match res with
            | Ok rl => rl
            | Err e => respError (err_text (ErrWrap ("during getLocalRateLimit() for '" +:+ key +:+ "'") e))
            end)
    else attempt in
  match left with
  | O =>
      atomic (countNodeError lastErr "Peer not connected");;
      mret (respError (err_text (ErrWrap ("GetPeer() keeps returning peers that are not connected for '"
                                          +:+ key +:+ "'") lastErr)))
  | Datatypes.S left' => again (
      atomic (recordCall peer (forwarded req));;
      res ← atomic (consult (fun n => su_answer su n peer (forwarded req)));
      match res with
      | Ok rl => mret (ownedBy Info peer rl)
      | Err e =>
          let failed := respError (err_text (ErrWrap ("while fetching rate limit '" +:+ key +:+ "' from peer") e)) in
          if 0 <? r_MaxWait (forwarded req) then mret failed
          else if errIsCtx e then
            c ← ctxErrP;
            match c with
            | Some ce => mret (respError (err_text (ErrWrap ("caller gave up on rate limit '" +:+ key +:+ "'") ce)))
            | None =>
                countP ("gubernator_batch_send_retries/" +:+ r_Name req);;
                p ← GetPeerP key;
                match p with
                | Err pe =>
                    atomic (countNodeError pe "during GetPeer()");;
                    mret (respError (err_text (ErrWrap ("while finding peer that owns rate limit '" +:+ key +:+ "'") pe)))
                | Ok peer' => asyncLoopP left' e key peer' req
                end
            end
          else mret failed
      end)
  end.

(** The end of [asyncRequest], after the answer was put on the channel. *)
Definition countTimeoutP : Prog N unit :=
  c ← ctxErrP;
  match c with
  | Some e => if err_is_deadline e then countP "gubernator_check_error_counter/Timeout forwarding to peer" else mret tt
  | None => mret tt
  end.

Definition checkOneP (createdAt : Z) (req : RateLimitReq) : Prog N slot :=
  let key := HashKey req in
  if String.eqb (r_UniqueKey req) "" then
    countP "gubernator_check_error_counter/Invalid request";;
    mret (inl (respError "field 'unique_key' cannot be empty"))
  else if String.eqb (r_Name req) "" then
    countP "gubernator_check_error_counter/Invalid request";;
    mret (inl (respError "field 'namespace' cannot be empty"))
  else
    let req := withCreatedAt createdAt req in
    c ← ctxErrP;
    match c with
    | Some e => mret (inl (respError (err_text (ErrWrap "Error while iterating request items" e))))
    | None =>
        let req := forceGlobal conf req in
        let msg := validateMaxWait req in
        if negb (String.eqb msg "") then
          countP "gubernator_check_error_counter/Invalid request";; mret (inl (respError msg))
        else
          p ← GetPeerP key;
          match p with
          | Err e =>
              atomic (countNodeError e "Error in GetPeer");;
              mret (inl (respError (err_text
                (ErrWrap ("Error in GetPeer, looking up peer that owns rate limit '" +:+ key +:+ "'") e))))
          | Ok peer =>
              if pi_IsOwner (Info peer) then
                res ← getLocalRateLimitP req (mkReqState true 0);
                mret (inl (match res with
                           | Ok rl => rl
                           | Err e => respError (err_text (ErrWrap ("Error while apply rate limit for '" +:+ key +:+ "'") e))
                           end))
              else if HasBehavior (r_Behavior req) GLOBAL then
                res ← getGlobalRateLimitP req;
                mret (inl (ownedBy Info peer (match res with
                                              | Ok rl => rl
                                              | Err e => respError (err_text (ErrWrap "Error in getGlobalRateLimit" e))
                                              end)))
              else mret (inr (peer, req))
          end
    end.

(** One request of another member. *)
Definition peerOneP (r : RateLimitReq) : Prog N RateLimitResp :=
  let r := drainGlobal r in
  r ← (match r_CreatedAt r with
       | Some c => if c =? 0 then t ← atomic (onPool (onProcess MillisecondNow)); mret (with_CreatedAt (Some t) r) else mret r
       | None => t ← atomic (onPool (onProcess MillisecondNow)); mret (with_CreatedAt (Some t) r)
       end);
  res ← getLocalRateLimitP r (mkReqState true 0);
  mret (match res with
        | Ok rl => rl
        | Err e => respError (err_text (ErrWrap "Error in getLocalRateLimit" e))
        end).

(** *** Run alone they are the methods *)

Ltac same := repeat first
  [ rewrite alone_ret | rewrite alone_atomic | rewrite alone_bind
  | apply bind_ext; [intros ?|intros ? ?]
  | match goal with
    | |- alone (if ?b then _ else _) _ = _ => destruct b
    | |- alone (match ?x with _ => _ end) _ = _ => destruct x
    end
  | done ].

Lemma local_alone (r : RateLimitReq) (st : RateLimitReqState) (nd : N) :
  alone (getLocalRateLimitP r st) nd = getLocalRateLimit conf su r st nd.
Proof. unfold getLocalRateLimitP, getLocalRateLimit, countP. same. Qed.

Lemma global_alone (r : RateLimitReq) (nd : N) :
  alone (getGlobalRateLimitP r) nd = getGlobalRateLimit conf su r nd.
Proof.
  unfold getGlobalRateLimitP, getGlobalRateLimit, countP. rewrite alone_bind. apply bind_ext; [intros ?; apply local_alone|].
  intros a s. same.
Qed.

Lemma asyncLoop_alone (left : nat) : forall lastErr key peer req (nd : N),
  alone (asyncLoopP left lastErr key peer req) nd = asyncLoop Info conf su left lastErr key peer req nd.
Proof.
  induction left as [|left IH]; intros lastErr key peer req nd; cbn [asyncLoopP asyncLoop]; [same|].
  destruct (negb _ && _).
  - rewrite alone_bind. apply bind_ext; [intros ?; apply local_alone|]. intros a s. same.
  - unfold forwardTo. rewrite bind_assoc, alone_bind. apply bind_ext; [intros ?; apply alone_atomic|]. intros [] s.
    rewrite alone_bind. apply bind_ext; [intros ?; apply alone_atomic|]. intros [rl|e] s1; [same|].
    destruct (0 <? _); [same|]. destruct (errIsCtx e); [|same]. unfold ctxErrP, countP, GetPeerP.
    rewrite alone_bind. apply bind_ext; [intros ?; apply alone_atomic|]. intros [ce|] s2; [same|].
    rewrite alone_bind. apply bind_ext; [intros ?; apply alone_atomic|]. intros [] s3.
    rewrite alone_bind. apply bind_ext; [intros ?; apply alone_atomic|]. intros [peer'|pe] s4; [apply IH|same].
Qed.

Lemma checkOne_alone (createdAt : Z) (req : RateLimitReq) (nd : N) :
  alone (checkOneP createdAt req) nd = checkOne Info conf su createdAt req nd.
Proof.
  unfold checkOneP, checkOne, countP, ctxErrP, GetPeerP. destruct (String.eqb _ ""); [same|]. destruct (String.eqb _ ""); [same|].
  rewrite alone_bind. apply bind_ext; [intros ?; apply alone_atomic|]. intros [e|] s; [same|].
  destruct (negb _); [same|]. rewrite alone_bind. apply bind_ext; [intros ?; apply alone_atomic|].
  intros [peer|e] s1; [|same]. destruct (pi_IsOwner _); [|destruct (HasBehavior _ _); [|same]].
  - rewrite alone_bind. apply bind_ext; [intros ?; apply local_alone|]. intros a s2. same.
  - rewrite alone_bind. apply bind_ext; [intros ?; apply global_alone|]. intros a s2. same.
Qed.

Lemma peerOne_alone (r : RateLimitReq) (nd : N) : alone (peerOneP r) nd = peerOne conf su r nd.
Proof.
  unfold peerOneP, peerOne. rewrite alone_bind. apply bind_ext.
  - intros s. destruct (r_CreatedAt (drainGlobal r)) as [c|]; [destruct (c =? 0)|]; same.
  - intros r' s. rewrite alone_bind. apply bind_ext; [intros ?; apply local_alone|]. intros a s1. same.
Qed.

Lemma asyncRequest_alone (key : string) (peer : Peer) (req : RateLimitReq) (nd : N) :
  alone (resp ← asyncLoopP 6 Canceled key peer req; countTimeoutP;; mret resp) nd =
    asyncRequest Info conf su key peer req nd.
Proof.
  unfold asyncRequest. rewrite alone_bind. apply bind_ext; [intros ?; apply asyncLoop_alone|]. intros rl s.
  unfold countTimeoutP, ctxErrP, countP. rewrite alone_bind, <- (bind_assoc _ _ _ s).
  apply bind_ext; [intros ?|intros ? ?; same]. rewrite alone_bind. apply bind_ext; [intros ?; apply alone_atomic|].
  intros [e|] s1; same.
Qed.
End Programs.

(** ** The calls of an instance *)

(** A goroutine of [asyncRequest]: in its loop, past the send on [AsyncCh], past
    [WG.Done], returned. A goroutine of the fan-out of [GetPeerRateLimits]: evaluating,
    sending on [respChan], returned. *)
Inductive TaskAt (St : Type) : Type :=
  | Asking (p : Prog St RateLimitResp)
  | Sent
  | Counting (p : Prog St unit)
  | Exited.
Arguments Asking {St} p.
Arguments Sent {St}.
Arguments Counting {St} p.
Arguments Exited {St}.

Inductive FanAt (St : Type) : Type :=
  | Evaluating (p : Prog St RateLimitResp)
  | Offering (rl : RateLimitResp)
  | Gone.
Arguments Evaluating {St} p.
Arguments Offering {St} rl.
Arguments Gone {St}.

(** A request of a call, its place in the reply, and its goroutine if there is one. *)
Record Entry (T : Type) : Type := mkEntry {
  en_req : RateLimitReq;
  en_resp : option RateLimitResp;
  en_task : option T
}.
Arguments mkEntry {T}.
Arguments en_req {T}.
Arguments en_resp {T}.
Arguments en_task {T}.

Definition fresh {T} (r : RateLimitReq) : Entry T := mkEntry r None None.

Abbreviation reply := (result (list (option RateLimitResp))).

(** The goroutine of [GetRateLimits]: at its beginning, in a round of its loop, at
    [wg.Wait], reading the closed channel, returned. *)
Inductive CallAt (St Slot : Type) : Type :=
  | Entered
  | Looping (createdAt : Z) (i : nat) (p : Prog St Slot)
  | WaitWG
  | Draining
  | Returned (res : reply).
Arguments Entered {St Slot}.
Arguments Looping {St Slot} createdAt i p.
Arguments WaitWG {St Slot}.
Arguments Draining {St Slot}.
Arguments Returned {St Slot} res.

Record Call (St Slot : Type) : Type := mkCall {
  cl_at : CallAt St Slot;
  cl_entries : list (Entry (TaskAt St));
  cl_ch : list (nat * RateLimitResp);       (* [asyncCh] *)
  cl_closed : bool
}.
Arguments mkCall {St Slot}.
Arguments cl_at {St Slot}.
Arguments cl_entries {St Slot}.
Arguments cl_ch {St Slot}.
Arguments cl_closed {St Slot}.

(** The goroutine of [GetPeerRateLimits]: at its beginning, before [fan.Run] of a request
    or at [fan.Wait], at [respWg.Wait], returned. *)
Inductive FanCallAt : Type := FEntered | Fanning (i : nat) | WaitCollector | FReturned (res : reply).

Record FanCall (St : Type) : Type := mkFanCall { fc_at : FanCallAt; fc_entries : list (Entry (FanAt St)) }.
Arguments mkFanCall {St}.
Arguments fc_at {St}.
Arguments fc_entries {St}.

Inductive AnyCall (St Slot : Type) : Type := Client (c : Call St Slot) | ForPeer (c : FanCall St).
Arguments Client {St Slot} c.
Arguments ForPeer {St Slot} c.

Section System.
Context `{Arch} `{Hash64} {C S : Type} `{CacheOps C} `{StoreOps S}.
Context {Peer : Type} (Info : Peer -> PeerInfo) (conf : NodeConf) (su : Surroundings Peer).
(** [s.conf.Workers], the size of the fan-out. *)
Context (workers : nat).

Abbreviation N := (Node C S Peer).
Abbreviation slot := (RateLimitResp + Peer * RateLimitReq)%type.
Abbreviation entry := (Entry (TaskAt N)).

(** The calls in flight on an instance. *)
Record System : Type := mkSystem { sy_node : N; sy_calls : list (AnyCall N slot) }.

Definition tooMany (what : string) : gerror :=
  ErrNew ("rpc error: code = OutOfRange desc = " +:+ what +:+ " list too large; max size is '" +:+ Itoa maxBatchSize +:+ "'").

(** The next round of the loop. *)
Definition nextRound (createdAt : Z) (i : nat) (es : list entry) : CallAt N slot :=
  match es !! i with
  | Some e => Looping createdAt i (checkOneP Info conf su createdAt (en_req e))
  | None => WaitWG
  end.

(** The goroutine is counted in [wg]. *)
Definition pendingTask (e : entry) : bool :=
  match en_task e with Some (Asking _) | Some Sent => true | _ => false end.

Definition fanRunning (e : Entry (FanAt N)) : bool :=
  match en_task e with Some (Evaluating _) | Some (Offering _) => true | _ => false end.

Definition running (es : list (Entry (FanAt N))) : nat := length (filter (fun e => fanRunning e = true) es).

Definition respond {T} (rl : RateLimitResp) (e : Entry T) : Entry T := mkEntry (en_req e) (Some rl) (en_task e).
Definition task {T} (t : T) (e : Entry T) : Entry T := mkEntry (en_req e) (en_resp e) (Some t).

Definition at_ (a : CallAt N slot) (c : Call N slot) : Call N slot := mkCall a (cl_entries c) (cl_ch c) (cl_closed c).
Definition put (i : nat) (e : entry) (c : Call N slot) : Call N slot :=
  mkCall (cl_at c) (<[i := e]> (cl_entries c)) (cl_ch c) (cl_closed c).

(** A step of one of the goroutines of a call of [GetRateLimits]. *)
Inductive call_step (nd : N) (c : Call N slot) : N -> Call N slot -> Prop :=
  | c_refuse nd' : cl_at c = Entered -> (maxBatchSize < length (cl_entries c))%nat ->
      count "gubernator_check_error_counter/Request too large" nd = Ret (tt, nd') ->
      call_step nd c nd' (at_ (Returned (Err (tooMany "Requests.RateLimits"))) c)
  | c_start createdAt nd' : cl_at c = Entered -> (length (cl_entries c) <= maxBatchSize)%nat ->
      onPool (onProcess MillisecondNow) nd = Ret (createdAt, nd') ->
      call_step nd c nd' (at_ (nextRound createdAt 0 (cl_entries c)) c)
  | c_act createdAt i B (m : M N B) k b nd' : cl_at c = Looping createdAt i (Act m k) -> m nd = Ret (b, nd') ->
      call_step nd c nd' (at_ (Looping createdAt i (k b)) c)
  | c_answer createdAt i rl e : cl_at c = Looping createdAt i (Done (inl rl)) -> cl_entries c !! i = Some e ->
      call_step nd c nd (put i (respond rl e) (at_ (nextRound createdAt (Datatypes.S i) (cl_entries c)) c))
  | c_go createdAt i peer req e : cl_at c = Looping createdAt i (Done (inr (peer, req))) -> cl_entries c !! i = Some e ->
      call_step nd c nd (put i (task (Asking (asyncLoopP Info conf su 6 Canceled (HashKey (en_req e)) peer req)) e)
        (at_ (nextRound createdAt (Datatypes.S i) (cl_entries c)) c))
  | c_wait : cl_at c = WaitWG -> Forall (fun e => pendingTask e = false) (cl_entries c) ->
      call_step nd c nd (mkCall Draining (cl_entries c) (cl_ch c) true)
  | c_drain i rl ch e : cl_at c = Draining -> cl_ch c = (i, rl) :: ch -> cl_entries c !! i = Some e ->
      call_step nd c nd (mkCall Draining (<[i := respond rl e]> (cl_entries c)) ch (cl_closed c))
  | c_return : cl_at c = Draining -> cl_ch c = [] ->
      call_step nd c nd (at_ (Returned (Ok (en_resp <$> cl_entries c))) c)
  | t_act i e B (m : M N B) k b nd' : cl_entries c !! i = Some e -> en_task e = Some (Asking (Act m k)) ->
      m nd = Ret (b, nd') -> call_step nd c nd' (put i (task (Asking (k b)) e) c)
  | t_send i e rl : cl_entries c !! i = Some e -> en_task e = Some (Asking (Done rl)) ->
      cl_closed c = false -> (length (cl_ch c) < length (cl_entries c))%nat ->
      call_step nd c nd (mkCall (cl_at c) (<[i := task Sent e]> (cl_entries c)) (cl_ch c ++ [(i, rl)]) (cl_closed c))
  | t_done i e : cl_entries c !! i = Some e -> en_task e = Some Sent ->
      call_step nd c nd (put i (task (Counting (countTimeoutP su)) e) c)
  | t_count i e B (m : M N B) k b nd' : cl_entries c !! i = Some e -> en_task e = Some (Counting (Act m k)) ->
      m nd = Ret (b, nd') -> call_step nd c nd' (put i (task (Counting (k b)) e) c)
  | t_exit i e u : cl_entries c !! i = Some e -> en_task e = Some (Counting (Done u)) ->
      call_step nd c nd (put i (task Exited e) c).

(** A step of one of the goroutines of a call of [GetPeerRateLimits]; the collector takes
    an answer as its sender offers it. *)
Inductive fan_step (nd : N) (c : FanCall N) : N -> FanCall N -> Prop :=
  | f_refuse nd' : fc_at c = FEntered -> (maxBatchSize < length (fc_entries c))%nat ->
      count "gubernator_check_error_counter/Request too large" nd = Ret (tt, nd') ->
      fan_step nd c nd' (mkFanCall (FReturned (Err (tooMany "'PeerRequest.rate_limits'"))) (fc_entries c))
  | f_start : fc_at c = FEntered -> (length (fc_entries c) <= maxBatchSize)%nat ->
      fan_step nd c nd (mkFanCall (Fanning 0) (fc_entries c))
  | f_run i e : fc_at c = Fanning i -> fc_entries c !! i = Some e -> (running (fc_entries c) < workers)%nat ->
      fan_step nd c nd (mkFanCall (Fanning (Datatypes.S i))
        (<[i := task (Evaluating (peerOneP conf su (en_req e))) e]> (fc_entries c)))
  | f_close i : fc_at c = Fanning i -> fc_entries c !! i = None -> running (fc_entries c) = 0%nat ->
      fan_step nd c nd (mkFanCall WaitCollector (fc_entries c))
  | f_return : fc_at c = WaitCollector ->
      fan_step nd c nd (mkFanCall (FReturned (Ok (en_resp <$> fc_entries c))) (fc_entries c))
  | f_act i e B (m : M N B) k b nd' : fc_entries c !! i = Some e -> en_task e = Some (Evaluating (Act m k)) ->
      m nd = Ret (b, nd') -> fan_step nd c nd' (mkFanCall (fc_at c) (<[i := task (Evaluating (k b)) e]> (fc_entries c)))
  | f_offer i e rl : fc_entries c !! i = Some e -> en_task e = Some (Evaluating (Done rl)) ->
      fan_step nd c nd (mkFanCall (fc_at c) (<[i := task (Offering rl) e]> (fc_entries c)))
  | f_collect i e rl : fc_entries c !! i = Some e -> en_task e = Some (Offering rl) ->
      fan_step nd c nd (mkFanCall (fc_at c) (<[i := task Gone (respond rl e)]> (fc_entries c))).

(** New calls, with requests of these kinds. *)
Inductive env_step (client member : RateLimitReq -> Prop) (s : System) : System -> Prop :=
  | e_client reqs : Forall client reqs ->
      env_step client member s (mkSystem (sy_node s) (sy_calls s ++ [Client (mkCall Entered (fresh <$> reqs) [] false)]))
  | e_peer reqs : Forall member reqs ->
      env_step client member s (mkSystem (sy_node s) (sy_calls s ++ [ForPeer (mkFanCall FEntered (fresh <$> reqs))])).

(** What the goroutines do. *)
Inductive run_step (s : System) : System -> Prop :=
  | r_client j c nd' c' : sy_calls s !! j = Some (Client c) -> call_step (sy_node s) c nd' c' ->
      run_step s (mkSystem nd' (<[j := Client c']> (sy_calls s)))
  | r_peer j c nd' c' : sy_calls s !! j = Some (ForPeer c) -> fan_step (sy_node s) c nd' c' ->
      run_step s (mkSystem nd' (<[j := ForPeer c']> (sy_calls s))).

(** What may happen while the instance stays in [K]. *)
Inductive sys_step (client member : RateLimitReq -> Prop) (K : N -> Prop) (s s' : System) : Prop :=
  | s_env : env_step client member s s' -> K (sy_node s') -> sys_step client member K s s'
  | s_run : run_step s s' -> K (sy_node s') -> sys_step client member K s s'.

Definition started (nd : N) : System := mkSystem nd [].

Definition returned (c : AnyCall N slot) : bool :=
  match c with
  | Client c => match cl_at c with Returned _ => true | _ => false end
  | ForPeer c => match fc_at c with FReturned _ => true | _ => false end
  end.

(** Every call has returned. *)
Definition answered (s : System) : Prop := Forall (fun c => returned c = true) (sy_calls s).

(** The requests of a call and its reply, once it has returned one. *)
Definition replyOf (c : AnyCall N slot) : option (list RateLimitReq * list (option RateLimitResp)) :=
  match c with
  | Client c => match cl_at c with Returned (Ok rs) => Some (en_req <$> cl_entries c, rs) | _ => None end
  | ForPeer c => match fc_at c with FReturned (Ok rs) => Some (en_req <$> fc_entries c, rs) | _ => None end
  end.

(** [v] of the answers in a reply, and in all replies so far, added up. *)
Definition replyTotal (v : RateLimitReq -> RateLimitResp -> Z) (c : AnyCall N slot) : Z :=
  match replyOf c with
  | Some (reqs, rs) => sumZ (zip_with (fun r o => match o with Some rl => v r rl | None => 0 end) reqs rs)
  | None => 0
  end.

Definition totalIn (v : RateLimitReq -> RateLimitResp -> Z) (s : System) : Z := sumZ (replyTotal v <$> sy_calls s).

(** A goroutine is about to panic: its action does, or it would send on the closed
    channel. *)
Inductive panics (nd : N) : AnyCall N slot -> Prop :=
  | p_round c createdAt i B (m : M N B) k why : cl_at c = Looping createdAt i (Act m k) -> m nd = Panic why ->
      panics nd (Client c)
  | p_asking c i e B (m : M N B) k why : cl_entries c !! i = Some e -> en_task e = Some (Asking (Act m k)) ->
      m nd = Panic why -> panics nd (Client c)
  | p_counting c i e B (m : M N B) k why : cl_entries c !! i = Some e -> en_task e = Some (Counting (Act m k)) ->
      m nd = Panic why -> panics nd (Client c)
  | p_closed c i e rl : cl_entries c !! i = Some e -> en_task e = Some (Asking (Done rl)) -> cl_closed c = true ->
      panics nd (Client c)
  | p_evaluating c i e B (m : M N B) k why : fc_entries c !! i = Some e -> en_task e = Some (Evaluating (Act m k)) ->
      m nd = Panic why -> panics nd (ForPeer c).
End System.

(** ** The invariant of the calls *)

(** Steps left and what was charged, for a request of a call. *)
Definition steps (gs : list (nat * Z)) : nat := sum_list_with fst gs.
Definition charges (gs : list (nat * Z)) : Z := sumZ (snd <$> gs).

Lemma steps_insert (gs : list (nat * Z)) (i : nat) (g g' : nat * Z) : gs !! i = Some g ->
  (steps (<[i := g']> gs) + g.1 = steps gs + g'.1)%nat.
Proof. apply sum_insert. Qed.

Lemma charges_insert (gs : list (nat * Z)) (i : nat) (g g' : nat * Z) : gs !! i = Some g ->
  charges (<[i := g']> gs) + g.2 = charges gs + g'.2.
Proof.
  unfold charges, sumZ. revert i. induction gs as [|h gs IH]; intros [|i] Hg; simplify_eq/=; [lia|].
  specialize (IH i Hg). lia.
Qed.

(** A list with what is known of each of its elements. *)
Definition tracked {E} (P : nat -> E -> nat * Z -> Prop) (es : list E) (gs : list (nat * Z)) : Prop :=
  length gs = length es /\ forall i e, es !! i = Some e -> exists g, gs !! i = Some g /\ 0 <= g.2 /\ P i e g.

Lemma tracked_insert {E} (P P' : nat -> E -> nat * Z -> Prop) es gs (i : nat) e e' g' :
  tracked P es gs -> es !! i = Some e -> 0 <= g'.2 -> P' i e' g' ->
  (forall j e g, j <> i -> es !! j = Some e -> P j e g -> P' j e g) -> tracked P' (<[i := e']> es) (<[i := g']> gs).
Proof.
  intros [Hlen Hes] Hi Hpos Hnew Hother. split; [by rewrite !length_insert|]. intros j ej Hj.
  destruct (decide (j = i)) as [->|Hne].
  - destruct (Hes i e Hi) as (g & Hg & _). rewrite list_lookup_insert_eq in Hj by (by eapply lookup_lt_Some).
    injection Hj as <-. exists g'. by rewrite list_lookup_insert_eq by (by eapply lookup_lt_Some).
  - rewrite list_lookup_insert_ne in Hj by done. rewrite list_lookup_insert_ne by done.
    destruct (Hes j ej Hj) as (g & Hg & Hgp & Hok). exists g. split_and!; [done|done|by apply Hother].
Qed.

Section Invariant.
Context `{Arch} `{Hash64} {C S : Type} `{CacheOps C} `{StoreOps S}.
Context {Peer : Type} (Info : Peer -> PeerInfo) (conf : NodeConf) (su : Surroundings Peer) (workers : nat).

Abbreviation N := (Node C S Peer).
Abbreviation slot := (RateLimitResp + Peer * RateLimitReq)%type.

(** The invariant of the instance, the requests of clients and members, what an answer to
    them is charged with, and bounds on the actions of a program. *)
Context (K : N -> Prop) (I : Z -> N -> Prop).
Context (okReq okPeer : RateLimitReq -> Prop) (good goodPeer : RateLimitReq -> RateLimitResp -> Z -> Prop).
Context (Nc Na Np : nat).

(** The result of a round: an answer, or a request to forward. *)
Definition checkedBy (r : RateLimitReq) (s : slot) (c : Z) : Prop :=
  match s with
  | inl rl => good r rl c
  | inr (peer, req) => spends K I (asyncLoopP Info conf su 6 Canceled (HashKey r) peer req) Na c (good r)
  end.

Hypothesis check_spends : forall createdAt r, okReq r ->
  spends K I (checkOneP Info conf su createdAt r) Nc 0 (checkedBy r).
Hypothesis peer_spends : forall r, okPeer r -> spends K I (peerOneP conf su r) Np 0 (goodPeer r).
Hypothesis timeout_spends : spends K I (countTimeoutP su) 2 0 (fun _ _ => True).
Hypothesis count_spends : forall name, spends K I (countP name) 1 0 (fun _ _ => True).
Hypothesis now_spends : spends K I (atomic (onPool (onProcess MillisecondNow))) 1 0 (fun _ _ => True).

(** *** Calls of clients *)

(** What is left of a goroutine that has sent its answer. *)
Inductive tail : option (TaskAt N) -> nat -> Prop :=
  | tail_none : tail None 0
  | tail_sent : tail (Some Sent) 4
  | tail_counting p m c : spends K I p m c (fun _ _ => True) -> tail (Some (Counting p)) (m + 1)
  | tail_exited : tail (Some Exited) 0.

(** The request at [i] of a call whose loop has done [R] rounds and runs [cur]. *)
Inductive entry_ok (R : nat) (cur : option (Prog N slot)) (ch : list (nat * RateLimitResp)) (i : nat)
    : Entry (TaskAt N) -> nat * Z -> Prop :=
  | eo_fresh r : okReq r -> (R <= i)%nat -> (R = i -> cur = None) -> i ∉ ch.*1 ->
      entry_ok R cur ch i (fresh r) ((Nc + 1 + (Na + 6))%nat, 0)
  | eo_current r p m c : R = i -> cur = Some p -> spends K I p m c (checkedBy r) -> i ∉ ch.*1 ->
      entry_ok R cur ch i (fresh r) ((m + 1 + (Na + 6))%nat, c)
  | eo_asking r p m c : (i < R)%nat -> spends K I p m c (good r) -> i ∉ ch.*1 ->
      entry_ok R cur ch i (mkEntry r None (Some (Asking p))) ((m + 6)%nat, c)
  | eo_sent r rl t w c : (i < R)%nat -> (i, rl) ∈ ch -> good r rl c -> tail t w ->
      entry_ok R cur ch i (mkEntry r None t) ((w + 1)%nat, c)
  | eo_answered r rl t w c : (i < R)%nat -> i ∉ ch.*1 -> good r rl c -> tail t w ->
      entry_ok R cur ch i (mkEntry r (Some rl) t) (w, c).

Abbreviation entries_ok R cur ch := (tracked (entry_ok R cur ch)).

Definition rounds (c : Call N slot) : nat :=
  match cl_at c with
  | Entered | Returned (Err _) => 0
  | Looping _ i _ => i
  | _ => length (cl_entries c)
  end.

Definition current (c : Call N slot) : option (Prog N slot) :=
  match cl_at c with Looping _ _ p => Some p | _ => None end.

Definition stage_ok (c : Call N slot) : Prop :=
  match cl_at c with
  | Entered | Returned (Err _) => cl_ch c = [] /\ cl_closed c = false
  | Looping _ i _ => (i < length (cl_entries c))%nat /\ cl_closed c = false
  | WaitWG => cl_closed c = false
  | Draining => cl_closed c = true
  | Returned (Ok rs) => cl_closed c = true /\ cl_ch c = [] /\ rs = en_resp <$> cl_entries c
  end.

Record call_ok (c : Call N slot) (gs : list (nat * Z)) : Prop := mkCallOk {
  co_entries : entries_ok (rounds c) (current c) (cl_ch c) (cl_entries c) gs;
  co_nodup : NoDup (cl_ch c).*1;
  co_bound : forall i, i ∈ (cl_ch c).*1 -> (i < rounds c)%nat /\ (i < length (cl_entries c))%nat;
  co_closed : cl_closed c = true -> Forall (fun e => pendingTask e = false) (cl_entries c);
  co_stage : stage_ok c
}.

Definition stageSteps (c : Call N slot) : nat :=
  match cl_at c with Entered => 4 | Looping _ _ _ => 3 | WaitWG => 2 | Draining => 1 | Returned _ => 0 end.

Lemma entry_frame (R R' : nat) cur cur' ch ch' (i : nat) (e : Entry (TaskAt N)) (g : nat * Z) :
  entry_ok R cur ch i e g ->
  (forall rl, (i, rl) ∈ ch -> (i, rl) ∈ ch') -> (i ∉ ch.*1 -> i ∉ ch'.*1) ->
  ((i < R)%nat -> (i < R')%nat) -> ((R <= i)%nat -> R = R' /\ (R = i -> cur = cur')) ->
  entry_ok R' cur' ch' i e g.
Proof.
  intros He Hin Hnin Hlt Hge. destruct He as [r Hr Hle Hc Hn|r p m c -> -> Hp Hn|r p m c Hl Hp Hn|r rl t w c Hl Hi Hg Ht|r rl t w c Hl Hn Hg Ht].
  - destruct (Hge Hle) as [<- Hcur]. constructor; [done|done| |by apply Hnin]. intros HRi. rewrite <- Hcur by done. by apply Hc.
  - destruct (Hge ltac:(lia)) as [<- Hcur]. econstructor; [done|by rewrite <- Hcur|done|by apply Hnin].
  - constructor; [by apply Hlt|done|by apply Hnin].
  - econstructor; [by apply Hlt|by apply Hin|done|done].
  - constructor; [by apply Hlt|by apply Hnin|done|done].
Qed.

(** What a step of a call leads to. *)
Definition advanced (rem : Z) (nd' : N) (c' : Call N slot) (c : Call N slot) (gs : list (nat * Z)) : Prop :=
  exists d gs', 0 <= d /\ (K nd' -> I (rem - d) nd') /\ call_ok c' gs' /\
    (stageSteps c' + steps gs' < stageSteps c + steps gs)%nat /\ charges gs' <= charges gs + d.
(** A goroutine moves on. *)
Lemma task_moves (c : Call N slot) gs (i : nat) e t g' :
  call_ok c gs -> cl_entries c !! i = Some e -> 0 <= g'.2 ->
  entry_ok (rounds c) (current c) (cl_ch c) i (task t e) g' ->
  (pendingTask (task t e) = true -> pendingTask e = true) ->
  call_ok (put i (task t e) c) (<[i := g']> gs).
Proof.
  intros Hok Hi Hpos Hnew Hpend.
  assert (Hr : rounds (put i (task t e) c) = rounds c) by (unfold rounds; simpl; by rewrite length_insert).
  constructor; simpl; rewrite ?Hr.
  - eapply tracked_insert; [apply Hok|done|done|done|done].
  - apply Hok.
  - intros j Hj. rewrite length_insert. by apply Hok.
  - intros Hcl. apply Forall_insert; [by apply Hok|]. destruct (pendingTask (task t e)) eqn:Hp; [|done].
    by rewrite <- (Forall_lookup_1 _ _ _ _ (co_closed _ _ Hok Hcl) Hi), Hpend.
  - pose proof (co_stage _ _ Hok) as Hs. unfold stage_ok in *. simpl. rewrite length_insert.
    destruct (cl_at c) as [| | | |[rs|]]; [done..| |done]. destruct Hs as (Hcl & Hch & ->). split_and!; [done..|].
    rewrite list_fmap_insert. symmetry. apply list_insert_id. by rewrite list_lookup_fmap, Hi.
Qed.

Lemma ghost_of (c : Call N slot) gs (i : nat) e : call_ok c gs -> cl_entries c !! i = Some e ->
  exists g, gs !! i = Some g /\ 0 <= g.2 /\ entry_ok (rounds c) (current c) (cl_ch c) i e g.
Proof. intros Hok Hi. by apply Hok. Qed.
(** A round ends: its request is answered or has a goroutine, and the next round begins. *)
Lemma round_ends (c : Call N slot) gs createdAt (i : nat) p e e' g' :
  call_ok c gs -> cl_at c = Looping createdAt i p -> cl_entries c !! i = Some e -> 0 <= g'.2 ->
  (forall cur, entry_ok (Datatypes.S i) cur (cl_ch c) i e' g') ->
  call_ok (put i e' (at_ (nextRound Info conf su createdAt (Datatypes.S i) (cl_entries c)) c)) (<[i := g']> gs) /\
  (stageSteps (put i e' (at_ (nextRound Info conf su createdAt (Datatypes.S i) (cl_entries c)) c)) <= stageSteps c)%nat.
Proof.
  intros Hok Hat Hi Hpos Hnew. set (c' := put i e' _). pose proof (lookup_lt_Some _ _ _ Hi) as Hlt.
  assert (Hcl : cl_closed c = false) by (pose proof (co_stage _ _ Hok) as Hs; unfold stage_ok in Hs; rewrite Hat in Hs; apply Hs).
  assert (Hr : rounds c' = Datatypes.S i).
  { unfold c', rounds, nextRound. simpl. destruct (cl_entries c !! Datatypes.S i) eqn:Hn; [done|].
    apply lookup_ge_None in Hn. rewrite length_insert. lia. }
  assert (Hr0 : rounds c = i) by (unfold rounds; by rewrite Hat).
  assert (Hcur : current c = Some p) by (unfold current; by rewrite Hat).
  pose proof (co_entries _ _ Hok) as Hes. rewrite Hr0, Hcur in Hes. split.
  - constructor; rewrite ?Hr; simpl; [|apply Hok| | |].
    + eapply tracked_insert; [exact Hes|done|done|apply Hnew|]. intros j ej gj Hne Hj Hej.
      destruct (decide (j < i)%nat) as [Hlj|Hge]; [eapply entry_frame; [exact Hej|done|done|lia|lia]|].
      destruct Hej as [r Hokr Hle Hc Hn| | | |]; try lia. destruct (decide (j = Datatypes.S i)) as [->|Hne'].
      * unfold current, c', nextRound. simpl. rewrite Hj. eapply eo_current; [done|done|by apply check_spends|done].
      * constructor; [done|lia|lia|done].
    + intros j Hj. rewrite length_insert. destruct (co_bound _ _ Hok j Hj). rewrite Hr0 in *. lia.
    + by rewrite Hcl.
    + unfold stage_ok, c', nextRound. simpl. rewrite length_insert.
      destruct (cl_entries c !! Datatypes.S i) eqn:Hn; [|done]. split; [by eapply lookup_lt_Some|done].
  - unfold stageSteps, c', nextRound. simpl. rewrite Hat. destruct (cl_entries c !! Datatypes.S i); lia.
Qed.
Lemma advanced_free (rem : Z) (nd : N) (c' c : Call N slot) gs gs' :
  I rem nd -> call_ok c' gs' -> (stageSteps c' + steps gs' < stageSteps c + steps gs)%nat ->
  charges gs' <= charges gs -> advanced rem nd c' c gs.
Proof. intros HI Hok Hst Hch. exists 0, gs'. rewrite Z.sub_0_r. split_and!; [lia|done|done|done|lia]. Qed.

(** A goroutine takes a step that charges [d]. *)
Lemma advanced_task (rem d : Z) (nd' : N) (c : Call N slot) gs (i : nat) e t g g' :
  call_ok c gs -> cl_entries c !! i = Some e -> gs !! i = Some g -> 0 <= g.2 ->
  entry_ok (rounds c) (current c) (cl_ch c) i (task t e) g' ->
  (pendingTask (task t e) = true -> pendingTask e = true) ->
  0 <= d -> (K nd' -> I (rem - d) nd') -> (g'.1 < g.1)%nat -> g.2 <= g'.2 <= g.2 + d ->
  advanced rem nd' (put i (task t e) c) c gs.
Proof.
  intros Hok Hi Hg Hpos Hnew Hpend Hd HI Hst Hch. exists d, (<[i := g']> gs).
  pose proof (steps_insert gs i g g' Hg). pose proof (charges_insert gs i g g' Hg).
  split_and!; [done|done| | |lia].
  - eapply task_moves; [done|done|lia|done|done].
  - unfold stageSteps in *. simpl. lia.
Qed.

Lemma spends_act {A B} (m : M N B) (k : B -> Prog N A) (n : nat) (c : Z) (Q : A -> Z -> Prop) rem nd b nd' :
  spends K I (Act m k) n c Q -> I rem nd -> m nd = Ret (b, nd') ->
  exists n' d, n = Datatypes.S n' /\ 0 <= d /\ (K nd' -> I (rem - d) nd') /\ spends K I (k b) n' (c + d) Q.
Proof.
  intros Hs HI Hm. destruct n as [|n]; [done|]. destruct (Hs rem nd HI) as (b' & s' & d & Hm' & Hd & HI' & Hk).
  rewrite Hm in Hm'. injection Hm' as <- <-. by exists n, d.
Qed.

Lemma call_start_ok (rem : Z) (nd nd' : N) (c : Call N slot) gs createdAt :
  I rem nd -> call_ok c gs -> cl_at c = Entered -> onPool (onProcess MillisecondNow) nd = Ret (createdAt, nd') ->
  advanced rem nd' (at_ (nextRound Info conf su createdAt 0 (cl_entries c)) c) c gs.
Proof.
  intros HI Hok Hat Hm. destruct (spends_act _ _ _ _ _ _ _ _ _ now_spends HI Hm) as (n & d & _ & Hd & HI' & _).
  pose proof (co_stage _ _ Hok) as Hs. unfold stage_ok in Hs. rewrite Hat in Hs. destruct Hs as [Hch Hcl].
  pose proof (co_entries _ _ Hok) as [Hlen Hes].
  assert (Hr : rounds c = 0%nat /\ current c = None) by (unfold rounds, current; by rewrite Hat). destruct Hr as [Hr0 Hcur].
  rewrite Hr0, Hcur in Hes. exists d, gs. set (c' := at_ _ c). split_and!; [done|done| | |lia].
  - assert (Hr : rounds c' = 0%nat).
    { unfold rounds, c', nextRound. simpl. by destruct (cl_entries c). }
    constructor; rewrite ?Hr; simpl; [|apply Hok|by rewrite Hch; intros ? ?%elem_of_nil|by rewrite Hcl|].
    + split; [done|]. intros i e Hi. destruct (Hes i e Hi) as (g & Hg & Hpos & He). exists g. split_and!; [done..|].
      destruct He as [r Hokr Hle Hc Hn| | | |]; try lia; [|done].
      destruct i as [|i]; [|by constructor; [|lia..|]].
      unfold current, c', nextRound. simpl. rewrite Hi. eapply eo_current; [done|done|by apply check_spends|done].
    + unfold stage_ok, c', nextRound. simpl. destruct (cl_entries c); simpl; [done|]. split; [lia|done].
  - unfold stageSteps, c', nextRound. simpl. rewrite Hat. destruct (cl_entries c); simpl; lia.
Qed.
Lemma round_acts (rem : Z) (nd nd' : N) (c : Call N slot) gs createdAt (i : nat) B (m : M N B) k b :
  I rem nd -> call_ok c gs -> cl_at c = Looping createdAt i (Act m k) -> m nd = Ret (b, nd') ->
  advanced rem nd' (at_ (Looping createdAt i (k b)) c) c gs.
Proof.
  intros HI Hok Hat Hm. pose proof (co_stage _ _ Hok) as Hs. unfold stage_ok in Hs. rewrite Hat in Hs.
  destruct Hs as [Hlt Hcl]. destruct (lookup_lt_is_Some_2 _ _ Hlt) as [e Hi].
  assert (Hr : rounds c = i /\ current c = Some (Act m k)) by (unfold rounds, current; by rewrite Hat). destruct Hr as [Hr Hcur].
  pose proof (co_entries _ _ Hok) as Hes. rewrite Hr, Hcur in Hes. destruct (proj2 Hes i e Hi) as (g & Hg & Hpos & He).
  destruct He as [|r p n z _ Hp Hs Hn| | |]; try lia; [naive_solver|]. injection Hp as <-.
  destruct (spends_act _ _ _ _ _ _ _ _ _ Hs HI Hm) as (n' & d & -> & Hd & HI' & Hk).
  pose proof (steps_insert gs i _ ((n' + 1 + (Na + 6))%nat, z + d) Hg) as Hst.
  pose proof (charges_insert gs i _ ((n' + 1 + (Na + 6))%nat, z + d) Hg) as Hch. simpl in Hst, Hch, Hpos.
  exists d, (<[i := ((n' + 1 + (Na + 6))%nat, z + d)]> gs). split_and!; [done|done| |unfold stageSteps; simpl; rewrite Hat; lia|lia].
  constructor; [|apply Hok| |by simpl; rewrite Hcl|done].
  - change (entries_ok i (Some (k b)) (cl_ch c) (cl_entries c) (<[i := ((n' + 1 + (Na + 6))%nat, z + d)]> gs)).
    rewrite <- (list_insert_id _ _ _ Hi). eapply tracked_insert; [exact Hes|done|simpl; lia|by eapply eo_current|].
    intros j ej gj Hne _ Hej. eapply entry_frame; [exact Hej|done|done|done|done].
  - intros j Hj. destruct (co_bound _ _ Hok j Hj). by rewrite Hr in *.
Qed.

Lemma channel_drain_ok (rem : Z) (nd : N) (c : Call N slot) gs (i : nat) rl ch e :
  I rem nd -> call_ok c gs -> cl_at c = Draining -> cl_ch c = (i, rl) :: ch -> cl_entries c !! i = Some e ->
  advanced rem nd (mkCall Draining (<[i := respond rl e]> (cl_entries c)) ch (cl_closed c)) c gs.
Proof.
  intros HI Hok Hat Hch Hi. destruct (ghost_of _ _ _ _ Hok Hi) as (g & Hg & Hpos & He).
  pose proof (co_nodup _ _ Hok) as Hnd. rewrite Hch in Hnd. apply NoDup_cons in Hnd as [Hnin Hnd].
  assert (Hin : i ∈ (cl_ch c).*1) by (rewrite Hch; left). pose proof (co_bound _ _ Hok i Hin) as [Hlt _].
  destruct He as [| | |r rl' t w z _ Hin' Hgood Ht|]; try done.
  assert (rl' = rl) as -> by (rewrite Hch in Hin'; apply elem_of_cons in Hin' as [[= ->]|Hin']; [done|];
    destruct Hnin; by apply (list_elem_of_fmap_2 fst) in Hin').
  pose proof (steps_insert gs i _ (w, z) Hg) as Hst. pose proof (charges_insert gs i _ (w, z) Hg) as Hcs. simpl in Hst, Hcs.
  assert (Hr : forall es, rounds (mkCall Draining (<[i := respond rl es]> (cl_entries c)) ch (cl_closed c)) = rounds c)
    by (intros es; unfold rounds; rewrite Hat; simpl; apply length_insert).
  assert (Hcur : current c = None) by (unfold current; by rewrite Hat).
  apply (advanced_free _ _ _ _ _ (<[i := (w, z)]> gs)); [done| |unfold stageSteps; rewrite Hat; simpl; lia|lia].
  constructor; rewrite ?Hr; simpl; [|done| | |].
  - eapply tracked_insert; [apply Hok|done|done|by constructor|]. intros j ej gj Hne _ Hej. rewrite Hch, Hcur in Hej.
    eapply entry_frame; [exact Hej| | |done|done].
    + intros rl'. rewrite elem_of_cons. intros [[= -> _]|?]; done.
    + rewrite fmap_cons, not_elem_of_cons. by intros [].
  - intros j Hj. rewrite length_insert. apply (co_bound _ _ Hok). rewrite Hch. by right.
  - intros Hcl. apply Forall_insert; [by apply Hok|]. exact (Forall_lookup_1 _ _ _ _ (co_closed _ _ Hok Hcl) Hi).
  - pose proof (co_stage _ _ Hok) as Hs. unfold stage_ok in *. by rewrite Hat in Hs.
Qed.

Lemma send_ok (rem : Z) (nd : N) (c : Call N slot) gs (i : nat) e rl :
  I rem nd -> call_ok c gs -> cl_entries c !! i = Some e -> en_task e = Some (Asking (Done rl)) -> cl_closed c = false ->
  advanced rem nd (mkCall (cl_at c) (<[i := task Sent e]> (cl_entries c)) (cl_ch c ++ [(i, rl)]) (cl_closed c)) c gs.
Proof.
  intros HI Hok Hi Ht Hcl. destruct (ghost_of _ _ _ _ Hok Hi) as (g & Hg & Hpos & He).
  destruct He as [| |r p m z Hlt Hs Hn|r rl' t w z _ _ _ Hw|r rl' t w z _ _ _ Hw]; simpl in Ht; try done;
    [|by subst t; inversion Hw..]. injection Ht as ->.
  pose proof (steps_insert gs i _ (5%nat, z) Hg) as Hst. pose proof (charges_insert gs i _ (5%nat, z) Hg) as Hcs. simpl in Hst, Hcs.
  set (c' := mkCall _ _ _ _). assert (Hr : rounds c' = rounds c) by (unfold rounds; simpl; by rewrite length_insert).
  apply (advanced_free _ _ _ _ _ (<[i := (5%nat, z)]> gs)); [done| |unfold stageSteps; simpl; lia|lia].
  constructor; rewrite ?Hr; simpl.
  - eapply tracked_insert; [apply Hok|done|done| |].
    + apply (eo_sent _ _ _ _ _ rl _ 4); [done|rewrite elem_of_app; right; left|exact Hs|constructor].
    + intros j ej gj Hne _ Hej. eapply entry_frame; [exact Hej| | |done|done].
      * intros rl'. rewrite elem_of_app. by left.
      * rewrite fmap_app, not_elem_of_app. intros Hj. split; [done|]. by intros Hj'%list_elem_of_singleton.
  - rewrite fmap_app. apply NoDup_app. split_and!; [apply Hok| |apply NoDup_singleton].
    intros j Hj Hj'%list_elem_of_singleton. simpl in Hj'. by subst j.
  - intros j. rewrite fmap_app, elem_of_app, length_insert. intros [Hj|Hj%list_elem_of_singleton]; [by apply Hok|].
    simpl in Hj. subst j. split; [done|by eapply lookup_lt_Some].
  - by rewrite Hcl.
  - pose proof (co_stage _ _ Hok) as Hst'. unfold stage_ok in *. simpl. rewrite length_insert. unfold rounds in Hlt.
    destruct (cl_at c) as [| | | |[rs|]]; [lia|done|done|done| |lia].
    destruct Hst' as [Hc _]. congruence.
Qed.
Lemma refuse_ok (rem : Z) (nd nd' : N) (c : Call N slot) gs name err :
  I rem nd -> call_ok c gs -> cl_at c = Entered -> count name nd = Ret (tt, nd') ->
  advanced rem nd' (at_ (Returned (Err err)) c) c gs.
Proof.
  intros HI Hok Hat Hm. destruct (spends_act _ _ _ _ _ _ _ _ _ (count_spends name) HI Hm) as (n & d & _ & Hd & HI' & _).
  destruct Hok as [Hes Hnd Hb Hcl Hs]. unfold rounds, current, stage_ok in *. rewrite Hat in *.
  exists d, gs. split_and!; [done|done|by constructor|unfold stageSteps; simpl; rewrite Hat; lia|lia].
Qed.

(** A round ends with a place filled or a goroutine started. *)
Lemma round_done (rem : Z) (nd : N) (c : Call N slot) gs createdAt (i : nat) s e e' :
  I rem nd -> call_ok c gs -> cl_at c = Looping createdAt i (Done s) -> cl_entries c !! i = Some e ->
  e' = match s with
       | inl rl => respond rl e
       | inr (peer, req) => task (Asking (asyncLoopP Info conf su 6 Canceled (HashKey (en_req e)) peer req)) e
       end ->
  advanced rem nd (put i e' (at_ (nextRound Info conf su createdAt (Datatypes.S i) (cl_entries c)) c)) c gs.
Proof.
  intros HI Hok Hat Hi He'. destruct (ghost_of _ _ _ _ Hok Hi) as (g & Hg & Hpos & He).
  assert (Hr : rounds c = i /\ current c = Some (Done s)) by (unfold rounds, current; by rewrite Hat). destruct Hr as [Hr Hcur].
  rewrite Hr, Hcur in He. destruct He as [|r p m z _ Hp Hs Hn| | |]; try lia; [naive_solver|]. injection Hp as <-.
  assert (Hnew : exists w, (w < m + 1 + (Na + 6))%nat /\ forall cur, entry_ok (Datatypes.S i) cur (cl_ch c) i e' (w, z)).
  { destruct s as [rl|[peer req]]; subst e'.
    - exists 0%nat. split; [lia|]. intros cur. constructor; [lia|done|exact Hs|constructor].
    - exists (Na + 6)%nat. split; [lia|]. intros cur. constructor; [lia|exact Hs|done]. }
  destruct Hnew as (w & Hw & Hnew). destruct (round_ends c gs createdAt i _ _ e' (w, z) Hok Hat Hi Hpos Hnew) as [Hok' Hst'].
  pose proof (steps_insert gs i _ (w, z) Hg) as Hst. pose proof (charges_insert gs i _ (w, z) Hg) as Hcs. simpl in Hst, Hcs.
  eapply advanced_free; [done|exact Hok'|lia|lia].
Qed.

Lemma main_step_ok (rem : Z) (nd : N) (c : Call N slot) gs : I rem nd -> call_ok c gs ->
  (cl_at c = WaitWG -> Forall (fun e => pendingTask e = false) (cl_entries c) ->
   advanced rem nd (mkCall Draining (cl_entries c) (cl_ch c) true) c gs) /\
  (cl_at c = Draining -> cl_ch c = [] -> advanced rem nd (at_ (Returned (Ok (en_resp <$> cl_entries c))) c) c gs).
Proof.
  intros HI [Hes Hnd Hb Hcl Hs]. unfold rounds, current, stage_ok in *.
  split; intros Hat Hd; rewrite Hat in *; (apply (advanced_free _ _ _ _ _ gs);
    [done|constructor; [done..|]|unfold stageSteps; simpl; rewrite Hat; lia|done]); [done|by unfold stage_ok].
Qed.

(** The steps of the goroutine of [asyncRequest] that leave the channel alone. *)
Lemma asking_ok (rem : Z) (nd nd' : N) (c : Call N slot) gs (i : nat) e B (m : M N B) k b :
  I rem nd -> call_ok c gs -> cl_entries c !! i = Some e -> en_task e = Some (Asking (Act m k)) -> m nd = Ret (b, nd') ->
  advanced rem nd' (put i (task (Asking (k b)) e) c) c gs.
Proof.
  intros HI Hok Hi Ht Hm. destruct (ghost_of _ _ _ _ Hok Hi) as (g & Hg & Hpos & He).
  destruct He as [| |r p n z Hlt Hs Hn|r rl t w z _ _ _ Hw|r rl t w z _ _ _ Hw]; simpl in Ht; try done;
    [|by subst t; inversion Hw..]. injection Ht as ->.
  destruct (spends_act _ _ _ _ _ _ _ _ _ Hs HI Hm) as (n' & d & -> & Hd & HI' & Hk).
  eapply (advanced_task _ d _ _ _ _ _ _ _ ((n' + 6)%nat, z + d)); [done|done|exact Hg|done|by constructor|done|done|done|simpl; lia|simpl; lia].
Qed.

Lemma tail_ok (rem : Z) (nd' : N) (c : Call N slot) gs (i : nat) e t t' :
  call_ok c gs -> cl_entries c !! i = Some e -> en_task e = Some t ->
  (forall p, t <> Asking p) -> (forall p, t' <> Asking p) -> t' <> Sent ->
  (forall w, tail (Some t) w -> exists w' d, tail (Some t') w' /\ (w' < w)%nat /\ 0 <= d /\ (K nd' -> I (rem - d) nd')) ->
  advanced rem nd' (put i (task t' e) c) c gs.
Proof.
  intros Hok Hi Ht Hna Hna' Hns Hw'. destruct (ghost_of _ _ _ _ Hok Hi) as (g & Hg & Hpos & He).
  assert (Hp : pendingTask (task t' e) = false) by (unfold pendingTask; simpl; destruct t' as [p| | |]; [by destruct (Hna' p)|done..]).
  destruct He as [| |r p n z Hlt Hs Hn|r rl t0 w z Hlt Hin Hgood Hw|r rl t0 w z Hlt Hin Hgood Hw]; simpl in Ht; try done;
    [by injection Ht as <-; destruct (Hna p)|subst t0; destruct (Hw' _ Hw) as (w' & d & Hw1 & Hw2 & Hd & HI')..].
  - eapply (advanced_task _ d _ _ _ _ _ _ _ ((w' + 1)%nat, z)); [done|done|exact Hg|done|by econstructor|by rewrite Hp|done|done|simpl; lia|simpl; lia].
  - eapply (advanced_task _ d _ _ _ _ _ _ _ (w', z)); [done|done|exact Hg|done|by econstructor|by rewrite Hp|done|done|simpl; lia|simpl; lia].
Qed.
Lemma call_step_ok (rem : Z) (nd nd' : N) (c c' : Call N slot) gs :
  I rem nd -> call_ok c gs -> call_step Info conf su nd c nd' c' -> advanced rem nd' c' c gs.
Proof.
  intros HI Hok Hstep. destruct Hstep as [nd' Hat Hl Hm|cr nd' Hat Hl Hm|cr i B m k b nd' Hat Hm|cr i rl e Hat Hi|cr i p r e Hat Hi
    |Hat Hp|i rl ch e Hat Hch Hi|Hat Hch|i e B m k b nd' Hi Ht Hm|i e rl Hi Ht Hcl Hroom|i e Hi Ht|i e B m k b nd' Hi Ht Hm|i e u Hi Ht].
  - by eapply refuse_ok.
  - by eapply call_start_ok.
  - by eapply round_acts.
  - by eapply round_done.
  - by eapply round_done.
  - by apply main_step_ok.
  - by apply channel_drain_ok.
  - by apply main_step_ok.
  - by eapply asking_ok.
  - by apply send_ok.
  - eapply tail_ok; [done|done|exact Ht|done..|]. intros w Hw. inversion Hw; subst. exists 3%nat, 0.
    split_and!; [apply (tail_counting _ 2 0); apply timeout_spends|lia|lia|by rewrite Z.sub_0_r].
  - eapply tail_ok; [done|done|exact Ht|done..|]. intros w Hw. inversion Hw as [| |p n z Hs|]; subst.
    destruct (spends_act _ _ _ _ _ _ _ _ _ Hs HI Hm) as (n' & d & -> & Hd & HI' & Hk).
    exists (n' + 1)%nat, d. split_and!; [by econstructor|lia|done|done].
  - eapply tail_ok; [done|done|exact Ht|done..|]. intros w Hw. inversion Hw; subst. exists 0%nat, 0.
    split_and!; [constructor|lia|lia|by rewrite Z.sub_0_r].
Qed.

Lemma spends_runs {A B} (m : M N B) (k : B -> Prog N A) (n : nat) (c : Z) (Q : A -> Z -> Prop) rem nd :
  spends K I (Act m k) n c Q -> I rem nd -> exists b nd', m nd = Ret (b, nd').
Proof. intros Hs HI. destruct n as [|n]; [done|]. destruct (Hs rem nd HI) as (b & nd' & d & Hm & _). eauto. Qed.

(** What the next action of a goroutine of a call is proved to be. *)
Lemma asking_spends (c : Call N slot) gs (i : nat) e p : call_ok c gs -> cl_entries c !! i = Some e ->
  en_task e = Some (Asking p) -> exists m z, spends K I p m z (good (en_req e)) /\ i ∉ (cl_ch c).*1.
Proof.
  intros Hok Hi Ht. destruct (ghost_of _ _ _ _ Hok Hi) as (g & _ & _ & He).
  destruct He as [| | |r rl t w z _ _ _ Hw|r rl t w z _ _ _ Hw]; simpl in Ht; try done; [|by subst t; inversion Hw..].
  injection Ht as ->. eauto.
Qed.

Lemma counting_spends (c : Call N slot) gs (i : nat) e p : call_ok c gs -> cl_entries c !! i = Some e ->
  en_task e = Some (Counting p) -> exists m z, spends K I p m z (fun _ _ => True).
Proof.
  intros Hok Hi Ht. destruct (ghost_of _ _ _ _ Hok Hi) as (g & _ & _ & He).
  destruct He as [| | |r rl t w z _ _ _ Hw|r rl t w z _ _ _ Hw]; simpl in Ht; try done; subst t; inversion Hw; eauto.
Qed.

Lemma round_spends (c : Call N slot) gs createdAt (i : nat) p : call_ok c gs -> cl_at c = Looping createdAt i p ->
  exists e m z, cl_entries c !! i = Some e /\ spends K I p m z (checkedBy (en_req e)).
Proof.
  intros Hok Hat. pose proof (co_stage _ _ Hok) as Hs. unfold stage_ok in Hs. rewrite Hat in Hs.
  destruct (lookup_lt_is_Some_2 _ _ (proj1 Hs)) as [e Hi]. destruct (ghost_of _ _ _ _ Hok Hi) as (g & _ & _ & He).
  unfold rounds, current in He. rewrite Hat in He. destruct He as [r _ _ Hc _|r p' m z _ Hp Hsp _| | |]; try lia.
  - by specialize (Hc eq_refl).
  - injection Hp as <-. eauto.
Qed.

Lemma call_calm (rem : Z) (nd : N) (c : Call N slot) gs : I rem nd -> call_ok c gs -> ~ panics nd (Client c).
Proof.
  intros HI Hok Hp. inversion Hp as [? ? ? ? m k why Hat Hm|? ? ? ? m k why Hi Ht Hm|? ? ? ? m k why Hi Ht Hm|? ? ? ? Hi Ht Hcl|]; subst.
  - destruct (round_spends _ _ _ _ _ Hok Hat) as (e & n & z & _ & Hs). destruct (spends_runs _ _ _ _ _ _ _ Hs HI) as (b & nd' & Hr). congruence.
  - destruct (asking_spends _ _ _ _ _ Hok Hi Ht) as (n & z & Hs & _). destruct (spends_runs _ _ _ _ _ _ _ Hs HI) as (b & nd' & Hr). congruence.
  - destruct (counting_spends _ _ _ _ _ Hok Hi Ht) as (n & z & Hs). destruct (spends_runs _ _ _ _ _ _ _ Hs HI) as (b & nd' & Hr). congruence.
  - pose proof (Forall_lookup_1 _ _ _ _ (co_closed _ _ Hok Hcl) Hi) as Hf. unfold pendingTask in Hf. by rewrite Ht in Hf.
Qed.

(** There is room on the channel for an answer not sent yet. *)
Lemma channel_room (c : Call N slot) gs (i : nat) : call_ok c gs -> i ∉ (cl_ch c).*1 -> (i < length (cl_entries c))%nat ->
  (length (cl_ch c) < length (cl_entries c))%nat.
Proof.
  intros Hok Hn Hi. assert (Hnd : NoDup (i :: (cl_ch c).*1)) by (apply NoDup_cons; split; [done|apply Hok]).
  assert (Hsub : i :: (cl_ch c).*1 ⊆+ seq 0 (length (cl_entries c))).
  { apply NoDup_submseteq; [done|]. intros j. rewrite elem_of_cons, elem_of_seq. intros [->|Hj]; [lia|].
    destruct (co_bound _ _ Hok j Hj). lia. }
  apply submseteq_length in Hsub. rewrite length_seq in Hsub. simpl in Hsub. rewrite length_fmap in Hsub. lia.
Qed.

(** The call waits for none but goroutines that can move. *)
Lemma pending_moves (rem : Z) (nd : N) (c : Call N slot) gs (i : nat) e : I rem nd -> call_ok c gs ->
  cl_entries c !! i = Some e -> pendingTask e = true -> exists nd' c', call_step Info conf su nd c nd' c'.
Proof.
  intros HI Hok Hi Hp. unfold pendingTask in Hp. destruct (en_task e) as [[p| | |]|] eqn:Ht; try done; [|by do 2 eexists; eapply t_done].
  destruct (asking_spends _ _ _ _ _ Hok Hi Ht) as (n & z & Hs & Hn). destruct p as [rl|B m k].
  - do 2 eexists. eapply t_send; [done|done| |eapply channel_room; [done|done|by eapply lookup_lt_Some]].
    destruct (cl_closed c) eqn:Hcl; [|done]. pose proof (Forall_lookup_1 _ _ _ _ (co_closed _ _ Hok Hcl) Hi) as Hf.
    unfold pendingTask in Hf. by rewrite Ht in Hf.
  - destruct (spends_runs _ _ _ _ _ _ _ Hs HI) as (b & nd' & Hr). do 2 eexists. by eapply t_act.
Qed.

Lemma client_call_moves (rem : Z) (nd : N) (c : Call N slot) gs : I rem nd -> call_ok c gs ->
  (exists nd' c', call_step Info conf su nd c nd' c') \/ exists res, cl_at c = Returned res.
Proof.
  intros HI Hok. destruct (cl_at c) as [|cr i [s|B m k]| | |res] eqn:Hat; [left..|right; by eexists].
  - destruct (decide (maxBatchSize < length (cl_entries c))%nat) as [Hl|Hl].
    + destruct (spends_runs _ _ _ _ _ _ _ (count_spends "gubernator_check_error_counter/Request too large") HI) as ([] & nd' & Hm).
      do 2 eexists. by eapply c_refuse.
    + destruct (spends_runs _ _ _ _ _ _ _ now_spends HI) as (cr & nd' & Hm). do 2 eexists. eapply c_start; [done|lia|done].
  - destruct (round_spends _ _ _ _ _ Hok Hat) as (e & n & z & Hi & _). destruct s as [rl|[peer r]].
    + do 2 eexists. by eapply c_answer.
    + do 2 eexists. by eapply c_go.
  - destruct (round_spends _ _ _ _ _ Hok Hat) as (e & n & z & Hi & Hs).
    destruct (spends_runs _ _ _ _ _ _ _ Hs HI) as (b & nd' & Hr). do 2 eexists. by eapply c_act.
  - destruct (decide (Forall (fun e => pendingTask e = false) (cl_entries c))) as [Hf|Hf]; [do 2 eexists; by eapply c_wait|].
    apply not_Forall_Exists in Hf; [|apply _]. apply Exists_exists in Hf as (e & [i Hi]%list_elem_of_lookup & Hp).
    eapply pending_moves; [done|done|exact Hi|by apply not_false_iff_true].
  - destruct (cl_ch c) as [|[i rl] ch] eqn:Hch; [do 2 eexists; by eapply c_return|].
    assert (Hin : i ∈ (cl_ch c).*1) by (rewrite Hch; left). destruct (co_bound _ _ Hok i Hin) as [_ Hl].
    destruct (lookup_lt_is_Some_2 _ _ Hl) as [e Hi]. do 2 eexists. by eapply c_drain.
Qed.

(** A reply has an answer for every request. *)
Lemma call_replies (c : Call N slot) gs rs : call_ok c gs -> cl_at c = Returned (Ok rs) ->
  length gs = length (cl_entries c) /\ rs = en_resp <$> cl_entries c /\
  forall i e, cl_entries c !! i = Some e -> exists g rl, gs !! i = Some g /\ en_resp e = Some rl /\ good (en_req e) rl g.2.
Proof.
  intros Hok Hat. pose proof (co_stage _ _ Hok) as Hs. unfold stage_ok in Hs. rewrite Hat in Hs. destruct Hs as (Hcl & Hch & ->).
  split_and!; [apply Hok|done|]. intros i e Hi. destruct (ghost_of _ _ _ _ Hok Hi) as (g & Hg & _ & He).
  assert (Hr : rounds c = length (cl_entries c)) by (unfold rounds; by rewrite Hat). rewrite Hr, Hch in He.
  pose proof (lookup_lt_Some _ _ _ Hi). pose proof (Forall_lookup_1 _ _ _ _ (co_closed _ _ Hok Hcl) Hi) as Hp.
  destruct He as [| | |r rl t w z _ Hin|r rl t w z _ _ Hgood _]; try lia; [done|by apply elem_of_nil in Hin|by exists (w, z), rl].
Qed.
(** *** Calls of members *)

Inductive fentry_ok (R i : nat) : Entry (FanAt N) -> nat * Z -> Prop :=
  | fo_fresh r : okPeer r -> (R <= i)%nat -> fentry_ok R i (fresh r) ((Np + 3)%nat, 0)
  | fo_evaluating r p m c : (i < R)%nat -> spends K I p m c (goodPeer r) ->
      fentry_ok R i (mkEntry r None (Some (Evaluating p))) ((m + 2)%nat, c)
  | fo_offering r rl c : (i < R)%nat -> goodPeer r rl c -> fentry_ok R i (mkEntry r None (Some (Offering rl))) (1%nat, c)
  | fo_gone r rl c : (i < R)%nat -> goodPeer r rl c -> fentry_ok R i (mkEntry r (Some rl) (Some Gone)) (0%nat, c).

Abbreviation fentries_ok R := (tracked (fentry_ok R)).

Definition fanRounds (c : FanCall N) : nat :=
  match fc_at c with
  | FEntered | FReturned (Err _) => 0
  | Fanning i => i
  | _ => length (fc_entries c)
  end.

Definition fanStage_ok (c : FanCall N) : Prop :=
  match fc_at c with
  | Fanning i => (i <= length (fc_entries c))%nat
  | WaitCollector => running (fc_entries c) = 0%nat
  | FReturned (Ok rs) => running (fc_entries c) = 0%nat /\ rs = en_resp <$> fc_entries c
  | _ => True
  end.

Definition fan_ok (c : FanCall N) (gs : list (nat * Z)) : Prop :=
  fentries_ok (fanRounds c) (fc_entries c) gs /\ fanStage_ok c.

Definition fanStageSteps (c : FanCall N) : nat :=
  match fc_at c with FEntered => 3 | Fanning _ => 2 | WaitCollector => 1 | FReturned _ => 0 end.

Definition fanAdvanced (rem : Z) (nd' : N) (c' c : FanCall N) (gs : list (nat * Z)) : Prop :=
  exists d gs', 0 <= d /\ (K nd' -> I (rem - d) nd') /\ fan_ok c' gs' /\
    (fanStageSteps c' + steps gs' < fanStageSteps c + steps gs)%nat /\ charges gs' <= charges gs + d.

Lemma running_none (es : list (Entry (FanAt N))) (i : nat) e : running es = 0%nat -> es !! i = Some e -> fanRunning e = false.
Proof.
  unfold running. intros Hr%length_zero_iff_nil Hi. destruct (fanRunning e) eqn:Hf; [|done].
  assert (Hin : e ∈ filter (fun e => fanRunning e = true) es) by (apply list_elem_of_filter; split; [done|by eapply list_elem_of_lookup_2]).
  rewrite Hr in Hin. by apply elem_of_nil in Hin.
Qed.

(** A goroutine of the fan-out, which runs, moves on. *)
Lemma fan_task_moves (rem d : Z) (nd' : N) (c : FanCall N) gs (i : nat) e e' g g' :
  fan_ok c gs -> fc_entries c !! i = Some e -> fanRunning e = true -> gs !! i = Some g -> 0 <= g.2 ->
  fentry_ok (fanRounds c) i e' g' -> 0 <= d -> (K nd' -> I (rem - d) nd') -> (g'.1 < g.1)%nat -> g.2 <= g'.2 <= g.2 + d ->
  fanAdvanced rem nd' (mkFanCall (fc_at c) (<[i := e']> (fc_entries c))) c gs.
Proof.
  intros [Hes Hst] Hi Hrun Hg Hpos Hnew Hd HI Hlt Hch. exists d, (<[i := g']> gs).
  pose proof (steps_insert gs i g g' Hg). pose proof (charges_insert gs i g g' Hg).
  split_and!; [done|done| |unfold fanStageSteps; simpl; lia|lia]. split.
  - replace (fanRounds (mkFanCall (fc_at c) (<[i := e']> (fc_entries c)))) with (fanRounds c)
      by (unfold fanRounds; simpl; by rewrite length_insert).
    eapply tracked_insert; [exact Hes|done|lia|done|done].
  - unfold fanStage_ok in *. simpl. rewrite length_insert.
    assert (Hne : running (fc_entries c) <> 0%nat) by (intros Hr; by rewrite (running_none _ _ _ Hr Hi) in Hrun).
    by destruct (fc_at c) as [| | |[rs|]]; [..|destruct Hst|].
Qed.

Lemma fan_ghost (c : FanCall N) gs (i : nat) e : fan_ok c gs -> fc_entries c !! i = Some e ->
  exists g, gs !! i = Some g /\ 0 <= g.2 /\ fentry_ok (fanRounds c) i e g.
Proof. intros [[_ Hes] _]. apply Hes. Qed.

Lemma fan_run_ok (rem : Z) (nd : N) (c : FanCall N) gs (i : nat) e :
  I rem nd -> fan_ok c gs -> fc_at c = Fanning i -> fc_entries c !! i = Some e ->
  fanAdvanced rem nd (mkFanCall (Fanning (Datatypes.S i))
    (<[i := task (Evaluating (peerOneP conf su (en_req e))) e]> (fc_entries c))) c gs.
Proof.
  intros HI Hok Hat Hi. destruct (fan_ghost _ _ _ _ Hok Hi) as (g & Hg & Hpos & He). destruct Hok as [Hes Hst].
  unfold fanRounds in *. rewrite Hat in *. destruct He as [r Hr _| | |]; try lia.
  pose proof (steps_insert gs i _ ((Np + 2)%nat, 0) Hg) as Hs. pose proof (charges_insert gs i _ ((Np + 2)%nat, 0) Hg) as Hc. simpl in Hs, Hc.
  exists 0, (<[i := ((Np + 2)%nat, 0)]> gs). rewrite Z.sub_0_r.
  split_and!; [done|done| |unfold fanStageSteps; rewrite Hat; simpl; lia|lia]. split.
  - unfold fanRounds. simpl. eapply tracked_insert; [exact Hes|done|done|apply (fo_evaluating _ _ _ _ Np); [lia|by apply peer_spends]|].
    intros j ej gj Hne _ Hej. destruct Hej; constructor; first [done|lia].
  - unfold fanStage_ok. simpl. rewrite length_insert. pose proof (lookup_lt_Some _ _ _ Hi). lia.
Qed.
Lemma evaluating_spends (c : FanCall N) gs (i : nat) e p : fan_ok c gs -> fc_entries c !! i = Some e ->
  en_task e = Some (Evaluating p) ->
  exists m z, spends K I p m z (goodPeer (en_req e)) /\ gs !! i = Some ((m + 2)%nat, z) /\ 0 <= z /\ (i < fanRounds c)%nat.
Proof.
  intros Hok Hi Ht. destruct (fan_ghost _ _ _ _ Hok Hi) as (g & Hg & Hpos & He).
  destruct He as [|r p' m z Hlt Hs| |]; simpl in Ht; try done. injection Ht as ->. by exists m, z.
Qed.

Lemma fan_step_ok (rem : Z) (nd nd' : N) (c c' : FanCall N) gs :
  I rem nd -> fan_ok c gs -> fan_step conf su workers nd c nd' c' -> fanAdvanced rem nd' c' c gs.
Proof.
  intros HI Hok Hstep. destruct Hstep as [nd' Hat Hl Hm|Hat Hl|i e Hat Hi Hr|i Hat Hi Hr|Hat|i e B m k b nd' Hi Ht Hm|i e rl Hi Ht|i e rl Hi Ht].
  - destruct (spends_act _ _ _ _ _ _ _ _ _ (count_spends _) HI Hm) as (n & d & _ & Hd & HI' & _).
    destruct Hok as [Hes Hst]. unfold fanRounds in *. rewrite Hat in *. exists d, gs.
    split_and!; [done|done|done|unfold fanStageSteps; rewrite Hat; simpl; lia|lia].
  - destruct Hok as [Hes Hst]. unfold fanRounds in *. rewrite Hat in *. exists 0, gs. rewrite Z.sub_0_r.
    split_and!; [done|done|split; [done|unfold fanStage_ok; simpl; lia]|unfold fanStageSteps; rewrite Hat; simpl; lia|lia].
  - by apply fan_run_ok.
  - destruct Hok as [Hes Hst]. unfold fanRounds, fanStage_ok in *. rewrite Hat in *. exists 0, gs. rewrite Z.sub_0_r.
    apply lookup_ge_None in Hi. assert (i = length (fc_entries c)) as -> by lia.
    split_and!; [done|done|done|unfold fanStageSteps; rewrite Hat; simpl; lia|lia].
  - destruct Hok as [Hes Hst]. unfold fanRounds, fanStage_ok in *. rewrite Hat in *. exists 0, gs. rewrite Z.sub_0_r.
    split_and!; [done|done|done|unfold fanStageSteps; rewrite Hat; simpl; lia|lia].
  - destruct (evaluating_spends _ _ _ _ _ Hok Hi Ht) as (n & z & Hs & Hg & Hpos & Hlt).
    destruct (spends_act _ _ _ _ _ _ _ _ _ Hs HI Hm) as (n' & d & -> & Hd & HI' & Hk).
    assert (Hresp : en_resp e = None) by (destruct (fan_ghost _ _ _ _ Hok Hi) as (g & _ & _ & He); by destruct He).
    eapply (fan_task_moves _ d _ _ _ _ _ _ _ ((n' + 2)%nat, z + d)); [done|done|by unfold fanRunning; rewrite Ht|exact Hg|done| |done|done|simpl; lia|simpl; lia].
    unfold task. rewrite Hresp. by constructor.
  - destruct (evaluating_spends _ _ _ _ _ Hok Hi Ht) as (n & z & Hs & Hg & Hpos & Hlt).
    assert (Hresp : en_resp e = None) by (destruct (fan_ghost _ _ _ _ Hok Hi) as (g & _ & _ & He); by destruct He).
    eapply (fan_task_moves _ 0 _ _ _ _ _ _ _ (1%nat, z)); [done|done|by unfold fanRunning; rewrite Ht|exact Hg|done| |done|by rewrite Z.sub_0_r|simpl; lia|simpl; lia].
    unfold task. rewrite Hresp. by constructor.
  - destruct (fan_ghost _ _ _ _ Hok Hi) as (g & Hg & Hpos & He).
    destruct He as [| |r rl' z Hlt Hgood|]; simpl in Ht; try done. injection Ht as ->.
    eapply (fan_task_moves _ 0 _ _ _ _ _ _ _ (0%nat, z)); [done|done|done|exact Hg|done|by constructor|done|by rewrite Z.sub_0_r|simpl; lia|simpl; lia].
Qed.

Lemma fan_calm (rem : Z) (nd : N) (c : FanCall N) gs : I rem nd -> fan_ok c gs -> ~ panics nd (ForPeer c : AnyCall N slot).
Proof.
  intros HI Hok Hp. inversion Hp as [| | | |? ? ? ? m k why Hi Ht Hm]; subst.
  destruct (evaluating_spends _ _ _ _ _ Hok Hi Ht) as (n & z & Hs & _). destruct (spends_runs _ _ _ _ _ _ _ Hs HI) as (b & nd' & Hr). congruence.
Qed.

(** A goroutine of the fan-out that has not returned can move. *)
Lemma fan_running_moves (rem : Z) (nd : N) (c : FanCall N) gs : I rem nd -> fan_ok c gs -> running (fc_entries c) <> 0%nat ->
  exists nd' c', fan_step conf su workers nd c nd' c'.
Proof.
  intros HI Hok Hr. unfold running in Hr. destruct (filter _ (fc_entries c)) as [|e l] eqn:Hf; [done|].
  assert (He : e ∈ filter (fun e => fanRunning e = true) (fc_entries c)) by (rewrite Hf; left).
  apply list_elem_of_filter in He as [Hrun [i Hi]%list_elem_of_lookup]. unfold fanRunning in Hrun.
  destruct (en_task e) as [[p|rl|]|] eqn:Ht; try done; [|by do 2 eexists; eapply f_collect].
  destruct p as [rl|B m k]; [by do 2 eexists; eapply f_offer|].
  destruct (evaluating_spends _ _ _ _ _ Hok Hi Ht) as (n & z & Hs & _).
  destruct (spends_runs _ _ _ _ _ _ _ Hs HI) as (b & nd' & Hm). do 2 eexists. by eapply f_act.
Qed.

Lemma fan_moves (rem : Z) (nd : N) (c : FanCall N) gs : (0 < workers)%nat -> I rem nd -> fan_ok c gs ->
  (exists nd' c', fan_step conf su workers nd c nd' c') \/ exists res, fc_at c = FReturned res.
Proof.
  intros Hw HI Hok. destruct (fc_at c) as [|i| |res] eqn:Hat; [left..|right; by eexists].
  - destruct (decide (maxBatchSize < length (fc_entries c))%nat) as [Hl|Hl].
    + destruct (spends_runs _ _ _ _ _ _ _ (count_spends "gubernator_check_error_counter/Request too large") HI) as ([] & nd' & Hm).
      do 2 eexists. by eapply f_refuse.
    + do 2 eexists. eapply f_start; [done|lia].
  - destruct (decide (running (fc_entries c) = 0%nat)) as [Hz|Hz]; [|by eapply fan_running_moves].
    destruct (fc_entries c !! i) as [e|] eqn:Hi; do 2 eexists; [eapply f_run; [done|done|lia]|by eapply f_close].
  - do 2 eexists. by eapply f_return.
Qed.

Lemma fan_replies (c : FanCall N) gs rs : fan_ok c gs -> fc_at c = FReturned (Ok rs) ->
  length gs = length (fc_entries c) /\ rs = en_resp <$> fc_entries c /\
  forall i e, fc_entries c !! i = Some e -> exists g rl, gs !! i = Some g /\ en_resp e = Some rl /\ goodPeer (en_req e) rl g.2.
Proof.
  intros Hok Hat. pose proof Hok as [[Hlen _] Hst]. unfold fanStage_ok in Hst. rewrite Hat in Hst. destruct Hst as [Hr ->].
  split_and!; [done|done|]. intros i e Hi. destruct (fan_ghost _ _ _ _ Hok Hi) as (g & Hg & _ & He).
  unfold fanRounds in He. rewrite Hat in He. pose proof (lookup_lt_Some _ _ _ Hi). pose proof (running_none _ _ _ Hr Hi) as Hf.
  destruct He as [| | |r rl z _ Hgood]; try lia; [done..|by exists (0%nat, z), rl].
Qed.
(** *** All calls together *)

Lemma charges_nonneg {E} (P : nat -> E -> nat * Z -> Prop) es gs : tracked P es gs -> 0 <= charges gs.
Proof.
  intros [Hlen Hes]. unfold charges, sumZ. assert (Hall : Forall (fun g : nat * Z => 0 <= g.2) gs).
  { apply Forall_lookup. intros i g Hg. destruct (lookup_lt_is_Some_2 es i) as [e He]; [rewrite <- Hlen; by eapply lookup_lt_Some|].
    destruct (Hes i e He) as (g' & Hg' & Hpos & _). congruence. }
  clear Hes Hlen. induction Hall as [|g gs Hg _ IH]; csimpl; lia.
Qed.

Definition any_ok (c : AnyCall N slot) (g : nat * Z) : Prop :=
  match c with
  | Client c => exists gs, call_ok c gs /\ g = ((stageSteps c + steps gs)%nat, charges gs)
  | ForPeer c => exists gs, fan_ok c gs /\ g = ((fanStageSteps c + steps gs)%nat, charges gs)
  end.

(** The instance has [rem] left of [budget], the calls were charged no more than the rest,
    and take at most [n] further steps. *)
Definition sys_ok (budget : Z) (s : System (C := C) (S := S) (Peer := Peer)) (n : nat) : Prop :=
  exists rem gs, I rem (sy_node s) /\ tracked (fun _ => any_ok) (sy_calls s) gs /\ n = steps gs /\ rem + charges gs <= budget.

Lemma sys_run_step (budget : Z) s s' (n : nat) : sys_ok budget s n -> run_step Info conf su workers s s' -> K (sy_node s') ->
  exists n', (n' < n)%nat /\ sys_ok budget s' n'.
Proof.
  intros (rem & gs & HI & Htr & -> & Hb) Hstep HK.
  assert (Hput : forall j c c' n' z' d, sy_calls s !! j = Some c -> any_ok c' (n', z') -> 0 <= z' ->
    (forall g, any_ok c g -> gs !! j = Some g -> (n' < g.1)%nat /\ z' <= g.2 + d) ->
    I (rem - d) (sy_node s') -> exists n', (n' < steps gs)%nat /\ sys_ok budget (mkSystem (sy_node s') (<[j := c']> (sy_calls s))) n').
  { intros j c c' n' z' d Hj Hok' Hz Hlt HI'. destruct (proj2 Htr j c Hj) as (g & Hg & _ & Hok).
    destruct (Hlt g Hok Hg) as [Hn Hzd]. pose proof (steps_insert gs j g (n', z') Hg). pose proof (charges_insert gs j g (n', z') Hg).
    simpl in *. exists (steps (<[j := (n', z')]> gs)). split; [lia|]. exists (rem - d), (<[j := (n', z')]> gs).
    split_and!; [done| |done|lia]. eapply tracked_insert; [exact Htr|done|done|done|done]. }
  destruct Hstep as [j c nd' c' Hj Hst|j c nd' c' Hj Hst]; destruct (proj2 Htr j _ Hj) as (g & Hg & _ & gs1 & Hok & ->).
  - destruct (call_step_ok _ _ _ _ _ _ HI Hok Hst) as (d & gs' & Hd & HI' & Hok' & Hn & Hz).
    eapply (Hput j _ (Client c') _ (charges gs') d); [done|by exists gs'|eapply charges_nonneg, Hok'| |by apply HI'].
    intros g _ Hg'. rewrite Hg in Hg'. injection Hg' as <-. done.
  - destruct (fan_step_ok _ _ _ _ _ _ HI Hok Hst) as (d & gs' & Hd & HI' & Hok' & Hn & Hz).
    eapply (Hput j _ (ForPeer c') _ (charges gs') d); [done|by exists gs'|eapply charges_nonneg, Hok'| |by apply HI'].
    intros g _ Hg'. rewrite Hg in Hg'. injection Hg' as <-. done.
Qed.
Lemma fresh_lookup {T} (reqs : list RateLimitReq) (i : nat) (e : Entry T) : (fresh <$> reqs) !! i = Some e ->
  exists r, reqs !! i = Some r /\ e = fresh r.
Proof. intros Hi. apply list_lookup_fmap_Some in Hi as (r & -> & Hr). eauto. Qed.

Lemma sys_env_step (budget : Z) s s' (n : nat) : sys_ok budget s n -> env_step okReq okPeer s s' ->
  exists n', sys_ok budget s' n'.
Proof.
  intros (rem & gs & HI & Htr & -> & Hb) Hstep.
  assert (Hadd : forall c m, any_ok c (m, 0) -> exists n', sys_ok budget (mkSystem (sy_node s) (sy_calls s ++ [c])) n').
  { intros c m Hc. eexists. exists rem, (gs ++ [(m, 0)]). split_and!; [done| |done|].
    - destruct Htr as [Hlen Hes]. split; [simpl; rewrite !length_app; simpl; lia|]. intros i e Hi. simpl in Hi.
      apply lookup_snoc_Some in Hi as [[Hlt Hi]|[-> <-]].
      + destruct (Hes i e Hi) as (g & Hg & Hpos & Hok). exists g. by rewrite lookup_app_l by lia.
      + exists (m, 0). rewrite <- Hlen, lookup_app_r, Nat.sub_diag by lia. done.
    - unfold charges, sumZ in *. rewrite fmap_app, fold_right_app.
      by replace (fold_right Z.add 0 (snd <$> [(m, 0)])) with 0. }
  assert (Hzero : forall m k, charges (replicate k (m, 0)) = 0)
    by (intros m k; unfold charges, sumZ; induction k; csimpl; lia).
  destruct Hstep as [reqs Hr|reqs Hr]; rewrite Forall_lookup in Hr.
  - eapply (Hadd _ _). exists (replicate (length reqs) ((Nc + 1 + (Na + 6))%nat, 0)).
    split; [|by rewrite Hzero]. constructor; simpl; [|constructor|by intros i Hi%elem_of_nil|done|done].
    split; [by rewrite length_replicate, length_fmap|]. intros i e (r & Hi & ->)%fresh_lookup.
    eexists. rewrite lookup_replicate_2 by (by eapply lookup_lt_Some). split_and!; [done|done|].
    apply eo_fresh; [by eapply Hr|unfold rounds; simpl; lia|done|by intros Hn%elem_of_nil].
  - eapply (Hadd _ _). exists (replicate (length reqs) ((Np + 3)%nat, 0)).
    split; [|by rewrite Hzero]. split; [|done]. split; [simpl; by rewrite length_replicate, length_fmap|].
    intros i e (r & Hi & ->)%fresh_lookup. eexists. rewrite lookup_replicate_2 by (by eapply lookup_lt_Some).
    split_and!; [done|done|]. apply fo_fresh; [by eapply Hr|unfold fanRounds; simpl; lia].
Qed.

Lemma sys_reaches (rem : Z) (nd : N) s : I rem nd -> rtc (sys_step Info conf su workers okReq okPeer K) (started nd) s ->
  exists n, sys_ok rem s n.
Proof.
  intros HI. apply (rtc_invariant _ (fun s => exists n, sys_ok rem s n)).
  - intros s1 s2 [He _|Hr HK'] [n Hok]; [by eapply sys_env_step|].
    destruct (sys_run_step _ _ _ _ Hok Hr HK') as (n' & _ & Hok'). eauto.
  - exists 0%nat, rem, []. split_and!; [done|split; [done|by intros i e Hi]|done|]. unfold charges. simpl. lia.
Qed.
Lemma sys_calm (budget : Z) s (n : nat) : sys_ok budget s n -> Forall (fun c => ~ panics (sy_node s) c) (sy_calls s).
Proof.
  intros (rem & gs & HI & Htr & _). apply Forall_lookup. intros j c Hj.
  destruct (proj2 Htr j c Hj) as (g & _ & _ & Hok). destruct c as [c|c]; destruct Hok as (gs1 & Hok & _).
  - by eapply call_calm.
  - by eapply fan_calm.
Qed.

Lemma sys_moves (budget : Z) s (n : nat) : (0 < workers)%nat -> sys_ok budget s n -> (exists s', run_step Info conf su workers s s') \/ answered s.
Proof.
  intros Hw (rem & gs & HI & Htr & _).
  destruct (decide (answered s)) as [Ha|Ha]; [by right|left].
  apply not_Forall_Exists in Ha; [|apply _]. apply Exists_exists in Ha as (c & [j Hj]%list_elem_of_lookup & Hc).
  destruct (proj2 Htr j c Hj) as (g & _ & _ & Hok). destruct c as [c|c]; destruct Hok as (gs1 & Hok & _).
  - destruct (client_call_moves _ _ _ _ HI Hok) as [(nd' & c' & Hst)|[res Hres]]; [eexists; by eapply r_client|].
    destruct Hc. simpl. by rewrite Hres.
  - destruct (fan_moves _ _ _ _ Hw HI Hok) as [(nd' & c' & Hst)|[res Hres]]; [eexists; by eapply r_peer|].
    destruct Hc. simpl. by rewrite Hres.
Qed.

(** A reply answers its requests place by place. *)
Lemma sys_replies (budget : Z) s (n : nat) j c reqs rs : sys_ok budget s n -> sy_calls s !! j = Some c -> replyOf c = Some (reqs, rs) ->
  Forall2 (fun r o => exists rl z, o = Some rl /\
    match c with Client _ => good r rl z | ForPeer _ => goodPeer r rl z end) reqs rs.
Proof.
  intros (rem & gs & HI & Htr & _) Hj Hrep. destruct (proj2 Htr j c Hj) as (g & _ & _ & Hok). unfold replyOf in Hrep.
  destruct c as [c|c]; destruct Hok as (gs1 & Hok & _); [destruct (cl_at c) as [| | | |[rs'|]] eqn:Hat|destruct (fc_at c) as [| | |[rs'|]] eqn:Hat];
    try done; injection Hrep as <- <-.
  - destruct (call_replies _ _ _ Hok Hat) as (_ & -> & Hes). apply Forall2_fmap_2, Forall_Forall2_diag, Forall_lookup.
    intros i e Hi. destruct (Hes i e Hi) as (g1 & rl & _ & Hrl & Hgood). by exists rl, g1.2.
  - destruct (fan_replies _ _ _ Hok Hat) as (_ & -> & Hes). apply Forall2_fmap_2, Forall_Forall2_diag, Forall_lookup.
    intros i e Hi. destruct (Hes i e Hi) as (g1 & rl & _ & Hrl & Hgood). by exists rl, g1.2.
Qed.

Lemma sys_bounded (budget : Z) s s' (n k : nat) : (forall nd, K nd) -> sys_ok budget s n ->
  nsteps (run_step Info conf su workers) k s s' -> exists n', (k + n' <= n)%nat /\ sys_ok budget s' n'.
Proof.
  intros HK Hok Hn. revert n Hok. induction Hn as [s|k s s1 s2 Hst _ IH]; intros n Hok; [by exists n|].
  destruct (sys_run_step _ _ _ _ Hok Hst (HK _)) as (n1 & Hlt & Hok1). destruct (IH n1 Hok1) as (n' & Hle & Hok'). exists n'. split; [lia|done].
Qed.
(** What a value of the answers, at most their charge, adds up to over all replies. *)
Lemma tracked_sum {E} (f : E -> Z) (es : list E) gs : length gs = length es ->
  (forall i e, es !! i = Some e -> exists g, gs !! i = Some g /\ f e <= g.2) -> sumZ (f <$> es) <= charges gs.
Proof.
  unfold charges, sumZ. revert gs. induction es as [|e es IH]; intros [|g gs] Hlen Hf; try done.
  destruct (Hf 0%nat e eq_refl) as (g' & [= <-] & Hg). csimpl.
  assert (fold_right Z.add 0 (f <$> es) <= fold_right Z.add 0 (snd <$> gs)); [|lia].
  apply IH; [by injection Hlen|]. intros i e' Hi. apply (Hf (Datatypes.S i) e' Hi).
Qed.

Lemma sys_total (v : RateLimitReq -> RateLimitResp -> Z) (budget : Z) s (n : nat) :
  (forall r rl z, good r rl z -> v r rl <= z) -> (forall r rl z, goodPeer r rl z -> v r rl <= z) ->
  sys_ok budget s n -> exists rem, I rem (sy_node s) /\ rem + totalIn v s <= budget.
Proof.
  intros Hg Hgp (rem & gs & HI & Htr & _ & Hb). exists rem. split; [done|]. enough (totalIn v s <= charges gs) by lia.
  apply tracked_sum; [apply Htr|]. intros j c Hj. destruct (proj2 Htr j c Hj) as (g & Hgj & Hpos & Hok). exists g. split; [done|].
  unfold replyTotal, replyOf. destruct c as [c|c]; destruct Hok as (gs1 & Hok & ->); simpl in Hpos;
    [destruct (cl_at c) as [| | | |[rs|]] eqn:Hat|destruct (fc_at c) as [| | |[rs|]] eqn:Hat]; try done.
  - destruct (call_replies _ _ _ Hok Hat) as (Hlen & -> & Hes). simpl. rewrite zip_with_fmap_l, zip_with_fmap_r, zip_with_diag.
    apply tracked_sum; [done|]. intros i e Hi. destruct (Hes i e Hi) as (g & rl & Hgi & -> & Hgood). eauto.
  - destruct (fan_replies _ _ _ Hok Hat) as (Hlen & -> & Hes). simpl. rewrite zip_with_fmap_l, zip_with_fmap_r, zip_with_diag.
    apply tracked_sum; [done|]. intros i e Hi. destruct (Hes i e Hi) as (g & rl & Hgi & -> & Hgood). eauto.
Qed.
End Invariant.
