(* ===== verification/InstanceCalls.v ===== *)
(** * What the calls of an instance promise while they run at once

    Whatever the order in which the goroutines of all calls take their actions: none of
    them panics or sends on a closed channel, every call returns, a reply holds the answer
    to each request in its place, and the hits admitted on a key in all replies together
    stay within the limit of its bucket. Both come from one interface, [Budget]: what an
    evaluation on the worker pool takes from a budget the pool keeps. *)

From stdpp Require Import base gmap strings list relations.
From Stdlib Require Import ZArith Lia.
From S2P Require Import Prelude Float64 Types GoTime LeakyMath Runtime LRUCache Store Demo TokenBucket TokenSpec LeakyBucket Workers WorkersSpec ReplicatedHash Global GlobalSpec Instance InstanceSpec Goroutine InstanceLoop.

Local Open Scope Z_scope.

(** ** Requests on their way *)

(** [r'] asks for the same as [r]; the methods set its creation time and behaviours. *)
Record variant (r r' : RateLimitReq) : Prop := mkVariant {
  va_key : HashKey r' = HashKey r;
  va_algorithm : r_Algorithm r' = r_Algorithm r;
  va_limit : r_Limit r' = r_Limit r;
  va_duration : r_Duration r' = r_Duration r;
  va_hits : r_Hits r' = r_Hits r;
  va_reset : HasBehavior (r_Behavior r') RESET_REMAINING = HasBehavior (r_Behavior r) RESET_REMAINING
}.

#[global] Instance variant_preorder : PreOrder variant.
Proof.
  split; [by constructor|]. intros r1 r2 r3 [] []. constructor; congruence.
Qed.

Lemma variant_createdAt (r : RateLimitReq) (c : option Z) : variant r (with_CreatedAt c r).
Proof. by constructor. Qed.

Lemma variant_behavior (r r' : RateLimitReq) (flag : Z) (set : bool) : is_flag flag -> flag <> RESET_REMAINING ->
  variant r r' -> variant r (with_Behavior (SetBehavior (r_Behavior r') flag set) r').
Proof.
  intros Hf Hne Hv. etransitivity; [exact Hv|]. constructor; try done. simpl.
  rewrite SetBehavior_has by (done || by exists 3). by rewrite (proj2 (Z.eqb_neq _ _) Hne).
Qed.

Lemma variant_withCreatedAt (c : Z) (r : RateLimitReq) : variant r (withCreatedAt c r) /\ is_Some (r_CreatedAt (withCreatedAt c r)).
Proof.
  unfold withCreatedAt. destruct (r_CreatedAt r) as [c0|] eqn:E; [destruct (c0 =? 0)|];
    (split; [first [apply variant_createdAt|done]|first [done|by rewrite E]]).
Qed.

Lemma variant_forceGlobal (conf : NodeConf) (r r' : RateLimitReq) : variant r r' -> variant r (forceGlobal conf r').
Proof. unfold forceGlobal. destruct (nc_ForceGlobal conf); [|done]. apply variant_behavior; [by exists 1|done]. Qed.

Lemma variant_drainGlobal (r : RateLimitReq) : variant r (drainGlobal r).
Proof. unfold drainGlobal. destruct (HasBehavior _ _); [|done]. apply variant_behavior; [by exists 5|done|done]. Qed.

(** ** What the actions of an instance take *)

Section Nodes.
Context `{Arch} `{Hash64} {C S : Type} `{CacheLaws C} `{StoreLaws S} {Peer : Type} (su : Surroundings Peer).

Abbreviation N := (Node C S Peer).

(** A pool with another process around it. *)
Definition around (e : Env) (po : WorkerPool C S) : WorkerPool C S :=
  mkPool e (po_workers po) (po_store po) (po_hashRingStep po) (po_conf po).

(** The same for an instance. An evaluation takes what [price] says of its answer; so does
    an answer of another member, by [answerPrice]; asking anything else may take
    something, counting, reading the clock and queueing take nothing. *)
Class NodeBudget (K : N -> Prop) (I : Z -> N -> Prop) (okLocal : RateLimitReq -> Prop)
    (price : RateLimitReq -> RateLimitResp -> Z -> Prop) (answerPrice : RateLimitReq -> RateLimitResp -> Z -> Prop) : Prop := mkNodeBudget {
  nb_quiet : forall rem nd nd' e, I rem nd -> env_quiet (po_env (nd_pool nd)) e ->
    nd_pool nd' = around e (nd_pool nd) -> nd_consulted nd' = nd_consulted nd -> I rem nd';
  nb_ask : forall rem nd nd', I rem nd -> nd_pool nd' = nd_pool nd -> nd_consulted nd' = Datatypes.S (nd_consulted nd) ->
    exists d, 0 <= d /\ (K nd' -> I (rem - d) nd');
  nb_answer : forall rem nd nd' peer r, I rem nd -> nd_pool nd' = nd_pool nd -> nd_consulted nd' = Datatypes.S (nd_consulted nd) ->
    exists d, 0 <= d /\ (K nd' -> I (rem - d) nd') /\
      forall rl, su_answer su (nd_consulted nd) peer r = Ok rl -> answerPrice r rl d;
  nb_pool : forall rem nd r st, I rem nd -> okLocal r -> exists res nd' d,
    poolGetRateLimit su r st nd = Ret (res, nd') /\ 0 <= d /\ (K nd' -> I (rem - d) nd') /\
    forall rl, res = Ok rl -> price r rl d
}.

(** ** Budgets of the worker pool *)

Abbreviation P := (WorkerPool C S).

(** As long as it is in [Kp], a pool in [J rem] has [rem] left. A request in [okLocal]
    takes something of it, which [price] relates to its answer; reading the clock and
    counting take nothing. *)
Class Budget (Kp : P -> Prop) (J : Z -> P -> Prop) (okLocal : RateLimitReq -> Prop)
    (price : RateLimitReq -> RateLimitResp -> Z -> Prop) : Prop := mkBudget {
  bu_worker : forall rem po k, J rem po -> has_worker po k;
  bu_quiet : forall rem po e', J rem po -> env_quiet (po_env po) e' -> J rem (around e' po);
  bu_command : forall rem po r st, J rem po -> okLocal r -> exists res po' d,
    runCommand (CGetRateLimit r st) po = Ret (RRateLimit res, po') /\ 0 <= d /\ (Kp po' -> J (rem - d) po') /\
    forall rl, res = Ok rl -> price r rl d
}.

Definition inPool (Kp : P -> Prop) (nd : N) : Prop := Kp (nd_pool nd).
Definition left (J : Z -> P -> Prop) (rem : Z) (nd : N) : Prop := J rem (nd_pool nd).

(** [poolGetRateLimit] of a pool with a budget. *)
Lemma pool_action Kp J okLocal price `{!Budget Kp J okLocal price} (rem : Z) (nd : N) (r : RateLimitReq) (st : RateLimitReqState) :
  J rem (nd_pool nd) -> okLocal r -> exists res nd' d,
    poolGetRateLimit su r st nd = Ret (res, nd') /\ 0 <= d /\ (Kp (nd_pool nd') -> J (rem - d) (nd_pool nd')) /\
    nd_consulted nd' = Datatypes.S (nd_consulted nd) /\ forall rl, res = Ok rl -> price r rl d.
Proof.
  intros HI Hr. destruct (bu_command (Budget := Budget0) rem (nd_pool nd) r st HI Hr) as (res & po' & d & Hrun & Hd & HJ & Hpr).
  unfold poolGetRateLimit, mbind, M_bind, consult. unfold onPool, zoom. simpl.
  unfold GetRateLimit, callPool. destruct (su_gaveUp su (nd_consulted nd)) as [[[|] e]|].
  - rewrite bind_assoc, (bind_ret_run _ _ _ _ _ Hrun). simpl. eexists _, _, d. split_and!; [reflexivity|done|exact HJ|done|done].
  - unfold getWorker, mbind, M_bind. simpl. rewrite decide_True by (by eapply (bu_worker (Budget := Budget0))). simpl.
    eexists _, _, 0. rewrite Z.sub_0_r. split_and!; [reflexivity|done|done|done|done].
  - rewrite bind_assoc, (bind_ret_run _ _ _ _ _ Hrun). simpl. eexists _, _, d. split_and!; [reflexivity|done|exact HJ|done|].
    intros rl ->. by apply Hpr.
Qed.

#[export] Instance pool_node_budget Kp J okLocal price `{!Budget Kp J okLocal price} :
  NodeBudget (inPool Kp) (left J) okLocal price (fun _ _ _ => True).
Proof.
  constructor.
  - intros rem nd nd' e HI Hq Hp _. unfold left in *. rewrite Hp. by apply (bu_quiet (Budget := Budget0)).
  - intros rem nd nd' HI Hp _. exists 0. rewrite Z.sub_0_r. unfold left in *. by rewrite Hp.
  - intros rem nd nd' peer r HI Hp _. exists 0. rewrite Z.sub_0_r. unfold left in *. by rewrite Hp.
  - intros rem nd r st HI Hr. destruct (pool_action Kp J okLocal price rem nd r st HI Hr) as (res & nd' & d & Hm & Hd & HJ & _ & Hpr).
    by exists res, nd', d.
Qed.

(** A pool that is well formed: nothing is limited. *)
#[export] Instance plain_budget : Budget (fun _ => True) (fun _ po => pool_ok po /\ forall k, has_worker po k)
    (fun r => is_Some (r_CreatedAt r)) (fun _ _ _ => True).
Proof.
  constructor.
  - by intros _ po k [_ Hw].
  - intros _ po e' [Hp Hw] Hq. split; [|done]. apply pool_ok_env; [done|apply (env_quiet_ok (po_env po)); [done|apply Hp]|auto with env].
  - intros rem po r st [Hp Hw] [c Hc]. destruct (runCommand_iso po r st c Hp Hc (Hw _)) as (rep & po' & Hr & Hp' & _ & Hs & _ & Hl).
    destruct (runCommand_reply po r st rep po' Hr) as (res & ->). exists res, po', 0. split_and!; [done|lia| |done].
    intros _. split; [done|]. intros k. unfold has_worker. rewrite Hs, Hl. apply Hw.
Qed.
End Nodes.

(** ** The programs spend it *)

Section Spending.
Context `{Arch} `{Hash64} {C S : Type} `{CacheLaws C} `{StoreLaws S}.
Context {Peer : Type} (Info : Peer -> PeerInfo) (conf : NodeConf) (su : Surroundings Peer).

Abbreviation N := (Node C S Peer).

Context (K : N -> Prop) (I : Z -> N -> Prop) (okLocal : RateLimitReq -> Prop)
  (price answerPrice : RateLimitReq -> RateLimitResp -> Z -> Prop) `{!NodeBudget su K I okLocal price answerPrice}.

(** An action that runs whenever the invariant holds and gives a result in [R]. *)
Definition harmless {A} (m : M N A) (R : A -> Prop) : Prop := forall c, spends K I (atomic m) 1 c (fun a _ => R a).

Lemma harmless_then {A B} (m : M N A) (R : A -> Prop) (f : A -> Prog N B) (n : nat) (c : Z) (Q : B -> Z -> Prop) :
  harmless m R -> (forall a c', c <= c' -> R a -> spends K I (f a) n c' Q) -> spends K I (atomic m ≫= f) (Datatypes.S n) c Q.
Proof. intros Hm Hf. apply (spends_bind _ _ _ _ 1 n _ _ (fun a _ => R a)); [apply Hm|done|lia]. Qed.

Lemma harmless_last {A} (m : M N A) (R : A -> Prop) (n : nat) (c : Z) (Q : A -> Z -> Prop) :
  harmless m R -> (forall a c', c <= c' -> R a -> Q a c') -> (1 <= n)%nat -> spends K I (atomic m) n c Q.
Proof. intros Hm HQ Hn. by eapply spends_weaken; [apply Hm|done|]. Qed.

Lemma harmless_process {A} (m : M Env A) : (forall e, exists a e', m e = Ret (a, e') /\ env_quiet e e') ->
  harmless (onPool (onProcess m)) (fun _ => True).
Proof.
  intros Hm c. apply spends_free; [done|]. intros rem nd HI. destruct (Hm (po_env (nd_pool nd))) as (a & e' & Hr & Hq).
  eexists a, _. split; [unfold onPool, onProcess, zoom; by rewrite Hr|]. split; [|done].
  by eapply (nb_quiet su).
Qed.

Lemma harmless_queue (m : M N unit) :
  (forall nd, exists nd', m nd = Ret (tt, nd') /\ nd_pool nd' = nd_pool nd /\ nd_consulted nd' = nd_consulted nd) ->
  harmless m (fun _ => True).
Proof.
  intros Hm c. apply spends_free; [done|]. intros rem nd HI. destruct (Hm nd) as (nd' & Hr & Hp & Hn). exists tt, nd'.
  split; [done|]. split; [|done]. eapply (nb_quiet su) with (e := po_env (nd_pool nd)); [done|by constructor| |done].
  rewrite Hp. unfold around. by destruct (nd_pool nd).
Qed.

Lemma harmless_ask {A} (m : M N A) (R : A -> Prop) :
  (forall nd, exists a nd', m nd = Ret (a, nd') /\ nd_pool nd' = nd_pool nd /\ nd_consulted nd' = Datatypes.S (nd_consulted nd) /\ R a) ->
  harmless m R.
Proof.
  intros Hm c. apply spends_atomic; [done|]. intros rem nd HI. destruct (Hm nd) as (a & nd' & Hr & Hp & Hn & HR).
  destruct (nb_ask su rem nd nd' HI Hp Hn) as (d & Hd & HI'). by exists a, nd', d.
Qed.

Lemma harmless_count (name : string) : harmless (count name) (fun _ => True).
Proof. apply harmless_process, incr_calm. Qed.

Lemma harmless_countError (e : gerror) (dflt : string) : harmless (countNodeError e dflt) (fun _ => True).
Proof. apply harmless_process, incr_calm. Qed.

Lemma harmless_now : harmless (onPool (onProcess MillisecondNow)) (fun _ => True).
Proof. apply harmless_process, MillisecondNow_calm. Qed.

Lemma harmless_consult {A} (ask : nat -> A) : harmless (consult ask) (fun _ => True).
Proof. apply harmless_ask. intros nd. by eexists _, _. Qed.

Lemma harmless_queueUpdate (r : RateLimitReq) : harmless (queueUpdate r) (fun _ => True).
Proof. apply harmless_queue. intros nd. by eexists. Qed.

Lemma harmless_queueHit (r : RateLimitReq) : harmless (queueHit r) (fun _ => True).
Proof. apply harmless_queue. intros nd. by eexists. Qed.

Lemma harmless_recordCall (peer : Peer) (r : RateLimitReq) : harmless (recordCall peer r) (fun _ => True).
Proof. apply harmless_queue. intros nd. by eexists. Qed.

Lemma harmless_sendEvent (r : RateLimitReq) (rl : RateLimitResp) : harmless (sendEvent su r rl) (fun _ => True).
Proof.
  apply harmless_ask. intros nd. unfold sendEvent, mbind, M_bind, consult. simpl. destruct (su_eventTaken su _); by eexists _, _.
Qed.

Lemma pool_spends (r : RateLimitReq) (st : RateLimitReqState) (c : Z) : okLocal r ->
  spends K I (atomic (poolGetRateLimit su r st)) 1 c
    (fun res c' => forall rl, res = Ok rl -> exists d, price r rl d /\ c' = c + d).
Proof.
  intros Hr. apply spends_atomic; [done|]. intros rem nd HI.
  destruct (nb_pool su rem nd r st HI Hr) as (res & nd' & d & Hm & Hd & HI' & Hpr).
  exists res, nd', d. split_and!; [done..|]. intros rl ->. exists d. split; [by apply Hpr|done].
Qed.

Lemma answer_spends (peer : Peer) (r : RateLimitReq) (c : Z) :
  spends K I (atomic (consult (fun n => su_answer su n peer r))) 1 c
    (fun res c' => forall rl, res = Ok rl -> exists d, answerPrice r rl d /\ c' = c + d).
Proof.
  apply spends_atomic; [done|]. intros rem nd HI. set (nd' := mkNode (nd_pool nd) (nd_hits nd) (nd_updates nd) (nd_events nd) (nd_calls nd) (Datatypes.S (nd_consulted nd))).
  destruct (nb_answer su rem nd nd' peer r HI eq_refl eq_refl) as (d & Hd & HI' & Hpr).
  exists (su_answer su (nd_consulted nd) peer r), nd', d. split_and!; [done..|]. intros rl Hrl. exists d. split; [by apply Hpr|done].
Qed.

(** *** Answers and what they are charged *)

Context (good : RateLimitReq -> RateLimitResp -> Z -> Prop) (pick_ok : string -> Peer -> Prop).
Hypothesis good_mono : forall r rl c c', good r rl c -> c <= c' -> good r rl c'.
Hypothesis good_local : forall r r' rl d c, variant r r' -> price r' rl d -> d <= c -> 0 <= c -> good r rl c.
Hypothesis good_error : forall r msg c, 0 <= c -> msg <> "" -> good r (respError msg) c.
Hypothesis good_owned : forall r rl c peer, good r rl c -> good r (ownedBy Info peer rl) c.
Hypothesis good_forwarded : forall r r' peer rl d c, variant r r' -> pick_ok (HashKey r) peer -> pi_IsOwner (Info peer) = false ->
  answerPrice r' rl d -> d <= c -> 0 <= c -> good r rl c.
Hypothesis picks : forall n key peer, su_pick su n key = Ok peer -> pick_ok key peer.

(** Every way the methods may pass the request to the pool is all right. *)
Definition evaluable (r : RateLimitReq) : Prop := forall r', variant r r' -> is_Some (r_CreatedAt r') -> okLocal r'.

(** It is, for a request that may be evaluated here. *)
Definition ownable (r : RateLimitReq) : Prop :=
  forall peer, pick_ok (HashKey r) peer -> pi_IsOwner (Info peer) = true -> evaluable r.

Definition servable (r : RateLimitReq) : Prop :=
  ownable r /\ (HasBehavior (r_Behavior (forceGlobal conf r)) GLOBAL = true -> evaluable r).

Lemma wrapped_text (m : string) (e : gerror) : err_text (ErrWrap m e) <> "".
Proof. simpl. by destruct m. Qed.

Lemma wrapped_answer (r : RateLimitReq) (m : string) (e : gerror) (c : Z) : 0 <= c -> good r (respError (err_text (ErrWrap m e))) c.
Proof. intros Hc. apply good_error; [done|apply wrapped_text]. Qed.

Definition localAnswer (r : RateLimitReq) (res : result RateLimitResp) (c : Z) : Prop :=
  0 <= c /\ forall rl, res = Ok rl -> good r rl c.

Lemma localAnswer_mono (r : RateLimitReq) res c c' : localAnswer r res c -> c <= c' -> localAnswer r res c'.
Proof. intros [Hc Hg] Hle. split; [lia|]. intros rl Hrl. eapply good_mono; [by apply Hg|done]. Qed.

Lemma local_spends (r r' : RateLimitReq) (st : RateLimitReqState) (c : Z) :
  evaluable r -> variant r r' -> is_Some (r_CreatedAt r') -> 0 <= c ->
  spends K I (getLocalRateLimitP conf su r' st) 4 c (localAnswer r).
Proof.
  intros Hr Hv Hc H0c. unfold getLocalRateLimitP. destruct (String.eqb_spec (validateMaxWait r') "") as [Hm|Hm]; simpl negb; cbv iota.
  - eapply (spends_bind _ _ _ _ 1 3); [apply pool_spends, Hr; done| |lia]. intros [rl|e] c' Hcc Hpr; [|by apply spends_ret; split; [lia|]].
    destruct (Hpr rl eq_refl) as (d & Hd & ->). assert (Hgood : localAnswer r (Ok rl) (c + d)).
    { split; [lia|]. intros ? [= <-]. eapply good_local; [exact Hv|exact Hd|lia|lia]. }
    assert (Htail : forall c1, c + d <= c1 -> spends K I ((if IsOwner st then countP "gubernator_getratelimit_counter/local";;
        (if nc_HasEventChannel conf then atomic (sendEvent su (handledReq r') rl) else mret tt) else mret tt);;
        mret (Ok rl)) 2 c1 (localAnswer r)).
    { intros c1 Hc1. apply (spends_bind _ _ _ _ 2 0 _ _ (fun _ _ => True)); [|by intros _ c2 Hc2 _; apply spends_ret; eapply localAnswer_mono; [exact Hgood|lia]|lia].
      destruct (IsOwner st); [|done]. apply (harmless_then _ _ _ 1 _ _ (harmless_count _)). intros _ c2 _ _.
      destruct (nc_HasEventChannel conf); [|done]. by apply (harmless_last _ _ _ _ _ (harmless_sendEvent _ _)). }
    destruct (HasBehavior _ GLOBAL); [apply (harmless_then _ _ _ 2 _ _ (harmless_queueUpdate _)); intros _ c1 Hc1 _; by apply Htail|].
    eapply spends_weaken; [apply Htail; lia|lia|done].
  - apply (harmless_then _ _ _ 3 _ _ (harmless_count _)). intros _ c1 Hc1 _. apply spends_ret. split; [lia|]. intros rl [= <-]. apply good_error; [lia|done].
Qed.

(** An error in the evaluation becomes an answer. *)
Lemma answered_local {A} (r : RateLimitReq) (p : Prog N (result RateLimitResp)) (n : nat) (c : Z) (why : string)
    (f : RateLimitResp -> A) (Q : A -> Z -> Prop) :
  spends K I p n c (localAnswer r) -> (forall rl c', good r rl c' -> Q (f rl) c') ->
  spends K I (res ← p; mret (f (match res with Ok rl => rl | Err e => respError (err_text (ErrWrap why e)) end))) n c Q.
Proof.
  intros Hp HQ. eapply (spends_bind _ _ _ _ n 0); [exact Hp| |lia]. intros res c' _ [Hc Hres]. apply spends_ret, HQ.
  destruct res as [rl|e]; [by apply Hres|by apply wrapped_answer].
Qed.

Lemma global_spends (r r' : RateLimitReq) (c : Z) : evaluable r -> variant r r' -> is_Some (r_CreatedAt r') -> 0 <= c ->
  spends K I (getGlobalRateLimitP conf su r') 6 c (localAnswer r).
Proof.
  intros Hr Hv Hc H0c. unfold getGlobalRateLimitP. eapply (spends_bind _ _ _ _ 4 2); [apply (local_spends r)| |lia]; [done| |done|done|].
  - apply (variant_behavior r (with_Behavior (SetBehavior (r_Behavior r') NO_BATCHING true) r') GLOBAL false); [by exists 1|done|].
    by apply (variant_behavior r r' NO_BATCHING true); [exists 0| |].
  - intros [rl|e] c' _ Hres; [|by apply spends_ret; split; [apply Hres|]].
    apply (harmless_then _ _ _ 1 _ _ (harmless_count _)). intros _ c1 Hc1 _. apply (harmless_then _ _ _ 0 _ _ (harmless_queueHit _)). intros _ c2 Hc2 _.
    apply spends_ret. eapply localAnswer_mono; [exact Hres|lia].
Qed.

Lemma harmless_GetPeer (key : string) : harmless (GetPeer su key) (fun res => forall peer, res = Ok peer -> pick_ok key peer).
Proof.
  apply harmless_ask. intros nd. eexists _, _. split_and!; [reflexivity|done|done|]. simpl.
  destruct (su_pick su (nd_consulted nd) key) as [p|e] eqn:Hp; [|done]. intros peer [= <-]. by eapply picks.
Qed.

(** The steps of [asyncLoop] from [left] on. *)
Fixpoint asyncSteps (left : nat) : nat := match left with O => 1 | Datatypes.S left => 5 + asyncSteps left end.

Lemma variant_forwarded (r r' : RateLimitReq) : variant r r' -> variant r (forwarded r').
Proof. intros Hv. unfold forwarded. destruct (_ <? _); [|done]. by apply (variant_behavior r r' NO_BATCHING true); [exists 0| |]. Qed.

Lemma async_spends (n : nat) (lastErr : gerror) (peer : Peer) (r r' : RateLimitReq) (c : Z) :
  (n <= 6)%nat -> ownable r -> variant r r' -> is_Some (r_CreatedAt r') -> 0 <= c -> pick_ok (HashKey r) peer ->
  (n = 6%nat -> pi_IsOwner (Info peer) = false) ->
  spends K I (asyncLoopP Info conf su n lastErr (HashKey r) peer r') (asyncSteps n) c (good r).
Proof.
  intros Hn Hr Hv Hcr. revert Hn lastErr peer c. induction n as [|n IH]; intros Hn lastErr peer c H0c Hpick Hown.
  { apply (harmless_then _ _ _ 0 _ _ (harmless_countError _ _)). intros _ c1 Hc1 _. apply spends_ret, wrapped_answer. lia. }
  cbn [asyncLoopP asyncSteps]. destruct (negb (Nat.eqb (Datatypes.S n) 6) && pi_IsOwner (Info peer)) eqn:Hloc.
  { apply andb_true_iff in Hloc as [_ Hloc]. eapply (spends_weaken _ _ _ 4); [|lia|done].
    apply (answered_local r _ 4 _ _ (fun rl => rl) (good r)); [by apply local_spends; [eapply Hr| | |]|done]. }
  assert (Hno : pi_IsOwner (Info peer) = false).
  { destruct (decide (n = 5%nat)) as [->|Hne]; [by apply Hown|]. apply andb_false_iff in Hloc as [Hloc|Hloc]; [|done].
    apply negb_false_iff, Nat.eqb_eq in Hloc. lia. }
  apply (harmless_then _ _ _ _ _ _ (harmless_recordCall _ _)). intros _ c1 Hc1 _.
  eapply (spends_bind _ _ _ _ 1 (3 + asyncSteps n)); [apply answer_spends| |lia]. intros [rl|e] c2 Hc2 Hpr.
  { destruct (Hpr rl eq_refl) as (d & Hd & ->). apply spends_ret, good_owned. eapply good_forwarded; [by apply variant_forwarded|done|done|exact Hd|lia|lia]. }
  destruct (0 <? r_MaxWait (forwarded r')); [apply spends_ret, wrapped_answer; lia|].
  destruct (errIsCtx e); [|apply spends_ret, wrapped_answer; lia].
  apply (harmless_then _ _ _ _ _ _ (harmless_consult _)). intros [ce|] c3 Hc3 _; [apply spends_ret, wrapped_answer; lia|].
  apply (harmless_then _ _ _ _ _ _ (harmless_count _)). intros _ c4 Hc4 _. apply (harmless_then _ _ _ _ _ _ (harmless_GetPeer _)). intros [peer'|pe] c5 Hc5 Hp'.
  - apply IH; [lia|lia|by apply Hp'|lia].
  - replace (asyncSteps n) with (Datatypes.S (asyncSteps n - 1)) by (destruct n; simpl; lia).
    apply (harmless_then _ _ _ _ _ _ (harmless_countError _ _)). intros _ c6 Hc6 _. apply spends_ret, wrapped_answer. lia.
Qed.

Lemma forceGlobal_created (createdAt : Z) (r : RateLimitReq) :
  r_Behavior (forceGlobal conf (withCreatedAt createdAt r)) = r_Behavior (forceGlobal conf r).
Proof.
  assert (Hb : r_Behavior (withCreatedAt createdAt r) = r_Behavior r)
    by (unfold withCreatedAt; destruct (r_CreatedAt r) as [c|]; [destruct (c =? 0)|]; done).
  unfold forceGlobal. destruct (nc_ForceGlobal conf); [|done]. simpl. by rewrite Hb.
Qed.

Lemma check_spends (createdAt : Z) (r : RateLimitReq) : servable r ->
  spends K I (checkOneP Info conf su createdAt r) 8 0 (checkedBy Info conf su K I good (asyncSteps 6) r).
Proof.
  intros [Hown Hglob]. unfold checkOneP. destruct (String.eqb (r_UniqueKey r) "").
  { apply (harmless_then _ _ _ 7 _ _ (harmless_count _)). intros _ c1 Hc1 _. apply spends_ret, good_error; [lia|done]. }
  destruct (String.eqb (r_Name r) "").
  { apply (harmless_then _ _ _ 7 _ _ (harmless_count _)). intros _ c1 Hc1 _. apply spends_ret, good_error; [lia|done]. }
  rewrite <- (forceGlobal_created createdAt) in Hglob. destruct (variant_withCreatedAt createdAt r) as [Hv Hc]. set (r1 := withCreatedAt createdAt r) in *.
  apply (harmless_then _ _ _ 7 _ _ (harmless_consult _)). intros [e|] c1 Hc1 _; [apply spends_ret, wrapped_answer; lia|].
  assert (Hc2 : is_Some (r_CreatedAt (forceGlobal conf r1))) by (unfold forceGlobal; by destruct (nc_ForceGlobal conf)).
  apply (variant_forceGlobal conf) in Hv. set (r2 := forceGlobal conf r1) in *.
  destruct (String.eqb_spec (validateMaxWait r2) "") as [Hm|Hm]; simpl negb; cbv iota.
  2: { apply (harmless_then _ _ _ 6 _ _ (harmless_count _)). intros _ c2 Hc2' _. apply spends_ret, good_error; [lia|done]. }
  apply (harmless_then _ _ _ 6 _ _ (harmless_GetPeer _)). intros [peer|e] c2 Hc2' Hp.
  2: { apply (harmless_then _ _ _ 5 _ _ (harmless_countError _ _)). intros _ c3 Hc3 _. apply spends_ret, wrapped_answer. lia. }
  destruct (pi_IsOwner (Info peer)) eqn:Ho.
  { set (Q := checkedBy Info conf su K I good (asyncSteps 6) r).
    eapply (spends_weaken _ _ _ 4); [|lia|done]. apply (answered_local r _ 4 _ _ (fun rl => inl rl) Q); [|done].
    apply local_spends; [by eapply Hown; [apply Hp|]|done|done|lia]. }
  destruct (HasBehavior (r_Behavior r2) GLOBAL) eqn:Hg.
  { apply (answered_local r _ 6 _ _ (fun rl => inl (ownedBy Info peer rl))); [apply global_spends; [by apply Hglob|done|done|lia]|].
    intros rl c' Hgd. by apply good_owned. }
  apply spends_ret, async_spends; [done|done|done|done|lia|by apply Hp|done].
Qed.

Lemma peer_spends (r : RateLimitReq) : evaluable r -> spends K I (peerOneP conf su r) 5 0 (good r).
Proof.
  intros Hr. unfold peerOneP. pose proof (variant_drainGlobal r) as Hv. set (r1 := drainGlobal r) in *.
  apply (spends_bind _ _ _ _ 1 4 _ _ (fun r2 c => 0 <= c /\ variant r r2 /\ is_Some (r_CreatedAt r2))); [| |lia].
  2: { intros r2 c' _ (Hc0 & Hv2 & Hc2). by apply (answered_local r _ 4 _ _ (fun rl => rl)); [apply local_spends|]. }
  assert (Hnow : spends K I (t ← atomic (onPool (onProcess MillisecondNow)); mret (with_CreatedAt (Some t) r1)) 1 0
    (fun r2 c => 0 <= c /\ variant r r2 /\ is_Some (r_CreatedAt r2))).
  { apply (harmless_then _ _ _ 0 _ _ harmless_now). intros t c1 Hc1 _. apply spends_ret. split_and!; [lia| |done].
    etransitivity; [exact Hv|apply variant_createdAt]. }
  destruct (r_CreatedAt r1) as [c|] eqn:Hc; [|done]. destruct (c =? 0); [done|]. apply spends_ret. by rewrite Hc.
Qed.

Lemma timeout_spends : spends K I (countTimeoutP su) 2 0 (fun _ _ => True).
Proof.
  apply (harmless_then _ _ _ 1 _ _ (harmless_consult _)). intros [e|] c1 _ _; [|done].
  destruct (err_is_deadline e); [|done]. by apply (harmless_last _ _ _ _ _ (harmless_count _)).
Qed.

Lemma count_spends (name : string) : spends K I (countP name) 1 0 (fun _ _ => True).
Proof. apply harmless_count. Qed.

Lemma now_spends : spends K I (atomic (onPool (onProcess MillisecondNow))) 1 0 (fun _ _ => True).
Proof. apply harmless_now. Qed.
End Spending.

(** ** Schedules *)

Section Schedules.
Context `{Arch} `{Hash64} {C S : Type} `{CacheOps C} `{StoreOps S}.
Context {Peer : Type} (Info : Peer -> PeerInfo) (conf : NodeConf) (su : Surroundings Peer) (workers : nat).

Abbreviation N := (Node C S Peer).
Abbreviation slot := (RateLimitResp + Peer * RateLimitReq)%type.
Abbreviation Sys := (System (C := C) (S := S) (Peer := Peer)).

(** The next action of a program. *)
Definition stepProg {A} (p : Prog N A) (nd : N) : option (Prog N A * N) :=
  match p with
  | Done _ => None
  | Act m k => match m nd with Ret (b, nd') => Some (k b, nd') | Panic _ => None end
  end.

(** The next step of the goroutine of a call. *)
Definition mainNext (nd : N) (c : Call N slot) : option (N * Call N slot) :=
  match cl_at c with
  | Entered =>
      if (maxBatchSize <? length (cl_entries c))%nat then None
      else match onPool (onProcess MillisecondNow) nd with
           | Ret (t, nd') => Some (nd', at_ (nextRound Info conf su t 0 (cl_entries c)) c)
           | Panic _ => None
           end
  | Looping t i p =>
      match p, cl_entries c !! i with
      | Done (inl rl), Some e =>
          Some (nd, put i (respond rl e) (at_ (nextRound Info conf su t (Datatypes.S i) (cl_entries c)) c))
      | Done (inr (peer, req)), Some e =>
          Some (nd, put i (task (Asking (asyncLoopP Info conf su 6 Canceled (HashKey (en_req e)) peer req)) e)
                      (at_ (nextRound Info conf su t (Datatypes.S i) (cl_entries c)) c))
      | p, _ => '(p', nd') ← stepProg p nd; Some (nd', at_ (Looping t i p') c)
      end
  | WaitWG =>
      if forallb (fun e => negb (pendingTask e)) (cl_entries c)
      then Some (nd, mkCall Draining (cl_entries c) (cl_ch c) true) else None
  | Draining =>
      match cl_ch c with
      | [] => Some (nd, at_ (Returned (Ok (en_resp <$> cl_entries c))) c)
      | (i, rl) :: ch =>
          e ← cl_entries c !! i; Some (nd, mkCall Draining (<[i := respond rl e]> (cl_entries c)) ch (cl_closed c))
      end
  | Returned _ => None
  end.

(** The next step of the goroutine at [i]. *)
Definition taskNext (nd : N) (c : Call N slot) (i : nat) : option (N * Call N slot) :=
  e ← cl_entries c !! i;
  match en_task e with
  | Some (Asking (Done rl)) =>
      if negb (cl_closed c) && (length (cl_ch c) <? length (cl_entries c))%nat
      then Some (nd, mkCall (cl_at c) (<[i := task Sent e]> (cl_entries c)) (cl_ch c ++ [(i, rl)]) (cl_closed c)) else None
  | Some (Asking p) => '(p', nd') ← stepProg p nd; Some (nd', put i (task (Asking p') e) c)
  | Some Sent => Some (nd, put i (task (Counting (countTimeoutP su)) e) c)
  | Some (Counting (Done _)) => Some (nd, put i (task Exited e) c)
  | Some (Counting p) => '(p', nd') ← stepProg p nd; Some (nd', put i (task (Counting p') e) c)
  | _ => None
  end.

Lemma mainNext_step (nd nd' : N) (c c' : Call N slot) : mainNext nd c = Some (nd', c') -> call_step Info conf su nd c nd' c'.
Proof.
  unfold mainNext. destruct (cl_at c) as [|t i p| | |] eqn:Hat.
  - destruct (Nat.ltb_spec maxBatchSize (length (cl_entries c))) as [|Hl]; [done|].
    destruct (onPool _ nd) as [[t nd1]|] eqn:Hm; [|done]. intros [= <- <-]. by eapply c_start.
  - destruct p as [[rl|[peer req]]|B m k]; destruct (cl_entries c !! i) as [e|] eqn:Hi; try done;
      [intros [= <- <-]; by eapply c_answer|intros [= <- <-]; by eapply c_go|..];
      simpl; destruct (m nd) as [[b nd1]|] eqn:Hm; try done; intros [= <- <-]; by eapply c_act.
  - destruct (forallb _ (cl_entries c)) eqn:Hf; [|done]. intros [= <- <-]. apply c_wait; [done|].
    apply Forall_forall. intros e He. rewrite forallb_forall in Hf. specialize (Hf e (proj1 (list_elem_of_In _ _) He)). by destruct (pendingTask e).
  - destruct (cl_ch c) as [|[i rl] ch] eqn:Hch; [intros [= <- <-]; by apply c_return|].
    destruct (cl_entries c !! i) as [e|] eqn:Hi; [|done]. intros [= <- <-]. by eapply c_drain.
  - done.
Qed.

Lemma taskNext_step (nd nd' : N) (c c' : Call N slot) (i : nat) : taskNext nd c i = Some (nd', c') -> call_step Info conf su nd c nd' c'.
Proof.
  unfold taskNext. destruct (cl_entries c !! i) as [e|] eqn:Hi; [|done]. simpl.
  destruct (en_task e) as [[[rl|B m k]| |[u|B m k]|]|] eqn:Ht; try done.
  - destruct (cl_closed c) eqn:Hcl; [done|]. simpl. destruct (Nat.ltb_spec (length (cl_ch c)) (length (cl_entries c))); [|done].
    intros [= <- <-]. rewrite <- Hcl. by eapply t_send.
  - simpl. destruct (m nd) as [[b nd1]|] eqn:Hm; [|done]. intros [= <- <-]. by eapply t_act.
  - intros [= <- <-]. by eapply t_done.
  - intros [= <- <-]. by eapply t_exit.
  - simpl. destruct (m nd) as [[b nd1]|] eqn:Hm; [|done]. intros [= <- <-]. by eapply t_count.
Qed.
(** The same for a call of a member. *)
Definition fanMainNext (nd : N) (c : FanCall N) : option (N * FanCall N) :=
  let es := fc_entries c in
  match fc_at c with
  | FEntered => if (maxBatchSize <? length es)%nat then None else Some (nd, mkFanCall (Fanning 0) es)
  | Fanning i =>
      match es !! i with
      | Some e =>
          if (running es <? workers)%nat
          then Some (nd, mkFanCall (Fanning (Datatypes.S i)) (<[i := task (Evaluating (peerOneP conf su (en_req e))) e]> es))
          else None
      | None => if Nat.eqb (running es) 0 then Some (nd, mkFanCall WaitCollector es) else None
      end
  | WaitCollector => Some (nd, mkFanCall (FReturned (Ok (en_resp <$> es))) es)
  | FReturned _ => None
  end.

Definition fanTaskNext (nd : N) (c : FanCall N) (i : nat) : option (N * FanCall N) :=
  e ← fc_entries c !! i;
  let go nd e' := Some (nd, mkFanCall (fc_at c) (<[i := e']> (fc_entries c))) in
  match en_task e with
  | Some (Evaluating (Done rl)) => go nd (task (Offering rl) e)
  | Some (Evaluating p) => '(p', nd') ← stepProg p nd; go nd' (task (Evaluating p') e)
  | Some (Offering rl) => go nd (task Gone (respond rl e))
  | _ => None
  end.

Lemma fanMainNext_step (nd nd' : N) (c c' : FanCall N) : fanMainNext nd c = Some (nd', c') -> fan_step conf su workers nd c nd' c'.
Proof.
  unfold fanMainNext. destruct (fc_at c) as [|i| |] eqn:Hat; [| | |done].
  - destruct (Nat.ltb_spec maxBatchSize (length (fc_entries c))); [done|]. intros [= <- <-]. by apply f_start.
  - destruct (fc_entries c !! i) as [e|] eqn:Hi.
    + destruct (Nat.ltb_spec (running (fc_entries c)) workers); [|done]. intros [= <- <-]. by apply f_run.
    + destruct (Nat.eqb_spec (running (fc_entries c)) 0); [|done]. intros [= <- <-]. by eapply f_close.
  - intros [= <- <-]. by apply f_return.
Qed.

Lemma fanTaskNext_step (nd nd' : N) (c c' : FanCall N) (i : nat) : fanTaskNext nd c i = Some (nd', c') ->
  fan_step conf su workers nd c nd' c'.
Proof.
  unfold fanTaskNext. destruct (fc_entries c !! i) as [e|] eqn:Hi; [|done]. simpl.
  destruct (en_task e) as [[[rl|B m k]|rl|]|] eqn:Ht; try done.
  - intros [= <- <-]. by eapply f_offer.
  - simpl. destruct (m nd) as [[b nd1]|] eqn:Hm; [|done]. intros [= <- <-]. by eapply f_act.
  - intros [= <- <-]. by eapply f_collect.
Qed.

(** A schedule says whose turn it is: the goroutine of call [j], or its goroutine for the
    request at [i]. *)
Definition turn (s : Sys) (w : nat * option nat) : option Sys :=
  c ← sy_calls s !! w.1;
  match c with
  | Client c =>
      '(nd', c') ← match w.2 with None => mainNext (sy_node s) c | Some i => taskNext (sy_node s) c i end;
      Some (mkSystem nd' (<[w.1 := Client c']> (sy_calls s)))
  | ForPeer c =>
      '(nd', c') ← match w.2 with None => fanMainNext (sy_node s) c | Some i => fanTaskNext (sy_node s) c i end;
      Some (mkSystem nd' (<[w.1 := ForPeer c']> (sy_calls s)))
  end.

Lemma turn_step (s s' : Sys) (w : nat * option nat) : turn s w = Some s' -> run_step Info conf su workers s s'.
Proof.
  unfold turn. destruct (sy_calls s !! w.1) as [[c|c]|] eqn:Hj; [..|done]; simpl; destruct (w.2) as [i|].
  - destruct (taskNext _ c i) as [[nd' c']|] eqn:Hn; [|done]. intros [= <-]. eapply r_client; [done|by eapply taskNext_step].
  - destruct (mainNext _ c) as [[nd' c']|] eqn:Hn; [|done]. intros [= <-]. eapply r_client; [done|by eapply mainNext_step].
  - destruct (fanTaskNext _ c i) as [[nd' c']|] eqn:Hn; [|done]. intros [= <-]. eapply r_peer; [done|by eapply fanTaskNext_step].
  - destruct (fanMainNext _ c) as [[nd' c']|] eqn:Hn; [|done]. intros [= <-]. eapply r_peer; [done|by eapply fanMainNext_step].
Qed.

(** The system after a schedule, as long as the instance passes a test. *)
Fixpoint follow (test : N -> bool) (ws : list (nat * option nat)) (s : Sys) : option Sys :=
  match ws with
  | [] => Some s
  | w :: ws => s' ← turn s w; if test (sy_node s') then follow test ws s' else None
  end.

Lemma follow_runs (client member : RateLimitReq -> Prop) (K : N -> Prop) (test : N -> bool) ws (s s' : Sys) :
  (forall nd, test nd = true -> K nd) -> follow test ws s = Some s' ->
  rtc (sys_step Info conf su workers client member K) s s'.
Proof.
  intros HK. revert s. induction ws as [|w ws IH]; intros s Hf; simpl in Hf; [by injection Hf as ->|].
  destruct (turn s w) as [s1|] eqn:Ht; [|done]. simpl in Hf. destruct (test (sy_node s1)) eqn:Htest; [|done].
  eapply rtc_l; [|by apply IH]. apply s_run; [by eapply turn_step|by apply HK].
Qed.
End Schedules.

(** ** Calls are safe and complete *)

Section Complete.
Context `{Arch} `{Hash64} {C S : Type} `{CacheLaws C} `{StoreLaws S}.
Context {Peer : Type} (Info : Peer -> PeerInfo) (conf : NodeConf) (su : Surroundings Peer) (workers : nat).

Abbreviation N := (Node C S Peer).
Abbreviation slot := (RateLimitResp + Peer * RateLimitReq)%type.
Abbreviation any := (fun _ => True).

(** [rl] is what a round of the loop, or the goroutine it started, ended with for [r]. *)
Definition clientAnswer (r : RateLimitReq) (rl : RateLimitResp) : Prop :=
  exists createdAt (s : slot), yields (checkOneP Info conf su createdAt r : Prog N slot) s /\
    match s with
    | inl rl' => rl = rl'
    | inr (peer, req) => yields (asyncLoopP Info conf su 6 Canceled (HashKey r) peer req : Prog N _) rl
    end.

Definition ownAnswer (c : AnyCall N slot) (r : RateLimitReq) (rl : RateLimitResp) : Prop :=
  match c with
  | Client _ => clientAnswer r rl
  | ForPeer _ => yields (peerOneP conf su r : Prog N _) rl
  end.

Abbreviation K := (inPool (Peer := Peer) (fun _ : WorkerPool C S => True)).
Abbreviation I := (left (Peer := Peer) (fun (_ : Z) (po : WorkerPool C S) => pool_ok po /\ forall k, has_worker po k)).

Abbreviation okP := (fun r => is_Some (r_CreatedAt r)).
Abbreviation free := (fun (_ : RateLimitReq) (_ : RateLimitResp) (_ : Z) => True).

Lemma evaluable_any (r : RateLimitReq) : evaluable okP r.
Proof. by intros r' _ Hc. Qed.

Lemma check_yields (createdAt : Z) (r : RateLimitReq) :
  spends K I (checkOneP Info conf su createdAt r) 8 0
    (checkedBy Info conf su K I (fun r rl _ => clientAnswer r rl) (asyncSteps 6) r).
Proof.
  eapply spends_weaken; [apply spends_yields, (check_spends Info conf su K I okP free free free (fun _ _ => True)); try done|done|].
  { split; [intros peer _ _; apply evaluable_any|intros _; apply evaluable_any]. }
  intros [rl|[peer req]] c' _ [Hs Hy]; unfold checkedBy in *; [by exists createdAt, (inl rl)|].
  eapply spends_weaken; [apply spends_yields, Hs|done|]. intros rl c2 _ [_ Hy2]. by exists createdAt, (inr (peer, req)).
Qed.

Lemma peer_yields (r : RateLimitReq) :
  spends K I (peerOneP conf su r) 5 0 (fun rl _ => yields (peerOneP conf su r : Prog N _) rl).
Proof.
  eapply spends_weaken; [apply spends_yields, (peer_spends conf su K I okP free free free); try done; apply evaluable_any|done|].
  by intros rl c' _ [_ Hy].
Qed.

Abbreviation sys_inv := (sys_ok Info conf su K I any any (fun r rl _ => clientAnswer r rl)
  (fun r rl _ => yields (peerOneP conf su r : Prog N _) rl) 8 (asyncSteps 6) 5).

Abbreviation system_step := (sys_step Info conf su workers any any any).

Lemma calls_reach (nd : N) s : node_ok nd -> rtc system_step (started nd) s -> exists n, sys_inv 0 s n.
Proof.
  intros [Hp Hw] Hr. change (rtc (sys_step Info conf su workers any any K) (started nd) s) in Hr.
  revert Hr. apply sys_reaches; [intros; apply check_yields|intros; apply peer_yields|apply (timeout_spends su K I okP free free)|
    apply (count_spends su K I okP free free)|apply (now_spends su K I okP free free)|by split].
Qed.

Lemma sys_inv_node (n : nat) s : sys_inv 0 s n -> node_ok (sy_node s).
Proof. intros (rem & gs & [Hp Hw] & _). by constructor. Qed.

(** C5: Calls are answered in order whatever their interleaving. Let any number of calls of
    [GetRateLimits] and [GetPeerRateLimits] with any requests run at once on a well-formed
    instance, the goroutines of all of them taking their actions in any order, whatever
    peers, contexts and the ring do. No goroutine panics and none sends on a channel its
    call has closed; the instance stays well formed; and a reply has for each request, in
    its place, an answer that its own evaluation gave. *)
Theorem calls_answered (nd : N) s (Hok : node_ok nd) (Hr : rtc system_step (started nd) s) :
  node_ok (sy_node s) /\ Forall (fun c => ~ panics (sy_node s) c) (sy_calls s) /\
  forall j c reqs rs, sy_calls s !! j = Some c -> replyOf c = Some (reqs, rs) ->
    exists resps, rs = Some <$> resps /\ Forall2 (ownAnswer c) reqs resps.
Proof.
  destruct (calls_reach nd s Hok Hr) as (n & Hinv). split_and!; [by eapply sys_inv_node|by eapply sys_calm|].
  intros j c reqs rs Hj Hrep. pose proof (sys_replies _ _ _ _ _ _ _ _ _ _ _ _ _ _ _ _ _ _ _ Hinv Hj Hrep) as Hall.
  clear -Hall. induction Hall as [|r o reqs rs (rl & z & -> & Hrl) _ (resps & -> & IH)]; [by exists []|].
  exists (rl :: resps). split; [done|]. constructor; [by destruct c|done].
Qed.

(** C6: Calls return. In every state such a system can be in, once no more calls arrive its
    goroutines take a bounded number of actions, and as long as a call has not returned
    one of them can take another: no call waits for ever on its channel, its wait group or
    a place in the fan-out. An action that asks the pool, a peer, the event channel or a
    queue of the global manager ends, as WorkerLoop, PeerLoop and GlobalLoop show of
    theirs. *)
Theorem calls_return (nd : N) s (Hok : node_ok nd) (Hw : (0 < workers)%nat) (Hr : rtc system_step (started nd) s) :
  exists bound, forall k s', nsteps (run_step Info conf su workers) k s s' ->
    (k <= bound)%nat /\ ((exists s'', run_step Info conf su workers s' s'') \/ answered s').
Proof.
  destruct (calls_reach nd s Hok Hr) as (n & Hinv). exists n. intros k s' Hk.
  assert (Hb : exists n', (k + n' <= n)%nat /\ sys_inv 0 s' n').
  { eapply sys_bounded; [intros; apply check_yields|intros; apply peer_yields|apply (timeout_spends su K I okP free free)|
      apply (count_spends su K I okP free free)|apply (now_spends su K I okP free free)|done|exact Hinv|exact Hk]. }
  destruct Hb as (n' & Hle & Hinv'). split; [lia|]. eapply sys_moves; [apply (count_spends su K I okP free free)|apply (now_spends su K I okP free free)|done|exact Hinv'].
Qed.
End Complete.

(** ** The limit of a key holds over all calls *)

Section Limit.
Context `{Arch} `{Hash64} {C S : Type} `{CacheLaws C} `{StoreLaws S}.
Context {Peer : Type} (Info : Peer -> PeerInfo) (conf : NodeConf) (su : Surroundings Peer) (workers : nat).
Context (k : string) (p : Ptr) (limit duration expire : Z).

Abbreviation P := (WorkerPool C S).
Abbreviation N := (Node C S Peer).

(** The key stays cached. *)
Definition keeps (po : P) : Prop := exists it, at_key po k p it.

(** A live token bucket at [k] with [rem] tokens. *)
Definition tokens (rem : Z) (po : P) : Prop :=
  window po k p limit duration expire rem /\ forall k, has_worker po k.

Definition conformsLocal (r : RateLimitReq) : Prop := conforms k limit duration (CGetRateLimit r (mkReqState true 0)).

Definition paid (r : RateLimitReq) (rl : RateLimitResp) (d : Z) : Prop := HashKey r = k -> charged r rl <= d.

#[export] Instance token_budget : Budget keeps tokens conformsLocal paid.
Proof.
  constructor.
  - by intros rem po k0 [_ Hw].
  - intros rem po e' [(Hok & Hclk & it & t & (c & Hi & Hv & Hp) & Hrest) Hw] Hq. split; [|done]. split.
    { apply pool_ok_env; [done|apply (env_quiet_ok (po_env po)); [done|apply Hok]|auto with env]. }
    split; [intros n; simpl; rewrite (eq_clock _ _ Hq), (eq_loc _ _ Hq); apply Hclk|].
    exists it, t. split; [|done]. exists c. simpl. by rewrite (eq_heap _ _ Hq).
  - intros rem po r st [Hwin Hw] Hr. destruct Hr as [[cr Hcr] Hown].
    destruct (runCommand_iso po r st cr (proj1 Hwin) Hcr (Hw _)) as (rep & po' & Hrun & Hok' & _ & Hs & _ & Hl).
    assert (Hw' : forall k, has_worker po' k) by (intros k0; unfold has_worker; rewrite Hs, Hl; apply Hw).
    destruct (decide (HashKey r = k)) as [Hk|Hk].
    + destruct (window_own po k p limit duration expire rem r st Hwin Hk (conj (mk_is_Some _ _ Hcr) Hown)) as (rl & po1 & rem' & Hrun1 & Hwin1 & Hc0 & Hle).
      rewrite Hrun1 in Hrun. injection Hrun as <- <-. exists (Ok rl), po1, (rem - rem').
      split_and!; [done|lia| |by intros ? [= <-] _; lia]. intros _. replace (rem - (rem - rem')) with rem' by lia. by split.
    + destruct (runCommand_reply po r st rep po' Hrun) as (res & ->). exists res, po', 0. rewrite Z.sub_0_r.
      split_and!; [done|lia| |by intros rl _ Hk']. intros Hat. split; [|done]. by eapply window_other.
Qed.

(** The hits an answer without an error admitted on the key. *)
Definition admitted (r : RateLimitReq) (rl : RateLimitResp) : Z :=
  if String.eqb (HashKey r) k && String.eqb (rl_Error rl) "" then Z.max 0 (charged r rl) else 0.

Lemma admitted_nonneg (r : RateLimitReq) (rl : RateLimitResp) : 0 <= admitted r rl.
Proof. unfold admitted. destruct (_ && _); lia. Qed.

(** It depends on what the request asks for. *)
Lemma admitted_variant (r r' : RateLimitReq) (rl : RateLimitResp) : variant r r' -> admitted r' rl = admitted r rl.
Proof. intros Hv. unfold admitted, charged. by rewrite (va_key _ _ Hv), (va_hits _ _ Hv). Qed.

(** Requests on the key are for its token bucket, refund nothing and reset nothing. *)
Definition plainOn (r : RateLimitReq) : Prop :=
  HashKey r = k -> r_Algorithm r = TOKEN_BUCKET /\ HasBehavior (r_Behavior r) RESET_REMAINING = false /\
    r_Limit r = limit /\ r_Duration r = duration /\ 0 <= r_Hits r.

Lemma plain_evaluable (r : RateLimitReq) : plainOn r -> evaluable conformsLocal r.
Proof.
  intros Hp r' [Hk Ha Hl Hd Hh Hre] Hc. split; [done|]. intros Hk'. destruct Hp as (? & ? & ? & ? & ?); [congruence|].
  split_and!; [congruence..|lia].
Qed.

(** The ring gives the key to this member. *)
Definition ownsKey : Prop := forall n peer, su_pick su n k = Ok peer -> pi_IsOwner (Info peer) = true.

Abbreviation answer := (fun r rl c => admitted r rl <= c).
Abbreviation pickOk := (fun key peer => key = k -> pi_IsOwner (Info peer) = true).

Lemma answer_local r r' rl d c : variant r r' -> paid r' rl d -> d <= c -> 0 <= c -> admitted r rl <= c.
Proof.
  intros Hv Hp Hd Hc. rewrite <- (admitted_variant r r' rl Hv). unfold admitted.
  destruct (String.eqb_spec (HashKey r') k) as [Hk|Hk]; [|done]. specialize (Hp Hk).
  destruct (String.eqb (rl_Error rl) ""); simpl; lia.
Qed.

Lemma answer_error (r : RateLimitReq) (msg : string) (c : Z) : 0 <= c -> msg <> "" -> admitted r (respError msg) <= c.
Proof. intros Hc Hm. unfold admitted. simpl. rewrite (proj2 (String.eqb_neq _ _) Hm), andb_false_r. done. Qed.

Lemma answer_elsewhere (r : RateLimitReq) (peer : Peer) rl c : 0 <= c -> pickOk (HashKey r) peer ->
  pi_IsOwner (Info peer) = false -> admitted r rl <= c.
Proof.
  intros Hc Hp Ho. unfold admitted. destruct (String.eqb_spec (HashKey r) k) as [Hk|Hk]; [|done].
  specialize (Hp Hk). congruence.
Qed.

Lemma owner_servable (r : RateLimitReq) : plainOn r -> servable Info conf conformsLocal pickOk r.
Proof. intros Hp. split; [intros peer _ _; by apply plain_evaluable|intros _; by apply plain_evaluable]. Qed.

(** The invariant of the calls, with what is left of the tokens. *)
Lemma owner_reach (nd : N) (rem : Z) s : tokens rem (nd_pool nd) -> ownsKey ->
  rtc (sys_step Info conf su workers plainOn plainOn (inPool keeps)) (started nd) s ->
  exists n, sys_ok Info conf su (inPool keeps) (left tokens) plainOn plainOn answer answer 8 (asyncSteps 6) 5 rem s n.
Proof.
  intros Hwin Howns. set (K := inPool keeps). set (I := left tokens). set (any := fun (_ : RateLimitReq) (_ : RateLimitResp) (_ : Z) => True).
  apply sys_reaches; [| |apply (timeout_spends su K I conformsLocal paid any)|apply (count_spends su K I conformsLocal paid any)|
    apply (now_spends su K I conformsLocal paid any)|done].
  - intros createdAt r Hp. apply (check_spends Info conf su K I conformsLocal paid any answer pickOk).
    + intros. lia.
    + apply answer_local.
    + apply answer_error.
    + done.
    + intros. by eapply answer_elsewhere.
    + intros n key peer Hpick ->. by eapply Howns.
    + by apply owner_servable.
  - intros r Hp. apply (peer_spends conf su K I conformsLocal paid any answer); [intros; lia|apply answer_local|apply answer_error|by apply plain_evaluable].
Qed.

(** C4: The limit holds over all calls of an instance. Let a member own a key that has a
    live token bucket with [rem] tokens, and let any number of clients and members call
    it at once, with requests for this bucket and for others, before it expires and while
    it stays cached; requests on the key are token bucket requests with the limit and
    duration of the bucket, with no negative hits and without RESET_REMAINING. Whatever the
    interleaving of the goroutines, and whatever contexts, peers and the event channel do,
    the hits admitted on the key in all replies together are at most [rem]. *)
Theorem owner_limit (nd : N) (rem : Z) s
    (Hwin : tokens rem (nd_pool nd)) (Howns : ownsKey)
    (Hr : rtc (sys_step Info conf su workers plainOn plainOn (inPool keeps)) (started nd) s) :
  totalIn admitted s <= rem.
Proof.
  destruct (owner_reach nd rem s Hwin Howns Hr) as [n Hinv].
  destruct (sys_total _ _ _ _ _ _ _ _ _ _ _ _ admitted _ _ _ (fun _ _ _ Hz => Hz) (fun _ _ _ Hz => Hz) Hinv)
    as (rem' & [(_ & _ & it & t & _ & _ & _ & _ & _ & _ & _ & Hz & _) _] & Hle). lia.
Qed.
End Limit.

(** ** Examples *)

(** This member owns the key of the examples, another one, which answers, all others. *)
Definition nearOwner : PeerInfo := mkPeerInfo "" "10.0.0.1:80" "10.0.0.1:81" true.

Definition shared : Surroundings PeerInfo :=
  mkSurroundings (fun _ key => Ok (if String.eqb key demoKey then nearOwner else farOwner))
    (fun _ _ r => Ok (mkResp UNDER_LIMIT 10 9 3000 "" ∅ 0)) (fun _ => None) (fun _ => None) (fun _ => true).

Definition farReq : RateLimitReq := mkReq "requests_per_min" "account:9" 1 10 60000 TOKEN_BUCKET BATCHING 0 ∅ (Some 2000) 0.

(** A client asks for 4 hits and a limit of the other member, a member for 2 and 4 hits. *)
Definition clientReqs : list RateLimitReq := [demoReq TOKEN_BUCKET 4 2000; farReq].
Definition memberReqs : list RateLimitReq := [demoReq TOKEN_BUCKET 2 2000; demoReq TOKEN_BUCKET 4 2000].

Definition bothCalls : System :=
  mkSystem demoNode [Client (mkCall Entered (fresh <$> clientReqs) [] false); ForPeer (mkFanCall FEntered (fresh <$> memberReqs))].

Definition interleaved : list (nat * option nat) :=
  let c := (0%nat, None) in let t := (0%nat, Some 1%nat) in
  let f := (1%nat, None) in let a := (1%nat, Some 0%nat) in let b := (1%nat, Some 1%nat) in
  [c; f; f; c; f; c; a; c; b; a; c; c; c; b; c; c; b; b; t; t; a; t; t; c; a; f; t; c; c; f; t].

Definition cachedStill (nd : Node LRUCache MockStore PeerInfo) : bool :=
  match po_workers (nd_pool nd) !! workerIndex (po_hashRingStep (nd_pool nd)) demoKey with
  | Some c => match c_view c !! demoKey with
              | Some p => Nat.eqb p 0 && bool_decide (is_Some (e_heap (po_env (nd_pool nd)) !! p))
              | None => false
              end
  | None => false
  end.

Definition bothDone : option System := follow (H := amd64) (fun p => p) plainConf shared 2 cachedStill interleaved bothCalls.

Lemma bothDone_total : (totalIn (admitted demoKey) <$> bothDone) = Some 6.
Proof. vm_compute. reflexivity. Qed.

Lemma bothDone_replies : (fun s => (fun c => length <$> (snd <$> replyOf c)) <$> sy_calls s) <$> bothDone = Some [Some 2%nat; Some 2%nat].
Proof. vm_compute. reflexivity. Qed.

Lemma cachedStill_keeps (nd : Node LRUCache MockStore PeerInfo) : cachedStill nd = true -> keeps demoKey 0%nat (nd_pool nd).
Proof.
  unfold cachedStill, keeps, at_key. destruct (po_workers _ !! _) as [c|] eqn:Hc; [|done].
  destruct (c_view c !! demoKey) as [p|] eqn:Hp; [|done]. intros [Hz Hh]%andb_true_iff. apply Nat.eqb_eq in Hz as ->.
  apply bool_decide_eq_true in Hh as [it Hit]. by exists it, c.
Qed.

(** The two calls arrive. *)
Lemma both_arrive (client member : RateLimitReq -> Prop) (K : Node LRUCache MockStore PeerInfo -> Prop) :
  Forall client clientReqs -> Forall member memberReqs -> K demoNode ->
  rtc (sys_step (H := amd64) (fun p => p) plainConf shared 2 client member K) (started demoNode) bothCalls.
Proof.
  intros Hc Hm HK. eapply rtc_l; [apply s_env; [exact (e_client _ _ _ clientReqs Hc)|exact HK]|].
  eapply rtc_l; [apply s_env; [exact (e_peer _ _ _ memberReqs Hm)|exact HK]|]. apply rtc_refl.
Qed.

(** They are answered. *)
Lemma bothDone_some : exists s, bothDone = Some s /\ totalIn (admitted demoKey) s = 6 /\ length (sy_calls s) = 2%nat.
Proof.
  pose proof bothDone_total as Ht. pose proof bothDone_replies as Hl. destruct bothDone as [s|]; [|discriminate Ht].
  exists s. split; [reflexivity|]. split; [by injection Ht|].
  injection Hl as Hl. apply (f_equal length) in Hl. by rewrite length_fmap in Hl.
Qed.

Lemma both_reached (client member : RateLimitReq -> Prop) (K : Node LRUCache MockStore PeerInfo -> Prop) s :
  Forall client clientReqs -> Forall member memberReqs -> (forall nd, cachedStill nd = true -> K nd) -> bothDone = Some s ->
  rtc (sys_step (H := amd64) (fun p => p) plainConf shared 2 client member K) (started demoNode) s.
Proof.
  intros Hc Hm HK Hs. transitivity bothCalls.
  - apply both_arrive; [exact Hc|exact Hm|]. apply HK. vm_compute. reflexivity.
  - unfold bothDone in Hs. exact (follow_runs (H := amd64) (fun p => p) plainConf shared 2 client member K cachedStill interleaved bothCalls s HK Hs).
Qed.

Lemma clientReqs_plain : Forall (plainOn demoKey 10 60000) clientReqs.
Proof. by repeat constructor. Qed.

Lemma memberReqs_plain : Forall (plainOn demoKey 10 60000) memberReqs.
Proof. by repeat constructor. Qed.

Lemma all_any (reqs : list RateLimitReq) : Forall (fun _ => True) reqs.
Proof. by apply Forall_forall. Qed.

Lemma calls_answered_witness : exists s,
  length (sy_calls s) = 2%nat /\
  forall j c reqs rs, sy_calls s !! j = Some c -> replyOf c = Some (reqs, rs) ->
    exists resps, rs = Some <$> resps /\ Forall2 (ownAnswer (H := amd64) (fun p => p) plainConf shared c) reqs resps.
Proof.
  destruct bothDone_some as (s & Hs & _ & Hl). exists s. split; [exact Hl|].
  exact (proj2 (proj2 (calls_answered (H := amd64) _ _ _ _ _ _ demoNode_ok
    (both_reached _ _ _ s (all_any _) (all_any _) (fun _ _ => Logic.I) Hs)))).
Defined.

Lemma calls_return_witness : exists bound, forall k s',
  nsteps (run_step (H := amd64) (fun p => p) plainConf shared 2) k bothCalls s' ->
  (k <= bound)%nat /\ ((exists s'', run_step (H := amd64) (fun p => p) plainConf shared 2 s' s'') \/ answered s').
Proof.
  exact (calls_return (H := amd64) (fun p => p) plainConf shared 2 demoNode bothCalls demoNode_ok (Nat.lt_0_succ 1)
    (both_arrive _ _ _ (all_any _) (all_any _) Logic.I)).
Defined.

Lemma owner_limit_witness : exists s, bothDone = Some s /\ totalIn (admitted demoKey) s = 6 /\ totalIn (admitted demoKey) s <= 7.
Proof.
  destruct bothDone_some as (s & Hs & Ht & _). exists s. split; [exact Hs|]. split; [exact Ht|].
  apply (owner_limit (H := amd64) (fun p => p) plainConf shared 2 demoKey 0%nat 10 60000 61000 demoNode 7 s).
  - split; [exact demo_window|exact (no_workers _ demoNode_ok)].
  - intros n peer [= <-]. reflexivity.
  - exact (both_reached _ _ _ s clientReqs_plain memberReqs_plain cachedStill_keeps Hs).
Defined.
