(* ===== verification/ClusterCalls.v ===== *)
(** * The limit of a key over a cluster

    One member owns the key and evaluates its requests; the others forward theirs to it.
    What a member that does not own the key admits is no more than what the answers it
    received admit ([forwarder_limit]); those are answers the owner gave. So the replies
    of all members to their clients stay within the limit together ([cluster_limit]). *)

From stdpp Require Import base gmap strings list relations.
From Stdlib Require Import ZArith Lia.
From S2P Require Import Prelude Float64 Types GoTime LeakyMath Runtime LRUCache Store Demo TokenBucket TokenSpec LeakyBucket Workers WorkersSpec ReplicatedHash Global GlobalSpec Instance InstanceSpec Goroutine InstanceLoop InstanceCalls.

Local Open Scope Z_scope.

(** ** A member that does not own the key *)

Section Forwarder.
Context `{Arch} `{Hash64} {C S : Type} `{CacheLaws C} `{StoreLaws S}.
Context {Peer : Type} (Info : Peer -> PeerInfo) (conf : NodeConf) (su : Surroundings Peer) (workers : nat).
Context (k : string).

Abbreviation N := (Node C S Peer).

(** What each consultation received, where it was an answer of another member on the key. *)
Context (answers : list (option (RateLimitReq * RateLimitResp))).

Definition hitsOf (o : option (RateLimitReq * RateLimitResp)) : Z :=
  match o with Some (r, rl) => admitted k r rl | None => 0 end.

(** They are the answers of the surroundings. *)
Definition received : Prop := forall n peer r rl, (n < length answers)%nat -> HashKey r = k -> rl_Error rl = "" ->
  su_answer su n peer r = Ok rl -> exists r', answers !! n = Some (Some (r', rl)) /\ variant r' r.

(** The ring gives the key to another member. *)
Definition ownedElsewhere : Prop := forall n peer, su_pick su n k = Ok peer -> pi_IsOwner (Info peer) = false.

(** Clients ask for the key without GLOBAL; other members do not ask for it. *)
Definition notGlobal (r : RateLimitReq) : Prop :=
  HashKey r = k -> HasBehavior (r_Behavior (forceGlobal conf r)) GLOBAL = false.
Definition otherKey (r : RateLimitReq) : Prop := HashKey r <> k.

(** The consultations so far. *)
Definition soFar (nd : N) : Prop := (nd_consulted nd <= length answers)%nat.

(** What the answers still to come admit. *)
Definition toCome (rem : Z) (nd : N) : Prop :=
  node_ok nd /\ soFar nd /\ rem = sumZ (hitsOf <$> drop (nd_consulted nd) answers).

Definition elsewhere (r : RateLimitReq) : Prop := is_Some (r_CreatedAt r) /\ otherKey r.
Definition noneOn (r : RateLimitReq) (rl : RateLimitResp) (d : Z) : Prop := otherKey r.
Definition covers (r : RateLimitReq) (rl : RateLimitResp) (d : Z) : Prop := admitted k r rl <= d.

Lemma hitsOf_nonneg o : 0 <= hitsOf o.
Proof. destruct o as [[r rl]|]; [apply admitted_nonneg|done]. Qed.

Lemma sum_hits_nonneg l : 0 <= sumZ (hitsOf <$> l).
Proof. induction l as [|o l IH]; [done|]. rewrite fmap_cons. cbn [sumZ fold_right]. pose proof (hitsOf_nonneg o). unfold sumZ in IH. lia. Qed.

(** One consultation. *)
Lemma toCome_next (rem : Z) (nd nd' : N) : toCome rem nd -> node_ok nd' -> nd_consulted nd' = Datatypes.S (nd_consulted nd) ->
  soFar nd' -> exists o, answers !! nd_consulted nd = Some o /\ toCome (rem - hitsOf o) nd'.
Proof.
  intros (Hok & Hn & ->) Hok' Hc Hs. unfold soFar in *. rewrite Hc in Hs.
  destruct (lookup_lt_is_Some_2 answers (nd_consulted nd)) as [o Ho]; [lia|]. exists o. split; [done|].
  split; [done|]. split; [unfold soFar; lia|]. rewrite Hc, (drop_S _ _ _ Ho), fmap_cons. cbn [sumZ fold_right]. unfold sumZ. lia.
Qed.

(** What is charged for it: the answer, if it was one. *)
Definition chargeAt (n : nat) : Z := match answers !! n with Some o => hitsOf o | None => 0 end.

Lemma toCome_ask (rem : Z) (nd nd' : N) : toCome rem nd -> node_ok nd' -> nd_consulted nd' = Datatypes.S (nd_consulted nd) ->
  0 <= chargeAt (nd_consulted nd) /\ (soFar nd' -> toCome (rem - chargeAt (nd_consulted nd)) nd').
Proof.
  intros Ht Hok Hc. unfold chargeAt. split; [destruct (answers !! _); [apply hitsOf_nonneg|done]|].
  intros Hs. destruct (toCome_next rem nd nd' Ht Hok Hc Hs) as (o & -> & Ht'). done.
Qed.

Lemma node_ok_pool (nd nd' : N) : nd_pool nd' = nd_pool nd -> node_ok nd -> node_ok nd'.
Proof. intros Hp [H1' H2']. constructor; by rewrite Hp. Qed.

#[export] Instance forward_budget : received -> NodeBudget su soFar toCome elsewhere noneOn covers.
Proof.
  intros Hrec. constructor.
  - intros rem nd nd' e ([Hp Hw] & Hn & ->) Hq Hpo Hc. split; [|unfold soFar in *; by rewrite Hc].
    constructor; rewrite Hpo; [|done]. apply pool_ok_env; [done|apply (env_quiet_ok (po_env (nd_pool nd))); [done|apply Hp]|auto with env].
  - intros rem nd nd' Ht Hp Hc. exists (chargeAt (nd_consulted nd)). apply toCome_ask; [done|by eapply node_ok_pool; [|apply Ht]|done].
  - intros rem nd nd' peer r Ht Hp Hc. set (n := nd_consulted nd) in *.
    destruct (toCome_ask rem nd nd' Ht (node_ok_pool _ _ Hp (proj1 Ht)) Hc) as [Hpos Hnext].
    set (late := match su_answer su n peer r with Ok rl => admitted k r rl | Err _ => 0 end).
    exists (if decide (n < length answers)%nat then chargeAt n else late). case_decide as Hn.
    + split_and!; [done|done|]. intros rl Hrl. unfold covers. destruct (decide (HashKey r = k /\ rl_Error rl = "")) as [[Hk He]|Hno].
      * destruct (Hrec n peer r rl Hn Hk He Hrl) as (r' & Ha & Hv). unfold chargeAt. rewrite Ha. simpl. by rewrite (admitted_variant _ _ _ _ Hv).
      * unfold admitted. destruct (String.eqb_spec (HashKey r) k), (String.eqb_spec (rl_Error rl) ""); simpl; [naive_solver|done..].
    + split_and!; [unfold late; destruct (su_answer su n peer r); [apply admitted_nonneg|done]|unfold soFar; lia|].
      intros rl Hrl. unfold covers, late. by rewrite Hrl.
  - intros rem nd r st Ht [Hc Hk]. destruct Ht as ([Hp Hw] & Hrest).
    destruct (pool_action su _ _ _ _ 0 nd r st (conj Hp Hw) Hc) as (res & nd' & d & Hm & _ & [Hp' Hw'] & Hn & _); [done|].
    destruct (toCome_ask rem nd nd') as [Hpos Hnext]; [by split|by constructor|done|].
    exists res, nd', (chargeAt (nd_consulted nd)). by split_and!.
Qed.
Abbreviation answer := (fun r rl c => admitted k r rl <= c).
Abbreviation pickOk := (fun key peer => key = k -> pi_IsOwner (Info peer) = false).

Lemma other_answer (r : RateLimitReq) (rl : RateLimitResp) (c : Z) : otherKey r -> 0 <= c -> admitted k r rl <= c.
Proof. intros Hk Hc. unfold admitted. by rewrite (proj2 (String.eqb_neq _ _) Hk). Qed.

Lemma other_evaluable (r : RateLimitReq) : otherKey r -> evaluable elsewhere r.
Proof. intros Hk r' Hv Hc. split; [done|]. unfold otherKey. by rewrite (va_key _ _ Hv). Qed.

Lemma forwarder_servable (r : RateLimitReq) : notGlobal r -> servable Info conf elsewhere pickOk r.
Proof.
  intros Hg. split.
  - intros peer Hp Ho. apply other_evaluable. intros Hk. specialize (Hp Hk). congruence.
  - intros Hgl. apply other_evaluable. intros Hk. specialize (Hg Hk). congruence.
Qed.

(** What a member admits on a key of another one is what the answers it received admit. *)
Theorem forwarder_limit (nd : N) s (Hok : node_ok nd) (Hnd : nd_consulted nd = 0%nat) (Hrec : received) (Hring : ownedElsewhere)
    (Hr : rtc (sys_step Info conf su workers notGlobal otherKey soFar) (started nd) s) :
  totalIn (admitted k) s <= sumZ (hitsOf <$> answers).
Proof.
  pose proof (forward_budget Hrec) as Hb.
  assert (Hinv : exists n, sys_ok Info conf su soFar toCome notGlobal otherKey answer answer 8 (asyncSteps 6) 5 (sumZ (hitsOf <$> answers)) s n).
  { apply sys_reaches with (workers := workers) (nd := nd); [| |apply (timeout_spends su soFar toCome elsewhere noneOn covers)|
      apply (count_spends su soFar toCome elsewhere noneOn covers)|apply (now_spends su soFar toCome elsewhere noneOn covers)| |done].
    - intros createdAt r Hp. apply (check_spends Info conf su soFar toCome elsewhere noneOn covers answer pickOk).
      + intros. lia.
      + intros r0 r' rl d c Hv Hk _ Hc. apply other_answer; [|done]. unfold noneOn, otherKey in *. by rewrite <- (va_key _ _ Hv).
      + intros. by apply answer_error.
      + done.
      + intros r0 r' peer rl d c Hv _ _ Hcov Hd _. rewrite <- (admitted_variant k r0 r' rl Hv). unfold covers in Hcov. lia.
      + intros n key peer Hpick ->. by eapply Hring.
      + by apply forwarder_servable.
    - intros r Hp. apply (peer_spends conf su soFar toCome elsewhere noneOn covers answer).
      + intros. lia.
      + intros r0 r' rl d c Hv Hk _ Hc. apply other_answer; [|done]. unfold noneOn, otherKey in *. by rewrite <- (va_key _ _ Hv).
      + intros. by apply answer_error.
      + by apply other_evaluable.
    - split; [done|]. unfold soFar. rewrite Hnd, drop_0. split; [lia|done]. }
  destruct Hinv as [n Hinv].
  destruct (sys_total _ _ _ _ _ _ _ _ _ _ _ _ (admitted k) _ _ _ (fun _ _ _ Hz => Hz) (fun _ _ _ Hz => Hz) Hinv) as (rem' & (_ & _ & ->) & Hle).
  pose proof (sum_hits_nonneg (drop (nd_consulted (sy_node s)) answers)). lia.
Qed.
End Forwarder.

(** ** The cluster *)

Section Cluster.
Context `{Arch} `{Hash64} {C S : Type} `{CacheLaws C} `{StoreLaws S}.
Context {Peer : Type} (Info : Peer -> PeerInfo).
Context (k : string) (p : Ptr) (limit duration expire : Z).

Abbreviation N := (Node C S Peer).
Abbreviation Sys := (System (C := C) (S := S) (Peer := Peer)).

(** The answers on the key in a reply to a member. *)
Definition answersIn (c : AnyCall N (RateLimitResp + Peer * RateLimitReq)) : list (RateLimitReq * RateLimitResp) :=
  match c with
  | Client _ => []
  | ForPeer _ =>
      match replyOf c with
      | Some (reqs, rs) => omap (fun ro => match ro.2 with Some rl => Some (ro.1, rl) | None => None end) (zip reqs rs)
      | None => []
      end
  end.

Definition given (s : Sys) : list (RateLimitReq * RateLimitResp) := concat (answersIn <$> sy_calls s).

(** The hits admitted on the key in the replies to clients. *)
Definition clientTotal (s : Sys) : Z :=
  sumZ ((fun c => match c with Client _ => replyTotal (admitted k) c | ForPeer _ => 0 end) <$> sy_calls s).

Abbreviation sumOf l := (sumZ ((fun a => admitted k a.1 a.2) <$> l)).

Lemma sumZ_app (l l' : list Z) : sumZ (l ++ l') = sumZ l + sumZ l'.
Proof. unfold sumZ. induction l as [|z l IH]; simpl; lia. Qed.

Lemma answersIn_total (reqs : list RateLimitReq) (rs : list (option RateLimitResp)) :
  sumZ (zip_with (fun r o => match o with Some rl => admitted k r rl | None => 0 end) reqs rs) =
  sumOf (omap (fun ro => match ro.2 with Some rl => Some (ro.1, rl) | None => None end) (zip reqs rs)).
Proof.
  revert rs. induction reqs as [|r reqs IH]; intros [|o rs]; try done. cbn [zip_with]. specialize (IH rs).
  destruct o as [rl|]; cbn [omap list_omap snd fst]; rewrite ?fmap_cons; cbn [sumZ fold_right]; unfold sumZ in *; simpl; rewrite IH; done.
Qed.

(** All replies are those to clients and those to members. *)
Lemma total_split (s : Sys) : totalIn (admitted k) s = clientTotal s + sumOf (given s).
Proof.
  unfold totalIn, clientTotal, given. induction (sy_calls s) as [|c calls IH]; [done|].
  rewrite !fmap_cons. cbn [concat]. rewrite fmap_app, sumZ_app.
  assert (Hcons : forall z l, sumZ (z :: l) = z + sumZ l) by done. rewrite !Hcons, IH. clear IH Hcons.
  enough (Hc : replyTotal (admitted k) c =
    match c with Client _ => replyTotal (admitted k) c | ForPeer _ => 0 end + sumOf (answersIn c)) by lia.
  destruct c as [c|c]; unfold answersIn; [by rewrite Z.add_0_r|]. unfold replyTotal.
  destruct (replyOf (ForPeer c)) as [[reqs rs]|]; [apply answersIn_total|done].
Qed.

(** Fewer answers admit no more. *)
Lemma sumOf_submseteq (l l' : list (RateLimitReq * RateLimitResp)) : l ⊆+ l' -> sumOf l <= sumOf l'.
Proof.
  induction 1 as [|a l l' _ IH|a b l|a l l' _ IH|l1 l2 l3 _ IH1 _ IH2]; rewrite ?fmap_cons; cbn [sumZ fold_right]; unfold sumZ in *.
  - done.
  - lia.
  - lia.
  - pose proof (admitted_nonneg k a.1 a.2). lia.
  - lia.
Qed.

(** A member that forwards the key: its surroundings, how it started and where it is, and
    the answers it received. *)
Record Member : Type := mkMember {
  mb_conf : NodeConf;
  mb_su : Surroundings Peer;
  mb_workers : nat;
  mb_start : N;
  mb_now : Sys;
  mb_answers : list (option (RateLimitReq * RateLimitResp))
}.

Definition forwards (m : Member) : Prop :=
  node_ok (mb_start m) /\ nd_consulted (mb_start m) = 0%nat /\ received (mb_su m) k (mb_answers m) /\ ownedElsewhere Info (mb_su m) k /\
  rtc (sys_step Info (mb_conf m) (mb_su m) (mb_workers m) (notGlobal (mb_conf m) k) (otherKey k) (soFar (mb_answers m)))
    (started (mb_start m)) (mb_now m).

(** The answers received by all of them. *)
Definition allReceived (ms : list Member) : list (RateLimitReq * RateLimitResp) := concat ((fun m => omap id (mb_answers m)) <$> ms).

Lemma hits_received (l : list (option (RateLimitReq * RateLimitResp))) : sumZ (hitsOf k <$> l) = sumOf (omap id l).
Proof.
  induction l as [|[[r rl]|] l IH]; [done|..]; cbn [omap list_omap id]; rewrite ?fmap_cons; cbn [sumZ fold_right hitsOf fst snd]; unfold sumZ in *; lia.
Qed.

Lemma forwarders_total (ms : list Member) : Forall forwards ms ->
  sumZ ((fun m => totalIn (admitted k) (mb_now m)) <$> ms) <= sumOf (allReceived ms).
Proof.
  intros Hf. unfold allReceived. induction Hf as [|m ms (Hok & Hz & Hrec & Hring & Hr) _ IH]; [done|].
  rewrite !fmap_cons. cbn [concat]. rewrite fmap_app, sumZ_app, <- hits_received. cbn [sumZ fold_right]. unfold sumZ in IH at 1.
  pose proof (forwarder_limit Info _ _ _ k _ _ _ Hok Hz Hrec Hring Hr). lia.
Qed.

(** C3: The limit of a key holds over the cluster. One member owns the key, with a live
    token bucket of [rem] tokens; any number of others forward to it. All members serve
    any number of clients at once, with interleavings, timeouts, retries and failures of
    the network as they may be, before the bucket expires and while it stays cached, on a
    ring that keeps its owner. Requests on the key are token bucket requests with the limit
    and duration of the bucket, with no negative hits and without RESET_REMAINING; at the
    others those of clients are not GLOBAL, and no member asks another than the owner for
    the key. As long as the answers the others receive are answers the
    owner gave, each at most once, the hits admitted on the key in the replies of all
    members to their clients add up to at most [rem]. *)
Theorem cluster_limit (conf : NodeConf) (su : Surroundings Peer) (workers : nat) (nd : N) (rem : Z) (s : Sys) (others : list Member)
    (Hwin : tokens k p limit duration expire rem (nd_pool nd)) (Howns : ownsKey Info su k)
    (Hr : rtc (sys_step Info conf su workers (plainOn k limit duration) (plainOn k limit duration) (inPool (keeps k p))) (started nd) s)
    (Hothers : Forall forwards others) (Hdelivered : allReceived others ⊆+ given s) :
  clientTotal s + sumZ ((fun m => totalIn (admitted k) (mb_now m)) <$> others) <= rem.
Proof.
  destruct (owner_reach Info conf su workers k p limit duration expire nd rem s Hwin Howns Hr) as [n Hinv].
  destruct (sys_total _ _ _ _ _ _ _ _ _ _ _ _ (admitted k) _ _ _ (fun _ _ _ Hz => Hz) (fun _ _ _ Hz => Hz) Hinv)
    as (rem' & [(_ & _ & it & t & _ & _ & _ & _ & _ & _ & _ & Hz & _) _] & Hle).
  rewrite total_split in Hle. pose proof (forwarders_total others Hothers). pose proof (sumOf_submseteq _ _ Hdelivered). lia.
Qed.
End Cluster.

(** ** Example: the owner serves a client and another member, which serves a client of its own *)

Definition twoHits : RateLimitReq := demoReq TOKEN_BUCKET 2 2000.

(** What the owner answered to it. *)
Definition told : RateLimitResp := mkResp UNDER_LIMIT 10 5 61000 "" ∅ 0.

Definition isTwoHits (r : RateLimitReq) : bool :=
  bool_decide (HashKey r = HashKey twoHits) && bool_decide (r_Algorithm r = TOKEN_BUCKET) && bool_decide (r_Limit r = 10) &&
  bool_decide (r_Duration r = 60000) && bool_decide (r_Hits r = 2) && negb (HasBehavior (r_Behavior r) RESET_REMAINING).

(** The third consultation of the other member reaches the owner. *)
Definition asking : Surroundings PeerInfo :=
  mkSurroundings (fun _ _ => Ok farOwner)
    (fun n _ r => if Nat.eqb n 2 && isTwoHits r then Ok told else Err (ErrNew "connection refused"))
    (fun _ => None) (fun _ => None) (fun _ => true).

Definition received4 : list (option (RateLimitReq * RateLimitResp)) := [None; None; Some (twoHits, told); None].

Definition oneCall : System := mkSystem demoNode [Client (mkCall Entered (fresh <$> [twoHits]) [] false)].

Definition inTurn : list (nat * option nat) :=
  let c := (0%nat, None) in let t := (0%nat, Some 0%nat) in [c; c; c; c; t; t; t; t; c; c; t; c].

Definition within4 (nd : Node LRUCache MockStore PeerInfo) : bool := Nat.leb (nd_consulted nd) (length received4).

Definition oneDone : option System := follow (H := amd64) (fun p => p) plainConf asking 2 within4 inTurn oneCall.

Lemma oneDone_total : (totalIn (admitted demoKey) <$> oneDone) = Some 2.
Proof. vm_compute. reflexivity. Qed.

Lemma oneDone_some : exists s, oneDone = Some s /\ totalIn (admitted demoKey) s = 2.
Proof.
  pose proof oneDone_total as Ht. destruct oneDone as [s|]; [|discriminate Ht]. exists s. split; [reflexivity|]. by injection Ht.
Qed.

Lemma bothDone_given : (fun s => (clientTotal demoKey s, head (given s))) <$> bothDone = Some (4, Some (twoHits, told)).
Proof. vm_compute. reflexivity. Qed.

(** The owner gave this answer, and admitted 4 hits of its own client. *)
Lemma bothDone_gave s : bothDone = Some s -> clientTotal demoKey s = 4 /\ [(twoHits, told)] ⊆+ given s.
Proof.
  intros Hs. pose proof bothDone_given as Hg. rewrite Hs in Hg. injection Hg as Ht Hg. split; [exact Ht|].
  destruct (given s) as [|a l]; [discriminate Hg|]. injection Hg as ->. apply submseteq_skip, submseteq_nil_l.
Qed.

Lemma asking_received : received asking demoKey received4.
Proof.
  intros n peer r rl _ Hk _. cbn [asking su_answer]. destruct (Nat.eqb n 2) eqn:Hn; [|done]. apply Nat.eqb_eq in Hn as ->.
  unfold isTwoHits. repeat case_bool_decide; try done. destruct (HasBehavior (r_Behavior r) RESET_REMAINING) eqn:Hb; [done|].
  intros [= <-]. exists twoHits. split; [reflexivity|]. by constructor.
Qed.

Lemma one_reached s : oneDone = Some s ->
  rtc (sys_step (H := amd64) (fun p => p) plainConf asking 2 (notGlobal plainConf demoKey) (otherKey demoKey) (soFar received4)) (started demoNode) s.
Proof.
  intros Hs. transitivity oneCall.
  - apply rtc_once, s_env; [|apply Nat.le_0_l]. apply (e_client _ _ (started demoNode) [twoHits]).
    apply Forall_cons_2; [intros _; vm_compute; reflexivity|apply Forall_nil_2].
  - unfold oneDone in Hs. refine (follow_runs (H := amd64) (fun p => p) plainConf asking 2 _ _ _ within4 inTurn oneCall s _ Hs).
    intros nd Hw. exact (proj1 (Nat.leb_le _ _) Hw).
Qed.

Lemma one_forwards s : oneDone = Some s ->
  forwards (H := amd64) (fun p => p) demoKey (mkMember (C := LRUCache) (S := MockStore) plainConf asking 2 demoNode s received4).
Proof.
  intros Hs. split; [exact demoNode_ok|]. split; [reflexivity|]. split; [exact asking_received|]. split; [|exact (one_reached s Hs)].
  intros n peer [= <-]. reflexivity.
Qed.

Lemma cluster_limit_witness : exists s s', bothDone = Some s /\ oneDone = Some s' /\
  clientTotal demoKey s = 4 /\ totalIn (admitted demoKey) s' = 2 /\ clientTotal demoKey s + (totalIn (admitted demoKey) s' + 0) <= 7.
Proof.
  destruct bothDone_some as (s & Hs & _). destruct oneDone_some as (s' & Hs' & Ht'). destruct (bothDone_gave s Hs) as [Ht Hg].
  exists s, s'. split; [exact Hs|]. split; [exact Hs'|]. split; [exact Ht|]. split; [exact Ht'|].
  apply (cluster_limit (H := amd64) (fun p => p) demoKey 0%nat 10 60000 61000 plainConf shared 2 demoNode 7 s
    [mkMember plainConf asking 2 demoNode s' received4]).
  - split; [exact demo_window|exact (no_workers _ demoNode_ok)].
  - intros n peer [= <-]. reflexivity.
  - exact (both_reached _ _ _ s clientReqs_plain memberReqs_plain (fun nd => cachedStill_keeps nd) Hs).
  - apply Forall_cons_2; [exact (one_forwards s' Hs')|apply Forall_nil_2].
  - exact Hg.
Defined.
