(* ===== verification/GlobalFlow.v ===== *)
(** * A GLOBAL limit from a member to its owner and back

    The parts together: the hits a member queues, what its aggregation makes of them, the
    call to the owner, what the owner charges, the broadcast, and what the member answers
    afterwards. *)

From stdpp Require Import base gmap strings list.
From Stdlib Require Import ZArith Lia.
From S2P Require Import Prelude Float64 Types GoTime LeakyMath Runtime LRUCache Store Demo TokenBucket TokenSpec LeakyBucket Workers WorkersSpec ReplicatedHash Global GlobalSpec GlobalLoop Instance InstanceSpec.

Local Open Scope Z_scope.
Local Open Scope go_scope.

(** ** Aggregation *)

(** What the hits loop holds after the requests [qs]. *)
Definition aggregated (qs : list RateLimitReq) (m : gmap string RateLimitReq) : gmap string RateLimitReq :=
  fold_left (fun m r => aggregateHit r m) qs m.

Definition keyed (m : gmap string RateLimitReq) : Prop := map_Forall (fun k r => HashKey r = k) m.

Lemma with_Hits_key (n : Z) (r : RateLimitReq) : HashKey (with_Hits n r) = HashKey r.
Proof. done. Qed.

Lemma aggregateHit_keyed (r : RateLimitReq) (m : gmap string RateLimitReq) : keyed m -> keyed (aggregateHit r m).
Proof.
  intros Hm. unfold aggregateHit. destruct (m !! HashKey r) as [h|] eqn:E; apply map_Forall_insert_2; try done.
  specialize (Hm _ _ E). simpl in Hm. by destruct (HasBehavior _ _).
Qed.

Lemma aggregated_keyed (qs : list RateLimitReq) (m : gmap string RateLimitReq) : keyed m -> keyed (aggregated qs m).
Proof. revert m. induction qs as [|r qs IH]; intros m Hm; [done|]. by apply IH, aggregateHit_keyed. Qed.

(** The requests of [k] neither reset the limit nor carry more than 64 bits of hits. *)
Definition summable (k : string) (r : RateLimitReq) : Prop :=
  HashKey r = k -> HasBehavior (r_Behavior r) RESET_REMAINING = false /\ in64 (r_Hits r).

Lemma givenHits_cons (k : string) (r : RateLimitReq) (l : list RateLimitReq) :
  givenHits k (r :: l) = (if String.eqb (HashKey r) k then r_Hits r else 0) + givenHits k l.
Proof. done. Qed.

Lemma aggregated_more (k : string) (qs : list RateLimitReq) (m : gmap string RateLimitReq) (h : RateLimitReq) :
  Forall (summable k) qs -> m !! k = Some h -> in64 (r_Hits h) ->
  exists n, aggregated qs m !! k = Some (with_Hits n h) /\ in64 n /\ eq64 n (r_Hits h + givenHits k qs).
Proof.
  intros Hq. revert m h. induction Hq as [|r qs Hr _ IH]; intros m h Hm H64.
  { exists (r_Hits h). split; [by destruct h|]. split; [done|]. by rewrite Z.add_0_r. }
  cbn [aggregated fold_left]. fold (aggregated qs (aggregateHit r m)). rewrite givenHits_cons.
  destruct (String.eqb_spec (HashKey r) k) as [Hk|Hk].
  - destruct (Hr Hk) as [Hreset _]. assert (aggregateHit r m !! k = Some (with_Hits (r_Hits h +i r_Hits r) h)) as Hl.
    { unfold aggregateHit. by rewrite Hk, Hm, Hreset, lookup_insert_eq. }
    destruct (IH _ _ Hl) as (n & -> & Hn & He); [apply wrap64_range|]. exists n. split; [done|]. split; [done|].
    rewrite He. cbn [r_Hits with_Hits]. by rewrite (eq64_wrap (r_Hits h + r_Hits r)), Z.add_assoc.
  - destruct (IH (aggregateHit r m) h) as (n & -> & Hn & He); [|done|by exists n; rewrite Z.add_0_l].
    unfold aggregateHit. by destruct (m !! HashKey r); rewrite lookup_insert_ne.
Qed.

(** What is sent for a key: the first request queued for it, with all the hits. *)
Lemma aggregated_first (k : string) (qs : list RateLimitReq) (m : gmap string RateLimitReq) :
  Forall (summable k) qs -> m !! k = None -> in64 (givenHits k qs) -> givenHits k qs <> 0 ->
  exists r, r ∈ qs /\ HashKey r = k /\ aggregated qs m !! k = Some (with_Hits (givenHits k qs) r).
Proof.
  intros Hq. revert m. induction Hq as [|r qs Hr Hq IH]; intros m Hm H64 Hne; [done|].
  cbn [aggregated fold_left]. fold (aggregated qs (aggregateHit r m)). rewrite givenHits_cons in *.
  destruct (String.eqb_spec (HashKey r) k) as [Hk|Hk].
  - assert (aggregateHit r m !! k = Some r) as Hl by (unfold aggregateHit; by rewrite Hk, Hm, lookup_insert_eq).
    destruct (aggregated_more k qs _ r Hq Hl) as (n & -> & Hn & He); [by apply Hr|]. exists r.
    split; [left|]. split; [done|]. do 2 f_equal. unfold eq64 in He. by rewrite !wrap64_id in He.
  - destruct (IH (aggregateHit r m)) as (r0 & ? & ? & ?); [|done..|exists r0; split; [by right|done]].
    unfold aggregateHit. by destruct (m !! HashKey r); rewrite lookup_insert_ne.
Qed.

(** ** The call to the owner *)

Section Batch.
Context {Peer : Type} (addr : Peer -> string) (pick : string -> result Peer).

(** The requests [sendHits] sends to the peer at an address. *)
Definition batchFor (m : gmap string RateLimitReq) (a : string) : list RateLimitReq :=
  match sendHits addr pick m !! a with Some (_, reqs) => reqs | None => [] end.

Lemma keyed_keys (m : gmap string RateLimitReq) : keyed m -> NoDup (HashKey <$> (map_to_list m).*2).
Proof.
  intros Hm. replace (HashKey <$> (map_to_list m).*2) with (map_to_list m).*1; [apply NoDup_fst_map_to_list|].
  rewrite <- list_fmap_compose. apply list_fmap_ext. intros i [k r] Hi. simpl. symmetry. apply Hm.
  apply elem_of_map_to_list. by eapply list_elem_of_lookup_2.
Qed.

Lemma batch_part (m : gmap string RateLimitReq) (a : string) :
  exists rest, allAssigned (sendHits addr pick m) ≡ₚ batchFor m a ++ rest.
Proof.
  unfold batchFor. destruct (sendHits addr pick m !! a) as [[c reqs]|] eqn:E; [|by exists (allAssigned (sendHits addr pick m))].
  pose proof (allAssigned_insert (delete a (sendHits addr pick m)) a (c, reqs) (lookup_delete_eq _ _)) as Hi.
  rewrite insert_delete_id in Hi by exact E. eexists. exact Hi.
Qed.

Lemma batch_keys (m : gmap string RateLimitReq) (a : string) : keyed m ->
  NoDup (HashKey <$> batchFor m a) /\ (length (batchFor m a) <= size m)%nat.
Proof.
  intros Hm. destruct (batch_part m a) as [rest Hp]. destruct (send_hits_to_owners addr pick m) as [_ Hall].
  rewrite Hp in Hall. assert (batchFor m a ++ rest ⊆+ (map_to_list m).*2) as Hs.
  { rewrite Hall. apply sublist_submseteq, sublist_filter. }
  split.
  - pose proof (keyed_keys m Hm) as Hn. apply (fmap_submseteq HashKey) in Hs.
    apply submseteq_Permutation in Hs as [l Hl]. rewrite Hl, fmap_app, <- app_assoc in Hn. by apply NoDup_app in Hn as [? _].
  - apply submseteq_length in Hs. rewrite length_app, length_fmap, length_map_to_list in Hs. lia.
Qed.

Lemma batch_has (m : gmap string RateLimitReq) (k : string) (r : RateLimitReq) (peer : Peer) : keyed m ->
  m !! k = Some r -> pick k = Ok peer -> r ∈ batchFor m (addr peer).
Proof.
  intros Hm Hk Hpick. pose proof (Hm _ _ Hk) as Hkr. simpl in Hkr.
  destruct (send_hits_to_owners addr pick m) as [Ha Hall].
  assert (r ∈ allAssigned (sendHits addr pick m)) as Hin.
  { rewrite Hall. apply list_elem_of_filter. unfold hasOwner. rewrite Hkr, Hpick. split; [done|].
    apply list_elem_of_fmap. exists (k, r). split; [done|]. by apply elem_of_map_to_list. }
  unfold allAssigned in Hin. apply list_elem_of_In, in_concat in Hin as (l & Hl & Hr).
  apply list_elem_of_In in Hl, Hr.
  apply list_elem_of_fmap in Hl as ([a [c reqs]] & -> & Hl). apply elem_of_map_to_list in Hl. simpl in Hr.
  destruct (Ha _ _ _ Hl) as [_ Hf]. rewrite Forall_forall in Hf. destruct (Hf r Hr) as (p & Hp & <-).
  rewrite Hkr, Hpick in Hp. injection Hp as <-. unfold batchFor. by rewrite Hl.
Qed.
End Batch.

(** ** What the owner charges *)

Section Owner.
Context `{Arch} `{Hash64} {C S : Type} `{CacheLaws C} `{StoreLaws S}.
Context {Peer : Type} (Info : Peer -> PeerInfo) (conf : NodeConf) (su : Surroundings Peer).
Context (k : string) (p : Ptr) (limit duration expire : Z).
Hypothesis Hlive : forall n, su_gaveUp su n = None.

Abbreviation P := (WorkerPool C S).
Abbreviation N := (Node C S Peer).

(** The key is no longer cached as item [p]. *)
Definition lost (nd : N) : Prop := forall it, ~ at_key (nd_pool nd) k p it.

(** The bucket holds [rem] tokens, or was lost where [B] allows for it; [us] are among the
    updates queued. *)
Definition holding (B : Prop) (us : list RateLimitReq) (rem : Z) (nd : N) : Prop :=
  node_ok nd /\ us ⊆ nd_updates nd /\ (window (nd_pool nd) k p limit duration expire rem \/ B /\ lost nd).

Lemma at_key_or_lost (nd : N) : (exists it, at_key (nd_pool nd) k p it) \/ lost nd.
Proof.
  unfold lost, at_key. destruct (po_workers (nd_pool nd) !! _) as [c|] eqn:Ec; [|right; by intros it (c & ? & _)].
  destruct (decide (c_view c !! k = Some p)) as [Ev|Ev]; [|right; intros it (c' & ? & ? & _); congruence].
  destruct (e_heap (po_env (nd_pool nd)) !! p) as [it|] eqn:Ep; [|right; intros it (c' & ? & ? & ?); congruence].
  left. by exists it, c.
Qed.

(** A step that keeps pool, heap and clock keeps the bucket. *)
Lemma holding_quiet (B : Prop) (us : list RateLimitReq) (rem : Z) (nd nd' : N) (e' : Env) : holding B us rem nd ->
  env_quiet (po_env (nd_pool nd)) e' ->
  nd_pool nd' = mkPool e' (po_workers (nd_pool nd)) (po_store (nd_pool nd)) (po_hashRingStep (nd_pool nd)) (po_conf (nd_pool nd)) ->
  nd_updates nd ⊆ nd_updates nd' -> holding B us rem nd'.
Proof.
  intros ([Hok Hw] & Hus & Hwin) Hq Hp Hu.
  assert (pool_ok (nd_pool nd')) as Hok'.
  { rewrite Hp. apply pool_ok_env; [done|apply (env_quiet_ok (po_env (nd_pool nd))); [done|apply Hok]|auto with env]. }
  split; [constructor; [done|intros k'; rewrite Hp; apply Hw]|]. split; [by etransitivity|].
  assert (forall it, at_key (nd_pool nd') k p it <-> at_key (nd_pool nd) k p it) as Hat.
  { intros it. unfold at_key. rewrite Hp. simpl. by rewrite (eq_heap _ _ Hq). }
  destruct Hwin as [(_ & Hclk & it & t & Hk & Hrest)|[HB Hl]]; [left|right; split; [done|]; intros it; rewrite Hat; apply Hl].
  split; [done|]. split; [|exists it, t; by rewrite Hat].
  intros n. rewrite Hp. simpl. rewrite (eq_clock _ _ Hq), (eq_loc _ _ Hq). apply Hclk.
Qed.

Lemma consult_holding {A} (ask : nat -> A) (B : Prop) (us : list RateLimitReq) (rem : Z) :
  triple (holding B us rem) (consult ask : M N A) (fun _ => holding B us rem).
Proof.
  intros nd Hh. eexists _, _. split; [done|]. eapply holding_quiet; [exact Hh|reflexivity|by destruct (nd_pool nd)|done].
Qed.

Lemma process_holding {A} (m : M Env A) (B : Prop) (us : list RateLimitReq) (rem : Z) :
  (forall e, exists a e', m e = Ret (a, e') /\ env_quiet e e') ->
  triple (holding B us rem) (onPool (onProcess m) : M N A) (fun _ => holding B us rem).
Proof.
  intros Hm nd Hh. destruct (Hm (po_env (nd_pool nd))) as (a & e' & Hr & Hq). eexists a, _.
  split; [unfold onPool, onProcess, zoom; by rewrite Hr|]. by eapply holding_quiet; [exact Hh|exact Hq|..].
Qed.

Lemma queueUpdate_holding (r : RateLimitReq) (B : Prop) (us : list RateLimitReq) (rem : Z) :
  triple (holding B us rem) (queueUpdate r : M N unit) (fun _ => holding B (option_list (QueueUpdate r) ++ us) rem).
Proof.
  intros nd Hh. eexists _, _. split; [done|]. match goal with |- holding _ _ _ ?x => set (nd' := x) end.
  assert (holding B us rem nd') as (Hn & Hus & Hw).
  { eapply holding_quiet; [exact Hh|reflexivity|by destruct (nd_pool nd)|]. intros x Hx. apply elem_of_app. by left. }
  split; [done|]. split; [|done]. intros x Hx. apply elem_of_app in Hx as [Hx|Hx]; [|by apply Hus].
  apply elem_of_app. by right.
Qed.

Lemma sendEvent_holding (r : RateLimitReq) (rl : RateLimitResp) (B : Prop) (us : list RateLimitReq) (rem : Z) :
  triple (holding B us rem) (sendEvent su r rl) (fun _ => holding B us rem).
Proof.
  eapply triple_bind; [apply consult_holding|]. intros [|]; cbv beta; [|by apply triple_ret].
  intros nd Hh. eexists _, _. split; [done|]. eapply holding_quiet; [exact Hh|reflexivity|by destruct (nd_pool nd)|done].
Qed.

(** What a request evaluated here does besides calling the pool. *)
Lemma getLocalRateLimit_holding (r : RateLimitReq) (B B' : Prop) (us : list RateLimitReq) (rem rem' : Z)
    (good : result RateLimitResp -> Prop) : validateMaxWait r = "" ->
  triple (holding B us rem) (onPool (GetRateLimit None r (mkReqState true 0)) : M N _)
    (fun res nd => good res /\ holding B' us rem' nd) ->
  triple (holding B us rem) (getLocalRateLimit conf su r (mkReqState true 0))
    (fun _ nd => exists res, good res /\ holding B' (updatesOf r res ++ us) rem' nd).
Proof.
  intros Hv Hpool. unfold getLocalRateLimit, updatesOf. rewrite Hv. simpl.
  apply (triple_bind _ _ _ (fun res nd => good res /\ holding B' us rem' nd)).
  { unfold poolGetRateLimit. apply (triple_bind _ _ _ (fun o nd => o = None /\ holding B us rem nd)).
    - intros nd Hh. destruct (consult_holding (su_gaveUp su) B us rem nd Hh) as (o & nd' & Hr & Hh').
      exists o, nd'. split; [done|]. split; [|done]. injection Hr as <- _. apply Hlive.
    - intros o. apply triple_pure. by intros ->. }
  intros [rl|e]; cbv beta; apply triple_pure; intros Hg; [|apply triple_ret; intros nd Hh; by exists (Err e)].
  rewrite handledReq_behavior.
  set (us' := (if HasBehavior (r_Behavior r) GLOBAL then option_list (QueueUpdate (handledReq r)) else []) ++ us).
  apply (triple_bind _ _ _ (fun _ => holding B' us' rem')); unfold us'.
  { destruct (HasBehavior _ _); [apply queueUpdate_holding|by apply triple_ret]. }
  intros ?; cbv beta. fold us'.
  apply (triple_bind _ _ _ (fun _ => holding B' us' rem')); [|intros ?; apply triple_ret; intros nd Hh; by exists (Ok rl)].
  eapply triple_bind; [apply process_holding, incr_calm|]. intros ?; cbv beta.
  destruct (nc_HasEventChannel conf); [apply sendEvent_holding|by apply triple_ret].
Qed.

(** A request on the key that drains it, as the pool evaluates it. *)
Lemma pool_own (r : RateLimitReq) (us : list RateLimitReq) (rem : Z) :
  HashKey r = k -> r_Algorithm r = TOKEN_BUCKET -> plain r -> r_Limit r = limit -> r_Duration r = duration ->
  0 < r_Hits r -> HasBehavior (r_Behavior r) DRAIN_OVER_LIMIT = true -> is_Some (r_CreatedAt r) ->
  triple (holding False us rem) (onPool (GetRateLimit None r (mkReqState true 0)) : M N _)
    (fun res nd => (exists rl, res = Ok rl) /\ holding False us (Z.max 0 (rem - r_Hits r)) nd).
Proof.
  intros Hk Ha Hplain Hl Hd Hh Hdrain [c Hc] nd ([Hok Hw] & Hus & Hwin).
  destruct Hwin as [(_ & Hclk & it & t & Hat & Ht & Hinv & Hexp & El & Ed & Er & Hz & H64)|[[] _]]. rewrite <- Hk in Hat.
  destruct (token_command_run (nd_pool nd) r (mkReqState true 0) p it t Hok Hat Ht Hinv)
    as (po' & Hrun & Hok' & Hat' & Hck & Hlk); [by rewrite Hexp|done|done|congruence..|].
  destruct (runCommand_iso (nd_pool nd) r (mkReqState true 0) c Hok Hc (Hw _)) as (rep & po2 & Hrun2 & _ & _ & Hs & _ & Hlen).
  rewrite Hrun in Hrun2. injection Hrun2 as <- <-.
  pose proof (decide_token_hits t (tokenResp it t r) r) as Hdec. rewrite Er in Hdec. specialize (Hdec Hz H64 Hh Er eq_refl).
  destruct (decide_token t (tokenResp it t r) r) as [t' rl]. simpl in Hrun, Hat'. destruct Hdec as (_ & _ & _ & Etl & Etd & _ & Hdec).
  eexists (Ok rl), _. split.
  { unfold onPool, zoom, GetRateLimit, callPool. by rewrite bind_assoc, (bind_ret_run _ _ _ _ _ Hrun). }
  split; [eauto|]. split; [constructor; simpl; [done|intros k'; unfold has_worker; rewrite Hs, Hlen; apply Hw]|]. split; [done|].
  left. split; [done|]. simpl. split; [intros n; rewrite Hck, Hlk; apply Hclk|].
  exists (with_Value (VToken t') it), t'. rewrite Hk in Hat'. do 4 (split; [done|]). do 2 (split; [congruence|]).
  rewrite Hdrain in Hdec. unfold in64, min_i64, max_i64 in *.
  destruct (Z.leb_spec (r_Hits r) rem); [destruct Hdec as (_ & _ & ->)|destruct Hdec as (_ & ->)]; lia.
Qed.

(** A request on another key. *)
Lemma pool_other (r : RateLimitReq) (us : list RateLimitReq) (rem : Z) :
  HashKey r <> k -> is_Some (r_CreatedAt r) ->
  triple (holding False us rem) (onPool (GetRateLimit None r (mkReqState true 0)) : M N _)
    (fun res nd => True /\ holding True us rem nd).
Proof.
  intros Hk [c Hc] nd ([Hok Hw] & Hus & Hwin). destruct Hwin as [(_ & Hclk & it & t & Hat & Hrest)|[[] _]].
  destruct (runCommand_iso (nd_pool nd) r (mkReqState true 0) c Hok Hc (Hw _)) as (rep & po' & Hrun & Hok' & _ & Hs & _ & Hlen).
  destruct (runCommand_reply _ _ _ _ _ Hrun) as (res & ->). eexists res, _. split.
  { unfold onPool, zoom, GetRateLimit, callPool. by rewrite bind_assoc, (bind_ret_run _ _ _ _ _ Hrun). }
  match goal with |- _ /\ holding _ _ _ ?x => set (nd' := x) end.
  split; [done|]. split; [constructor; simpl; [done|intros k'; unfold has_worker; rewrite Hs, Hlen; apply Hw]|]. split; [done|].
  destruct (at_key_or_lost nd') as [Hin|]; [left|by right].
  destruct (other_command _ k p it r _ _ _ Hok Hat Hk (mk_is_Some _ _ Hc) Hrun Hin) as (_ & Hat' & Hck & Hlk).
  split; [done|]. split; [|by exists it, t]. intros n. unfold nd'. simpl. rewrite Hck, Hlk. apply Hclk.
Qed.

Lemma holding_less (B : Prop) (us us' : list RateLimitReq) (rem : Z) (nd : N) : us ⊆ us' ->
  holding B us' rem nd -> holding B us rem nd.
Proof. intros Hs (? & Hu & ?). split; [done|]. split; [|done]. by etransitivity. Qed.

(** A GLOBAL request on the token bucket of the key. *)
Definition globalHit (r : RateLimitReq) : Prop :=
  HashKey r = k /\ r_Algorithm r = TOKEN_BUCKET /\ HasBehavior (r_Behavior r) GLOBAL = true /\
  HasBehavior (r_Behavior r) RESET_REMAINING = false /\ r_Limit r = limit /\ r_Duration r = duration /\
  r_MaxWait r = 0 /\ exists c, r_CreatedAt r = Some c /\ c <> 0.

(** The owner drains the bucket by the hits of a forwarded request and queues an update. *)
Lemma peerOne_own (r : RateLimitReq) (us : list RateLimitReq) (rem : Z) : globalHit r -> 0 < r_Hits r ->
  triple (holding False us rem) (peerOne conf su r)
    (fun _ => holding False (drainGlobal r :: us) (Z.max 0 (rem - r_Hits r))).
Proof.
  intros (Hk & Ha & Hg & Hreset & Hl & Hd & Hmw & c & Hc & Hc0) Hh. unfold peerOne.
  assert (r_CreatedAt (drainGlobal r) = Some c) as -> by (unfold drainGlobal; by rewrite Hg).
  destruct (Z.eqb_spec c 0); [done|]. set (r' := drainGlobal r).
  assert (r_Behavior r' = SetBehavior (r_Behavior r) DRAIN_OVER_LIMIT true) as Hb by (unfold r', drainGlobal; by rewrite Hg).
  assert (HasBehavior (r_Behavior r') DRAIN_OVER_LIMIT = true /\ HasBehavior (r_Behavior r') RESET_REMAINING = false /\
    HasBehavior (r_Behavior r') GLOBAL = true) as (Bd & Br & Bg).
  { rewrite Hb, !SetBehavior_has by (first [by exists 1|by exists 3|by exists 5]). done. }
  assert (HashKey r' = k /\ r_Algorithm r' = TOKEN_BUCKET /\ r_Limit r' = limit /\ r_Duration r' = duration /\
    r_MaxWait r' = 0 /\ r_CreatedAt r' = Some c /\ r_Hits r' = r_Hits r) as (Ek & Ea & El & Ed & Em & Ec & Eh)
    by (unfold r', drainGlobal; by rewrite Hg).
  clearbody r'. clear Hb. rewrite <- Eh in *.
  assert (validateMaxWait r' = "") as Hv by (unfold validateMaxWait; by rewrite Em).
  apply (triple_bind _ _ _ (fun x nd => x = r' /\ holding False us rem nd)); [by apply triple_ret|].
  intros x; cbv beta. apply triple_pure. intros ->. eapply triple_bind.
  { eapply getLocalRateLimit_holding; [done|]. by eapply pool_own. }
  intros res; cbv beta. apply triple_ret. intros nd (res0 & [rl ->] & Hh'). eapply holding_less; [|exact Hh'].
  unfold updatesOf. rewrite Hv, Bg. simpl. unfold handledReq, QueueUpdate. rewrite Ea. simpl.
  by destruct (Z.eqb_spec (r_Hits r') 0); [lia|].
Qed.

(** It keeps the bucket through requests on other keys, unless they evict it. *)
Lemma peerOne_other (r : RateLimitReq) (us : list RateLimitReq) (rem : Z) : HashKey r <> k ->
  triple (holding False us rem) (peerOne conf su r) (fun _ => holding True us rem).
Proof.
  intros Hk. unfold peerOne. set (r' := drainGlobal r).
  assert (HashKey r' <> k) as Hk' by (unfold r', drainGlobal; by destruct (HasBehavior _ _)). clearbody r'.
  apply (triple_bind _ _ _ (fun x nd => (is_Some (r_CreatedAt x) /\ HashKey x <> k) /\ holding False us rem nd)).
  - assert (triple (holding False us rem) (t ← onPool (onProcess MillisecondNow); mret (with_CreatedAt (Some t) r') : M N _)
      (fun x nd => (is_Some (r_CreatedAt x) /\ HashKey x <> k) /\ holding False us rem nd)) as Hnow.
    { eapply triple_bind; [apply process_holding, MillisecondNow_calm|]. intros t. apply triple_ret. intros nd Hh.
      split; [split; [by eexists|done]|done]. }
    destruct (r_CreatedAt r') as [c|] eqn:E; [|done]. destruct (c =? 0); [done|].
    apply triple_ret. intros nd Hh. split; [split; [by eexists|done]|done].
  - intros x; cbv beta. apply triple_pure. intros [Hc Hx].
    apply (triple_bind _ _ _ (fun _ => holding True us rem)); [|intros ?; by apply triple_ret].
    destruct (decide (validateMaxWait x = "")) as [Hv|Hv].
    + eapply triple_post; [|eapply getLocalRateLimit_holding; [exact Hv|by apply pool_other]].
      intros res nd (res0 & _ & Hh). eapply holding_less; [|exact Hh]. intros y Hy. apply elem_of_app. by right.
    + unfold getLocalRateLimit. destruct (String.eqb_spec (validateMaxWait x) ""); [done|]. simpl.
      eapply triple_bind; [apply process_holding, incr_calm|]. intros ?; cbv beta. apply triple_ret.
      intros nd (? & ? & [?|[[] _]]). split; [done|]. split; [done|by left].
Qed.

(** ** The batch *)

(** The bucket stays cached while the requests are evaluated. *)
Definition stays (tasks : list (nat * RateLimitReq)) (nd : N) : Prop :=
  forall done rest outs nd', tasks = done ++ rest -> runFan conf su done nd = Ret (outs, nd') ->
    exists it, at_key (nd_pool nd') k p it.

Lemma runFan_others (tasks : list (nat * RateLimitReq)) (us : list RateLimitReq) (rem : Z) (nd : N) :
  Forall (fun t => HashKey t.2 <> k) tasks -> stays tasks nd -> holding False us rem nd ->
  exists outs nd', runFan conf su tasks nd = Ret (outs, nd') /\ holding False us rem nd'.
Proof.
  intros Hf. revert nd. induction Hf as [|[i r] tasks Hr _ IH]; intros nd Hs Hh; [by eexists _, _|]. cbn [snd] in Hr.
  destruct (peerOne_other r us rem Hr nd Hh) as (rl & nd1 & Hr1 & Hh1).
  assert (forall l, runFan conf su ((i, r) :: l) nd = (outs ← runFan conf su l; mret ((i, rl) :: outs)) nd1) as Hcons.
  { intros l. simpl. by rewrite (bind_ret_run _ _ _ _ _ Hr1). }
  destruct (IH nd1) as (outs & nd2 & Hr2 & Hh2).
  - intros d rest outs nd' -> Hrun. apply (Hs ((i, r) :: d) rest ((i, rl) :: outs)); [done|].
    rewrite Hcons. by rewrite (bind_ret_run _ _ _ _ _ Hrun).
  - destruct Hh1 as (? & ? & [?|[_ Hl]]); [split; [done|]; split; [done|by left]|].
    destruct (Hs [(i, r)] tasks [(i, rl)] nd1) as [it Hit]; [done|by rewrite Hcons|by destruct (Hl it)].
  - exists ((i, rl) :: outs), nd2. split; [|exact Hh2]. rewrite Hcons. by rewrite (bind_ret_run _ _ _ _ _ Hr2).
Qed.

Lemma runFan_app (l1 l2 : list (nat * RateLimitReq)) (nd nd1 : N) (o1 : list (nat * RateLimitResp)) :
  runFan conf su l1 nd = Ret (o1, nd1) ->
  runFan conf su (l1 ++ l2) nd = (outs ← runFan conf su l2; mret (o1 ++ outs)) nd1.
Proof.
  revert nd o1. induction l1 as [|[i r] l1 IH]; intros nd o1 Hr.
  - injection Hr as <- <-. simpl. unfold mbind, M_bind. by destruct (runFan conf su l2 nd) as [[]|].
  - simpl in *. apply bind_ret_inv in Hr as (rl & nd2 & Hr1 & Hr). apply bind_ret_inv in Hr as (o & nd3 & Hr2 & Hm).
    injection Hm as <- <-. rewrite (bind_ret_run _ _ _ _ _ Hr1). unfold mbind at 1, M_bind at 1. rewrite (IH _ _ Hr2).
    unfold mbind, M_bind. by destruct (runFan conf su l2 nd3) as [[]|].
Qed.

Lemma stays_app (l1 l2 : list (nat * RateLimitReq)) (nd nd1 : N) (o1 : list (nat * RateLimitResp)) :
  stays (l1 ++ l2) nd -> runFan conf su l1 nd = Ret (o1, nd1) -> stays l2 nd1.
Proof.
  intros Hs Hr d rest outs nd' -> Hrun. apply (Hs (l1 ++ d) rest (o1 ++ outs)); [by rewrite app_assoc|].
  by rewrite (runFan_app _ _ _ _ _ Hr), (bind_ret_run _ _ _ _ _ Hrun).
Qed.

(** A batch with one request on the key, evaluated in any order. *)
Lemma runFan_batch (l1 l2 : list (nat * RateLimitReq)) (i : nat) (r : RateLimitReq) (rem : Z) (nd : N) :
  Forall (fun t => HashKey t.2 <> k) l1 -> Forall (fun t => HashKey t.2 <> k) l2 -> globalHit r -> 0 < r_Hits r ->
  stays (l1 ++ (i, r) :: l2) nd -> holding False [] rem nd ->
  exists outs nd', runFan conf su (l1 ++ (i, r) :: l2) nd = Ret (outs, nd') /\
    holding False [drainGlobal r] (Z.max 0 (rem - r_Hits r)) nd'.
Proof.
  intros Hf1 Hf2 Hr Hh Hs Hnd. destruct (runFan_others l1 [] rem nd Hf1) as (o1 & nd1 & Hr1 & Hh1); [|done|].
  { intros d rest outs nd' -> Hrun. apply (Hs d (rest ++ (i, r) :: l2) outs); [by rewrite app_assoc|done]. }
  pose proof (stays_app _ _ _ _ _ Hs Hr1) as Hs1.
  destruct (peerOne_own r [] rem Hr Hh nd1 Hh1) as (rl & nd2 & Hp & Hh2).
  assert (runFan conf su [(i, r)] nd1 = Ret ([(i, rl)], nd2)) as Hone by (simpl; by rewrite (bind_ret_run _ _ _ _ _ Hp)).
  pose proof (stays_app [(i, r)] l2 _ _ _ Hs1 Hone) as Hs2.
  destruct (runFan_others l2 _ _ nd2 Hf2 Hs2 Hh2) as (o2 & nd3 & Hr3 & Hh3). eexists _, nd3. split; [|exact Hh3].
  rewrite (runFan_app _ _ _ _ _ Hr1). change ((i, r) :: l2) with ([(i, r)] ++ l2).
  unfold mbind at 1, M_bind at 1. rewrite (runFan_app _ _ _ _ _ Hone), (bind_ret_run _ _ _ _ _ Hr3). reflexivity.
Qed.
End Owner.

(** ** There and back *)

Lemma aggregated_size (qs : list RateLimitReq) (m : gmap string RateLimitReq) :
  (size (aggregated qs m) <= size m + length qs)%nat.
Proof.
  revert m. induction qs as [|r qs IH]; intros m; simpl; [lia|]. specialize (IH (aggregateHit r m)).
  assert (size (aggregateHit r m) <= S (size m))%nat; [|unfold aggregated in *; lia]. unfold aggregateHit.
  destruct (m !! HashKey r) eqn:E; [rewrite map_size_insert_Some by eauto; lia|by rewrite map_size_insert_None].
Qed.

Lemma imap_snd {A} (l : list A) : (imap pair l).*2 = l.
Proof. rewrite fmap_imap. apply list_eq. intros i. rewrite list_lookup_imap. by destruct (l !! i). Qed.

(** A request of a batch without repeated keys, and the others. *)
Lemma batch_split (k : string) (r : RateLimitReq) (reqs : list RateLimitReq)
    (order : list (nat * RateLimitReq) -> list (nat * RateLimitReq)) :
  (forall l, order l ≡ₚ l) -> r ∈ reqs -> HashKey r = k -> NoDup (HashKey <$> reqs) ->
  exists l1 i l2, order (imap pair reqs) = l1 ++ (i, r) :: l2 /\
    Forall (fun t => HashKey t.2 <> k) l1 /\ Forall (fun t => HashKey t.2 <> k) l2.
Proof.
  intros Horder Hr Hk Hnd. apply list_elem_of_lookup in Hr as [i Hi].
  assert ((i, r) ∈ order (imap pair reqs)) as Hin.
  { rewrite Horder. apply list_elem_of_lookup. exists i. by rewrite list_lookup_imap, Hi. }
  apply list_elem_of_split in Hin as (l1 & l2 & He). exists l1, i, l2. split; [done|].
  assert (NoDup (HashKey <$> (order (imap pair reqs)).*2)) as Hn by (by rewrite Horder, imap_snd).
  rewrite He, !fmap_app, !fmap_cons in Hn. cbn [snd] in Hn. rewrite Hk in Hn. apply NoDup_app in Hn as (_ & Hdis & Hn).
  apply NoDup_cons in Hn as [Hni _]. split; apply Forall_forall; intros t Ht Hkt.
  - apply (Hdis k); [|left]. rewrite <- Hkt, <- list_fmap_compose. by apply (list_elem_of_fmap_2 (HashKey ∘ snd)).
  - apply Hni. rewrite <- Hkt, <- list_fmap_compose. by apply (list_elem_of_fmap_2 (HashKey ∘ snd)).
Qed.

Section RoundTrip.
Context `{Arch} `{Hash64} {C S : Type} `{CacheLaws C} `{StoreLaws S}.
Context {Peer : Type} (conf : NodeConf) (su : Surroundings Peer) (addr : Peer -> string) (pick : string -> result Peer).

(** The requests a member sends to the owner of a key after it queued [qs]. *)
Definition sentTo (peer : Peer) (qs : list RateLimitReq) : list RateLimitReq :=
  batchFor addr pick (aggregated qs ∅) (addr peer).

(** C9: A GLOBAL limit converges.  A member that does not own a key queued the requests
    [qs], on this key and on others, no more than a batch may hold, since it last sent; the
    owner's token bucket holds [rem] tokens and does not expire.  Requests on the key are
    GLOBAL token bucket requests with the limit and duration of the bucket, without
    RESET_REMAINING or MaxWait, and their hits add up to a positive int64.  The call [sendHits] makes
    to the owner, evaluated there in any order while the bucket stays cached and no context
    ends, queues an update; when that update is broadcast before other requests on the key
    reach the owner, and installed, the member answers a request of no hits with [rem] less
    all the hits it had queued, or zero. *)
Theorem global_round_trip (k : string) (p : Ptr) (limit duration expire rem : Z) (qs : list RateLimitReq) (peer : Peer)
    (order : list (nat * RateLimitReq) -> list (nat * RateLimitReq)) (nd : Node C S Peer) (pr : WorkerPool C S)
    (q : RateLimitReq) (st : RateLimitReqState)
    (Hqs : Forall (fun r => HashKey r = k -> globalHit k limit duration r /\ in64 (r_Hits r)) qs)
    (Htotal : 0 < givenHits k qs <= max_i64) (Hlen : (length qs <= maxBatchSize)%nat)
    (Hpick : pick k = Ok peer) (Horder : forall l, order l ≡ₚ l)
    (Hnd : node_ok nd) (Hwin : window (nd_pool nd) k p limit duration expire rem)
    (Hctx : forall n, su_gaveUp su n = None) (Hstays : stays conf su k p (order (imap pair (sentTo peer qs))) nd)
    (Hpr : pool_ok pr) (Hworker : has_worker pr k) (Hclock : clock_until (po_env pr) expire)
    (Hq : HashKey q = k /\ r_Algorithm q = TOKEN_BUCKET /\ plain q /\ r_Limit q = limit /\ r_Duration q = duration /\ r_Hits q = 0) :
  exists resps nd' u g po' pr1 pr2 rl,
    GetPeerRateLimits conf su order (sentTo peer qs) nd = Ret (Ok resps, nd') /\
    u ∈ nd_updates nd' /\ broadcastPeers [u] (nd_pool nd') = Ret ([g], po') /\
    UpdatePeerGlobals (fun _ => None) [g] pr = Ret (Ok tt, pr1) /\
    runCommand (CGetRateLimit q st) pr1 = Ret (RRateLimit (Ok rl), pr2) /\
    rl_Limit rl = limit /\ rl_ResetTime rl = expire /\ rl_Remaining rl = Z.max 0 (rem - givenHits k qs).
Proof.
  assert (keyed (aggregated qs ∅)) as Hkeyed by (apply aggregated_keyed; by intros ? ?; rewrite lookup_empty).
  destruct (aggregated_first k qs ∅) as (r0 & Hr0 & Hk0 & Hagg).
  { eapply Forall_impl; [exact Hqs|]. intros r Hr Hk. destruct (Hr Hk) as [(_ & _ & _ & ? & _) ?]. done. }
  { apply lookup_empty. } { unfold in64, min_i64, max_i64 in *. lia. } { lia. }
  rewrite Forall_forall in Hqs. destruct (Hqs r0 Hr0 Hk0) as [Hg0 _]. set (r := with_Hits (givenHits k qs) r0) in *.
  assert (globalHit k limit duration r) as Hg by exact Hg0. assert (r_Hits r = givenHits k qs) as Hh by done. clearbody r.
  destruct (batch_keys addr pick _ (addr peer) Hkeyed) as [Hnodup Hsize].
  pose proof (batch_has addr pick _ k r peer Hkeyed Hagg Hpick) as Hin. fold (sentTo peer qs) in *.
  destruct (batch_split k r _ order Horder Hin ltac:(apply Hg) Hnodup) as (l1 & i & l2 & Hsplit & Hf1 & Hf2).
  rewrite Hsplit in Hstays. destruct (runFan_batch conf su k p limit duration expire Hctx l1 l2 i r rem nd Hf1 Hf2 Hg)
    as (outs & nd' & Hrun & [Hok' _] & Hus & Hw'); [lia|done|split; [done|]; split; [apply list_subseteq_nil|by left]|].
  destruct Hw' as [(_ & Hclk & it & t & Hat & Ht & Hinv & Hexp & El & Ed & Er & _)|[[] _]].
  destruct Hg as (Ek & Ea & Eg & Ereset & Elr & Edr & _ & c & Ec & _).
  assert (HashKey (drainGlobal r) = k /\ r_Algorithm (drainGlobal r) = TOKEN_BUCKET /\ r_CreatedAt (drainGlobal r) = Some c /\
    r_Limit (drainGlobal r) = limit /\ r_Duration (drainGlobal r) = duration /\
    HasBehavior (r_Behavior (drainGlobal r)) RESET_REMAINING = false) as (Uk & Ua & Uc & Ul & Ud & Ur).
  { unfold drainGlobal. rewrite Eg. repeat (split; [done|]). cbn [r_Behavior with_Behavior].
    by rewrite SetBehavior_has by (first [by exists 3|by exists 5]). }
  destruct Hq as (Qk & Qa & Qp & Ql & Qd & Qh).
  destruct (replica_run (nd_pool nd') pr (drainGlobal r) q p expire c t Hok') with (st := st)
    as (g & po' & pr1 & pr2 & rl & Hb & Hi & Hqr & Rl & Rr & Rt & _); try congruence; try done.
  { rewrite Uk. by exists it. } { split; [by rewrite Qk|]. split; [by rewrite Qa|]. split; [done|]. split; [by rewrite Ql|]. split; [by rewrite Qd|done]. }
  eexists _, nd', (drainGlobal r), g, po', pr1, pr2, rl. split.
  { unfold GetPeerRateLimits. pose proof (aggregated_size qs ∅). rewrite map_size_empty in *. fold (sentTo peer qs) in Hsize.
    destruct (Nat.ltb_spec maxBatchSize (length (sentTo peer qs))) as [Hlt|_]; [lia|].
    rewrite Hsplit. by rewrite (bind_ret_run _ _ _ _ _ Hrun). }
  split; [apply Hus; left|]. do 3 (split; [done|]). rewrite Rl, Rr, Er. split; [done|]. split; [done|]. by rewrite Hh.
Qed.
End RoundTrip.

(** ** An example *)

(** A member that queued two and three hits, and the owner of the bucket. *)
Definition queuedTwice : list RateLimitReq := [globalReq 2; globalReq 3].

Definition ownerBatch : list RateLimitReq :=
  sentTo pi_GRPCAddress (fun _ => Ok farOwner) farOwner queuedTwice.

Lemma ownerBatch_is : ownerBatch = [globalReq 5].
Proof. vm_compute. reflexivity. Qed.

Lemma globalReq_hit (hits : Z) : globalHit demoKey 10 60000 (globalReq hits).
Proof. unfold globalHit. repeat (split; [reflexivity|]). exists 2000. split; [reflexivity|lia]. Qed.

Lemma demo_stays : stays (H := amd64) plainConf closingPeer demoKey 0%nat (imap pair ownerBatch) demoNode.
Proof.
  rewrite ownerBatch_is. intros d rest outs nd' He Hr. pose proof demo_window as Hwin.
  destruct d as [|x d]; [injection Hr as _ <-; destruct Hwin as (_ & _ & it & t & Hat & _); by exists it|].
  injection He as <- He. symmetry in He. apply app_eq_nil in He as [-> _].
  destruct (peerOne_own (H := amd64) plainConf closingPeer demoKey 0%nat 10 60000 61000 (fun _ => eq_refl) (globalReq 5) [] 7)
    with (s := demoNode) as (rl & nd1 & Hp & _ & _ & Hw).
  { apply globalReq_hit. } { done. } { split; [apply demoNode_ok|]. split; [apply list_subseteq_nil|by left]. }
  simpl in Hr. rewrite (bind_ret_run _ _ _ _ _ Hp) in Hr. injection Hr as _ <-.
  destruct Hw as [(_ & _ & it & t & Hat & _)|[[] _]]. by exists it.
Qed.

Lemma global_round_trip_witness : exists resps nd' u g po' pr1 pr2 rl,
  GetPeerRateLimits (H := amd64) plainConf closingPeer (fun l => l) ownerBatch demoNode = Ret (Ok resps, nd') /\
  u ∈ nd_updates nd' /\ broadcastPeers (H := amd64) [u] (nd_pool nd') = Ret ([g], po') /\
  UpdatePeerGlobals (H := amd64) (fun _ => None) [g] (demoPool (demoWorld 2000 None)) = Ret (Ok tt, pr1) /\
  runCommand (H := amd64) (CGetRateLimit (demoReq TOKEN_BUCKET 0 3000) replica) pr1 = Ret (RRateLimit (Ok rl), pr2) /\
  rl_Limit rl = 10 /\ rl_ResetTime rl = 61000 /\ rl_Remaining rl = 2.
Proof.
  apply (global_round_trip (H := amd64) plainConf closingPeer pi_GRPCAddress (fun _ => Ok farOwner) demoKey 0%nat 10 60000 61000 7
    queuedTwice farOwner (fun l => l) demoNode (demoPool (demoWorld 2000 None)) (demoReq TOKEN_BUCKET 0 3000) replica).
  - repeat constructor; try apply globalReq_hit; unfold in64, min_i64, max_i64; simpl; lia.
  - vm_compute. split; [reflexivity|discriminate].
  - cbn. unfold maxBatchSize. lia.
  - reflexivity.
  - done.
  - apply demoNode_ok.
  - apply demo_window.
  - reflexivity.
  - apply demo_stays.
  - exact (demoPool_ok _ (demoWorld_ok 2000)).
  - apply demo_has_worker.
  - intros n. by vm_compute.
  - do 2 (split; [reflexivity|]). split; [apply demo_plain|]. by repeat split.
Defined.
