(* ===== verification/Membership.v ===== *)
(** * Cluster membership ([SetPeers], [HealthCheck], [LiveCheck] of [gubernator.go])

    [SetPeers] builds new pickers from a peer list, reusing the clients it already has,
    swaps them in and shuts down the clients no longer listed.  Clients are objects: two
    clients with the same information are different. *)

From stdpp Require Import base gmap strings list.
From Stdlib Require Import ZArith Lia.
From S2P Require Import Prelude Types ReplicatedHash PeerClient.

Local Open Scope Z_scope.

(** A [PeerClient], by identity, with the information it was made with. *)
Record Client : Type := mkClient {
  cl_id : nat;
  cl_info : PeerInfo
}.

#[global] Instance Client_eq_dec : EqDecision Client.
Proof. solve_decision. Defined.

Section Membership.
Context `{SortSlice}.
(** The data center of this instance, and whether a connection can be made
    ([grpc.NewClient]). *)
Variable DataCenter : string.
Variable dial : PeerInfo -> option gerror.

Record Members : Type := mkMembers {
  mb_local : ReplicatedConsistentHash Client;
  mb_region : RegionPicker (Peer := Client);
  mb_next : nat;                       (* clients made so far *)
  mb_shutdown : list Client            (* clients shut down, oldest first *)
}.

(** [NewPeerClient] *)
Definition NewPeerClient (next : nat) (info : PeerInfo) : result Client :=
  match dial info with
  | Some e => Err e
  | None => Ok (mkClient next info)
  end.

(** The client for an entry of the peer list: the one there is, or a new one. *)
Definition clientFor (known : option Client) (next : nat) (info : PeerInfo) : result (Client * nat) :=
  match known with
  | Some c => Ok (c, next)
  | None =>
      match NewPeerClient next info with
      | Ok c => Ok (c, S next)
      | Err e => Err e
      end
  end.

(** The pickers being built, and the number of clients made. *)
Definition Building : Type := ReplicatedConsistentHash Client * RegionPicker (Peer := Client) * nat.

(** One entry of the peer list; an entry no client can be made for ends the call. *)
Definition addPeer (old : Members) (info : PeerInfo) (b : Building) : Building * option gerror :=
  let '(local, region, next) := b in
  if negb (String.eqb (pi_DataCenter info) DataCenter) then
    match clientFor (regionGetByPeerInfo info (mb_region old)) next info with
    | Err e => (b, Some e)
    | Ok (c, next) => (local, regionAdd cl_info c region, next, None)
    end
  else
    match clientFor (GetByPeerInfo info (mb_local old)) next info with
    | Err e => (b, Some e)
    | Ok (c, next) => (Add cl_info c local, region, next, None)
    end.

Fixpoint addPeers (old : Members) (infos : list PeerInfo) (b : Building) : Building * option gerror :=
  match infos with
  | [] => (b, None)
  | info :: infos =>
      match addPeer old info b with
      | (b, Some e) => (b, Some e)
      | (b, None) => addPeers old infos b
      end
  end.

(** The old clients the new pickers do not know. *)
Definition obsolete (old : Members) (local : ReplicatedConsistentHash Client) (region : RegionPicker (Peer := Client))
    : list Client :=
  filter (fun c => GetByPeerInfo (cl_info c) local = None) (Peers (mb_local old)) ++
  filter (fun c => regionGetByPeerInfo (cl_info c) region = None) (regionPeers (mb_region old)).

(** [SetPeers]; when a client cannot be made the old pickers stay. *)
Definition SetPeers (infos : list PeerInfo) (old : Members) : Members :=
  match addPeers old infos (New (mb_local old), regionNew (mb_region old), mb_next old) with
  | (_, _, next, Some _) => mkMembers (mb_local old) (mb_region old) next (mb_shutdown old)
  | (local, region, next, None) =>
      mkMembers local region next (mb_shutdown old ++ obsolete old local region)
  end.

(** ** What [SetPeers] promises *)

(** A ring whose clients are all of data center [dc], each known by its address. *)
Definition ring_of_dc (dc : string) (ch : ReplicatedConsistentHash Client) : Prop :=
  (forall a c, ch_peers ch !! a = Some c -> pi_GRPCAddress (cl_info c) = a /\ pi_DataCenter (cl_info c) = dc) /\
  (forall hp, hp ∈ ch_peerKeys ch ->
     pi_DataCenter (cl_info hp.2) = dc /\ is_Some (ch_peers ch !! pi_GRPCAddress (cl_info hp.2))).

Definition regions_of_dc (rp : RegionPicker (Peer := Client)) : Prop :=
  forall dc ch, rp_regions rp !! dc = Some ch -> dc <> DataCenter /\ ring_of_dc dc ch.

Definition pickers_wf (local : ReplicatedConsistentHash Client) (region : RegionPicker (Peer := Client)) : Prop :=
  ring_of_dc DataCenter local /\ regions_of_dc region.

(** A picker can return [c] for some key. *)
Definition returns (local : ReplicatedConsistentHash Client) (region : RegionPicker (Peer := Client)) (c : Client) : Prop :=
  (exists h, (h, c) ∈ ch_peerKeys local) \/
  (exists dc ch h, rp_regions region !! dc = Some ch /\ (h, c) ∈ ch_peerKeys ch).

Lemma ring_of_dc_add (dc : string) (c : Client) (ch : ReplicatedConsistentHash Client) :
  ring_of_dc dc ch -> pi_DataCenter (cl_info c) = dc -> ring_of_dc dc (Add cl_info c ch).
Proof.
  intros [Hp Hk] Hc. split.
  - intros a c'. simpl. destruct (decide (pi_GRPCAddress (cl_info c) = a)) as [<-|Hne].
    + rewrite lookup_insert_eq. by intros [= <-].
    + rewrite lookup_insert_ne by done. apply Hp.
  - intros hp. rewrite Add_keys. intros [Hin|Hin]%elem_of_app.
    + destruct (Hk hp Hin) as [Hd Hs]. split; [done|]. simpl.
      destruct (decide (pi_GRPCAddress (cl_info c) = pi_GRPCAddress (cl_info hp.2))) as [He|Hne].
      * rewrite He, lookup_insert_eq. by eexists.
      * by rewrite lookup_insert_ne.
    + apply list_elem_of_fmap in Hin as (i & -> & _). split; [done|]. simpl. rewrite lookup_insert_eq. by eexists.
Qed.

Lemma regions_of_dc_add (c : Client) (rp : RegionPicker (Peer := Client)) :
  regions_of_dc rp -> pi_DataCenter (cl_info c) <> DataCenter -> regions_of_dc (regionAdd cl_info c rp).
Proof.
  intros Hr Hc dc ch. simpl. set (d := pi_DataCenter (cl_info c)).
  destruct (decide (d = dc)) as [<-|Hne]; [|rewrite lookup_insert_ne by done; apply Hr].
  rewrite lookup_insert_eq. intros [= <-]. split; [done|]. apply ring_of_dc_add; [|done].
  destruct (rp_regions rp !! d) as [ch0|] eqn:E; simpl; [by apply Hr|].
  split; [intros a c'; simpl; by rewrite lookup_empty|by intros hp ?%not_elem_of_nil].
Qed.

Lemma regionGetByPeerInfo_inv (info : PeerInfo) (rp : RegionPicker (Peer := Client)) (c : Client) :
  regionGetByPeerInfo info rp = Some c ->
  exists dc ch, rp_regions rp !! dc = Some ch /\ ch_peers ch !! pi_GRPCAddress info = Some c.
Proof.
  unfold regionGetByPeerInfo. intros Hh. apply head_Some_elem_of in Hh.
  apply list_elem_of_omap in Hh as (ch & Hin & Hg). apply list_elem_of_fmap in Hin as ([dc ch'] & -> & Hin).
  apply elem_of_map_to_list in Hin. by exists dc, ch'.
Qed.

Lemma regionGetByPeerInfo_some (info : PeerInfo) (rp : RegionPicker (Peer := Client)) (dc : string)
    (ch : ReplicatedConsistentHash Client) :
  rp_regions rp !! dc = Some ch -> is_Some (ch_peers ch !! pi_GRPCAddress info) ->
  regionGetByPeerInfo info rp <> None.
Proof.
  intros Hd [c Hc]. unfold regionGetByPeerInfo. intros Hh%head_None.
  assert (c ∈ omap (GetByPeerInfo info) (map_to_list (rp_regions rp)).*2) as Hin.
  { apply list_elem_of_omap. exists ch. split; [|done]. apply list_elem_of_fmap. exists (dc, ch).
    split; [done|by apply elem_of_map_to_list]. }
  rewrite Hh in Hin. by apply not_elem_of_nil in Hin.
Qed.

Lemma clientFor_inv (known : option Client) (next : nat) (info : PeerInfo) (c : Client) (next' : nat) :
  clientFor known next info = Ok (c, next') -> known = Some c \/ (known = None /\ cl_info c = info).
Proof.
  unfold clientFor, NewPeerClient. destruct known as [k|]; [intros [= -> _]; by left|].
  destruct (dial info); [done|]. intros [= <- _]. by right.
Qed.

Lemma addPeer_wf (old : Members) (info : PeerInfo) (local : ReplicatedConsistentHash Client)
    (region : RegionPicker (Peer := Client)) (next : nat) local' region' next' o :
  pickers_wf (mb_local old) (mb_region old) -> pickers_wf local region ->
  addPeer old info (local, region, next) = (local', region', next', o) -> pickers_wf local' region'.
Proof.
  intros [Hol Hor] [Hl Hr]. unfold addPeer.
  destruct (String.eqb_spec (pi_DataCenter info) DataCenter) as [Hd|Hd]; simpl;
    destruct (clientFor _ next info) as [[c n']|e] eqn:E; intros [= <- <- <- <-];
    try apply clientFor_inv in E; split; try done.
  - apply ring_of_dc_add; [done|]. destruct E as [Hk|[_ ->]]; [|done]. by apply (proj1 Hol) in Hk as [_ ?].
  - apply regions_of_dc_add; [done|]. destruct E as [Hk|[_ ->]]; [|done].
    apply regionGetByPeerInfo_inv in Hk as (dc & ch & Hch & Hc). destruct (Hor dc ch Hch) as [Hne [Hp _]].
    by apply Hp in Hc as [_ ->].
Qed.

Lemma addPeers_wf (old : Members) (infos : list PeerInfo) local region next local' region' next' o :
  pickers_wf (mb_local old) (mb_region old) -> pickers_wf local region ->
  addPeers old infos (local, region, next) = (local', region', next', o) -> pickers_wf local' region'.
Proof.
  intros Hold. revert local region next. induction infos as [|info infos IH]; intros local region next Hwf; cbn [addPeers].
  { by intros [= <- <- <- <-]. }
  destruct (addPeer old info (local, region, next)) as [[[l r] n] [e|]] eqn:E.
  - intros [= <- <- <- _]. by eapply addPeer_wf.
  - apply IH. by eapply addPeer_wf.
Qed.

Lemma new_wf (old : Members) : pickers_wf (New (mb_local old)) (regionNew (mb_region old)).
Proof.
  split; [split|].
  - intros a c. simpl. by rewrite lookup_empty.
  - by intros hp ?%not_elem_of_nil.
  - intros dc ch. simpl. by rewrite lookup_empty.
Qed.

Lemma SetPeers_wf (infos : list PeerInfo) (old : Members) :
  pickers_wf (mb_local old) (mb_region old) ->
  pickers_wf (mb_local (SetPeers infos old)) (mb_region (SetPeers infos old)).
Proof.
  intros Hwf. unfold SetPeers. destruct (addPeers _ _ _) as [[[l r] n] [e|]] eqn:E; [done|].
  eapply addPeers_wf; [done|apply new_wf|exact E].
Qed.

(** A client the new pickers return is none of the obsolete ones. *)
Lemma obsolete_unreachable (old : Members) local region (c : Client) :
  pickers_wf (mb_local old) (mb_region old) -> pickers_wf local region ->
  returns local region c -> c ∉ obsolete old local region.
Proof.
  intros [[Hop _] Hor] [[_ Hk] Hr] Hret [Hin|Hin]%elem_of_app; apply list_elem_of_filter in Hin as [Hnone Hin].
  - apply list_elem_of_fmap in Hin as ([a c'] & -> & Hin%elem_of_map_to_list). apply Hop in Hin as [_ Hd]. simpl in *.
    destruct Hret as [[h Hh]|(dc & ch & h & Hch & Hh)].
    + destruct (Hk _ Hh) as [_ [c0 Hc0]]. unfold GetByPeerInfo in Hnone. simpl in Hc0. congruence.
    + destruct (Hr _ _ Hch) as [Hne [_ Hkr]]. destruct (Hkr _ Hh) as [Hdc _]. simpl in Hdc. congruence.
  - unfold regionPeers in Hin. apply list_elem_of_In, in_concat in Hin as (cs & Hcs & Hin).
    apply list_elem_of_In, list_elem_of_fmap in Hcs as (ch0 & -> & Hch0).
    apply list_elem_of_fmap in Hch0 as ([dc0 ch1] & -> & Hch0%elem_of_map_to_list).
    apply list_elem_of_In, list_elem_of_fmap in Hin as ([a c'] & -> & Hin%elem_of_map_to_list). simpl in *.
    destruct (Hor _ _ Hch0) as [Hne0 [Hp0 _]]. apply Hp0 in Hin as [_ Hd0].
    destruct Hret as [[h Hh]|(dc & ch & h & Hch & Hh)].
    + destruct (Hk _ Hh) as [Hd _]. simpl in Hd. congruence.
    + destruct (Hr _ _ Hch) as [_ [_ Hkr]]. destruct (Hkr _ Hh) as [_ Hsome]. simpl in Hsome.
      by apply (regionGetByPeerInfo_some (cl_info c') region dc ch).
Qed.

(** C35: [SetPeers] never shuts down a client that is still in use: whatever the list, a
    client it shuts down is one that neither of the new pickers returns for any key, and
    the pickers stay well formed, each client in the picker of its own data center. *)
Theorem set_peers_safe (infos : list PeerInfo) (old : Members)
    (Hwf : pickers_wf (mb_local old) (mb_region old)) :
  let new := SetPeers infos old in
  pickers_wf (mb_local new) (mb_region new) /\
  exists gone, mb_shutdown new = mb_shutdown old ++ gone /\
    forall c, returns (mb_local new) (mb_region new) c -> c ∉ gone.
Proof.
  intros new. split; [by apply SetPeers_wf|]. unfold new, SetPeers.
  destruct (addPeers _ _ _) as [[[l r] n] [e|]] eqn:E; simpl.
  - exists []. rewrite app_nil_r. split; [done|]. intros c _. apply not_elem_of_nil.
  - exists (obsolete old l r). split; [done|]. intros c Hc. apply obsolete_unreachable; [done| |done].
    eapply addPeers_wf; [done|apply new_wf|exact E].
Qed.

(** The clients of the entries of this data center seen so far: the old one where there
    is one. *)
Definition built (old : Members) (infos : list PeerInfo) (local : ReplicatedConsistentHash Client) : Prop :=
  (forall info, info ∈ infos -> pi_DataCenter info = DataCenter ->
     exists c, GetByPeerInfo info local = Some c /\
       forall c0, GetByPeerInfo info (mb_local old) = Some c0 -> c = c0) /\
  (forall a c, ch_peers local !! a = Some c ->
     exists info, info ∈ infos /\ pi_DataCenter info = DataCenter /\ pi_GRPCAddress info = a).

Lemma clientFor_ok (known : option Client) (next : nat) (info : PeerInfo) : dial info = None ->
  exists c n, clientFor known next info = Ok (c, n) /\ (forall c0, known = Some c0 -> c = c0) /\
    (known = None -> cl_info c = info).
Proof.
  intros Hd. unfold clientFor, NewPeerClient. rewrite Hd. destruct known as [k|].
  - exists k, next. split; [done|]. split; [congruence|done].
  - eexists _, _. split; [done|]. done.
Qed.

Lemma addPeers_built (old : Members) (infos done : list PeerInfo) local region next :
  pickers_wf (mb_local old) (mb_region old) -> Forall (fun i => dial i = None) infos -> built old done local ->
  exists local' region' next', addPeers old infos (local, region, next) = (local', region', next', None) /\
    built old (done ++ infos) local'.
Proof.
  intros [[Hop _] _]. revert done local region next. induction infos as [|info infos IH]; intros done local region next Hdial Hb.
  { eexists _, _, _. split; [reflexivity|]. by rewrite app_nil_r. }
  apply Forall_cons in Hdial as [Hd Hdial]. cbn [addPeers]. unfold addPeer.
  replace (done ++ info :: infos) with ((done ++ [info]) ++ infos) by (by rewrite <- app_assoc).
  destruct (String.eqb_spec (pi_DataCenter info) DataCenter) as [Hdc|Hdc]; simpl.
  - destruct (clientFor_ok (GetByPeerInfo info (mb_local old)) next info Hd) as (c & n & -> & Hold & Hnew).
    assert (pi_GRPCAddress (cl_info c) = pi_GRPCAddress info) as Ha.
    { destruct (GetByPeerInfo info (mb_local old)) as [c0|] eqn:E; [|by rewrite Hnew].
      rewrite (Hold c0 eq_refl). by apply Hop in E as [? _]. }
    apply IH; [done|]. destruct Hb as [Hb1 Hb2]. split.
    + intros i Hi Hid. unfold GetByPeerInfo in *. simpl. rewrite Ha.
      destruct (decide (pi_GRPCAddress info = pi_GRPCAddress i)) as [He|Hne].
      * rewrite He, lookup_insert_eq. exists c. split; [done|]. intros c0. rewrite <- He. apply Hold.
      * rewrite lookup_insert_ne by done. apply elem_of_app in Hi as [Hi|Hi%list_elem_of_singleton]; [by apply Hb1|congruence].
    + intros a c'. simpl. rewrite Ha. destruct (decide (pi_GRPCAddress info = a)) as [<-|Hne].
      * intros _. exists info. split; [apply elem_of_app; right; by apply list_elem_of_singleton|done].
      * rewrite lookup_insert_ne by done. intros Hc'. destruct (Hb2 _ _ Hc') as (i & Hi & ?).
        exists i. split; [apply elem_of_app; by left|done].
  - destruct (clientFor_ok (regionGetByPeerInfo info (mb_region old)) next info Hd) as (c & n & -> & _).
    apply IH; [done|]. destruct Hb as [Hb1 Hb2]. split.
    + intros i [Hi|Hi%list_elem_of_singleton]%elem_of_app Hid; [by apply Hb1|congruence].
    + intros a c' Hc'. destruct (Hb2 _ _ Hc') as (i & Hi & ?). exists i. split; [apply elem_of_app; by left|done].
Qed.

Lemma SetPeers_built (infos : list PeerInfo) (old : Members)
    (Hwf : pickers_wf (mb_local old) (mb_region old)) (Hdial : Forall (fun i => dial i = None) infos) :
  built old infos (mb_local (SetPeers infos old)).
Proof.
  destruct (addPeers_built old infos [] (New (mb_local old)) (regionNew (mb_region old)) (mb_next old) Hwf Hdial)
    as (l & r & n & E & Hb).
  { split; [by intros i ?%not_elem_of_nil|]. intros a c. simpl. by rewrite lookup_empty. }
  unfold SetPeers. rewrite E. exact Hb.
Qed.

(** C36: When every peer can be connected to, the new local picker knows exactly the
    addresses listed for this data center, and keeps the client it already had for each
    of them. *)
Theorem set_peers_complete (infos : list PeerInfo) (old : Members)
    (Hwf : pickers_wf (mb_local old) (mb_region old)) (Hdial : Forall (fun i => dial i = None) infos) :
  built old infos (mb_local (SetPeers infos old)).
Proof. by apply SetPeers_built. Qed.

(** [GetPeerList] and [GetRegionPickers] of an instance, and [Peers] of a daemon. *)
Definition GetPeerList (m : Members) : list Client := Peers (mb_local m).
Definition GetRegionPickers (m : Members) : gmap string (ReplicatedConsistentHash Client) := rp_regions (mb_region m).
Definition daemonPeers (m : Members) : list PeerInfo := cl_info <$> GetPeerList m.

(** A daemon that was given its peers reports exactly the addresses listed for its own
    data center, each once. *)
Theorem daemon_peers_listed (infos : list PeerInfo) (old : Members)
    (Hwf : pickers_wf (mb_local old) (mb_region old)) (Hdial : Forall (fun i => dial i = None) infos) :
  let addresses := pi_GRPCAddress <$> daemonPeers (SetPeers infos old) in
  NoDup addresses /\ forall a, a ∈ addresses <-> exists info, info ∈ infos /\ pi_DataCenter info = DataCenter /\ pi_GRPCAddress info = a.
Proof.
  intros addresses. destruct (SetPeers_built infos old Hwf Hdial) as [Hb1 Hb2].
  destruct (SetPeers_wf infos old Hwf) as [[Hkey _] _].
  assert (addresses = (map_to_list (ch_peers (mb_local (SetPeers infos old)))).*1) as ->.
  { unfold addresses, daemonPeers, GetPeerList, Peers. rewrite <- !list_fmap_compose. apply list_fmap_ext.
    intros i [a c] Hi. apply (Hkey a c). apply elem_of_map_to_list. by eapply list_elem_of_lookup_2. }
  split; [apply NoDup_fst_map_to_list|]. intros a. rewrite list_elem_of_fmap. split.
  - intros ([a' c] & -> & Hin%elem_of_map_to_list). by apply Hb2 in Hin.
  - intros (info & Hi & Hdc & <-). destruct (Hb1 info Hi Hdc) as (c & Hc & _). exists (pi_GRPCAddress info, c).
    split; [done|]. by apply elem_of_map_to_list.
Qed.

(** A peer of another data center that moves to a third one under the same address
    keeps its old client, and with it its old data center: the region picker files it
    under the region it left, and knows no peer in the region it moved to. *)
Theorem moved_peer_keeps_region (info : PeerInfo) (old : Members) (c : Client)
    (Hinfo : pi_DataCenter info <> DataCenter)
    (Hknown : regionGetByPeerInfo info (mb_region old) = Some c)
    (Hmoved : pi_DataCenter (cl_info c) <> pi_DataCenter info) :
  let new := SetPeers [info] old in
  is_Some (rp_regions (mb_region new) !! pi_DataCenter (cl_info c)) /\
  rp_regions (mb_region new) !! pi_DataCenter info = None.
Proof.
  intros new. unfold new, SetPeers. cbn [addPeers]. unfold addPeer.
  destruct (String.eqb_spec (pi_DataCenter info) DataCenter) as [|_]; [done|]. simpl. rewrite Hknown. simpl.
  rewrite lookup_insert_eq, lookup_insert_ne, lookup_empty by done. split; [by eexists|done].
Qed.
End Membership.

(** ** Health *)

Record PeerHealthResp : Type := mkPeerHealth {
  ph_GrpcAddress : string;
  ph_DataCenter : string
}.

Record HealthCheckResp : Type := mkHealth {
  hc_Status : string;
  hc_Message : string;
  hc_PeerCount : Z;
  hc_AdvertiseAddress : string;
  hc_LocalPeers : list PeerHealthResp;
  hc_RegionPeers : list PeerHealthResp
}.

Definition Healthy : string := "healthy".

(** Conversion to int32. *)
Definition wrap32 (z : Z) : Z := (z + 2 ^ 31) mod 2 ^ 32 - 2 ^ 31.

(** A gRPC status with code Unavailable. *)
Definition unavailable (msg : string) : gerror := ErrNew ("rpc error: code = Unavailable desc = " +:+ msg).

(** [strings.Join] *)
Fixpoint Join (l : list string) (sep : string) : string :=
  match l with
  | [] => ""
  | [s] => s
  | s :: l => s +:+ sep +:+ Join l sep
  end.

Section Health.
(** [GetLastErr] of each client, and the address this instance advertises. *)
Variable lastErrs : Client -> list string.
Variable AdvertiseAddr : string.

Definition errsOf (prefix : string) (c : Client) : list string := (fun m => prefix +:+ m) <$> lastErrs c.

Definition peerHealth (c : Client) : PeerHealthResp :=
  mkPeerHealth (pi_GRPCAddress (cl_info c)) (pi_DataCenter (cl_info c)).

(** The address of the first local peer that is this instance. *)
Definition ownAddress (peers : list Client) : string :=
  fold_left (fun own c => if String.eqb own "" && String.eqb (pi_GRPCAddress (cl_info c)) AdvertiseAddr
                          then pi_GRPCAddress (cl_info c) else own) peers "".

Definition HealthCheck (localPeers regionPeers : list Client) : result HealthCheckResp :=
  let errs := concat (errsOf "error returned from local peer.GetLastErr: " <$> localPeers) ++
              concat (errsOf "error returned from region peer.GetLastErr: " <$> regionPeers) in
  let own := ownAddress localPeers in
  if String.eqb own "" then
    Err (unavailable (Join (errs ++ ["this instance is not found in the peer list"]) "|"))
  else match errs with
       | _ :: _ => Err (unavailable (Join errs "|"))
       | [] => Ok (mkHealth Healthy "" (wrap32 (Z.of_nat (length localPeers + length regionPeers))) own
                     (peerHealth <$> localPeers) (peerHealth <$> regionPeers))
       end.
End Health.

(** [LiveCheck] *)
Definition LiveCheck (isClosed : bool) : result unit :=
  if isClosed then Err (unavailable "server is shutting down") else Ok tt.

(** ** What health checks promise *)

Lemma ownAddress_spec (adv : string) (peers : list Client) (own : string) :
  adv <> "" -> (own = "" \/ own = adv) ->
  let own' := fold_left (fun own c => if String.eqb own "" && String.eqb (pi_GRPCAddress (cl_info c)) adv
                          then pi_GRPCAddress (cl_info c) else own) peers own in
  own' = (if decide (own = adv \/ Exists (fun c => pi_GRPCAddress (cl_info c) = adv) peers) then adv else "").
Proof.
  intros Hadv. revert own. induction peers as [|c peers IH]; intros own Hown; cbn [fold_left].
  - destruct (decide _) as [[He|He%Exists_nil]|Hne]; [done|done|].
    destruct Hown; [done|]. exfalso. apply Hne. by left.
  - destruct (String.eqb_spec own "") as [->|Hn]; simpl.
    + destruct (String.eqb_spec (pi_GRPCAddress (cl_info c)) adv) as [He|He].
      * rewrite IH by (by right). rewrite He, !decide_True; [done| |by left]. right. by constructor.
      * rewrite IH by (by left). apply decide_ext. rewrite Exists_cons. intuition.
    + destruct Hown as [?| ->]; [done|]. rewrite IH by (by right). rewrite !decide_True by (by left). done.
Qed.

(** An instance reports itself healthy exactly when no peer of either picker has a
    recent error and the address it advertises is among its local peers; the report
    then lists every peer. *)
Theorem health_check_exact (lastErrs : Client -> list string) (adv : string) (localPeers regionPeers : list Client)
    (Hadv : adv <> "") :
  match HealthCheck lastErrs adv localPeers regionPeers with
  | Ok h => (Forall (fun c => lastErrs c = []) (localPeers ++ regionPeers) /\
             Exists (fun c => pi_GRPCAddress (cl_info c) = adv) localPeers) /\
            hc_AdvertiseAddress h = adv /\ hc_LocalPeers h = peerHealth <$> localPeers /\
            hc_RegionPeers h = peerHealth <$> regionPeers
  | Err _ => ~ (Forall (fun c => lastErrs c = []) (localPeers ++ regionPeers) /\
                Exists (fun c => pi_GRPCAddress (cl_info c) = adv) localPeers)
  end.
Proof.
  unfold HealthCheck, ownAddress. rewrite (ownAddress_spec adv localPeers "" Hadv) by (by left).
  assert (forall pre l, concat (errsOf lastErrs pre <$> l) = [] <-> Forall (fun c => lastErrs c = []) l) as Herrs.
  { intros pre. induction l as [|c l IH]; [done|]. rewrite fmap_cons, Forall_cons, <- IH. cbn [concat].
    unfold errsOf at 1. destruct (lastErrs c); simpl; [tauto|]. split; [done|by intros []]. }
  destruct (decide _) as [[?|Hex]|Hne]; [congruence| |].
  - replace (String.eqb adv "") with false by (by symmetry; apply String.eqb_neq).
    destruct (concat _ ++ concat _) as [|m ms] eqn:E.
    + apply app_nil in E as [E1%Herrs E2%Herrs]. split; [|done]. split; [by apply Forall_app|done].
    + intros [Hall%Forall_app _]. destruct Hall as [H1 H2].
      apply (Herrs "error returned from local peer.GetLastErr: ") in H1.
      apply (Herrs "error returned from region peer.GetLastErr: ") in H2. rewrite H1, H2 in E. done.
  - rewrite String.eqb_refl. intros [_ Hex]. apply Hne. by right.
Qed.

(** ** Health and the calls to the peers *)

Section Peers.
Context `{EC : ErrCache} `{!ErrCacheLaws}.

(** What [GetLastErr] returns for each peer at a moment. *)
Definition errorsAt (now : Z) (state : Client -> PeerClient) (c : Client) : list string := (GetLastErr now (state c)).1.

(** The clients after one of them sent a batch. *)
Definition afterBatch (inject : gmap string string -> gmap string string) (t : Z) (c : Client) (queue : list request)
    (rpc : list RateLimitReq -> result (list RateLimitResp)) (state : Client -> PeerClient) (x : Client) : PeerClient :=
  if decide (x = c) then (sendBatch inject t queue rpc (state c)).2 else state x.

(** A batch that was sent and failed, or was answered with the wrong number of limits. *)
Definition batchFails (inject : gmap string string -> gmap string string) (queue : list request)
    (rpc : list RateLimitReq -> result (list RateLimitResp)) : Prop :=
  live queue <> [] /\ forall rls, rpc (batchRequest inject queue) = Ok rls -> length rls <> length (live queue).

Lemma failed_batch_recorded (inject : gmap string string -> gmap string string) (t now : Z) (queue : list request)
    (rpc : list RateLimitReq -> result (list RateLimitResp)) (c : PeerClient) : batchFails inject queue rpc ->
  now < t + errTTL -> reported now (sendBatch inject t queue rpc c).2 <> [].
Proof.
  intros [Hlive Hrpc] Hlt. assert (forall l x, x ∈ l -> l <> ([] : list string)) as Hne by (by intros l x Hx ->; apply elem_of_nil in Hx).
  unfold sendBatch. destruct (live queue) as [|r0 q0] eqn:El; [done|]. rewrite <- El in *. unfold batchOutcome.
  destruct (rpc (batchRequest inject queue)) as [rls|e] eqn:Er.
  - destruct (Nat.eqb_spec (length rls) (length (live queue))) as [He|_]; [by destruct (Hrpc rls eq_refl)|]. cbn [snd].
    match goal with |- reported now (with_mismatches _ ?x) <> [] => change (reported now x <> []) end.
    by eapply Hne, (reported_new t now).
  - cbn [snd]. by eapply Hne, (reported_new t now).
Qed.

(** C37: Health follows the calls to the peers.  When a batch to one of the peers fails the
    instance reports itself unhealthy for five minutes, whatever else was recorded; and it
    reports itself healthy when it is in its own list and every error recorded against any
    peer is more than five minutes old. *)
Theorem health_follows_peers (adv : string) (localPeers regionPeers : list Client) (state : Client -> PeerClient) (now : Z)
    (Hadv : adv <> "") :
  (forall inject t c queue rpc, c ∈ localPeers ++ regionPeers -> batchFails inject queue rpc -> now < t + errTTL ->
     exists e, HealthCheck (errorsAt now (afterBatch inject t c queue rpc state)) adv localPeers regionPeers = Err e) /\
  (Exists (fun c => pi_GRPCAddress (cl_info c) = adv) localPeers ->
   (forall c, c ∈ localPeers ++ regionPeers ->
      forall k v t, ec_view (pc_lastErrs (state c)) k = Some (v, t + errTTL) -> t + errTTL < now) ->
   exists h, HealthCheck (errorsAt now state) adv localPeers regionPeers = Ok h).
Proof.
  split.
  - intros inject t c queue rpc Hc Hf Hlt.
    pose proof (health_check_exact (errorsAt now (afterBatch inject t c queue rpc state)) adv localPeers regionPeers Hadv) as Hex.
    destruct (HealthCheck _ _ _ _) as [h|e]; [|by exists e]. destruct Hex as [[Hall _] _]. rewrite Forall_forall in Hall.
    specialize (Hall c Hc). unfold errorsAt, afterBatch in Hall.
    rewrite decide_True, GetLastErr_reported in Hall by done. by apply (failed_batch_recorded inject t now) in Hall.
  - intros Hown Hold. pose proof (health_check_exact (errorsAt now state) adv localPeers regionPeers Hadv) as Hex.
    destruct (HealthCheck _ _ _ _) as [h|e]; [by exists h|]. destruct Hex. split; [|done]. apply Forall_forall. intros c Hc.
    unfold errorsAt. rewrite GetLastErr_reported. apply reported_old. intros k v exp Hv. specialize (Hold c Hc k v (exp - errTTL)).
    replace (exp - errTTL + errTTL) with exp in Hold by lia. by apply Hold.
Qed.
End Peers.

(** ** Examples *)

(** Only this instance is known; its data center is dc1. *)
Definition infoSelf : PeerInfo := mkPeerInfo "dc1" "" "10.0.0.1:81" true.
Definition infoFar : PeerInfo := mkPeerInfo "dc2" "" "10.0.1.1:81" false.
Definition infoMoved : PeerInfo := mkPeerInfo "dc3" "" "10.0.1.1:81" false.

Definition noMembers : Members :=
  mkMembers (NewReplicatedConsistentHash (demoSum 0) 512) (NewRegionPicker (demoSum 0)) 0 [].

Lemma noMembers_wf : pickers_wf "dc1" (mb_local noMembers) (mb_region noMembers).
Proof. apply (new_wf "dc1" noMembers). Qed.

Lemma set_peers_safe_witness :
  let new := SetPeers (H := mergeSort) "dc1" (fun _ => None) [infoSelf; infoFar] noMembers in
  pickers_wf "dc1" (mb_local new) (mb_region new).
Proof. exact (proj1 (set_peers_safe (H := mergeSort) "dc1" (fun _ => None) [infoSelf; infoFar] noMembers noMembers_wf)). Defined.

Lemma set_peers_complete_witness :
  exists c, GetByPeerInfo infoSelf (mb_local (SetPeers (H := mergeSort) "dc1" (fun _ => None) [infoSelf; infoFar] noMembers)) = Some c.
Proof.
  destruct (set_peers_complete (H := mergeSort) "dc1" (fun _ => None) [infoSelf; infoFar] noMembers noMembers_wf) as [Hk _].
  { by repeat constructor. }
  destruct (Hk infoSelf) as (c & Hc & _); [apply elem_of_cons; by left|done|]. exists c. exact Hc.
Defined.

(** A region picker that knows the far peer in dc2. *)
Definition farMembers : Members :=
  mkMembers (NewReplicatedConsistentHash (demoSum 0) 512)
    (mkRegionPicker (NewReplicatedConsistentHash (demoSum 0) 512)
       {[ "dc2" := mkRing (demoSum 0) [(7, mkClient 0 infoFar)] {[ "10.0.1.1:81" := mkClient 0 infoFar ]} 512 ]}) 1 [].

Lemma moved_peer_keeps_region_witness :
  rp_regions (mb_region (SetPeers (H := mergeSort) "dc1" (fun _ => None) [infoMoved] farMembers)) !! "dc3" = None.
Proof.
  exact (proj2 (moved_peer_keeps_region (H := mergeSort) "dc1" (fun _ => None) infoMoved farMembers (mkClient 0 infoFar)
    ltac:(done) eq_refl ltac:(done))).
Defined.

Lemma health_check_exact_witness : exists h,
  HealthCheck (fun _ => []) "10.0.0.1:81" [mkClient 0 infoSelf] [mkClient 1 infoFar] = Ok h /\
  hc_AdvertiseAddress h = "10.0.0.1:81".
Proof.
  eexists. split; [reflexivity|].
  apply (health_check_exact (fun _ => []) "10.0.0.1:81" [mkClient 0 infoSelf] [mkClient 1 infoFar] ltac:(done)).
Defined.

(** A client that has recorded nothing, and a batch that times out. *)
Definition quietPeer (_ : Client) : PeerClient (EC := listErrs) := mkPeerClient (EC := listErrs) "10.0.1.1:81" false 100 false false [] 0.

Definition oneRequest : list request :=
  [mkRequest (mkReq "requests" "account:12" 1 100 60000 TOKEN_BUCKET BATCHING 0 ∅ (Some 1000) 0) 0 None].

Lemma health_follows_peers_witness :
  (exists e, HealthCheck (errorsAt (EC := listErrs) 1000 (afterBatch (EC := listErrs) (fun m => m) 0 (mkClient 1 infoFar) oneRequest
      (fun _ => Err DeadlineExceeded) quietPeer)) "10.0.0.1:81" [mkClient 0 infoSelf] [mkClient 1 infoFar] = Err e) /\
  (exists h, HealthCheck (errorsAt (EC := listErrs) 1000 quietPeer) "10.0.0.1:81" [mkClient 0 infoSelf] [mkClient 1 infoFar] = Ok h).
Proof.
  destruct (@health_follows_peers listErrs listErrs_laws "10.0.0.1:81" [mkClient 0 infoSelf] [mkClient 1 infoFar] quietPeer 1000 ltac:(done))
    as [Hbad Hgood]. split.
  - apply Hbad; [right; left|split; [done|intros rls; discriminate]|unfold errTTL; lia].
  - apply Hgood; [by constructor|]. intros c _ k v t Hv. discriminate Hv.
Defined.
