(* ===== verification/Messages.v ===== *)
(** * Messages ([gubernator.pb.go], [peers.pb.go])

    The generated accessors of the messages, which may be called on a nil message and give
    the value an absent field has, and the names of the enumerations. *)

From stdpp Require Import base gmap strings list.
From Stdlib Require Import ZArith Lia.
From S2P Require Import Prelude Types Runtime Global Membership.

Local Open Scope Z_scope.

(** A message behind a pointer that may be nil. *)
Definition getter {A B : Type} (field : A -> B) (absent : B) (x : option A) : B :=
  match x with Some x => field x | None => absent end.

Definition RateLimitReq_GetName := getter r_Name "".
Definition RateLimitReq_GetUniqueKey := getter r_UniqueKey "".
Definition RateLimitReq_GetHits := getter r_Hits 0.
Definition RateLimitReq_GetLimit := getter r_Limit 0.
Definition RateLimitReq_GetDuration := getter r_Duration 0.
Definition RateLimitReq_GetAlgorithm := getter r_Algorithm TOKEN_BUCKET.
Definition RateLimitReq_GetBehavior := getter r_Behavior BATCHING.
Definition RateLimitReq_GetBurst := getter r_Burst 0.
Definition RateLimitReq_GetMetadata := getter r_Metadata ∅.
Definition RateLimitReq_GetCreatedAt := getter (fun x => default 0 (r_CreatedAt x)) 0.
Definition RateLimitReq_GetMaxWait := getter r_MaxWait 0.

Definition RateLimitResp_GetStatus := getter rl_Status UNDER_LIMIT.
Definition RateLimitResp_GetLimit := getter rl_Limit 0.
Definition RateLimitResp_GetRemaining := getter rl_Remaining 0.
Definition RateLimitResp_GetResetTime := getter rl_ResetTime 0.
Definition RateLimitResp_GetError := getter rl_Error "".
Definition RateLimitResp_GetMetadata := getter rl_Metadata ∅.
Definition RateLimitResp_GetRetryAfter := getter rl_RetryAfter 0.

Definition PeerHealthResp_GetGrpcAddress := getter ph_GrpcAddress "".
Definition PeerHealthResp_GetDataCenter := getter ph_DataCenter "".

Definition HealthCheckResp_GetStatus := getter hc_Status "".
Definition HealthCheckResp_GetMessage := getter hc_Message "".
Definition HealthCheckResp_GetPeerCount := getter hc_PeerCount 0.
Definition HealthCheckResp_GetAdvertiseAddress := getter hc_AdvertiseAddress "".
Definition HealthCheckResp_GetLocalPeers := getter hc_LocalPeers [].
Definition HealthCheckResp_GetRegionPeers := getter hc_RegionPeers [].

Definition UpdatePeerGlobal_GetKey := getter up_Key "".
Definition UpdatePeerGlobal_GetAlgorithm := getter up_Algorithm TOKEN_BUCKET.
Definition UpdatePeerGlobal_GetDuration := getter up_Duration 0.
Definition UpdatePeerGlobal_GetCreatedAt := getter up_CreatedAt 0.

(** The messages that hold a list. *)
Definition GetRequests (x : option (list RateLimitReq)) : list RateLimitReq := getter (fun r => r) [] x.
Definition GetResponses (x : option (list RateLimitResp)) : list RateLimitResp := getter (fun r => r) [] x.
Definition GetRateLimits_ (x : option (list RateLimitResp)) : list RateLimitResp := getter (fun r => r) [] x.
Definition GetGlobals (x : option (list UpdatePeerGlobal)) : list UpdatePeerGlobal := getter (fun r => r) [] x.

(** [Reset] makes a message the empty one. *)
Definition RateLimitReq_Reset : RateLimitReq := mkReq "" "" 0 0 0 TOKEN_BUCKET BATCHING 0 ∅ None 0.
Definition RateLimitResp_Reset : RateLimitResp := mkResp UNDER_LIMIT 0 0 0 "" ∅ 0.

(** Through its accessors, a request tells all the service reads of it, except whether the
    client gave a creation time of zero or none, which the service treats alike. *)
Theorem request_from_getters (r : RateLimitReq) :
  let x := Some r in
  r = mkReq (RateLimitReq_GetName x) (RateLimitReq_GetUniqueKey x) (RateLimitReq_GetHits x) (RateLimitReq_GetLimit x)
        (RateLimitReq_GetDuration x) (RateLimitReq_GetAlgorithm x) (RateLimitReq_GetBehavior x) (RateLimitReq_GetBurst x)
        (RateLimitReq_GetMetadata x) (r_CreatedAt r) (RateLimitReq_GetMaxWait x) /\
  (RateLimitReq_GetCreatedAt x = 0 <-> r_CreatedAt r = None \/ r_CreatedAt r = Some 0).
Proof.
  destruct r as [? ? ? ? ? ? ? ? ? c ?]. split; [done|]. unfold RateLimitReq_GetCreatedAt, getter. simpl.
  destruct c as [c|]; simpl; (split; [intros Hc; subst; by (left + right)|intros [Hc|Hc]; congruence]).
Qed.

Lemma response_from_getters (rl : RateLimitResp) :
  let x := Some rl in
  rl = mkResp (RateLimitResp_GetStatus x) (RateLimitResp_GetLimit x) (RateLimitResp_GetRemaining x) (RateLimitResp_GetResetTime x)
         (RateLimitResp_GetError x) (RateLimitResp_GetMetadata x) (RateLimitResp_GetRetryAfter x).
Proof. by destruct rl. Qed.

(** What the accessors tell of a request and of a response. *)
Definition requestView (x : option RateLimitReq) :=
  (RateLimitReq_GetName x, RateLimitReq_GetUniqueKey x, RateLimitReq_GetHits x, RateLimitReq_GetLimit x, RateLimitReq_GetDuration x,
   RateLimitReq_GetAlgorithm x, RateLimitReq_GetBehavior x, RateLimitReq_GetBurst x, RateLimitReq_GetMetadata x,
   RateLimitReq_GetCreatedAt x, RateLimitReq_GetMaxWait x).

Definition responseView (x : option RateLimitResp) :=
  (RateLimitResp_GetStatus x, RateLimitResp_GetLimit x, RateLimitResp_GetRemaining x, RateLimitResp_GetResetTime x,
   RateLimitResp_GetError x, RateLimitResp_GetMetadata x, RateLimitResp_GetRetryAfter x).

(** A nil message cannot be told from the empty one. *)
Theorem nil_is_empty :
  requestView None = requestView (Some RateLimitReq_Reset) /\ responseView None = responseView (Some RateLimitResp_Reset).
Proof. done. Qed.

(** ** Names of enumeration values *)

Definition Algorithm_names : list (Z * string) := [(TOKEN_BUCKET, "TOKEN_BUCKET"); (LEAKY_BUCKET, "LEAKY_BUCKET")].

Definition Behavior_names : list (Z * string) :=
  [(BATCHING, "BATCHING"); (NO_BATCHING, "NO_BATCHING"); (GLOBAL, "GLOBAL"); (DURATION_IS_GREGORIAN, "DURATION_IS_GREGORIAN");
   (RESET_REMAINING, "RESET_REMAINING"); (MULTI_REGION, "MULTI_REGION"); (DRAIN_OVER_LIMIT, "DRAIN_OVER_LIMIT")].

Definition Status_number (st : Status) : Z :=
  match st with UNDER_LIMIT => 0 | OVER_LIMIT => 1 | NEVER_FITS => 2 | SCHEDULED => 3 end.

Definition Status_names : list (Z * string) :=
  [(Status_number UNDER_LIMIT, "UNDER_LIMIT"); (Status_number OVER_LIMIT, "OVER_LIMIT");
   (Status_number NEVER_FITS, "NEVER_FITS"); (Status_number SCHEDULED, "SCHEDULED")].

(** The two maps that are generated of an enumeration. *)
Definition nameMap (names : list (Z * string)) : gmap Z string := list_to_map names.
Definition valueMap (names : list (Z * string)) : gmap string Z := list_to_map ((fun e => (e.2, e.1)) <$> names).

Definition Algorithm_name := nameMap Algorithm_names.
Definition Algorithm_value := valueMap Algorithm_names.
Definition Behavior_name := nameMap Behavior_names.
Definition Behavior_value := valueMap Behavior_names.
Definition Status_name := nameMap Status_names.
Definition Status_value := valueMap Status_names.

Lemma maps_inverse (names : list (Z * string)) : NoDup names.*1 -> NoDup names.*2 ->
  forall n s, nameMap names !! n = Some s <-> valueMap names !! s = Some n.
Proof.
  intros H1 H2 n s. unfold nameMap, valueMap. rewrite <- !elem_of_list_to_map.
  - rewrite list_elem_of_fmap. split; [by exists (n, s)|]. intros ([n' s'] & [= -> ->] & Hin). exact Hin.
  - by rewrite <- list_fmap_compose.
  - done.
Qed.

(** The names and the numbers of every enumeration stand for each other: looking up the
    number of a name gives it back, and no two values share either. *)
Theorem enum_names_roundtrip (n : Z) (s : string) :
  (Algorithm_name !! n = Some s <-> Algorithm_value !! s = Some n) /\
  (Behavior_name !! n = Some s <-> Behavior_value !! s = Some n) /\
  (Status_name !! n = Some s <-> Status_value !! s = Some n).
Proof. repeat split; apply maps_inverse; apply (bool_decide_unpack _); vm_compute; exact Logic.I. Qed.

(** The named behaviours are independent flags: setting one in a set of named behaviours
    shows that one and changes what is seen of no other. *)
Theorem behaviors_independent (f g : Z) (sf sg : string) (b : Behavior)
    (Hf : Behavior_name !! f = Some sf) (Hg : Behavior_name !! g = Some sg) (Hz : f <> BATCHING) :
  HasBehavior (SetBehavior b f true) g = if f =? g then true else HasBehavior b g.
Proof.
  assert (Hin : forall x s, Behavior_name !! x = Some s -> x = 0 \/ exists i, 0 <= i /\ x = 2 ^ i).
  { intros x s Hx. apply elem_of_list_to_map_2 in Hx. repeat (apply elem_of_cons in Hx as [[= -> _]|Hx]); [..|by apply elem_of_nil in Hx];
      first [by left|right; first [by exists 0|by exists 1|by exists 2|by exists 3|by exists 4|by exists 5]]. }
  destruct (Hin f sf Hf) as [->|(i & Hi & ->)]; [done|].
  unfold HasBehavior, SetBehavior. rewrite Z.land_lor_distr_l.
  destruct (Hin g sg Hg) as [->|(j & Hj & ->)].
  - rewrite !Z.land_0_r. destruct (Z.eqb_spec (2 ^ i) 0) as [He|]; [|done]. pose proof (Z.pow_pos_nonneg 2 i eq_refl Hi). lia.
  - destruct (Z.eqb_spec (2 ^ i) (2 ^ j)) as [->|Hne].
    + rewrite Z.land_diag. destruct (Z.eqb_spec (Z.lor (Z.land b (2 ^ j)) (2 ^ j)) 0) as [He|]; [|done].
      apply Z.lor_eq_0_iff in He as [_ He]. pose proof (Z.pow_pos_nonneg 2 j eq_refl Hj). lia.
    + assert (Z.land (2 ^ i) (2 ^ j) = 0) as ->; [|by rewrite Z.lor_0_r].
      apply Z.bits_inj'. intros k Hk. rewrite Z.land_spec, Z.bits_0, !Z.pow2_bits_eqb by done.
      destruct (Z.eqb_spec i k) as [->|]; [|done]. destruct (Z.eqb_spec j k) as [->|]; done.
Qed.
