(* ===== verification/Gateway.v ===== *)
(** * The RPC stubs and the HTTP gateway
    ([gubernator_grpc.pb.go], [peers_grpc.pb.go], [gubernator.pb.gw.go], [peers.pb.gw.go])

    The generated code between the wire and the services: client stubs, the handlers a
    service description lists, and the HTTP handlers that call a service directly or
    through a client.  The gRPC transport, its codec and the gateway runtime are
    parameters.  A call through stub, transport and handler is the call of the method;
    the two ways to register the gateway answer alike. *)

From stdpp Require Import base strings list.
From Stdlib Require Import ZArith.
From S2P Require Import Prelude Types Runtime Global Membership.

Local Open Scope go_scope.

(** A gRPC status. *)
Definition statusError (code msg : string) : gerror := ErrNew ("rpc error: code = " +:+ code +:+ " desc = " +:+ msg).

(** ** Messages *)

Inductive Message : Type :=
  | MGetRateLimitsReq (requests : list RateLimitReq)
  | MGetRateLimitsResp (responses : list RateLimitResp)
  | MHealthCheckReq
  | MHealthCheckResp (h : HealthCheckResp)
  | MLiveCheckReq
  | MLiveCheckResp
  | MGetPeerRateLimitsReq (requests : list RateLimitReq)
  | MGetPeerRateLimitsResp (responses : list RateLimitResp)
  | MUpdatePeerGlobalsReq (globals : list UpdatePeerGlobal)
  | MUpdatePeerGlobalsResp.

(** The Go types behind [proto.Message]. *)
Inductive Kind : Type :=
  | KGetRateLimitsReq | KGetRateLimitsResp | KHealthCheckReq | KHealthCheckResp | KLiveCheckReq | KLiveCheckResp
  | KGetPeerRateLimitsReq | KGetPeerRateLimitsResp | KUpdatePeerGlobalsReq | KUpdatePeerGlobalsResp.

Definition kindOf (m : Message) : Kind :=
  match m with
  | MGetRateLimitsReq _ => KGetRateLimitsReq
  | MGetRateLimitsResp _ => KGetRateLimitsResp
  | MHealthCheckReq => KHealthCheckReq
  | MHealthCheckResp _ => KHealthCheckResp
  | MLiveCheckReq => KLiveCheckReq
  | MLiveCheckResp => KLiveCheckResp
  | MGetPeerRateLimitsReq _ => KGetPeerRateLimitsReq
  | MGetPeerRateLimitsResp _ => KGetPeerRateLimitsResp
  | MUpdatePeerGlobalsReq _ => KUpdatePeerGlobalsReq
  | MUpdatePeerGlobalsResp => KUpdatePeerGlobalsResp
  end.

(** ** Services and their stubs *)

Section RPC.
(** Contexts, metadata, and the state the services work on. *)
Context {Ctx MD St : Type}.

(** Header and trailer of a call. *)
Definition ServerMetadata : Type := MD * MD.

(** A call: its result, and the metadata the service sent with it. *)
Definition Reply (A : Type) : Type := M St (result A * ServerMetadata).

Record V1Server : Type := mkV1 {
  v1_GetRateLimits : Ctx -> list RateLimitReq -> Reply (list RateLimitResp);
  v1_HealthCheck : Ctx -> Reply HealthCheckResp;
  v1_LiveCheck : Ctx -> Reply unit
}.

Record PeersV1Server : Type := mkPeersV1 {
  pv_GetPeerRateLimits : Ctx -> list RateLimitReq -> Reply (list RateLimitResp);
  pv_UpdatePeerGlobals : Ctx -> list UpdatePeerGlobal -> Reply unit
}.

(** The client interfaces have the methods of the servers. *)
Definition V1Client : Type := V1Server.
Definition PeersV1Client : Type := PeersV1Server.

Definition wrapReply {A B} (f : A -> B) (m : Reply A) : Reply B :=
  r ← m; mret (match r.1 with Ok a => Ok (f a) | Err e => Err e end, r.2).

(** The message a call was given, as the type the caller asserts. *)
Definition unwrapReply {A} (f : Message -> option A) (m : Reply Message) : Reply A :=
  r ← m;
  match r.1 with
  | Err e => mret (Err e, r.2)
  | Ok msg => match f msg with Some a => mret (Ok a, r.2) | None => panic "interface conversion" end
  end.

(** [ClientConnInterface.Invoke]: context, method, request, type of the response. *)
Definition Conn : Type := Ctx -> string -> Message -> Kind -> Reply Message.

Definition V1_GetRateLimits_FullMethodName : string := "/pb.gubernator.V1/GetRateLimits".
Definition V1_HealthCheck_FullMethodName : string := "/pb.gubernator.V1/HealthCheck".
Definition V1_LiveCheck_FullMethodName : string := "/pb.gubernator.V1/LiveCheck".
Definition PeersV1_GetPeerRateLimits_FullMethodName : string := "/pb.gubernator.PeersV1/GetPeerRateLimits".
Definition PeersV1_UpdatePeerGlobals_FullMethodName : string := "/pb.gubernator.PeersV1/UpdatePeerGlobals".

Definition v1Client_GetRateLimits (cc : Conn) (ctx : Ctx) (req : list RateLimitReq) : Reply (list RateLimitResp) :=
  unwrapReply (fun m => match m with MGetRateLimitsResp l => Some l | _ => None end)
    (cc ctx V1_GetRateLimits_FullMethodName (MGetRateLimitsReq req) KGetRateLimitsResp).

Definition v1Client_HealthCheck (cc : Conn) (ctx : Ctx) : Reply HealthCheckResp :=
  unwrapReply (fun m => match m with MHealthCheckResp h => Some h | _ => None end)
    (cc ctx V1_HealthCheck_FullMethodName MHealthCheckReq KHealthCheckResp).

Definition v1Client_LiveCheck (cc : Conn) (ctx : Ctx) : Reply unit :=
  unwrapReply (fun m => match m with MLiveCheckResp => Some tt | _ => None end)
    (cc ctx V1_LiveCheck_FullMethodName MLiveCheckReq KLiveCheckResp).

Definition NewV1Client (cc : Conn) : V1Client :=
  mkV1 (v1Client_GetRateLimits cc) (v1Client_HealthCheck cc) (v1Client_LiveCheck cc).

Definition peersV1Client_GetPeerRateLimits (cc : Conn) (ctx : Ctx) (req : list RateLimitReq)
    : Reply (list RateLimitResp) :=
  unwrapReply (fun m => match m with MGetPeerRateLimitsResp l => Some l | _ => None end)
    (cc ctx PeersV1_GetPeerRateLimits_FullMethodName (MGetPeerRateLimitsReq req) KGetPeerRateLimitsResp).

Definition peersV1Client_UpdatePeerGlobals (cc : Conn) (ctx : Ctx) (req : list UpdatePeerGlobal) : Reply unit :=
  unwrapReply (fun m => match m with MUpdatePeerGlobalsResp => Some tt | _ => None end)
    (cc ctx PeersV1_UpdatePeerGlobals_FullMethodName (MUpdatePeerGlobalsReq req) KUpdatePeerGlobalsResp).

Definition NewPeersV1Client (cc : Conn) : PeersV1Client :=
  mkPeersV1 (peersV1Client_GetPeerRateLimits cc) (peersV1Client_UpdatePeerGlobals cc).

(** ** Handlers of a service description *)

(** [grpc.UnaryServerInterceptor]: context, request, method, the handler it wraps. *)
Definition Interceptor : Type := Ctx -> Message -> string -> (Ctx -> Message -> Reply Message) -> Reply Message.

(** What a generated handler does: decode the request into its type, then call the
    method, through the interceptor when there is one. *)
Definition Handler : Type := Ctx -> (Kind -> result Message) -> option Interceptor -> Reply Message.

Definition noMD (md : MD) : ServerMetadata := (md, md).

Definition handle (none : MD) (k : Kind) (method : string) (call : Ctx -> Message -> Reply Message) : Handler :=
  fun ctx dec interceptor =>
    match dec k with
    | Err e => mret (Err e, noMD none)
    | Ok m =>
        match interceptor with
        | None => call ctx m
        | Some ic => ic ctx m method call
        end
    end.

(** [srv.(V1Server).GetRateLimits(ctx, req.(\*GetRateLimitsReq))] *)
Definition callGetRateLimits (srv : V1Server) (ctx : Ctx) (m : Message) : Reply Message :=
  match m with
  | MGetRateLimitsReq req => wrapReply MGetRateLimitsResp (v1_GetRateLimits srv ctx req)
  | _ => panic "interface conversion"
  end.

Definition callHealthCheck (srv : V1Server) (ctx : Ctx) (m : Message) : Reply Message :=
  match m with
  | MHealthCheckReq => wrapReply MHealthCheckResp (v1_HealthCheck srv ctx)
  | _ => panic "interface conversion"
  end.

Definition callLiveCheck (srv : V1Server) (ctx : Ctx) (m : Message) : Reply Message :=
  match m with
  | MLiveCheckReq => wrapReply (fun _ => MLiveCheckResp) (v1_LiveCheck srv ctx)
  | _ => panic "interface conversion"
  end.

Definition callGetPeerRateLimits (srv : PeersV1Server) (ctx : Ctx) (m : Message) : Reply Message :=
  match m with
  | MGetPeerRateLimitsReq req => wrapReply MGetPeerRateLimitsResp (pv_GetPeerRateLimits srv ctx req)
  | _ => panic "interface conversion"
  end.

Definition callUpdatePeerGlobals (srv : PeersV1Server) (ctx : Ctx) (m : Message) : Reply Message :=
  match m with
  | MUpdatePeerGlobalsReq gs => wrapReply (fun _ => MUpdatePeerGlobalsResp) (pv_UpdatePeerGlobals srv ctx gs)
  | _ => panic "interface conversion"
  end.

Variable none : MD.   (* the empty metadata *)

Definition V1_GetRateLimits_Handler (srv : V1Server) : Handler :=
  handle none KGetRateLimitsReq V1_GetRateLimits_FullMethodName (callGetRateLimits srv).
Definition V1_HealthCheck_Handler (srv : V1Server) : Handler :=
  handle none KHealthCheckReq V1_HealthCheck_FullMethodName (callHealthCheck srv).
Definition V1_LiveCheck_Handler (srv : V1Server) : Handler :=
  handle none KLiveCheckReq V1_LiveCheck_FullMethodName (callLiveCheck srv).
Definition PeersV1_GetPeerRateLimits_Handler (srv : PeersV1Server) : Handler :=
  handle none KGetPeerRateLimitsReq PeersV1_GetPeerRateLimits_FullMethodName (callGetPeerRateLimits srv).
Definition PeersV1_UpdatePeerGlobals_Handler (srv : PeersV1Server) : Handler :=
  handle none KUpdatePeerGlobalsReq PeersV1_UpdatePeerGlobals_FullMethodName (callUpdatePeerGlobals srv).

(** [grpc.ServiceDesc]; registering a service adds its description to the server. *)
Record ServiceDesc : Type := mkDesc {
  sd_ServiceName : string;
  sd_Methods : list (string * Handler)
}.

Definition V1_ServiceDesc (srv : V1Server) : ServiceDesc :=
  mkDesc "pb.gubernator.V1"
    [("GetRateLimits", V1_GetRateLimits_Handler srv); ("HealthCheck", V1_HealthCheck_Handler srv);
     ("LiveCheck", V1_LiveCheck_Handler srv)].

Definition PeersV1_ServiceDesc (srv : PeersV1Server) : ServiceDesc :=
  mkDesc "pb.gubernator.PeersV1"
    [("GetPeerRateLimits", PeersV1_GetPeerRateLimits_Handler srv);
     ("UpdatePeerGlobals", PeersV1_UpdatePeerGlobals_Handler srv)].

Definition RegisterV1Server (s : list ServiceDesc) (srv : V1Server) : list ServiceDesc := s ++ [V1_ServiceDesc srv].
Definition RegisterPeersV1Server (s : list ServiceDesc) (srv : PeersV1Server) : list ServiceDesc :=
  s ++ [PeersV1_ServiceDesc srv].
End RPC.
Arguments Reply : clear implicits.
Arguments V1Server : clear implicits.
Arguments PeersV1Server : clear implicits.
Arguments V1Client : clear implicits.
Arguments PeersV1Client : clear implicits.
Arguments Conn : clear implicits.
Arguments Interceptor : clear implicits.
Arguments ServiceDesc : clear implicits.

(** ** A call over the transport *)

(** What becomes of a call: it is delivered and answered; it fails before the handler runs,
    because the connection is down, the context ends, or the request is larger than the
    server accepts; or the handler runs but its answer is lost. *)
Inductive Fate : Type := Delivered | NotDelivered (e : gerror) | AnswerLost (e : gerror).

(** A call that has its effect and whose answer is replaced. *)
Definition lose {MD St A B : Type} (m : Reply MD St A) (answer : result B * @ServerMetadata MD) : Reply MD St B := fun st =>
  match m st with
  | Panic why => Panic why
  | Ret (_, st) => Ret (answer, st)
  end.

(** What a gRPC connection to a server with these services does with a unary call: the
    request is encoded, the handler of the method is run with it, and its answer is
    encoded and decoded again; messages that can be encoded survive. An error of the handler
    arrives as a status ([statusOf]), which a status is already; the metadata that arrive
    ([onWire]) are those sent and those of the protocol. [incoming] is the context a handler
    sees of a call made with a context, [unanswered] the metadata of a call that failed. *)
Record Transport {Ctx MD St : Type} (registered : list (ServiceDesc Ctx MD St))
    (interceptor : option (Interceptor Ctx MD St)) (cc : Conn Ctx MD St) : Type := mkTransport {
  Marshal : Message -> result string;
  Unmarshal : Kind -> string -> result Message;
  encodable : Message -> Prop;
  incoming : Ctx -> Ctx;
  fate : Ctx -> string -> Message -> St -> Fate;
  statusOf : gerror -> gerror;
  onWire : @ServerMetadata MD -> @ServerMetadata MD;
  unanswered : @ServerMetadata MD;
  codec_roundtrip : forall m, encodable m -> exists b, Marshal m = Ok b /\ Unmarshal (kindOf m) b = Ok m;
  status_kept : forall e, statusOf (statusOf e) = statusOf e;
  delivers : forall sd name h ctx m b kout st, sd ∈ registered -> (name, h) ∈ sd_Methods sd -> Marshal m = Ok b ->
    let method := "/" +:+ sd_ServiceName sd +:+ "/" +:+ name in
    let handled := h (incoming ctx) (fun k => Unmarshal k b) interceptor in
    cc ctx method m kout st =
    match fate ctx method m st with
    | NotDelivered e => Ret ((Err e, unanswered), st)
    | AnswerLost e => lose handled (Err e, unanswered) st
    | Delivered =>
        (r ← handled;
         mret (match r.1 with
               | Err e => Err (statusOf e)
               | Ok out => match Marshal out with Ok b => Unmarshal kout b | Err e => Err (statusOf e) end
               end, onWire r.2)) st
    end;
  transparent : forall ic ctx m method h st, interceptor = Some ic -> ic ctx m method h st = h ctx m st
}.
Arguments Marshal {_ _ _ _ _ _} _ _.
Arguments Unmarshal {_ _ _ _ _ _} _ _ _.
Arguments encodable {_ _ _ _ _ _} _ _.
Arguments incoming {_ _ _ _ _ _} _ _.
Arguments fate {_ _ _ _ _ _} _ _ _ _ _.
Arguments statusOf {_ _ _ _ _ _} _ _.
Arguments onWire {_ _ _ _ _ _} _ _.
Arguments unanswered {_ _ _ _ _ _} _.

Lemma intercepted {Ctx MD St : Type} (interceptor : option (Interceptor Ctx MD St)) (ctx : Ctx) (m : Message)
    (method : string) (h : Ctx -> Message -> Reply MD St Message) (st : St) :
  (forall ic, interceptor = Some ic -> ic ctx m method h st = h ctx m st) ->
  match interceptor with None => h ctx m | Some ic => ic ctx m method h end st = h ctx m st.
Proof. destruct interceptor; auto. Qed.

Section Calls.
Context {Ctx MD St : Type} (none : MD) (registered : list (ServiceDesc Ctx MD St))
  (interceptor : option (Interceptor Ctx MD St)) (cc : Conn Ctx MD St) (T : Transport registered interceptor cc).

(** What a method answers can be encoded. *)
Definition answers (f : Ctx -> Message -> Reply MD St Message) (m : Message) (k : Kind) : Prop :=
  forall ctx st out md st', f ctx m st = Ret ((Ok out, md), st') -> encodable T out /\ kindOf out = k.

(** A call of a method over the connection, by what becomes of it. *)
Definition through {A} (becomes : Fate) (m : Reply MD St A) : Reply MD St A :=
  match becomes with
  | Delivered => r ← m; mret (match r.1 with Err e => Err (statusOf T e) | Ok a => Ok a end, onWire T r.2)
  | NotDelivered e => mret (Err e, unanswered T)
  | AnswerLost e => lose m (Err e, unanswered T)
  end.

Lemma call_delivered (sd : ServiceDesc Ctx MD St) (name : string) (k kout : Kind)
    (f : Ctx -> Message -> Reply MD St Message) (m : Message) (ctx : Ctx) (st : St) :
  let method := "/" +:+ sd_ServiceName sd +:+ "/" +:+ name in
  sd ∈ registered -> (name, handle none k method f) ∈ sd_Methods sd ->
  encodable T m -> kindOf m = k -> answers f m kout ->
  cc ctx method m kout st = through (fate T ctx method m st) (f (incoming T ctx) m) st.
Proof.
  intros method Hsd Hh Hm Hk Hans. subst method. destruct (codec_roundtrip _ _ _ T m Hm) as (b & Hb & Hd).
  rewrite (delivers _ _ _ T sd name _ ctx m b kout st Hsd Hh Hb). cbv zeta. unfold handle, through, lose, mbind, M_bind.
  rewrite <- Hk, Hd. destruct (fate _ _ _ _ _); [|done|];
    rewrite intercepted by (intros ic Hic; by apply (transparent _ _ _ T)); [|done].
  destruct (f (incoming T ctx) m st) as [[[[out|e] md] st']|msg] eqn:Hf; try done. simpl.
  destruct (Hans _ _ _ _ _ Hf) as [Ho Hko]. destruct (codec_roundtrip _ _ _ T out Ho) as (b' & Hb' & Hd').
  rewrite Hb'. by rewrite <- Hko, Hd'.
Qed.

Lemma unwrap_through {A} (f : A -> Message) (g : Message -> option A) (becomes : Fate) (m : Reply MD St A) (st : St) :
  (forall a, g (f a) = Some a) -> unwrapReply g (through becomes (wrapReply f m)) st = through becomes m st.
Proof.
  intros Hg. unfold unwrapReply, wrapReply, through, lose, mbind, M_bind.
  destruct becomes; [|done|]; destruct (m st) as [[[[a|err] md] st']|]; simpl; try done. by rewrite Hg.
Qed.

Lemma wrap_answers {A} (f : A -> Message) (call : Ctx -> Message -> Reply MD St Message)
    (method : Ctx -> Reply MD St A) (m : Message) (k : Kind) :
  (forall ctx, call ctx m = wrapReply f (method ctx)) -> (forall a, kindOf (f a) = k) ->
  (forall ctx st a md st', method ctx st = Ret ((Ok a, md), st') -> encodable T (f a)) -> answers call m k.
Proof.
  intros Hc Hk He ctx st out md st'. rewrite Hc. unfold wrapReply, mbind, M_bind.
  destruct (method ctx st) as [[[[a|e] md'] st1]|] eqn:Hm; simpl; try done. intros [= <- <- <-]. split; [by eapply He|done].
Qed.

(** What the methods answer can be encoded. *)
Definition v1_encodable (srv : V1Server Ctx MD St) : Prop :=
  (forall ctx req st a md st', v1_GetRateLimits srv ctx req st = Ret ((Ok a, md), st') -> encodable T (MGetRateLimitsResp a)) /\
  (forall ctx st a md st', v1_HealthCheck srv ctx st = Ret ((Ok a, md), st') -> encodable T (MHealthCheckResp a)) /\
  encodable T MLiveCheckResp.

Definition peers_encodable (srv : PeersV1Server Ctx MD St) : Prop :=
  (forall ctx req st a md st', pv_GetPeerRateLimits srv ctx req st = Ret ((Ok a, md), st') ->
     encodable T (MGetPeerRateLimitsResp a)) /\
  encodable T MUpdatePeerGlobalsResp.

(** A stub's call is the call of the method it names, over the connection. *)
Lemma stub_call {A} (sd : ServiceDesc Ctx MD St) (name method : string) (k kout : Kind)
    (call : Ctx -> Message -> Reply MD St Message) (f : A -> Message) (g : Message -> option A)
    (direct : Ctx -> Reply MD St A) (m : Message) (ctx : Ctx) (st : St) :
  sd ∈ registered -> method = "/" +:+ sd_ServiceName sd +:+ "/" +:+ name ->
  (name, handle none k method call) ∈ sd_Methods sd ->
  encodable T m -> kindOf m = k -> (forall ctx, call ctx m = wrapReply f (direct ctx)) ->
  (forall a, kindOf (f a) = kout) -> (forall a, g (f a) = Some a) ->
  (forall ctx st a md st', direct ctx st = Ret ((Ok a, md), st') -> encodable T (f a)) ->
  unwrapReply g (cc ctx method m kout) st = through (fate T ctx method m st) (direct (incoming T ctx)) st.
Proof.
  intros Hsd -> Hh Hm Hk Hcall Hko Hg He.
  pose proof (wrap_answers f call direct m kout Hcall Hko He) as Hans.
  rewrite <- (unwrap_through f g _ (direct (incoming T ctx)) st Hg), <- Hcall.
  unfold unwrapReply, mbind, M_bind. by rewrite (call_delivered sd name k kout call m ctx st Hsd Hh Hm Hk Hans).
Qed.

Lemma v1_stub_GetRateLimits (srv : V1Server Ctx MD St) (ctx : Ctx) (req : list RateLimitReq) (st : St) :
  V1_ServiceDesc none srv ∈ registered -> v1_encodable srv -> encodable T (MGetRateLimitsReq req) ->
  v1_GetRateLimits (NewV1Client cc) ctx req st =
    through (fate T ctx V1_GetRateLimits_FullMethodName (MGetRateLimitsReq req) st) (v1_GetRateLimits srv (incoming T ctx) req) st.
Proof.
  intros Hsd (He & _) Hm. unfold NewV1Client, v1Client_GetRateLimits. simpl.
  eapply (stub_call (V1_ServiceDesc none srv) "GetRateLimits" _ KGetRateLimitsReq _ (callGetRateLimits srv) MGetRateLimitsResp
    _ (fun ctx => v1_GetRateLimits srv ctx req)); try done; [by left|]. intros. by eapply He.
Qed.

Lemma v1_stub_HealthCheck (srv : V1Server Ctx MD St) (ctx : Ctx) (st : St) :
  V1_ServiceDesc none srv ∈ registered -> v1_encodable srv -> encodable T MHealthCheckReq ->
  v1_HealthCheck (NewV1Client cc) ctx st =
    through (fate T ctx V1_HealthCheck_FullMethodName MHealthCheckReq st) (v1_HealthCheck srv (incoming T ctx)) st.
Proof.
  intros Hsd (_ & He & _) Hm. unfold NewV1Client, v1Client_HealthCheck. simpl.
  eapply (stub_call (V1_ServiceDesc none srv) "HealthCheck" _ KHealthCheckReq _ (callHealthCheck srv) MHealthCheckResp
    _ (fun ctx => v1_HealthCheck srv ctx)); try done. by right; left.
Qed.

Lemma v1_stub_LiveCheck (srv : V1Server Ctx MD St) (ctx : Ctx) (st : St) :
  V1_ServiceDesc none srv ∈ registered -> v1_encodable srv -> encodable T MLiveCheckReq ->
  v1_LiveCheck (NewV1Client cc) ctx st =
    through (fate T ctx V1_LiveCheck_FullMethodName MLiveCheckReq st) (v1_LiveCheck srv (incoming T ctx)) st.
Proof.
  intros Hsd (_ & _ & He) Hm. unfold NewV1Client, v1Client_LiveCheck. simpl.
  eapply (stub_call (V1_ServiceDesc none srv) "LiveCheck" _ KLiveCheckReq _ (callLiveCheck srv) (fun _ => MLiveCheckResp)
    _ (fun ctx => v1_LiveCheck srv ctx)); try done; [by right; right; left|by intros []].
Qed.

(** A call through the generated code is the call of the method: over a connection to
    a server with both services registered, a call of any method of the two client stubs
    that is delivered returns what that method of the service returns, its error as a
    status, with the service left in the same state, for every request and answer that can
    be encoded; one that is not delivered leaves the service alone, and one whose answer is
    lost has had its effect. *)
Theorem stubs_reach_methods (srv : V1Server Ctx MD St) (peers : PeersV1Server Ctx MD St)
    (Hreg : V1_ServiceDesc none srv ∈ registered) (Hpreg : PeersV1_ServiceDesc none peers ∈ registered)
    (Henc : v1_encodable srv) (Hpenc : peers_encodable peers) (ctx : Ctx) (st : St) :
  (forall req, encodable T (MGetRateLimitsReq req) ->
     v1_GetRateLimits (NewV1Client cc) ctx req st =
    through (fate T ctx V1_GetRateLimits_FullMethodName (MGetRateLimitsReq req) st) (v1_GetRateLimits srv (incoming T ctx) req) st) /\
  (encodable T MHealthCheckReq ->
     v1_HealthCheck (NewV1Client cc) ctx st =
    through (fate T ctx V1_HealthCheck_FullMethodName MHealthCheckReq st) (v1_HealthCheck srv (incoming T ctx)) st) /\
  (encodable T MLiveCheckReq ->
     v1_LiveCheck (NewV1Client cc) ctx st =
    through (fate T ctx V1_LiveCheck_FullMethodName MLiveCheckReq st) (v1_LiveCheck srv (incoming T ctx)) st) /\
  (forall req, encodable T (MGetPeerRateLimitsReq req) ->
     pv_GetPeerRateLimits (NewPeersV1Client cc) ctx req st =
       through (fate T ctx PeersV1_GetPeerRateLimits_FullMethodName (MGetPeerRateLimitsReq req) st) (pv_GetPeerRateLimits peers (incoming T ctx) req) st) /\
  (forall gs, encodable T (MUpdatePeerGlobalsReq gs) ->
     pv_UpdatePeerGlobals (NewPeersV1Client cc) ctx gs st =
       through (fate T ctx PeersV1_UpdatePeerGlobals_FullMethodName (MUpdatePeerGlobalsReq gs) st) (pv_UpdatePeerGlobals peers (incoming T ctx) gs) st).
Proof.
  split; [intros req Hm; by apply v1_stub_GetRateLimits|]. split; [intros Hm; by apply v1_stub_HealthCheck|].
  split; [intros Hm; by apply v1_stub_LiveCheck|]. destruct Hpenc as [He Hg]. split.
  - intros req Hm. unfold NewPeersV1Client, peersV1Client_GetPeerRateLimits. simpl.
    eapply (stub_call (PeersV1_ServiceDesc none peers) "GetPeerRateLimits" _ KGetPeerRateLimitsReq _
      (callGetPeerRateLimits peers) MGetPeerRateLimitsResp _ (fun ctx => pv_GetPeerRateLimits peers ctx req)); try done; [by left|].
    intros. by eapply He.
  - intros gs Hm. unfold NewPeersV1Client, peersV1Client_UpdatePeerGlobals. simpl.
    eapply (stub_call (PeersV1_ServiceDesc none peers) "UpdatePeerGlobals" _ KUpdatePeerGlobalsReq _
      (callUpdatePeerGlobals peers) (fun _ => MUpdatePeerGlobalsResp) _ (fun ctx => pv_UpdatePeerGlobals peers ctx gs)); try done;
      [by right; left|by intros []].
Qed.
End Calls.

(** ** The HTTP gateway *)

(** A request: reading its body may fail. *)
Record Request : Type := mkRequest {
  rq_Method : string;
  rq_Path : string;
  rq_Body : result string
}.

(** What a decoder reports: the end of the input, or that it cannot read it. *)
Inductive decodeErr : Type := EOF | BadBody (e : gerror).

(** The runtime of the gateway: marshalers, contexts of a request, metadata. A decoder
    returns what it has stored in the message when it stops. *)
Record GatewayRuntime (Ctx MD : Type) : Type := mkRuntime {
  Marshaler : Type;
  MarshalerForRequest : Request -> Marshaler * Marshaler;
  DecodeRateLimits : Marshaler -> string -> list RateLimitReq * option decodeErr;
  DecodePeerRateLimits : Marshaler -> string -> list RateLimitReq * option decodeErr;
  DecodeGlobals : Marshaler -> string -> list UpdatePeerGlobal * option decodeErr;
  reqContext : Request -> Ctx;
  AnnotateContext : Request -> string -> string -> result Ctx;
  AnnotateIncomingContext : Request -> string -> string -> result Ctx;
  JoinMD : MD -> MD -> MD;
  noMetadata : MD
}.
Arguments Marshaler {_ _} _.
Arguments MarshalerForRequest {_ _} _ _.
Arguments DecodeRateLimits {_ _} _ _ _.
Arguments DecodePeerRateLimits {_ _} _ _ _.
Arguments DecodeGlobals {_ _} _ _ _.
Arguments reqContext {_ _} _ _.
Arguments AnnotateContext {_ _} _ _ _ _.
Arguments AnnotateIncomingContext {_ _} _ _ _ _.
Arguments JoinMD {_ _} _ _ _.
Arguments noMetadata {_ _} _.

Section HTTP.
Context {Ctx MD St : Type} (rt : GatewayRuntime Ctx MD).

Abbreviation none := (noMetadata rt).
Abbreviation SM := (@ServerMetadata MD).

(** What a handler writes: with the context, and the metadata stored in it. *)
Inductive Wrote : Type :=
  | HTTPError (ctx : Ctx) (md : option SM) (m : Marshaler rt) (err : gerror)
  | ForwardResponseMessage (ctx : Ctx) (md : option SM) (m : Marshaler rt) (resp : Message).

(** Reading the body into a message: an end of input is accepted. *)
Definition readBody {A} (decode : string -> A * option decodeErr) (req : Request) : result A :=
  match rq_Body req with
  | Err berr => Err (statusError "InvalidArgument" (err_text berr))
  | Ok body =>
      match decode body with
      | (_, Some (BadBody err)) => Err (statusError "InvalidArgument" (err_text err))
      | (a, _) => Ok a
      end
  end.

Definition withBody {A} (decode : string -> A * option decodeErr) (req : Request) (call : A -> Reply MD St Message)
    : Reply MD St Message :=
  match readBody decode req with
  | Err e => mret (Err e, noMD none)
  | Ok a => call a
  end.

Definition request_V1_GetRateLimits_0 (ctx : Ctx) (m : Marshaler rt) (client : V1Client Ctx MD St) (req : Request)
    : Reply MD St Message :=
  withBody (DecodeRateLimits rt m) req (fun protoReq => wrapReply MGetRateLimitsResp (v1_GetRateLimits client ctx protoReq)).

Definition request_V1_HealthCheck_0 (ctx : Ctx) (m : Marshaler rt) (client : V1Client Ctx MD St) (req : Request)
    : Reply MD St Message :=
  wrapReply MHealthCheckResp (v1_HealthCheck client ctx).

Definition request_V1_LiveCheck_0 (ctx : Ctx) (m : Marshaler rt) (client : V1Client Ctx MD St) (req : Request)
    : Reply MD St Message :=
  wrapReply (fun _ => MLiveCheckResp) (v1_LiveCheck client ctx).

Definition request_PeersV1_GetPeerRateLimits_0 (ctx : Ctx) (m : Marshaler rt) (client : PeersV1Client Ctx MD St)
    (req : Request) : Reply MD St Message :=
  withBody (DecodePeerRateLimits rt m) req
    (fun protoReq => wrapReply MGetPeerRateLimitsResp (pv_GetPeerRateLimits client ctx protoReq)).

Definition request_PeersV1_UpdatePeerGlobals_0 (ctx : Ctx) (m : Marshaler rt) (client : PeersV1Client Ctx MD St)
    (req : Request) : Reply MD St Message :=
  withBody (DecodeGlobals rt m) req
    (fun protoReq => wrapReply (fun _ => MUpdatePeerGlobalsResp) (pv_UpdatePeerGlobals client ctx protoReq)).

(** A local call returns no metadata of its own: what the service sent is in the stream
    of its context. *)
Definition Local : Type := M St (result Message * SM * SM).

Definition streamed (m : Reply MD St Message) : Local := r ← m; mret (r.1, noMD none, r.2).

Definition local_request_V1_GetRateLimits_0 (ctx : Ctx) (m : Marshaler rt) (server : V1Server Ctx MD St)
    (req : Request) : Local :=
  match readBody (DecodeRateLimits rt m) req with
  | Err e => mret (Err e, noMD none, noMD none)
  | Ok protoReq => streamed (wrapReply MGetRateLimitsResp (v1_GetRateLimits server ctx protoReq))
  end.

Definition local_request_V1_HealthCheck_0 (ctx : Ctx) (m : Marshaler rt) (server : V1Server Ctx MD St)
    (req : Request) : Local := streamed (wrapReply MHealthCheckResp (v1_HealthCheck server ctx)).

Definition local_request_V1_LiveCheck_0 (ctx : Ctx) (m : Marshaler rt) (server : V1Server Ctx MD St)
    (req : Request) : Local := streamed (wrapReply (fun _ => MLiveCheckResp) (v1_LiveCheck server ctx)).

Definition local_request_PeersV1_GetPeerRateLimits_0 (ctx : Ctx) (m : Marshaler rt) (server : PeersV1Server Ctx MD St)
    (req : Request) : Local :=
  match readBody (DecodePeerRateLimits rt m) req with
  | Err e => mret (Err e, noMD none, noMD none)
  | Ok protoReq => streamed (wrapReply MGetPeerRateLimitsResp (pv_GetPeerRateLimits server ctx protoReq))
  end.

Definition local_request_PeersV1_UpdatePeerGlobals_0 (ctx : Ctx) (m : Marshaler rt) (server : PeersV1Server Ctx MD St)
    (req : Request) : Local :=
  match readBody (DecodeGlobals rt m) req with
  | Err e => mret (Err e, noMD none, noMD none)
  | Ok protoReq => streamed (wrapReply (fun _ => MUpdatePeerGlobalsResp) (pv_UpdatePeerGlobals server ctx protoReq))
  end.

(** The body of every handler of [Register...HandlerServer]: [rpc] is the method's full
    name, [path] its HTTP pattern. *)
Definition serveLocal (rpc path : string) (call : Ctx -> Marshaler rt -> Request -> Local) (req : Request) : M St Wrote :=
  let '(inbound, outbound) := MarshalerForRequest rt req in
  match AnnotateIncomingContext rt req rpc path with
  | Err e => mret (HTTPError (reqContext rt req) None outbound e)
  | Ok ctx =>
      r ← call ctx inbound req;
      let '(resp, md, stream) := r in
      let md := (JoinMD rt md.1 stream.1, JoinMD rt md.2 stream.2) in
      mret (match resp with
            | Err e => HTTPError ctx (Some md) outbound e
            | Ok resp => ForwardResponseMessage ctx (Some md) outbound resp
            end)
  end.

(** The body of every handler of [Register...HandlerClient]. *)
Definition serveClient (rpc path : string) (call : Ctx -> Marshaler rt -> Request -> Reply MD St Message) (req : Request)
    : M St Wrote :=
  let '(inbound, outbound) := MarshalerForRequest rt req in
  match AnnotateContext rt req rpc path with
  | Err e => mret (HTTPError (reqContext rt req) None outbound e)
  | Ok ctx =>
      r ← call ctx inbound req;
      let '(resp, md) := r in
      mret (match resp with
            | Err e => HTTPError ctx (Some md) outbound e
            | Ok resp => ForwardResponseMessage ctx (Some md) outbound resp
            end)
  end.

(** A handler registered with the mux: method, literal segments of the path, handler. *)
Record Route : Type := mkRoute {
  rt_method : string;
  rt_pattern : list string;
  rt_handler : Request -> M St Wrote
}.

Definition pattern_V1_GetRateLimits_0 : list string := ["v1"; "GetRateLimits"].
Definition pattern_V1_HealthCheck_0 : list string := ["v1"; "HealthCheck"].
Definition pattern_V1_LiveCheck_0 : list string := ["v1"; "LiveCheck"].
Definition pattern_PeersV1_GetPeerRateLimits_0 : list string := ["pb.gubernator.PeersV1"; "GetPeerRateLimits"].
Definition pattern_PeersV1_UpdatePeerGlobals_0 : list string := ["pb.gubernator.PeersV1"; "UpdatePeerGlobals"].

(** The mux with the handlers added. *)
Definition RegisterV1HandlerServer (mux : list Route) (server : V1Server Ctx MD St) : result (list Route) :=
  Ok (mux ++
    [mkRoute "POST" pattern_V1_GetRateLimits_0
       (serveLocal "/pb.gubernator.V1/GetRateLimits" "/v1/GetRateLimits"
          (fun ctx m req => local_request_V1_GetRateLimits_0 ctx m server req));
     mkRoute "GET" pattern_V1_HealthCheck_0
       (serveLocal "/pb.gubernator.V1/HealthCheck" "/v1/HealthCheck"
          (fun ctx m req => local_request_V1_HealthCheck_0 ctx m server req));
     mkRoute "GET" pattern_V1_LiveCheck_0
       (serveLocal "/pb.gubernator.V1/LiveCheck" "/v1/LiveCheck"
          (fun ctx m req => local_request_V1_LiveCheck_0 ctx m server req))]).

Definition RegisterV1HandlerClient (mux : list Route) (client : V1Client Ctx MD St) : result (list Route) :=
  Ok (mux ++
    [mkRoute "POST" pattern_V1_GetRateLimits_0
       (serveClient "/pb.gubernator.V1/GetRateLimits" "/v1/GetRateLimits"
          (fun ctx m req => request_V1_GetRateLimits_0 ctx m client req));
     mkRoute "GET" pattern_V1_HealthCheck_0
       (serveClient "/pb.gubernator.V1/HealthCheck" "/v1/HealthCheck"
          (fun ctx m req => request_V1_HealthCheck_0 ctx m client req));
     mkRoute "GET" pattern_V1_LiveCheck_0
       (serveClient "/pb.gubernator.V1/LiveCheck" "/v1/LiveCheck"
          (fun ctx m req => request_V1_LiveCheck_0 ctx m client req))]).

Definition RegisterV1Handler (mux : list Route) (conn : Conn Ctx MD St) : result (list Route) :=
  RegisterV1HandlerClient mux (NewV1Client conn).

Definition RegisterPeersV1HandlerServer (mux : list Route) (server : PeersV1Server Ctx MD St) : result (list Route) :=
  Ok (mux ++
    [mkRoute "POST" pattern_PeersV1_GetPeerRateLimits_0
       (serveLocal "/pb.gubernator.PeersV1/GetPeerRateLimits" "/pb.gubernator.PeersV1/GetPeerRateLimits"
          (fun ctx m req => local_request_PeersV1_GetPeerRateLimits_0 ctx m server req));
     mkRoute "POST" pattern_PeersV1_UpdatePeerGlobals_0
       (serveLocal "/pb.gubernator.PeersV1/UpdatePeerGlobals" "/pb.gubernator.PeersV1/UpdatePeerGlobals"
          (fun ctx m req => local_request_PeersV1_UpdatePeerGlobals_0 ctx m server req))]).

Definition RegisterPeersV1HandlerClient (mux : list Route) (client : PeersV1Client Ctx MD St) : result (list Route) :=
  Ok (mux ++
    [mkRoute "POST" pattern_PeersV1_GetPeerRateLimits_0
       (serveClient "/pb.gubernator.PeersV1/GetPeerRateLimits" "/pb.gubernator.PeersV1/GetPeerRateLimits"
          (fun ctx m req => request_PeersV1_GetPeerRateLimits_0 ctx m client req));
     mkRoute "POST" pattern_PeersV1_UpdatePeerGlobals_0
       (serveClient "/pb.gubernator.PeersV1/UpdatePeerGlobals" "/pb.gubernator.PeersV1/UpdatePeerGlobals"
          (fun ctx m req => request_PeersV1_UpdatePeerGlobals_0 ctx m client req))]).

Definition RegisterPeersV1Handler (mux : list Route) (conn : Conn Ctx MD St) : result (list Route) :=
  RegisterPeersV1HandlerClient mux (NewPeersV1Client conn).

(** *** Connections of the gateway *)

(** Connections that are open, and those a goroutine closes when the context is done. *)
Record Links : Type := mkLinks {
  ln_next : nat;
  ln_open : list nat;
  ln_watched : list nat
}.

Definition closeLink (i : nat) (l : Links) : Links := mkLinks (ln_next l) (filter (fun j => j <> i) (ln_open l)) (ln_watched l).

(** [grpc.DialContext], then the registration; the deferred function closes the
    connection if it failed and otherwise has it closed when the context is done. *)
Definition fromEndpoint (dial : result (Conn Ctx MD St)) (register : Conn Ctx MD St -> result (list Route))
    : M Links (result (list Route)) := fun l =>
  match dial with
  | Err e => Ret (Err e, l)
  | Ok conn =>
      let i := ln_next l in
      let l := mkLinks (S i) (i :: ln_open l) (ln_watched l) in
      match register conn with
      | Err e => Ret (Err e, closeLink i l)
      | Ok mux => Ret (Ok mux, mkLinks (ln_next l) (ln_open l) (i :: ln_watched l))
      end
  end.

Definition RegisterV1HandlerFromEndpoint (mux : list Route) (dial : result (Conn Ctx MD St)) :=
  fromEndpoint dial (RegisterV1Handler mux).

Definition RegisterPeersV1HandlerFromEndpoint (mux : list Route) (dial : result (Conn Ctx MD St)) :=
  fromEndpoint dial (RegisterPeersV1Handler mux).

(** The context is done: the goroutines close what they watch. *)
Definition ctxDone (l : Links) : Links := mkLinks (ln_next l) (filter (fun j => j ∉ ln_watched l) (ln_open l)) [].
End HTTP.

(** ** What the gateway promises *)

Section Promises.
Context {Ctx MD St : Type} (rt : GatewayRuntime Ctx MD) (registered : list (ServiceDesc Ctx MD St))
  (interceptor : option (Interceptor Ctx MD St)) (cc : Conn Ctx MD St) (T : Transport registered interceptor cc).

(** What the HTTP client is answered, besides headers: a message or the status of an error. *)
Definition observed (w : Wrote rt) : Marshaler rt * (gerror + Message) :=
  match w with
  | HTTPError _ _ _ m e => (m, inl (statusOf T e))
  | ForwardResponseMessage _ _ _ m resp => (m, inr resp)
  end.

Definition observe (o : outcome (Wrote rt * St)) : outcome (Marshaler rt * (gerror + Message) * St) :=
  match o with Ret (w, st) => Ret (observed w, st) | Panic msg => Panic msg end.

(** What is written when a call made in state [st] is not delivered, or its answer is lost;
    [direct] is what a direct call writes. *)
Definition cutOff (st : St) (direct written : outcome (Wrote rt * St)) : Prop :=
  exists ctx method m e ctx' md mar,
    fate T ctx method m st = NotDelivered e /\ written = Ret (HTTPError rt ctx' md mar e, st) \/
    fate T ctx method m st = AnswerLost e /\ exists w st', direct = Ret (w, st') /\ written = Ret (HTTPError rt ctx' md mar e, st').

(** Two handlers of the same route that no client can tell apart by their answers, unless
    the first is cut off. *)
Definition alike (a b : Route rt (St := St)) : Prop :=
  rt_method _ a = rt_method _ b /\ rt_pattern _ a = rt_pattern _ b /\
  forall req st, observe (rt_handler _ a req st) = observe (rt_handler _ b req st) \/
    cutOff st (rt_handler _ b req st) (rt_handler _ a req st).

(** Documented behaviour of the runtime and the transport together: annotating a request
    fails alike for an outgoing and an incoming context, the two contexts mean the same
    to a service ([same]), and what a decoder yields can be encoded. *)
Record Compatible (same : Ctx -> Ctx -> Prop) : Prop := {
  annotate_same : forall req rpc path,
    match AnnotateContext rt req rpc path, AnnotateIncomingContext rt req rpc path with
    | Ok c, Ok c' => same (incoming T c) c'
    | Err e, Err e' => e = e'
    | _, _ => False
    end;
  decoded_rate_limits : forall m body, encodable T (MGetRateLimitsReq (DecodeRateLimits rt m body).1);
  decoded_checks : encodable T MHealthCheckReq /\ encodable T MLiveCheckReq
}.

(** A service to which contexts that are the same make no difference. *)
Definition respects (same : Ctx -> Ctx -> Prop) (srv : V1Server Ctx MD St) : Prop :=
  forall c c' st, same c c' ->
    (forall req, v1_GetRateLimits srv c req st = v1_GetRateLimits srv c' req st) /\
    v1_HealthCheck srv c st = v1_HealthCheck srv c' st /\ v1_LiveCheck srv c st = v1_LiveCheck srv c' st.

Lemma wrapReply_ext {A B} (f : A -> B) (m m' : Reply MD St A) (st : St) : m st = m' st ->
  wrapReply f m st = wrapReply f m' st.
Proof. intros Hm. unfold wrapReply, mbind, M_bind. by rewrite Hm. Qed.

(** A call over the connection, and the direct call. *)
Definition carried (becomes : Fate) (direct remote : Reply MD St Message) (st : St) : Prop :=
  remote st = through registered interceptor cc T becomes direct st.

Lemma carried_wrap {A} (f : A -> Message) (becomes : Fate) (direct remote : Reply MD St A) (st : St) :
  remote st = through registered interceptor cc T becomes direct st ->
  carried becomes (wrapReply f direct) (wrapReply f remote) st.
Proof.
  intros Hm. unfold carried, wrapReply, through, lose, mbind, M_bind in *. rewrite Hm.
  destruct becomes; [|done|]; by destruct (direct st) as [[[[] ?] ?]|].
Qed.

(** Serving a call through the client and serving it locally. *)
Lemma serve_alike (same : Ctx -> Ctx -> Prop) (Hc : Compatible same) (rpc path : string)
    (remote : Ctx -> Marshaler rt -> Request -> Reply MD St Message)
    (local : Ctx -> Marshaler rt -> Request -> Local (MD := MD) (St := St)) (req : Request) (st : St) :
  (forall c c' m, same (incoming T c) c' -> exists direct, local c' m req st = streamed rt direct st /\
     (remote c m req st = direct st \/ exists msg, carried (fate T c rpc msg st) direct (remote c m req) st)) ->
  let r := serveClient rt rpc path remote req st in let l := serveLocal rt rpc path local req st in
  observe r = observe l \/ cutOff st l r.
Proof.
  intros Hcall. unfold serveClient, serveLocal. destruct (MarshalerForRequest rt req) as [inb outb].
  pose proof (annotate_same same Hc req rpc path) as Ha.
  destruct (AnnotateContext rt req rpc path) as [c|e], (AnnotateIncomingContext rt req rpc path) as [c'|e']; try done;
    [|left; by subst].
  destruct (Hcall c c' inb Ha) as (direct & Hl & Hr). unfold mbind, M_bind. rewrite Hl. unfold streamed, mbind, M_bind.
  destruct Hr as [->|[msg Hr]]; [left; by destruct (direct st) as [[[[] []] ?]|]|].
  unfold carried, through, lose, mbind, M_bind in Hr. rewrite Hr. destruct (fate T c rpc msg st) as [|e|e] eqn:Ef.
  - left. destruct (direct st) as [[[[out|e] [h t]] st']|]; simpl; try done. by rewrite (status_kept _ _ _ T).
  - right. exists c, rpc, msg, e, c, (Some (unanswered T)), outb. by left.
  - destruct (direct st) as [[[res [h t]] st']|why]; simpl; [|by left]. right. exists c, rpc, msg, e, c, (Some (unanswered T)), outb. right.
    split; [done|]. eexists _, _. by split.
Qed.

(** C38: The gateway answers alike however it is registered.  The handlers of
    [RegisterV1Handler], over a connection to a server with the V1 service, and those of
    [RegisterV1HandlerServer] on the service itself are registered for the same methods
    and paths. To every HTTP request they give the same message or the same status of an
    error, and leave the service in the same state, unless the transport does not deliver
    the call or loses its answer: then the first gives the transport's error, with the
    service left alone or in the state after the call. *)
Theorem gateways_agree (same : Ctx -> Ctx -> Prop) (srv : V1Server Ctx MD St)
    (Hreg : V1_ServiceDesc (noMetadata rt) srv ∈ registered) (Henc : v1_encodable registered interceptor cc T srv)
    (Hcompat : Compatible same) (Hresp : respects same srv) :
  exists remote local, RegisterV1Handler rt [] cc = Ok remote /\ RegisterV1HandlerServer rt [] srv = Ok local /\
    Forall2 alike remote local.
Proof.
  set (refused e := mret (Err (statusError "InvalidArgument" (err_text e)), noMD (noMetadata rt)) : Reply MD St Message).
  eexists _, _. split; [reflexivity|]. split; [reflexivity|].
  simpl. apply Forall2_cons_2; [|apply Forall2_cons_2; [|apply Forall2_cons_2; [|constructor]]];
    (split; [reflexivity|split; [reflexivity|]]; intros req st; apply (serve_alike same Hcompat);
     intros c c' m Hs; destruct (Hresp _ _ st Hs) as (H1 & H2 & H3)).
  - unfold local_request_V1_GetRateLimits_0, request_V1_GetRateLimits_0, withBody. unfold readBody.
    destruct (rq_Body req) as [body|e]; [|exists (refused e); split; [done|by left]].
    pose proof (decoded_rate_limits same Hcompat m body) as Hm.
    destruct (DecodeRateLimits rt m body) as [a [[|e]|]]; [|exists (refused e); split; [done|by left]|];
      (eexists (wrapReply MGetRateLimitsResp (v1_GetRateLimits srv (incoming T c) a));
       split; [unfold streamed, mbind, M_bind; by rewrite (wrapReply_ext _ _ _ st (H1 a))|]; right; eexists; apply carried_wrap;
       by apply (v1_stub_GetRateLimits (noMetadata rt))).
  - exists (wrapReply MHealthCheckResp (v1_HealthCheck srv (incoming T c))).
    unfold local_request_V1_HealthCheck_0, request_V1_HealthCheck_0, streamed, mbind, M_bind.
    rewrite (wrapReply_ext _ _ _ st H2). split; [done|]. right. eexists. apply carried_wrap.
    apply (v1_stub_HealthCheck (noMetadata rt)); [done|done|apply (decoded_checks same Hcompat)].
  - exists (wrapReply (fun _ => MLiveCheckResp) (v1_LiveCheck srv (incoming T c))).
    unfold local_request_V1_LiveCheck_0, request_V1_LiveCheck_0, streamed, mbind, M_bind.
    rewrite (wrapReply_ext _ _ _ st H3). split; [done|]. right. eexists. apply carried_wrap.
    apply (v1_stub_LiveCheck (noMetadata rt)); [done|done|apply (decoded_checks same Hcompat)].
Qed.

(** A request whose body cannot be read is refused: whichever way the gateway is
    registered and whatever the service, a body that cannot be read or decoded is
    answered InvalidArgument with the reason, and the service is not called. *)
Theorem bad_body_refused (client : V1Client Ctx MD St) (server : V1Server Ctx MD St) (req : Request) (st : St)
    (c c' : Ctx) (e : gerror)
    (Hann : AnnotateContext rt req V1_GetRateLimits_FullMethodName "/v1/GetRateLimits" = Ok c)
    (Hinc : AnnotateIncomingContext rt req V1_GetRateLimits_FullMethodName "/v1/GetRateLimits" = Ok c')
    (Hbad : rq_Body req = Err e \/ exists body m, rq_Body req = Ok body /\ (MarshalerForRequest rt req).1 = m /\
              (DecodeRateLimits rt m body).2 = Some (BadBody e)) :
  exists remote local, RegisterV1HandlerClient rt [] client = Ok remote /\ RegisterV1HandlerServer rt [] server = Ok local /\
    forall route, head remote = Some route \/ head local = Some route ->
      rt_method _ route = "POST" /\ rt_pattern _ route = ["v1"; "GetRateLimits"] /\
      exists ctx md m, rt_handler _ route req st =
        Ret (HTTPError rt ctx md m (statusError "InvalidArgument" (err_text e)), st).
Proof.
  eexists _, _. split; [reflexivity|]. split; [reflexivity|]. simpl. unfold V1_GetRateLimits_FullMethodName in *.
  assert (readBody (DecodeRateLimits rt (MarshalerForRequest rt req).1) req = Err (statusError "InvalidArgument" (err_text e))) as Hread.
  { unfold readBody. destruct Hbad as [->|(body & m & -> & <- & Hd)]; [done|].
    destruct (DecodeRateLimits _ _ _) as [a err]. simpl in Hd. by rewrite Hd. }
  intros route [[= <-]|[= <-]]; (split; [done|split; [done|]]); simpl.
  - unfold serveClient, request_V1_GetRateLimits_0, withBody. destruct (MarshalerForRequest rt req) as [inb outb].
    rewrite Hann. simpl in Hread. rewrite Hread. by eexists _, _, _.
  - unfold serveLocal, local_request_V1_GetRateLimits_0. destruct (MarshalerForRequest rt req) as [inb outb].
    rewrite Hinc. simpl in Hread. rewrite Hread. by eexists _, _, _.
Qed.

(** The connection of [RegisterV1HandlerFromEndpoint] is closed exactly when the context
    is done; a dial that fails leaves none open, and the registration does not fail. *)
Theorem endpoint_closed (mux : list (Route rt (St := St))) (dial : result (Conn Ctx MD St)) (l : Links) :
  (forall j, j ∈ ln_open l -> (j < ln_next l)%nat) -> ln_watched l = ln_open l ->
  exists res l', RegisterV1HandlerFromEndpoint rt mux dial l = Ret (res, l') /\
    ln_open (ctxDone l') = [] /\
    match dial with
    | Err e => res = Err e /\ l' = l
    | Ok conn => res = RegisterV1Handler rt mux conn /\ ln_open l' = ln_next l :: ln_open l
    end.
Proof.
  intros Hlt Hw. assert (forall os, filter (fun j : nat => j ∉ os) os = []) as Hnone.
  { intros os. destruct (filter _ os) as [|j js] eqn:E; [done|]. assert (j ∈ filter (fun j : nat => j ∉ os) os) as Hj by (rewrite E; constructor).
    apply list_elem_of_filter in Hj as [Hn Hi]. done. }
  unfold RegisterV1HandlerFromEndpoint, fromEndpoint. destruct dial as [conn|e].
  - eexists _, _. split; [reflexivity|]. simpl. rewrite Hw. split; [by apply Hnone|]. done.
  - eexists _, _. split; [reflexivity|]. simpl. rewrite Hw. by split; [apply Hnone|].
Qed.
End Promises.

(** ** Examples *)

(** A codec for the messages without contents. *)
Definition demoMarshal (m : Message) : result string :=
  match m with
  | MGetRateLimitsReq [] => Ok "a" | MGetRateLimitsResp [] => Ok "b" | MHealthCheckReq => Ok "c"
  | MLiveCheckReq => Ok "d" | MLiveCheckResp => Ok "e" | MGetPeerRateLimitsReq [] => Ok "f"
  | MGetPeerRateLimitsResp [] => Ok "g" | MUpdatePeerGlobalsReq [] => Ok "h" | MUpdatePeerGlobalsResp => Ok "i"
  | _ => Err (ErrNew "not empty")
  end.

Definition demoUnmarshal (k : Kind) (b : string) : result Message :=
  let m := match k with
           | KGetRateLimitsReq => MGetRateLimitsReq [] | KGetRateLimitsResp => MGetRateLimitsResp []
           | KHealthCheckReq => MHealthCheckReq | KLiveCheckReq => MLiveCheckReq | KLiveCheckResp => MLiveCheckResp
           | KGetPeerRateLimitsReq => MGetPeerRateLimitsReq [] | KGetPeerRateLimitsResp => MGetPeerRateLimitsResp []
           | KUpdatePeerGlobalsReq => MUpdatePeerGlobalsReq [] | _ => MUpdatePeerGlobalsResp
           end in
  match demoMarshal m with
  | Ok b' => if String.eqb b b' then Ok m else Err (ErrNew "cannot parse")
  | Err e => Err e
  end.

(** Services that count their calls. *)
Definition counted {A} (res : result A) : Reply (list string) nat A := fun n => Ret ((res, (["calls"], [])), S n).

Definition demoV1 : V1Server unit (list string) nat :=
  mkV1 (fun _ _ => counted (Ok [])) (fun _ => counted (Err (unavailable "starting"))) (fun _ => counted (Ok tt)).

Definition demoPeersV1 : PeersV1Server unit (list string) nat :=
  mkPeersV1 (fun _ _ => counted (Ok [])) (fun _ _ => counted (Ok tt)).

Definition demoRegistered : list (ServiceDesc unit (list string) nat) :=
  RegisterPeersV1Server [] (RegisterV1Server [] [] demoV1) demoPeersV1.

(** An error that is not a status yet becomes one of code Unknown. *)
Definition demoStatus (e : gerror) : gerror :=
  if String.prefix "rpc error: " (err_text e) then e else statusError "Unknown" (err_text e).

(** A connection that is lost after eight calls, one answer before. *)
Definition demoFate (st : nat) : Fate :=
  match Nat.compare st 8 with
  | Lt => Delivered
  | Eq => AnswerLost (statusError "Unavailable" "connection closed")
  | Gt => NotDelivered (statusError "Unavailable" "connection refused")
  end.

Definition demoConn : Conn unit (list string) nat := fun ctx method m kout st =>
  let table := sd ← demoRegistered; (fun nh => ("/" +:+ sd_ServiceName sd +:+ "/" +:+ nh.1, nh.2)) <$> sd_Methods sd in
  match List.find (fun nh => String.eqb nh.1 method) table, demoMarshal m with
  | Some (_, h), Ok b =>
      match demoFate st with
      | NotDelivered e => Ret ((Err e, ([], [])), st)
      | AnswerLost e => lose (h ctx (fun k => demoUnmarshal k b) None) (Err e, ([], [])) st
      | Delivered =>
          (r ← h ctx (fun k => demoUnmarshal k b) None;
           mret (match r.1 with
                 | Err e => Err (demoStatus e)
                 | Ok out => match demoMarshal out with Ok b => demoUnmarshal kout b | Err e => Err (demoStatus e) end
                 end, ("content-type" :: r.2.1, r.2.2))) st
      end
  | None, _ => Ret ((Err (statusError "Unimplemented" "unknown method"), ([], [])), st)
  | _, Err e => Ret ((Err e, ([], [])), st)
  end.

Definition demoTransport : Transport demoRegistered None demoConn.
Proof.
  refine (mkTransport _ _ _ demoRegistered None demoConn demoMarshal demoUnmarshal
    (fun m => exists b, demoMarshal m = Ok b) (fun ctx => ctx) (fun _ _ _ => demoFate) demoStatus
    (fun md => ("content-type" :: md.1, md.2)) ([], []) _ _ _ _).
  - intros m [b Hb]. exists b. split; [done|].
    destruct m as [[]|[]| | | | |[]|[]|[]|]; simpl in Hb; try done; by injection Hb as <-.
  - intros e. unfold demoStatus. destruct (String.prefix "rpc error: " (err_text e)) eqn:E; [by rewrite E|done].
  - intros sd name h ctx m b kout st Hsd Hh Hb. unfold demoConn. rewrite Hb.
    unfold demoRegistered, RegisterPeersV1Server, RegisterV1Server in Hsd. simpl in Hsd.
    apply elem_of_cons in Hsd as [->|Hsd]; [|apply list_elem_of_singleton in Hsd as ->]; simpl in Hh;
      repeat (apply elem_of_cons in Hh as [[= -> ->]|Hh]; [reflexivity|]); by apply not_elem_of_nil in Hh.
  - done.
Defined.

(** Bodies are empty, an empty object, or not JSON. *)
Definition demoDecode {A} (_ : unit) (body : string) : list A * option decodeErr :=
  if String.eqb body "" then ([], Some EOF)
  else if String.eqb body "{}" then ([], None) else ([], Some (BadBody (ErrNew "invalid character"))).

Definition demoRuntime : GatewayRuntime unit (list string) :=
  mkRuntime _ _ unit (fun _ => (tt, tt)) demoDecode demoDecode demoDecode (fun _ => tt)
    (fun _ _ _ => Ok tt) (fun _ _ _ => Ok tt) app [].

Lemma demo_v1_encodable : v1_encodable demoRegistered None demoConn demoTransport demoV1.
Proof.
  split; [|split; [|by exists "e"]].
  - intros ctx req st a md st' [= <- _ _]. by exists "b".
  - intros ctx st a md st' [=].
Qed.

Lemma demo_peers_encodable : peers_encodable demoRegistered None demoConn demoTransport demoPeersV1.
Proof. split; [|by exists "i"]. intros ctx req st a md st' [= <- _ _]. by exists "g". Qed.

Lemma stubs_reach_methods_witness :
  v1_GetRateLimits (NewV1Client demoConn) tt [] 6%nat = Ret ((Ok [], (["content-type"; "calls"], [])), 7%nat) /\
  pv_UpdatePeerGlobals (NewPeersV1Client demoConn) tt [] 6%nat = Ret ((Ok tt, (["content-type"; "calls"], [])), 7%nat).
Proof.
  destruct (stubs_reach_methods [] demoRegistered None demoConn demoTransport demoV1 demoPeersV1
    ltac:(by left) ltac:(by right; left) demo_v1_encodable demo_peers_encodable tt 6%nat) as (H1 & _ & _ & _ & H5).
  split; [apply H1; by exists "a"|apply H5; by exists "h"].
Defined.

Lemma gateways_agree_witness : exists remote local,
  RegisterV1Handler demoRuntime [] demoConn = Ok remote /\ RegisterV1HandlerServer demoRuntime [] demoV1 = Ok local /\
  Forall2 (alike demoRuntime demoRegistered None demoConn demoTransport) remote local.
Proof.
  apply (gateways_agree demoRuntime demoRegistered None demoConn demoTransport eq demoV1).
  - by left.
  - exact demo_v1_encodable.
  - constructor; [done| |by split; [exists "c"|exists "d"]].
    intros m body. exists "a". unfold DecodeRateLimits, demoRuntime, demoDecode. by repeat destruct (String.eqb _ _).
  - by intros c c' st <-.
Defined.

Lemma bad_body_refused_witness : exists remote route,
  RegisterV1HandlerClient demoRuntime [] demoV1 = Ok remote /\ head remote = Some route /\
  exists ctx md m, rt_handler _ route (mkRequest "POST" "/v1/GetRateLimits" (Ok "[")) 3%nat =
    Ret (HTTPError demoRuntime ctx md m (statusError "InvalidArgument" "invalid character"), 3%nat).
Proof.
  destruct (bad_body_refused demoRuntime demoV1 demoV1 (mkRequest "POST" "/v1/GetRateLimits" (Ok "[")) 3%nat tt tt
    (ErrNew "invalid character") eq_refl eq_refl) as (remote & local & Hr & _ & Hall).
  - right. by exists "[", tt.
  - injection Hr as <-. eexists _, _. split; [reflexivity|]. split; [reflexivity|].
    destruct (Hall _ (or_introl eq_refl)) as (_ & _ & Hw). exact Hw.
Defined.
