(* ===== verification/Config.v ===== *)
(** * Configuration and life cycle ([SetDefaults] of [config.go], [NewV1Instance] and
    [Close] of [gubernator.go])

    Defaults and their limits; starting an instance from a configuration and stopping
    it. *)

From stdpp Require Import base gmap strings list.
From Stdlib Require Import ZArith Lia.
From S2P Require Import Prelude Types GoTime Runtime LRUCache Store Demo Workers WorkersSpec Persist ReplicatedHash Instance.

Local Open Scope Z_scope.

(** Durations are in nanoseconds. *)
Record BehaviorConfig : Type := mkBehaviorConfig {
  bc_BatchTimeout : Z;
  bc_BatchWait : Z;
  bc_BatchLimit : Z;
  bc_DisableBatching : bool;
  bc_GlobalSyncWait : Z;
  bc_GlobalTimeout : Z;
  bc_GlobalBatchLimit : Z;
  bc_ForceGlobal : bool;
  bc_GlobalPeerRequestsConcurrency : Z;
  bc_ScheduleMaxWait : Z
}.

(** The fields of [Config] that are data; a cache factory of the caller's own is
    outside the model. *)
Record Config : Type := mkConfig {
  cf_InstanceID : string;
  cf_Behaviors : BehaviorConfig;
  cf_DataCenter : string;
  cf_AdvertiseAddr : string;
  cf_Workers : Z;
  cf_CacheSize : Z
}.

Definition Microsecond : Z := 1000.

(** [defaultScheduleMaxWait] of gubernator.go: five minutes. *)
Definition defaultScheduleMaxWait : Z := 5 * 60 * Second.

Definition SetDefaultS (s d : string) : string := if String.eqb s "" then d else s.

Definition maxBatch : Z := Z.of_nat maxBatchSize.

Definition SetDefaultsBehavior (b : BehaviorConfig) : BehaviorConfig :=
  mkBehaviorConfig
    (SetDefaultZ (bc_BatchTimeout b) (500 * Millisecond))
    (SetDefaultZ (bc_BatchWait b) (500 * Microsecond))
    (SetDefaultZ (bc_BatchLimit b) maxBatch)
    (bc_DisableBatching b)
    (SetDefaultZ (bc_GlobalSyncWait b) (100 * Millisecond))
    (SetDefaultZ (bc_GlobalTimeout b) (500 * Millisecond))
    (SetDefaultZ (bc_GlobalBatchLimit b) maxBatch)
    (bc_ForceGlobal b)
    (SetDefaultZ (bc_GlobalPeerRequestsConcurrency b) 100)
    (SetDefaultZ (bc_ScheduleMaxWait b) defaultScheduleMaxWait).

(** [SetDefaults]; [numCPU] is [runtime.NumCPU], [id] what [GetInstanceID] returns. *)
Definition SetDefaults (numCPU : Z) (id : string) (c : Config) : result Config :=
  if bc_ScheduleMaxWait (cf_Behaviors c) <? 0 then
    Err (ErrNew "Behaviors.ScheduleMaxWait cannot be negative")
  else
    let b := SetDefaultsBehavior (cf_Behaviors c) in
    if maxBatch <? bc_BatchLimit b then
      Err (ErrNew ("Behaviors.BatchLimit cannot exceed '" +:+ Itoa maxBatchSize +:+ "'"))
    else
      Ok (mkConfig (SetDefaultS (cf_InstanceID c) id) b (cf_DataCenter c) (cf_AdvertiseAddr c)
            (SetDefaultZ (cf_Workers c) numCPU) (SetDefaultZ (cf_CacheSize c) 50000)).

Lemma SetDefaultZ_idem (x d : Z) : SetDefaultZ (SetDefaultZ x d) d = SetDefaultZ x d.
Proof. unfold SetDefaultZ. destruct (Z.eqb_spec x 0); [by destruct (d =? 0)|]. by destruct (Z.eqb_spec x 0). Qed.

Lemma SetDefaultS_idem (s d : string) : SetDefaultS (SetDefaultS s d) d = SetDefaultS s d.
Proof.
  unfold SetDefaultS. destruct (String.eqb_spec s ""); [by destruct (String.eqb d "")|]. by destruct (String.eqb_spec s "").
Qed.

(** Setting the defaults again changes nothing, and a configuration that has them is
    within its limits. *)
Lemma SetDefaults_stable (numCPU : Z) (id : string) (c c' : Config) : SetDefaults numCPU id c = Ok c' ->
  SetDefaults numCPU id c' = Ok c' /\
  bc_BatchLimit (cf_Behaviors c') <= 1000 /\ 0 < bc_ScheduleMaxWait (cf_Behaviors c').
Proof.
  unfold SetDefaults. destruct (Z.ltb_spec (bc_ScheduleMaxWait (cf_Behaviors c)) 0) as [|Hs]; [done|].
  destruct (Z.ltb_spec maxBatch (bc_BatchLimit (SetDefaultsBehavior (cf_Behaviors c)))) as [|Hb]; [done|].
  intros [= <-]. simpl in *.
  assert (0 < SetDefaultZ (bc_ScheduleMaxWait (cf_Behaviors c)) defaultScheduleMaxWait) as Hpos.
  { unfold SetDefaultZ. destruct (Z.eqb_spec (bc_ScheduleMaxWait (cf_Behaviors c)) 0); [done|lia]. }
  split; [|split; [exact Hb|done]].
  replace (_ <? 0) with false by lia. unfold SetDefaultsBehavior at 1. simpl. rewrite SetDefaultZ_idem.
  replace (maxBatch <? _) with false by lia. unfold SetDefaultsBehavior. simpl.
  by rewrite !SetDefaultZ_idem, SetDefaultS_idem.
Qed.

(** ** Starting *)

Section Start.
Context `{Hash64} {S : Type}.

(** [NewV1Instance] with the default cache factory; [loaded] is what the loader returns,
    if there is one. The context of the load is never done. *)
Definition NewV1Instance (hasServers : bool) (numCPU : Z) (id : string) (conf : Config)
    (e : Env) (store : option S) (loaded : option (result (list Ptr))) : outcome (result (WorkerPool LRUCache S)) :=
  if negb hasServers then Ret (Err (ErrNew "at least one GRPCServer instance is required"))
  else
    match SetDefaults numCPU id conf with
    | Err err => Ret (Err err)
    | Ok conf =>
        match NewWorkerPool NewLRUCache
                (mkPoolConf (cf_Workers conf) (cf_CacheSize conf) (bc_ScheduleMaxWait (cf_Behaviors conf))) e store with
        | Panic why => Panic why
        | Ret pool =>
            match loaded with
            | None => Ret (Ok pool)
            | Some l =>
                match Persist.Load None Canceled l pool with
                | Panic why => Panic why
                | Ret (Ok _, pool) => Ret (Ok pool)
                | Ret (Err err, _) => Ret (Err (ErrWrap "Error in workerPool.Load" err))
                end
            end
        end
    end.
End Start.

(** ** Stopping *)

(** What [Close] does, in order. *)
Inductive closing : Type := CloseGlobal | StoreCaches | ClosePool.

(** [Close] of an instance with or without a loader; [stored] is the outcome of saving.
    The steps taken, the result, and the new value of [isClosed]. *)
Definition CloseInstance (isClosed hasLoader : bool) (stored : result unit) : list closing * result unit * bool :=
  if isClosed then ([], Ok tt, true)
  else if hasLoader then
    match stored with
    | Err e => ([CloseGlobal; StoreCaches], Err (ErrWrap "Error in workerPool.Store" e), true)
    | Ok _ => ([CloseGlobal; StoreCaches; ClosePool], Ok tt, true)
    end
  else ([CloseGlobal; ClosePool], Ok tt, true).

(** A second [Close] does nothing. *)
Lemma CloseInstance_once (isClosed hasLoader : bool) (stored stored' : result unit) :
  (CloseInstance (CloseInstance isClosed hasLoader stored).2 hasLoader stored').1 = ([], Ok tt).
Proof. by destruct isClosed, hasLoader, stored. Qed.

(** More workers than items in the cache: every worker gets a cache of 50,000. *)
Lemma small_cache_grows (Sto : Type) (e : Env) (n size : Z) : 0 < size < n ->
  exists po, NewWorkerPool (S := Sto) NewLRUCache (mkPoolConf n size 0) e None = Ret po /\
    Forall (fun c => lc_cacheSize c = 50000) (po_workers po).
Proof.
  intros Hn. unfold NewWorkerPool. simpl. replace (n <? 0) with false by lia. replace (n =? 0) with false by lia.
  eexists. split; [done|]. simpl. unfold SetDefaultZ at 1. replace (size =? 0) with false by lia.
  rewrite Z.quot_small by lia. by apply Forall_replicate.
Qed.
