(* ===== verification/EnvConfig.v ===== *)
(** * The daemon's configuration ([SetupDaemonConfig] of [config.go], [flags.go])

    From a configuration file and the environment to a [DaemonConfig]: reading
    variables, defaults, and the checks that refuse a configuration. What the host
    reports, the log level parser and the contents of files are arguments. *)

From stdpp Require Import base gmap strings list pretty.
From Stdlib Require Import ZArith Lia Ascii.
From S2P Require Import Prelude Float64 GoTime GoStrings ReplicatedHash Network TLS DNSPool MemberList EtcdPool K8sPool Instance LRUCache Config.

Local Open Scope Z_scope.

(** ** The environment *)

Definition Environ : Type := gmap string string.

Definition Getenv (env : Environ) (name : string) : string := default "" (env !! name).

Definition nul : ascii := "000".

(** [os.Setenv] *)
Definition Setenv (key value : string) (env : Environ) : result Environ :=
  if String.eqb key "" || contains "=" key || contains nul key || contains nul value
  then Err (ErrNew "setenv: invalid argument")
  else Ok (<[key := value]> env).

(** [anyHasPrefix(prefix, os.Environ())]: the entries are of the form [key=value]. *)
Definition anyHasPrefix (prefix : string) (env : Environ) : bool :=
  existsb (fun kv => HasPrefix (kv.1 +:+ "=" +:+ kv.2) prefix) (map_to_list env).

Definition getEnvBool (env : Environ) (name : string) : bool :=
  let v := Getenv env name in
  if String.eqb v "" then false
  else match ParseBool v with Ok b => b | Err _ => false end.

Definition getEnvInteger (env : Environ) (name : string) : Z :=
  let v := Getenv env name in
  if String.eqb v "" then 0
  else match ParseInt v with Ok i => i | Err _ => 0 end.

Definition getEnvDuration `{Arch} (env : Environ) (name : string) : Z :=
  let v := Getenv env name in
  if String.eqb v "" then 0
  else match ParseDuration v with Ok d => d | Err _ => 0 end.

Definition getEnvSlice (env : Environ) (name : string) : list string :=
  let v := Getenv env name in
  if String.eqb v "" then [] else Split "," v.

Definition getEnvMinVersion (env : Environ) (name : string) : Z :=
  let v := Getenv env name in
  if String.eqb v "1.0" then VersionTLS10
  else if String.eqb v "1.1" then VersionTLS11
  else if String.eqb v "1.2" then VersionTLS12
  else VersionTLS13.

(** ** Metric flags *)

Definition FlagOSMetrics : Z := 1.
Definition FlagGolangMetrics : Z := 2.

Definition flagsSet (f flag : Z) (set_ : bool) : Z :=
  if set_ then Z.lor f flag else let mask := Z.lxor f flag in Z.land f mask.

Definition flagsHas (f flag : Z) : bool := negb (Z.land f flag =? 0).

Definition getEnvMetricFlags (env : Environ) (name : string) : Z :=
  foldl (fun r f => if String.eqb f "os" then flagsSet r FlagOSMetrics true
                    else if String.eqb f "golang" then flagsSet r FlagGolangMetrics true
                    else r) 0 (getEnvSlice env name).

(** ** The configuration file *)

(** Lines that are passed over. *)
Definition skipped (line : string) : bool :=
  HasPrefix line "#" || HasPrefix line " " || HasPrefix line (chr 9) || String.eqb line "".

(** The lines from number [i] on; what earlier lines set stays set. *)
Fixpoint envLines (i : Z) (lines : list string) (env : Environ) : result unit * Environ :=
  match lines with
  | [] => (Ok tt, env)
  | line :: lines =>
      if skipped line then envLines (i + 1) lines env
      else
        match SplitN 2 "=" line with
        | [k; v] =>
            match Setenv (TrimSpace k) (TrimSpace v) env with
            | Err e => (Err (ErrWrap ("while settings environ for '" +:+ k +:+ "=" +:+ v +:+ "'") e), env)
            | Ok env => envLines (i + 1) lines env
            end
        | _ => (Err (ErrNew ("malformed key=value on line '" +:+ pretty i +:+ "'")), env)
        end
  end.

(** A reader: how it prints, and what reading it gives. *)
Record ConfigFile : Type := mkConfigFile { fl_shown : string; fl_contents : result string }.

Definition fromEnvFile (configFile : ConfigFile) (env : Environ) : result unit * Environ :=
  match fl_contents configFile with
  | Err e => (Err (ErrNew ("while reading config file '" +:+ fl_shown configFile +:+ "': " +:+ err_text e)), env)
  | Ok text => envLines 0 (Split (chr 10) text) env
  end.

(** ** The instance's name *)

(** What the process finds around it: the host, the lines of [/proc/self/cgroup], the
    random name of [generateID], the order in which [range] visits the keys of a map. *)
Record Process : Type := mkProcess {
  pr_host : Host;
  pr_GOOS : string;
  pr_cgroup : option (list string);
  pr_randomID : string;
  pr_range : list string -> list string;
  pr_ParseLevel : string -> result Z;
  pr_ReadFile : string -> result string;
  pr_LoadX509KeyPair : string -> string -> result unit
}.

(** [s[:12]] *)
Definition firstTwelve (s : string) : outcome string :=
  if (String.length s <? 12)%nat then Panic "slice bounds out of range" else Ret (String.substring 0 12 s).

Fixpoint scanCgroup (lines : list string) : outcome string :=
  match lines with
  | [] => Ret ""
  | line :: lines =>
      match Split "/docker/" line with
      | [_; cid] => firstTwelve cid
      | _ => scanCgroup lines
      end
  end.

Definition getDockerCID (pr : Process) : outcome string :=
  match pr_cgroup pr with
  | None => Ret ""
  | Some lines => scanCgroup lines
  end.

(** The first that is not empty; all three are evaluated. *)
Definition GetInstanceID (pr : Process) (env : Environ) : outcome string :=
  match getDockerCID pr with
  | Panic why => Panic why
  | Ret cid => Ret (SetDefaultS (SetDefaultS (Getenv env "GUBER_INSTANCE_ID") cid) (pr_randomID pr))
  end.

Definition LocalHost (pr : Process) (env : Environ) : string :=
  if String.eqb (pr_GOOS pr) "darwin" then "127.0.0.1"
  else if negb (String.eqb (Getenv env "RUNNER_OS") "") then "127.0.0.1"
  else "localhost".

Inductive TraceLevel : Type := ErrorLevel | InfoLevel | DebugLevel.

Definition GetTracingLevel (env : Environ) : TraceLevel :=
  let s := Getenv env "GUBER_TRACING_LEVEL" in
  if String.eqb s "ERROR" then ErrorLevel
  else if String.eqb s "DEBUG" then DebugLevel
  else InfoLevel.

(** ** The parts of the configuration *)

(** TLS towards etcd: the authority's PEM text, the pair of files, and whether
    verification is skipped. *)
Record EtcdTLS : Type := mkEtcdTLS {
  tl_RootCAs : option string;
  tl_Certificate : option (string * string);
  tl_InsecureSkipVerify : bool
}.

Record EtcdClientConf : Type := mkEtcdClient {
  cl_Endpoints : list string;
  cl_DialTimeout : Z;
  cl_Username : string;
  cl_Password : string;
  cl_TLS : option EtcdTLS
}.

Inductive HashName : Type := Fnv1a | Fnv1.

(** A [ReplicatedConsistentHash] of the hash function and number of replicas given. *)
Record PickerConf : Type := mkPickerConf { pk_hash : HashName; pk_replicas : Z }.

Record DaemonConfig : Type := mkDaemonConfig {
  d_GRPCListenAddress : string;
  d_HTTPListenAddress : string;
  d_HTTPStatusListenAddress : string;
  d_GRPCMaxConnectionAgeSeconds : Z;
  d_GracefulTerminationDelaySeconds : Z;
  d_AdvertiseAddress : string;
  d_CacheSize : Z;
  d_Workers : Z;
  d_Behaviors : BehaviorConfig;
  d_DataCenter : string;
  d_PeerDiscoveryType : string;
  d_EtcdPoolConf : EtcdPoolConfig * EtcdClientConf;
  d_K8PoolConf : K8sPoolConfig;
  d_DNSPoolConf : DNSPoolConfig;
  d_MemberListPoolConf : MemberListPoolConfig;
  d_Picker : option PickerConf;
  d_TLS : option TLSFiles;
  d_MetricFlags : Z;
  d_InstanceID : string;
  d_TraceLevel : TraceLevel
}.

(** What [SetupDaemonConfig] changes beside its result: the environment, [DebugEnabled]
    and the logger, [None] where it is as the caller made it. *)
Inductive Formatter : Type := JSONFormatter | TextFormatter.

Record Globals : Type := mkGlobals {
  g_env : Environ;
  g_DebugEnabled : bool;
  g_formatter : option Formatter;
  g_level : option Z
}.

Notation "'let?' x ':=' e 'in' k" :=
  (match e with Err err => Err err | Ok x => k end) (at level 10, x pattern, k at level 200).

(** [logrus.DebugLevel] *)
Definition logrusDebug : Z := 5.

Definition setupLog (pr : Process) (g : Globals) : result unit * Globals :=
  let env := g_env g in
  let logFormat := Getenv env "GUBER_LOG_FORMAT" in
  let format :=
    if String.eqb logFormat "" then Ok (g_formatter g)
    else if String.eqb logFormat "json" then Ok (Some JSONFormatter)
    else if String.eqb logFormat "text" then Ok (Some TextFormatter)
    else Err (ErrNew "GUBER_LOG_FORMAT is invalid; expected value is either json or text") in
  match format with
  | Err e => (Err e, g)
  | Ok fm =>
      let debug := g_DebugEnabled g || getEnvBool env "GUBER_DEBUG" in
      let logLevel := Getenv env "GUBER_LOG_LEVEL" in
      if debug then (Ok tt, mkGlobals env debug fm (Some logrusDebug))
      else if String.eqb logLevel "" then (Ok tt, mkGlobals env debug fm (g_level g))
      else
        match pr_ParseLevel pr logLevel with
        | Err e => (Err (ErrWrap "invalid log level" e), mkGlobals env debug fm (g_level g))
        | Ok l => (Ok tt, mkGlobals env debug fm (Some l))
        end
  end.

Definition choices : list string := ["member-list"; "k8s"; "etcd"; "dns"; "none"].

Definition discoveryType (env : Environ) : result string :=
  let t := SetDefaultS (Getenv env "GUBER_PEER_DISCOVERY_TYPE") "member-list" in
  if bool_decide (t ∈ choices) then Ok t
  else Err (ErrNew ("GUBER_PEER_DISCOVERY_TYPE is invalid; choices are [" +:+ Join "," choices +:+ "]`")).

(** The host to advertise, which stays empty under [k8s], and the address. *)
Definition advertise (pr : Process) (discovery addr : string) : result (string * string) :=
  if String.eqb discovery "k8s" then Ok ("", addr)
  else
    match SplitHostPort addr with
    | Err e => Err (ErrWrap "GUBER_ADVERTISE_ADDRESS is invalid; expected format is `address:port`" e)
    | Ok (advAddr, advPort) =>
        match ResolveHostIP (pr_host pr) advAddr with
        | Err e => Err (ErrWrap "failed to discover host ip for GUBER_ADVERTISE_ADDRESS" e)
        | Ok advAddr => Ok (advAddr, JoinHostPort advAddr advPort)
        end
    end.

Definition behaviors `{Arch} (env : Environ) : BehaviorConfig :=
  mkBehaviorConfig (getEnvDuration env "GUBER_BATCH_TIMEOUT") (getEnvDuration env "GUBER_BATCH_WAIT")
    (getEnvInteger env "GUBER_BATCH_LIMIT") (getEnvBool env "GUBER_DISABLE_BATCHING")
    (getEnvDuration env "GUBER_GLOBAL_SYNC_WAIT") (getEnvDuration env "GUBER_GLOBAL_TIMEOUT")
    (getEnvInteger env "GUBER_GLOBAL_BATCH_LIMIT") (getEnvBool env "GUBER_FORCE_GLOBAL")
    0 (getEnvDuration env "GUBER_SCHEDULE_MAX_WAIT").

Definition clientAuthTypes : list (string * ClientAuthType) :=
  [("request-cert", RequestClientCert); ("verify-cert", VerifyClientCertIfGiven);
   ("require-any-cert", RequireAnyClientCert); ("require-and-verify", RequireAndVerifyClientCert)].

Definition assoc {A} (k : string) (l : list (string * A)) : option A :=
  snd <$> find (fun p => String.eqb (fst p) k) l.

Definition clientAuthOf (pr : Process) (env : Environ) : result ClientAuthType :=
  let v := Getenv env "GUBER_TLS_CLIENT_AUTH" in
  if String.eqb v "" then Ok NoClientCert
  else
    match assoc v clientAuthTypes with
    | Some t => Ok t
    | None => Err (ErrNew ("'GUBER_TLS_CLIENT_AUTH=" +:+ v +:+ "' is invalid; choices are [" +:+
                     Join "," (pr_range pr (fst <$> clientAuthTypes)) +:+ "]"))
    end.

Definition tlsConfig (pr : Process) (env : Environ) : result (option TLSFiles) :=
  if negb (anyHasPrefix "GUBER_TLS_" env) then Ok None
  else
    let? auth := clientAuthOf pr env in
    Ok (Some (mkTLSFiles (Getenv env "GUBER_TLS_CA") (Getenv env "GUBER_TLS_CA_KEY")
      (Getenv env "GUBER_TLS_KEY") (Getenv env "GUBER_TLS_CERT") (getEnvBool env "GUBER_TLS_AUTO")
      (getEnvMinVersion env "GUBER_TLS_MIN_VERSION") auth
      (Getenv env "GUBER_TLS_CLIENT_AUTH_CA_CERT") (Getenv env "GUBER_TLS_CLIENT_AUTH_KEY")
      (Getenv env "GUBER_TLS_CLIENT_AUTH_CERT") (getEnvBool env "GUBER_TLS_INSECURE_SKIP_VERIFY")
      (Getenv env "GUBER_TLS_CLIENT_AUTH_SERVER_NAME"))).

Definition orSlice (v d : list string) : list string := match v with [] => d | _ => v end.

(** The pool has no client before the daemon connects one. *)
Definition etcdConfig `{Arch} (env : Environ) (advertiseAddress dataCenter : string) : EtcdPoolConfig * EtcdClientConf :=
  (mkEtcdConf
     (mkPeerInfo (SetDefaultS (Getenv env "GUBER_ETCD_DATA_CENTER") dataCenter) ""
        (SetDefaultS (Getenv env "GUBER_ETCD_ADVERTISE_ADDRESS") advertiseAddress) false)
     false (SetDefaultS (Getenv env "GUBER_ETCD_KEY_PREFIX") "/gubernator-peers"),
   mkEtcdClient (orSlice (getEnvSlice env "GUBER_ETCD_ENDPOINTS") ["localhost:2379"])
     (SetDefaultZ (getEnvDuration env "GUBER_ETCD_DIAL_TIMEOUT") (5 * Second))
     (Getenv env "GUBER_ETCD_USER") (Getenv env "GUBER_ETCD_PASSWORD") None).

(** [SetDefault] of a boolean takes the first of its values that is true. *)
Definition SetDefaultB (b d : bool) : bool := if b then b else d.

Definition memberListConfig (env : Environ) (advAddr advertiseAddress dataCenter : string) : MemberListPoolConfig :=
  mkMLPoolConfig
    (mkPeerInfo dataCenter "" (SetDefaultS (Getenv env "GUBER_MEMBERLIST_ADVERTISE_ADDRESS") advertiseAddress) false)
    (Getenv env "GUBER_MEMBERLIST_BIND_ADDRESS")
    (SetDefaultS (Getenv env "GUBER_MEMBERLIST_ADDRESS") (advAddr +:+ ":7946"))
    (getEnvSlice env "GUBER_MEMBERLIST_KNOWN_NODES")
    (Getenv env "GUBER_MEMBERLIST_NODE_NAME")
    (mkEncryption (getEnvSlice env "GUBER_MEMBERLIST_SECRET_KEYS")
       (SetDefaultB (getEnvBool env "GUBER_MEMBERLIST_GOSSIP_VERIFY_INCOMING") true)
       (SetDefaultB (getEnvBool env "GUBER_MEMBERLIST_GOSSIP_VERIFY_OUTGOING") true)).

Definition k8sConfig (env : Environ) : result K8sPoolConfig :=
  match WatchMechanismFromString (Getenv env "GUBER_K8S_WATCH_MECHANISM") with
  | Err _ => Err (ErrNew ("invalid value for watch mechanism " +:+
               "`GUBER_K8S_WATCH_MECHANISM` needs to be either 'endpointslices' or 'pods' (defaults to 'endpointslices')"))
  | Ok mechanism =>
      Ok (mkK8sConf mechanism (SetDefaultS (Getenv env "GUBER_K8S_NAMESPACE") "default")
            (SetDefaultS (Getenv env "GUBER_K8S_SELECTOR") (Getenv env "GUBER_K8S_ENDPOINTS_SELECTOR"))
            (Getenv env "GUBER_K8S_SERVICE_NAME") (Getenv env "GUBER_K8S_POD_IP") (Getenv env "GUBER_K8S_POD_PORT"))
  end.

(** Under [dns] the data center is made a fully qualified name. *)
Definition dataCenterOf `{DNSLib} (discovery dataCenter : string) : string :=
  if String.eqb discovery "dns" && negb (String.eqb dataCenter "") then Fqdn dataCenter else dataCenter.

Definition dnsConfig (env : Environ) (advertiseAddress dataCenter : string) : DNSPoolConfig :=
  mkDNSPoolConfig (Getenv env "GUBER_DNS_FQDN") (SetDefaultS (Getenv env "GUBER_RESOLV_CONF") "/etc/resolv.conf")
    [] advertiseAddress dataCenter.

Definition hashFuncs : list (string * HashName) := [("fnv1a", Fnv1a); ("fnv1", Fnv1)].

Definition pickerConfig (pr : Process) (env : Environ) : result (option PickerConf) :=
  let pp := Getenv env "GUBER_PEER_PICKER" in
  if String.eqb pp "" then Ok None
  else if String.eqb pp "replicated-hash" then
    let replicas := SetDefaultZ (getEnvInteger env "GUBER_REPLICATED_HASH_REPLICAS") defaultReplicas in
    let hash := SetDefaultS (Getenv env "GUBER_PEER_PICKER_HASH") "fnv1a" in
    match assoc hash hashFuncs with
    | Some fn => Ok (Some (mkPickerConf fn replicas))
    | None => Err (ErrNew ("'GUBER_PEER_PICKER_HASH=" +:+ hash +:+ "' is invalid; choices are [" +:+
                     Join "," (pr_range pr (fst <$> hashFuncs)) +:+ "]"))
    end
  else Err (ErrNew ("'GUBER_PEER_PICKER=" +:+ pp +:+ "' is invalid; choices are ['replicated-hash', 'consistent-hash']")).

(** The checks of what a pool cannot do without, made when a variable of it is set. *)
Definition checkPools (env : Environ) (k8 : K8sPoolConfig) (ml : MemberListPoolConfig) : result unit :=
  let k8s :=
    if negb (anyHasPrefix "GUBER_K8S_" env) then Ok tt
    else if String.eqb (kc_Mechanism k8) WatchEndpointSlices || String.eqb (kc_Mechanism k8) "" then
      if String.eqb (kc_ServiceName k8) "" then
        Err (ErrNew ("when using k8s for peer discovery with endpointslices, " +:+
          "you MUST provide `GUBER_K8S_SERVICE_NAME` to identify the Service"))
      else Ok tt
    else if String.eqb (kc_Mechanism k8) WatchPods then
      if String.eqb (kc_Selector k8) "" then
        Err (ErrNew ("when using k8s for peer discovery with pods, " +:+
          "you MUST provide `GUBER_K8S_SELECTOR` to select the gubernator pods"))
      else Ok tt
    else Ok tt in
  let? _ := k8s in
  if anyHasPrefix "GUBER_MEMBERLIST_" env && (length (mp_KnownNodes ml) =? 0)%nat then
    Err (ErrNew ("when using `member-list` for peer discovery, you MUST provide a " +:+
      "hostname of a known host in the cluster via `GUBER_MEMBERLIST_KNOWN_NODES`"))
  else Ok tt.

Definition setupEtcdTLS (pr : Process) (env : Environ) (conf : EtcdClientConf) : result EtcdClientConf :=
  let cert := Getenv env "GUBER_ETCD_TLS_CERT" in
  let key := Getenv env "GUBER_ETCD_TLS_KEY" in
  let ca := Getenv env "GUBER_ETCD_TLS_CA" in
  let? roots :=
    (if String.eqb ca "" then Ok None
     else match pr_ReadFile pr ca with
          | Ok pem => Ok (Some pem)
          | Err e => Err (ErrWrap ("while loading cert CA file '" +:+ ca +:+ "'") e)
          end) in
  let? pair_ :=
    (if String.eqb cert "" || String.eqb key "" then Ok None
     else match pr_LoadX509KeyPair pr cert key with
          | Ok _ => Ok (Some (cert, key))
          | Err e => Err (ErrWrap ("while loading cert '" +:+ cert +:+ "' and key file '" +:+ key +:+ "'") e)
          end) in
  let skip := negb (String.eqb (Getenv env "GUBER_ETCD_TLS_SKIP_VERIFY") "") in
  Ok (mkEtcdClient (cl_Endpoints conf) (cl_DialTimeout conf) (cl_Username conf) (cl_Password conf)
        (Some (mkEtcdTLS roots pair_ skip))).

(** ** The whole configuration *)

(** From the environment, once the instance's name is known. *)
Definition configOf `{Arch, DNSLib} (pr : Process) (id : string) (env : Environ) : result DaemonConfig :=
  let grpc := SetDefaultS (Getenv env "GUBER_GRPC_ADDRESS") (LocalHost pr env +:+ ":1051") in
  let http := SetDefaultS (Getenv env "GUBER_HTTP_ADDRESS") (LocalHost pr env +:+ ":1050") in
  let dc := Getenv env "GUBER_DATA_CENTER" in
  let? discovery := discoveryType env in
  let? adv := advertise pr discovery (SetDefaultS (Getenv env "GUBER_ADVERTISE_ADDRESS") grpc) in
  let? tls := tlsConfig pr env in
  let etcd := etcdConfig env adv.2 dc in
  let ml := memberListConfig env adv.1 adv.2 dc in
  let? k8 := k8sConfig env in
  let dc' := dataCenterOf discovery dc in
  let? picker := pickerConfig pr env in
  let? _ := checkPools env k8 ml in
  let? client := (if anyHasPrefix "GUBER_ETCD_TLS_" env then setupEtcdTLS pr env etcd.2 else Ok etcd.2) in
  Ok (mkDaemonConfig grpc http (Getenv env "GUBER_STATUS_HTTP_ADDRESS")
        (getEnvInteger env "GUBER_GRPC_MAX_CONN_AGE_SEC") (getEnvInteger env "GUBER_GRACEFUL_TERMINATION_DELAY_SEC")
        adv.2 (SetDefaultZ (getEnvInteger env "GUBER_CACHE_SIZE") 50000) (getEnvInteger env "GUBER_WORKER_COUNT")
        (behaviors env) dc' discovery (etcd.1, client) k8 (dnsConfig env adv.2 dc') ml picker tls
        (getEnvMetricFlags env "GUBER_METRIC_FLAGS") id (GetTracingLevel env)).

(** [SetupDaemonConfig]; the partly filled configuration that accompanies an error is
    not part of the result. *)
Definition SetupDaemonConfig `{Arch, DNSLib} (pr : Process) (configFile : option ConfigFile) (g : Globals)
    : outcome (result DaemonConfig * Globals) :=
  let '(read, env) := match configFile with
                      | None => (Ok tt, g_env g)
                      | Some f => fromEnvFile f (g_env g)
                      end in
  let g := mkGlobals env (g_DebugEnabled g) (g_formatter g) (g_level g) in
  match read with
  | Err e => Ret (Err e, g)
  | Ok _ =>
      match setupLog pr g with
      | (Err e, g) => Ret (Err e, g)
      | (Ok _, g) =>
          match GetInstanceID pr env with
          | Panic why => Panic why
          | Ret id => Ret (configOf pr id env, g)
          end
      end
  end.

(** ** The configuration file, written and read *)

Inductive fileLine : Type := Comment (text : string) | Assign (key value : string).

Definition printLine (l : fileLine) : string :=
  match l with Comment text => "#" +:+ text | Assign k v => k +:+ "=" +:+ v end.

Definition newline : ascii := "010".

(** Entries the format can express: no blanks around key and value, no line breaks. *)
Definition line_ok (l : fileLine) : bool :=
  negb (contains newline (printLine l)) &&
  match l with
  | Comment _ => true
  | Assign k v =>
      negb (String.eqb k "" || contains "=" k || contains nul k || contains nul v || skipped k) &&
      String.eqb (TrimSpace k) k && String.eqb (TrimSpace v) v
  end.

Definition assignLine (env : Environ) (l : fileLine) : Environ :=
  match l with Comment _ => env | Assign k v => <[k := v]> env end.

Lemma skipped_key (k v : string) : k <> "" -> skipped k = false -> skipped (k +:+ "=" +:+ v) = false.
Proof.
  intros Hk. destruct k as [|c k]; [done|]. rewrite app_cons. unfold skipped, HasPrefix, chr.
  cbn [String.prefix String.eqb]. intros H. repeat (apply orb_false_iff in H as [H ?]).
  repeat (destruct (ascii_dec _ _); [by destruct k|]). done.
Qed.

Lemma envLines_ok (ls : list fileLine) : forall i env, Forall (fun l => line_ok l = true) ls ->
  envLines i (printLine <$> ls) env = (Ok tt, foldl assignLine env ls).
Proof.
  induction ls as [|l ls IH]; intros i env Hls; [done|]. inversion Hls as [|? ? Hl Hls']; subst.
  rewrite fmap_cons. cbn [envLines foldl]. destruct l as [text|k v].
  { replace (skipped _) with true; [by apply IH|]. unfold skipped, HasPrefix. cbn [printLine].
    change ("#" +:+ text) with (String "#" text). cbn [String.prefix]. by destruct text. }
  apply andb_true_iff in Hl as [_ [[Hk Htk]%andb_true_iff Htv]%andb_true_iff].
  rewrite negb_true_iff, !orb_false_iff in Hk. destruct Hk as ((((Hne & He) & Hn) & Hnv) & Hs).
  cbn [printLine]. rewrite skipped_key by (done || by apply String.eqb_neq).
  change (k +:+ "=" +:+ v) with (k +:+ String "=" v). rewrite SplitN_step, cut_first by done. cbn [SplitN].
  apply String.eqb_eq in Htk as ->. apply String.eqb_eq in Htv as ->.
  unfold Setenv. rewrite Hne, He, Hn, Hnv. cbn [orb]. by apply IH.
Qed.

(** Reading back a written configuration file sets exactly the variables it assigns,
    in order, and passes over comments: a later line wins over an earlier one and the file
    over what the environment had. *)
Theorem env_file_roundtrip (shown : string) (ls : list fileLine) (env : Environ) :
  Forall (fun l => line_ok l = true) ls ->
  fromEnvFile (mkConfigFile shown (Ok (Join (chr 10) (printLine <$> ls)))) env = (Ok tt, foldl assignLine env ls).
Proof.
  intros Hls. unfold fromEnvFile. cbn [fl_contents]. destruct ls as [|l ls]; [done|].
  change (chr 10) with (String newline ""). rewrite Split_Join; [by apply envLines_ok|done|].
  apply Forall_fmap. eapply Forall_impl; [exact Hls|]. intros x [Hx _]%andb_true_iff. by apply negb_true_iff in Hx.
Qed.

Definition demoLines : list fileLine :=
  [Comment " peers"; Assign "GUBER_PEER_DISCOVERY_TYPE" "dns"; Assign "GUBER_DATA_CENTER" "east";
   Assign "GUBER_DATA_CENTER" "a=b"].

Lemma env_file_roundtrip_witness :
  fromEnvFile (mkConfigFile "f" (Ok (Join (chr 10) (printLine <$> demoLines)))) ∅ = (Ok tt, foldl assignLine ∅ demoLines).
Proof.
  apply env_file_roundtrip. repeat (apply Forall_cons_2; [vm_compute; reflexivity|]). apply Forall_nil_2.
Defined.

(** ** Metric flags *)

(** Setting a flag adds its bits and clearing it removes them, whatever was set. *)
Lemma flagsSet_spec (f flag : Z) (b : bool) :
  flagsSet f flag b = if b then Z.lor f flag else Z.ldiff f flag.
Proof.
  destruct b; [done|]. unfold flagsSet. apply Z.bits_inj'. intros n _.
  rewrite Z.land_spec, Z.lxor_spec, Z.ldiff_spec. by destruct (Z.testbit f n), (Z.testbit flag n).
Qed.

(** ** What a configuration that was accepted satisfies *)

(** The parts of a configuration come from the stages. *)
Lemma configOf_inv `{Arch, DNSLib} (pr : Process) (id : string) (env : Environ) (d : DaemonConfig) :
  configOf pr id env = Ok d ->
  exists advAddr addr,
    discoveryType env = Ok (d_PeerDiscoveryType d) /\
    advertise pr (d_PeerDiscoveryType d) addr = Ok (advAddr, d_AdvertiseAddress d) /\
    addr = SetDefaultS (Getenv env "GUBER_ADVERTISE_ADDRESS") (d_GRPCListenAddress d) /\
    tlsConfig pr env = Ok (d_TLS d) /\ k8sConfig env = Ok (d_K8PoolConf d) /\
    pickerConfig pr env = Ok (d_Picker d) /\
    d_DataCenter d = dataCenterOf (d_PeerDiscoveryType d) (Getenv env "GUBER_DATA_CENTER") /\
    d_MemberListPoolConf d = memberListConfig env advAddr (d_AdvertiseAddress d) (Getenv env "GUBER_DATA_CENTER") /\
    checkPools env (d_K8PoolConf d) (d_MemberListPoolConf d) = Ok tt /\
    d_DNSPoolConf d = dnsConfig env (d_AdvertiseAddress d) (d_DataCenter d) /\
    d_Behaviors d = behaviors env.
Proof.
  unfold configOf. intros Hc.
  destruct (discoveryType env) as [t|] eqn:E1; [|done].
  destruct (advertise _ _ _) as [[a addr']|] eqn:E2; [|done]. destruct (tlsConfig pr env) as [tls|] eqn:E3; [|done].
  destruct (k8sConfig env) as [k8|] eqn:E4; [|done]. destruct (pickerConfig pr env) as [pk|] eqn:E5; [|done].
  destruct (checkPools _ _ _) as [[]|] eqn:E6; [|done].
  destruct (if anyHasPrefix _ _ then _ else _) as [cl|]; [|done].
  injection Hc as <-. exists a. eexists. cbn. split_and!; done.
Qed.

Lemma setup_inv `{Arch, DNSLib} (pr : Process) (f : option ConfigFile) (g g' : Globals) (d : DaemonConfig) :
  SetupDaemonConfig pr f g = Ret (Ok d, g') -> exists id, configOf pr id (g_env g') = Ok d.
Proof.
  unfold SetupDaemonConfig. destruct (match f with None => _ | Some _ => _ end) as [[|] env]; [|done].
  destruct (setupLog pr _) as [[[]|] g1] eqn:El; [|done].
  destruct (GetInstanceID pr env) as [id|]; [|done]. intros [= Hc <-]. exists id.
  assert (g_env g1 = env) as ->; [|done].
  revert El. unfold setupLog. cbn [g_env g_DebugEnabled g_formatter g_level].
  repeat (match goal with |- context [if ?b then _ else _] => destruct b end); intros [= <-] || (destruct (pr_ParseLevel _ _); intros [= <-]) || done;
    done.
Qed.

Lemma k8sConfig_mechanism (env : Environ) (k8 : K8sPoolConfig) : k8sConfig env = Ok k8 ->
  kc_Mechanism k8 = WatchEndpointSlices \/ kc_Mechanism k8 = WatchPods.
Proof.
  unfold k8sConfig, WatchMechanismFromString. intros H.
  repeat (destruct (String.eqb _ _) in H); try done; injection H as <-; by (left + right).
Qed.

(** C25: A configuration that [SetupDaemonConfig] accepts is one its parts can work with. The
    discovery type is one of the five. Unless it is [k8s], the address advertised is the
    resolved host joined with the configured port. The watch of [k8s] can start; where a
    variable of [k8s] is set, what its mechanism selects by is set; where one of the member
    list is set, a node is known. Under [dns] the data center is fully qualified, as the
    names of the peers found are. TLS is configured exactly when a variable of it is set. *)
Theorem setup_valid `{Arch, DNSLib} (pr : Process) (f : option ConfigFile) (g g' : Globals) (d : DaemonConfig) :
  SetupDaemonConfig pr f g = Ret (Ok d, g') ->
  let env := g_env g' in
  d_PeerDiscoveryType d ∈ choices /\
  (d_PeerDiscoveryType d <> "k8s" -> exists host port ip,
     SplitHostPort (SetDefaultS (Getenv env "GUBER_ADVERTISE_ADDRESS") (d_GRPCListenAddress d)) = Ok (host, port) /\
     ResolveHostIP (pr_host pr) host = Ok ip /\ d_AdvertiseAddress d = JoinHostPort ip port) /\
  (exists watch, start (d_K8PoolConf d) = Ok watch) /\
  (anyHasPrefix "GUBER_K8S_" env = true ->
     if String.eqb (kc_Mechanism (d_K8PoolConf d)) WatchPods then kc_Selector (d_K8PoolConf d) <> ""
     else kc_ServiceName (d_K8PoolConf d) <> "") /\
  (anyHasPrefix "GUBER_MEMBERLIST_" env = true -> mp_KnownNodes (d_MemberListPoolConf d) <> []) /\
  (d_PeerDiscoveryType d = "dns" -> d_DataCenter d = "" \/ Fqdn (d_DataCenter d) = d_DataCenter d) /\
  (is_Some (d_TLS d) <-> anyHasPrefix "GUBER_TLS_" env = true).
Proof.
  intros Hs env. destruct (setup_inv _ _ _ _ _ Hs) as [id Hc].
  destruct (configOf_inv _ _ _ _ Hc) as (a & addr & E1 & E2 & -> & E3 & E4 & _ & E6 & _ & E8 & _). fold env in E1, E2, E3, E4, E6, E8.
  pose proof (k8sConfig_mechanism _ _ E4) as Hm. split_and!.
  - revert E1. unfold discoveryType. case_bool_decide; [|done]. by intros [= <-].
  - intros Hk. revert E2. unfold advertise. apply String.eqb_neq in Hk as ->.
    destruct (SplitHostPort _) as [[host port]|]; [|done]. destruct (ResolveHostIP _ host) as [ip|] eqn:Er; [|done].
    intros [= <- <-]. by exists host, port, ip.
  - unfold start. destruct Hm as [-> | ->]; by eexists.
  - revert E8. unfold checkPools. intros Hp Hx. rewrite Hx in Hp. cbn [negb] in Hp.
    destruct Hm as [Em|Em]; rewrite Em in Hp |- *; cbn in Hp |- *.
    + by destruct (String.eqb_spec (kc_ServiceName (d_K8PoolConf d)) "").
    + by destruct (String.eqb_spec (kc_Selector (d_K8PoolConf d)) "").
  - intros Hx Hn. revert E8. unfold checkPools. rewrite Hx, Hn.
    destruct (if negb _ then _ else _); by cbn.
  - intros Hd. rewrite E6, Hd. unfold dataCenterOf. cbn.
    destruct (String.eqb_spec (Getenv env "GUBER_DATA_CENTER") ""); cbn; [by left|right; apply Fqdn_idem].
  - revert E3. unfold tlsConfig. destruct (anyHasPrefix "GUBER_TLS_" env); cbn; [|by intros [= <-]; split; [intros []|]].
    destruct (clientAuthOf pr env); [|done]. intros [= <-]. split; [done|by eexists].
Qed.

(** Whatever the environment says, traffic of an encrypted member list is verified in
    both directions: setting either variable to [false] has no effect. *)
Theorem gossip_always_verified `{Arch, DNSLib} (pr : Process) (f : option ConfigFile) (g g' : Globals) (d : DaemonConfig) :
  SetupDaemonConfig pr f g = Ret (Ok d, g') ->
  ec_GossipVerifyIncoming (mp_EncryptionConfig (d_MemberListPoolConf d)) = true /\
  ec_GossipVerifyOutgoing (mp_EncryptionConfig (d_MemberListPoolConf d)) = true.
Proof.
  intros [id Hc]%setup_inv. destruct (configOf_inv _ _ _ _ Hc) as (a & addr & _ & _ & _ & _ & _ & _ & _ & -> & _).
  cbn. unfold SetDefaultB. by destruct (getEnvBool _ _), (getEnvBool _ _).
Qed.

Lemma SplitHostPort_unbracketed (host port : string) :
  contains ":" host = true -> HasPrefix host "[" = false -> contains ":" port = false ->
  exists e, SplitHostPort (host +:+ String ":" port) = Err e.
Proof.
  intros Hh Hb Hp. unfold SplitHostPort. rewrite lastCut_app by done.
  destruct host as [|c host]; [done|]. replace (HasPrefix (String c host +:+ _) "[") with false.
  - rewrite Hh. unfold addrErr. by eexists.
  - rewrite app_cons. revert Hb. unfold HasPrefix. cbn [String.prefix].
    destruct (ascii_dec _ _); [|done]. by destruct host.
Qed.

(** With an IPv6 address to advertise and no address for the member list, the default
    that is configured is one the member list refuses: the pool cannot be created. *)
Theorem member_list_ipv6_default `{Arch, DNSLib} (pr : Process) (f : option ConfigFile) (g g' : Globals) (d : DaemonConfig)
    (host port ip : string) (isIP : string -> bool) (LookupHost : string -> result (list string))
    (AddKey : string -> result unit) :
  SetupDaemonConfig pr f g = Ret (Ok d, g') ->
  d_PeerDiscoveryType d = "member-list" -> Getenv (g_env g') "GUBER_MEMBERLIST_ADDRESS" = "" ->
  SplitHostPort (SetDefaultS (Getenv (g_env g') "GUBER_ADVERTISE_ADDRESS") (d_GRPCListenAddress d)) = Ok (host, port) ->
  ResolveHostIP (pr_host pr) host = Ok ip -> contains ":" ip = true -> HasPrefix ip "[" = false ->
  exists e, mlConfig isIP LookupHost AddKey (d_MemberListPoolConf d) = Some (Err e).
Proof.
  intros [id Hc]%setup_inv Hd Hm Hs Hr Hip Hb.
  destruct (configOf_inv _ _ _ _ Hc) as (a & addr & _ & E2 & -> & _ & _ & _ & _ & -> & _).
  revert E2. unfold advertise. rewrite Hd. cbn [String.eqb Ascii.eqb Bool.eqb]. cbn. rewrite Hs, Hr. intros [= <- _].
  unfold mlConfig, splitAddress. cbn [memberListConfig mp_MemberListAddress]. rewrite Hm.
  change (SetDefaultS "" ?x) with x. destruct (SplitHostPort_unbracketed ip "7946") as [e He]; [done..|].
  change (ip +:+ ":7946") with (ip +:+ String ":" "7946"). rewrite He. by eexists.
Qed.

(** The name of the container is looked up even when the instance has been given one, and
    a shorter name than expected stops the daemon before it starts. *)
Theorem short_container_name_panics `{Arch, DNSLib} (pr : Process) (env : Environ) (pre cid : string) (lines : list string) :
  pr_cgroup pr = Some ((pre +:+ "/docker/" +:+ cid) :: lines) -> Split "/docker/" (pre +:+ "/docker/" +:+ cid) = [pre; cid] ->
  (String.length cid < 12)%nat -> (setupLog pr (mkGlobals env false None None)).1 = Ok tt ->
  exists why, SetupDaemonConfig pr None (mkGlobals env false None None) = Panic why.
Proof.
  intros Hg Hs Hl Hok. unfold SetupDaemonConfig. cbn [g_env g_DebugEnabled g_formatter g_level].
  destruct (setupLog _ _) as [r g']; cbn in Hok; subst r.
  unfold GetInstanceID, getDockerCID. rewrite Hg. cbn [scanCgroup]. rewrite Hs. unfold firstTwelve.
  apply Nat.ltb_lt in Hl as ->. by eexists.
Qed.

(** ** Examples *)

Definition demoProcess (ip : string) : Process :=
  mkProcess (mkHost (Ok "host") (fun _ => Ok [ip]) (fun _ => []) (Ok [])) "linux" None "a1b2c3d4e5" id
    (fun _ => Err (ErrNew "not a valid logrus Level")) (fun _ => Err (ErrNew "no such file"))
    (fun _ _ => Err (ErrNew "no such file")).

Definition fromEnv (env : Environ) : Globals := mkGlobals env false None None.

(** With nothing in the environment, and for any host, the daemon gets its documented
    defaults: it serves on localhost, discovers peers by the member list with no node known,
    keeps 50,000 items and leaves the behaviours to [SetDefaults]. *)
Lemma setup_defaults `{Arch, DNSLib} (pr : Process) :
  pr_GOOS pr = "linux" -> pr_cgroup pr = None ->
  SetupDaemonConfig pr None (fromEnv ∅) = Ret (Ok
    (mkDaemonConfig "localhost:1051" "localhost:1050" "" 0 0 "localhost:1051" 50000 0
       (mkBehaviorConfig 0 0 0 false 0 0 0 false 0 0) "" "member-list"
       (mkEtcdConf (mkPeerInfo "" "" "localhost:1051" false) false "/gubernator-peers",
        mkEtcdClient ["localhost:2379"] (5 * Second) "" "" None)
       (mkK8sConf WatchEndpointSlices "default" "" "" "" "")
       (mkDNSPoolConfig "" "/etc/resolv.conf" [] "localhost:1051" "")
       (mkMLPoolConfig (mkPeerInfo "" "" "localhost:1051" false) "" "localhost:7946" [] "" (mkEncryption [] true true))
       None None 0 (pr_randomID pr) InfoLevel), fromEnv ∅).
Proof.
  intros Hos Hcg. unfold SetupDaemonConfig, GetInstanceID, getDockerCID. rewrite Hcg.
  unfold configOf, LocalHost, advertise. rewrite Hos. reflexivity.
Qed.

Definition memberEnv : Environ :=
  <["GUBER_ADVERTISE_ADDRESS" := "[fd00::1]:1051"]>
  (<["GUBER_MEMBERLIST_KNOWN_NODES" := "fd00::2"]>
  (<["GUBER_MEMBERLIST_GOSSIP_VERIFY_INCOMING" := "false"]> ∅)).

Definition dnsEnv : Environ :=
  <["GUBER_PEER_DISCOVERY_TYPE" := "dns"]> (<["GUBER_DATA_CENTER" := "east"]> ∅).

(** The configuration from an environment, on a machine at the address given. *)
Definition configFor (ip : string) (env : Environ) : result DaemonConfig :=
  configOf (H := amd64) (H0 := demoDNS) (demoProcess ip) "a1b2c3d4e5" env.

Lemma setup_valid_witness : exists d,
  SetupDaemonConfig (H := amd64) (H0 := demoDNS) (demoProcess "10.0.0.1") None (fromEnv dnsEnv) = Ret (Ok d, fromEnv dnsEnv) /\
  d_DataCenter d = "east." /\ d_PeerDiscoveryType d ∈ choices.
Proof.
  eexists. split; [vm_compute; reflexivity|]. split; [reflexivity|].
  exact (proj1 (setup_valid (H := amd64) (H0 := demoDNS) (demoProcess "10.0.0.1") None (fromEnv dnsEnv) (fromEnv dnsEnv) _
    ltac:(vm_compute; reflexivity))).
Defined.

Lemma gossip_always_verified_witness : exists d,
  configFor "fd00::1" memberEnv = Ok d /\
  ec_GossipVerifyIncoming (mp_EncryptionConfig (d_MemberListPoolConf d)) = true.
Proof.
  eexists. split; [vm_compute; reflexivity|].
  exact (proj1 (gossip_always_verified (H := amd64) (H0 := demoDNS) (demoProcess "fd00::1") None (fromEnv memberEnv)
    (fromEnv memberEnv) _ ltac:(vm_compute; reflexivity))).
Defined.

Lemma member_list_ipv6_default_witness : exists d e,
  configFor "fd00::1" memberEnv = Ok d /\
  mlConfig (fun _ => true) (fun _ => Ok []) (fun _ => Ok tt) (d_MemberListPoolConf d) = Some (Err e).
Proof.
  assert (exists d, configFor "fd00::1" memberEnv = Ok d /\
    SetupDaemonConfig (H := amd64) (H0 := demoDNS) (demoProcess "fd00::1") None (fromEnv memberEnv) = Ret (Ok d, fromEnv memberEnv) /\
    d_PeerDiscoveryType d = "member-list" /\ d_GRPCListenAddress d = "localhost:1051") as (d & Hc & Hs & Hd & Hg).
  { eexists. split; [vm_compute; reflexivity|]. split; [vm_compute; reflexivity|]. split; reflexivity. }
  destruct (member_list_ipv6_default (H := amd64) (H0 := demoDNS) (demoProcess "fd00::1") None (fromEnv memberEnv)
    (fromEnv memberEnv) d "fd00::1" "1051" "fd00::1" (fun _ => true) (fun _ => Ok []) (fun _ => Ok tt)
    Hs Hd eq_refl ltac:(rewrite Hg; vm_compute; reflexivity) ltac:(vm_compute; reflexivity) eq_refl eq_refl) as [e He].
  exists d, e. exact (conj Hc He).
Defined.
