(* ===== verification/Daemon.v ===== *)
(** * The daemon ([daemon.go])

    [SpawnDaemon], [Start] and [Close] as the acquisition and release of resources:
    listening sockets, servers, the instance, the pool that discovers peers. The state is
    the daemon's fields and what the process holds; what the operating system and the
    libraries answer is the argument [Answers]. Goroutines that serve a listener close it
    when their server is stopped, also when it is stopped before they run. [Close] waits for
    the calls in progress; whether they end is the argument [Waits]. The clients of peers
    belong to the instance and are not counted among what the process holds. *)

From stdpp Require Import base gmap strings list.
From Stdlib Require Import ZArith Lia.
From S2P Require Import Prelude Types GoStrings GoTime Runtime LRUCache Store Demo Workers WorkersSpec Persist ReplicatedHash Network TLS DNSPool MemberList EtcdPool K8sPool Instance Config EnvConfig.

Local Open Scope Z_scope.
#[local] Set Warnings "-clear-no-such-hyp".

(** ** What the process holds *)

Inductive Resource : Type :=
  | Listener (addr : string)
  | StatsHandler
  | V1Instance
  | PoolWatch
  | EtcdClient
  | EtcdRegistration
  | MemberListNode
  | MemberListLog
  | TLSReloader
  | GatewayConn
  | LogWriter
  | ClientConn.

Record Held : Type := mkHeld { h_next : nat; h_map : gmap nat Resource }.

Definition nothing : Held := mkHeld 0 ∅.

Definition hold (r : Resource) (h : Held) : nat * Held :=
  (h_next h, mkHeld (S (h_next h)) (<[h_next h := r]> (h_map h))).

Definition holdAll (rs : list Resource) (h : Held) : Held := foldr (fun r h => (hold r h).2) h rs.

Definition release (i : nat) (h : Held) : Held := mkHeld (h_next h) (delete i (h_map h)).

Definition releaseAll (l : list nat) (h : Held) : Held := foldr release h l.

Definition listening (h : Held) (addr : string) : bool :=
  existsb (fun ir => match ir.2 with Listener a => String.eqb a addr | _ => false end) (map_to_list (h_map h)).

(** ** The daemon's fields *)

(** The interface [s.pool]; a member list constructor that returns neither pool nor error
    leaves a nil pointer in it, which is not a nil interface. *)
Inductive PoolField : Type :=
  | NoPool
  | K8s (i : nat) (closed : bool)
  | Etcd (i : nat)
  | DNS (i : nat)
  | MLPool (i : nat)
  | NilMemberList.

Section Daemon.
Context {Cert CPool Key Der : Type} `{Crypto Cert CPool Key Der} `{DNSLib} `{Hash64} {Sto : Type}.

(** A listener with the address it is bound to. A server is known by the listener it
    serves, if it does. The instance has its worker pool and [isClosed]. *)
Record Daemon : Type := mkDaemon {
  dm_conf : DaemonConfig;
  dm_TLS : option (TLSConfig Cert CPool);
  dm_GRPCListeners : list (nat * string);
  dm_HTTPListener : option (nat * string);
  dm_V1Server : option (nat * WorkerPool LRUCache Sto * bool);
  dm_pool : PoolField;
  dm_httpSrv : option (option nat);
  dm_httpSrvNoMTLS : option (option nat);
  dm_grpcSrvs : list (option nat);
  dm_statsHandler : option nat;
  dm_logWriter : option nat;
  dm_gwCancel : option nat;
  dm_clientConn : option nat
}.

Abbreviation St := (Daemon * Held)%type.

Definition set_conf c d := mkDaemon c (dm_TLS d) (dm_GRPCListeners d) (dm_HTTPListener d) (dm_V1Server d) (dm_pool d)
  (dm_httpSrv d) (dm_httpSrvNoMTLS d) (dm_grpcSrvs d) (dm_statsHandler d) (dm_logWriter d) (dm_gwCancel d) (dm_clientConn d).
Definition set_TLS t d := mkDaemon (dm_conf d) t (dm_GRPCListeners d) (dm_HTTPListener d) (dm_V1Server d) (dm_pool d)
  (dm_httpSrv d) (dm_httpSrvNoMTLS d) (dm_grpcSrvs d) (dm_statsHandler d) (dm_logWriter d) (dm_gwCancel d) (dm_clientConn d).
Definition set_V1Server v d := mkDaemon (dm_conf d) (dm_TLS d) (dm_GRPCListeners d) (dm_HTTPListener d) v (dm_pool d)
  (dm_httpSrv d) (dm_httpSrvNoMTLS d) (dm_grpcSrvs d) (dm_statsHandler d) (dm_logWriter d) (dm_gwCancel d) (dm_clientConn d).
Definition set_pool p d := mkDaemon (dm_conf d) (dm_TLS d) (dm_GRPCListeners d) (dm_HTTPListener d) (dm_V1Server d) p
  (dm_httpSrv d) (dm_httpSrvNoMTLS d) (dm_grpcSrvs d) (dm_statsHandler d) (dm_logWriter d) (dm_gwCancel d) (dm_clientConn d).
Definition set_stats s d := mkDaemon (dm_conf d) (dm_TLS d) (dm_GRPCListeners d) (dm_HTTPListener d) (dm_V1Server d) (dm_pool d)
  (dm_httpSrv d) (dm_httpSrvNoMTLS d) (dm_grpcSrvs d) s (dm_logWriter d) (dm_gwCancel d) (dm_clientConn d).
Definition set_gateway g d := mkDaemon (dm_conf d) (dm_TLS d) (dm_GRPCListeners d) (dm_HTTPListener d) (dm_V1Server d) (dm_pool d)
  (dm_httpSrv d) (dm_httpSrvNoMTLS d) (dm_grpcSrvs d) (dm_statsHandler d) (dm_logWriter d) g (dm_clientConn d).
Definition set_client c d := mkDaemon (dm_conf d) (dm_TLS d) (dm_GRPCListeners d) (dm_HTTPListener d) (dm_V1Server d) (dm_pool d)
  (dm_httpSrv d) (dm_httpSrvNoMTLS d) (dm_grpcSrvs d) (dm_statsHandler d) (dm_logWriter d) (dm_gwCancel d) c.
Definition set_grpc ls srvs d := mkDaemon (dm_conf d) (dm_TLS d) ls (dm_HTTPListener d) (dm_V1Server d) (dm_pool d)
  (dm_httpSrv d) (dm_httpSrvNoMTLS d) srvs (dm_statsHandler d) (dm_logWriter d) (dm_gwCancel d) (dm_clientConn d).
Definition set_http l srv no lw d := mkDaemon (dm_conf d) (dm_TLS d) (dm_GRPCListeners d) l (dm_V1Server d) (dm_pool d)
  srv no (dm_grpcSrvs d) (dm_statsHandler d) lw (dm_gwCancel d) (dm_clientConn d).

(** What is answered in one call of [Start]. [an_ctx] is the error the context ends with,
    [None] if it never does; [an_elsewhere] the addresses other processes listen on. *)
Record Answers : Type := mkAnswers {
  an_ctx : option gerror;
  an_ctxDone : bool;
  an_Register : result unit;
  an_host : Host;
  an_numCPU : Z;
  an_instanceID : string;
  an_env : Env;
  an_store : option Sto;
  an_loaded : option (result (list Ptr));
  an_listenGRPC : result string;
  an_listenGateway : result string;
  an_listenHTTP : result string;
  an_listenStatus : result string;
  an_RestConfig : result unit;
  an_NewForConfig : result unit;
  an_CacheSync : bool;
  an_etcdClient : result unit;
  an_attempt : Attempt;
  an_got : result (list string);
  an_ready : bool;
  an_resolvConf : option (result (list string));
  an_isIP : string -> bool;
  an_AddKey : string -> result unit;
  an_mlCreate : result unit;
  an_mlJoin : result unit;
  an_gatewayHandler : result unit;
  an_elsewhere : string -> bool
}.

(** ** Stages of [Start] *)

(** A stage returns or blocks for ever. *)
Inductive ended (A : Type) : Type := Returned (r : result A) | Blocks.
#[local] Arguments Returned {A} r.
#[local] Arguments Blocks {A}.

Definition Stage (A : Type) : Type := M St (ended A).

Definition andThen {A B} (m : Stage A) (k : A -> Stage B) : Stage B := fun s =>
  match m s with
  | Panic why => Panic why
  | Ret (Blocks, s) => Ret (Blocks, s)
  | Ret (Returned (Err e), s) => Ret (Returned (Err e), s)
  | Ret (Returned (Ok a), s) => k a s
  end.

#[local] Notation "'do' x <- m ; k" := (andThen m (fun x => k)) (at level 10, x pattern, k at level 200).

Definition pass {A} (a : A) : Stage A := fun s => Ret (Returned (Ok a), s).
Definition failWith {A} (e : gerror) : Stage A := fun s => Ret (Returned (Err e), s).
Definition update (f : Daemon -> Daemon) : Stage unit := fun s => Ret (Returned (Ok tt), (f s.1, s.2)).
Definition acquire (r : Resource) : Stage nat := fun s =>
  let '(i, h) := hold r s.2 in Ret (Returned (Ok i), (s.1, h)).
Definition field {A} (f : Daemon -> A) : Stage A := fun s => Ret (Returned (Ok (f s.1)), s).

(** A call that may fail, its error wrapped. *)
Definition call {A} (what : string) (r : result A) : Stage A :=
  match r with Ok a => pass a | Err e => failWith (ErrWrap what e) end.

Definition ServerTLS (d : Daemon) : option (TLSParams Cert CPool) := dm_TLS d ≫= tc_ServerTLS.

Definition hasTLS (d : Daemon) : bool := match ServerTLS d with Some _ => true | None => false end.

Definition with_AdvertiseAddress (a : string) (c : DaemonConfig) : DaemonConfig :=
  mkDaemonConfig (d_GRPCListenAddress c) (d_HTTPListenAddress c) (d_HTTPStatusListenAddress c)
    (d_GRPCMaxConnectionAgeSeconds c) (d_GracefulTerminationDelaySeconds c) a (d_CacheSize c) (d_Workers c)
    (d_Behaviors c) (d_DataCenter c) (d_PeerDiscoveryType c) (d_EtcdPoolConf c) (d_K8PoolConf c) (d_DNSPoolConf c)
    (d_MemberListPoolConf c) (d_Picker c) (d_TLS c) (d_MetricFlags c) (d_InstanceID c) (d_TraceLevel c).

(** Under [k8s] the pod's address is advertised, when it is known. *)
Definition podAddress (c : DaemonConfig) : DaemonConfig :=
  let k8 := d_K8PoolConf c in
  if String.eqb (d_PeerDiscoveryType c) "k8s" && negb (String.eqb (kc_PodIP k8) "") && negb (String.eqb (kc_PodPort k8) "")
  then with_AdvertiseAddress (JoinHostPort (kc_PodIP k8) (kc_PodPort k8)) c else c.

Definition prepare (an : Answers) : Stage unit :=
  do _ <- update (fun d => set_conf (podAddress (dm_conf d)) d);
  do _ <- call "during call to promRegister.Register()" (an_Register an);
  do i <- acquire StatsHandler;
  update (set_stats (Some i)).

(** The goroutines that reload key pairs are started also where [SetupTLS] then fails. *)
Definition setupTLS (an : Answers) : Stage unit := fun s =>
  let h := holdAll (repeat TLSReloader (reloaders (an_host an) (dm_TLS s.1))) s.2 in
  match SetupTLS (an_host an) (dm_TLS s.1) with
  | Panic why => Panic why
  | Ret (Err e) => Ret (Returned (Err e), (s.1, h))
  | Ret (Ok t) => Ret (Returned (Ok tt), (set_TLS t s.1, h))
  end.

(** The age after which connections are closed, and the grace they get, in nanoseconds. *)
Definition keepaliveParams (c : DaemonConfig) : option (Z * Z) :=
  let s := d_GRPCMaxConnectionAgeSeconds c in
  if 0 <? s then Some (mul64 Second s, mul64 Second s) else None.

(** The collectors that the metric flags ask for. *)
Definition extraCollectors (c : DaemonConfig) : list string :=
  (if flagsHas (d_MetricFlags c) FlagOSMetrics then ["process"] else []) ++
  (if flagsHas (d_MetricFlags c) FlagGolangMetrics then ["go"] else []).

(** One GRPC server, and one before it for clients with TLS. *)
Definition makeServers : Stage unit :=
  update (fun d => set_grpc (dm_GRPCListeners d)
    (dm_grpcSrvs d ++ (if hasTLS d then [None] else []) ++ [None]) d).

(** The configuration of the instance. *)
Definition instanceConf (c : DaemonConfig) : Config :=
  mkConfig (d_InstanceID c) (d_Behaviors c) (d_DataCenter c) (d_AdvertiseAddress c) (d_Workers c) (d_CacheSize c).

(** The workers and the global manager run from the moment the defaults are set; when the
    cache cannot be loaded they run on although the instance is not returned. *)
Definition newInstance (an : Answers) : Stage unit := fun s =>
  let conf := instanceConf (dm_conf s.1) in
  let h := match SetDefaults (an_numCPU an) (an_instanceID an) conf with
           | Ok _ => hold V1Instance s.2
           | Err _ => (O, s.2)
           end in
  match NewV1Instance true (an_numCPU an) (an_instanceID an) conf (an_env an) (an_store an) (an_loaded an) with
  | Panic why => Panic why
  | Ret (Err e) => Ret (Returned (Err (ErrWrap "while creating new gubernator instance" e)), (set_V1Server None s.1, h.2))
  | Ret (Ok pool) => Ret (Returned (Ok tt), (set_V1Server (Some (h.1, pool, false)) s.1, h.2))
  end.

(** Server number [n] serves the listener. *)
Definition serve (n : nat) (l : nat * string) (d : Daemon) : Daemon :=
  set_grpc (dm_GRPCListeners d ++ [l]) (<[n := Some l.1]> (dm_grpcSrvs d)) d.

Definition listenGRPC (an : Answers) : Stage unit :=
  do addr <- call "while starting GRPC listener" (an_listenGRPC an);
  do i <- acquire (Listener addr);
  update (serve 0 (i, addr)).

(** The address the gateway connects to is of no consequence to the daemon's state. *)
Definition listenGateway (an : Answers) : Stage unit :=
  do tls <- field hasTLS;
  if tls : bool then
    do addr <- call "while starting GRPC Gateway listener" (an_listenGateway an);
    do i <- acquire (Listener addr);
    update (serve 1 (i, addr))
  else
    do conf <- field dm_conf;
    do _ <- call "while resolving GRPC gateway client address" (ResolveHostIP (an_host an) (d_GRPCListenAddress conf));
    pass tt.

(** [NewK8sPool] *)
Definition newK8sPool (an : Answers) (conf : K8sPoolConfig) : result unit :=
  match an_RestConfig an with
  | Err e => Err (ErrWrap "during InClusterConfig()" e)
  | Ok _ =>
      match an_NewForConfig an with
      | Err e => Err (ErrWrap "during NewForConfig()" e)
      | Ok _ =>
          match start conf with
          | Err e => Err e
          | Ok _ => if an_CacheSync an then Ok tt else Err (ErrNew "timed out waiting for caches to sync")
          end
      end
  end.

(** The goroutine that keeps an etcd registration runs on when the pool is not made. *)
Definition abandoned {A} (started : bool) (made : result A) : Stage unit :=
  match made with
  | Err _ => if started then do _ <- acquire EtcdRegistration; pass tt else pass tt
  | Ok _ => pass tt
  end.

(** The pool; the etcd client is not closed when the pool cannot be made, nor is the node
    of a member list that could not be joined. The writer that a member list logs to is
    made before its node, and no field refers to it. *)
Definition startPool (an : Answers) : Stage unit :=
  do conf <- field dm_conf;
  let t := d_PeerDiscoveryType conf in
  if String.eqb t "k8s" then
    do _ <- call "while querying kubernetes API" (newK8sPool an (d_K8PoolConf conf));
    do i <- acquire PoolWatch;
    update (set_pool (K8s i false))
  else if String.eqb t "etcd" then
    do _ <- call "while connecting to etcd" (an_etcdClient an);
    do _ <- acquire EtcdClient;
    let ec := fst (d_EtcdPoolConf conf) in
    let ec := mkEtcdConf (ep_Advertise ec) true (ep_KeyPrefix ec) in
    let made := NewEtcdPool ec (an_attempt an) (an_got an) (an_ready an) in
    do _ <- abandoned (registers ec (an_attempt an)) made;
    do _ <- call "while creating etcd pool" made;
    do i <- acquire PoolWatch;
    update (set_pool (Etcd i))
  else if String.eqb t "dns" then
    do _ <- call "while creating the DNS pool" (NewDNSPool (d_DNSPoolConf conf) (an_resolvConf an));
    do i <- acquire PoolWatch;
    update (set_pool (DNS i))
  else if String.eqb t "member-list" then
    match mlConfig (an_isIP an) (ho_LookupHost (an_host an)) (an_AddKey an) (d_MemberListPoolConf conf) with
    | None => update (set_pool NilMemberList)
    | Some r =>
        do _ <- call "while creating member list pool" r;
        do _ <- acquire MemberListLog;
        do _ <- call "while creating member list pool" (an_mlCreate an);
        do i <- acquire MemberListNode;
        do _ <- call "while creating member list pool"
          (match joinResult (an_mlJoin an) with
           | Ok _ => Ok tt
           | Err e => Err (ErrWrap "while attempting to join the member-list pool" e)
           end);
        update (set_pool (MLPool i))
    end
  else pass tt.

(** The connection of the gateway lives as long as its context. *)
Definition startGateway (an : Answers) : Stage unit :=
  do i <- acquire GatewayConn;
  do _ <- update (set_gateway (Some i));
  call "while registering GRPC gateway handler" (an_gatewayHandler an).

(** The HTTP listener, and its server that does not serve yet. *)
Definition listenHTTP (an : Answers) : Stage unit :=
  do lw <- acquire LogWriter;
  do _ <- update (fun d => set_http (dm_HTTPListener d) (Some None) (dm_httpSrvNoMTLS d) (Some lw) d);
  match an_listenHTTP an with
  | Err e =>
      do _ <- update (fun d => set_http None (dm_httpSrv d) (dm_httpSrvNoMTLS d) (dm_logWriter d) d);
      failWith (ErrWrap "while starting HTTP listener" e)
  | Ok addr =>
      do i <- acquire (Listener addr);
      update (fun d => set_http (Some (i, addr)) (dm_httpSrv d) (dm_httpSrvNoMTLS d) (dm_logWriter d) d)
  end.

(** The server of the status address; the addresses to wait for so far. *)
Definition listenStatus (an : Answers) : Stage (list string) :=
  do tls <- field hasTLS;
  do conf <- field dm_conf;
  if (tls : bool) && negb (String.eqb (d_HTTPStatusListenAddress conf) "") then
    do _ <- update (fun d => set_http (dm_HTTPListener d) (dm_httpSrv d) (Some None) (dm_logWriter d) d);
    do addr <- call "while starting HTTP listener for health metric" (an_listenStatus an);
    do i <- acquire (Listener addr);
    do _ <- update (fun d => set_http (dm_HTTPListener d) (dm_httpSrv d) (Some (Some i)) (dm_logWriter d) d);
    pass [addr]
  else pass [].

Definition serveHTTP : Stage unit :=
  update (fun d => set_http (dm_HTTPListener d) (Some (fst <$> dm_HTTPListener d)) (dm_httpSrvNoMTLS d) (dm_logWriter d) d).

(** [WaitForConnect]: every address is tried once; after a failure the context's end is
    awaited. *)
Definition WaitForConnect (ctx : option gerror) (dial : string -> bool) (addresses : list string) : ended unit :=
  if forallb (fun a => String.eqb a "" || dial a) addresses then Returned (Ok tt)
  else match ctx with Some e => Returned (Err e) | None => Blocks end.

(** A connection succeeds where something listens and the context is not done. *)
Definition dials (an : Answers) (h : Held) (addr : string) : bool :=
  negb (an_ctxDone an) && (listening h addr || an_elsewhere an addr).

Definition awaited (d : Daemon) (status : list string) : list string :=
  (match dm_HTTPListener d with Some l => [l.2] | None => [] end) ++ status ++ (dm_GRPCListeners d).*2.

Definition waitAll (an : Answers) (status : list string) : Stage unit := fun s =>
  Ret (WaitForConnect (an_ctx an) (dials an s.2) (awaited s.1 status), s).

(** [Start]. Left out is what has no bearing on its course: the handlers and options for
    statistics and tracing, the registry of metrics, the routes of the HTTP server. *)
Definition Start (an : Answers) : Stage unit :=
  do _ <- prepare an;
  do _ <- setupTLS an;
  do _ <- makeServers;
  do _ <- newInstance an;
  do _ <- listenGRPC an;
  do _ <- listenGateway an;
  do _ <- startPool an;
  do _ <- startGateway an;
  do _ <- listenHTTP an;
  do status <- listenStatus an;
  do _ <- serveHTTP;
  waitAll an status.

(** ** Close *)

Definition optional (o : option nat) : list nat := match o with Some i => [i] | None => [] end.

(** What closing the pool stops, and the pool afterwards. A member list is left but not
    shut down; a pool of [k8s] closes its channel. *)
Definition closePool (p : PoolField) : outcome (list nat * PoolField) :=
  match p with
  | NoPool => Ret ([], NoPool)
  | K8s i false => Ret ([i], K8s i true)
  | K8s _ true => Panic "close of closed channel"
  | Etcd i => Ret ([i], Etcd i)
  | DNS i => Ret ([i], DNS i)
  | MLPool i => Ret ([], MLPool i)
  | NilMemberList => Panic "invalid memory address or nil pointer dereference"
  end.

(** What closing the instance stops: nothing if saving the cache fails. *)
Definition closeInstance (hasLoader : bool) (stored : result unit) (v : option (nat * WorkerPool LRUCache Sto * bool))
    : list nat * option (nat * WorkerPool LRUCache Sto * bool) :=
  match v with
  | None => ([], None)
  | Some (i, pool, isClosed) =>
      let '(steps, _, isClosed) := CloseInstance isClosed hasLoader stored in
      ((if existsb (fun c => match c with ClosePool => true | _ => false end) steps then [i] else []),
       Some (i, pool, isClosed))
  end.

(** Which of the calls that [Close] waits in return: the pool's goroutines end (etcd), the
    connections of the HTTP servers become idle, the calls at each GRPC server end, the
    instance closes. *)
Record Waits : Type := mkWaits {
  wt_pool : bool;
  wt_http : bool;
  wt_status : bool;
  wt_grpc : nat -> bool;
  wt_instance : bool
}.

Definition drop (l : list nat) : Stage unit := fun s => Ret (Returned (Ok tt), (s.1, releaseAll l s.2)).

Definition wait (ends : bool) : Stage unit := fun s => Ret (if ends then Returned (Ok tt) else Blocks, s).

Definition stopPool (w : Waits) : Stage unit := fun s =>
  match closePool (dm_pool s.1) with
  | Panic why => Panic why
  | Ret (stopped, p) =>
      (do _ <- wait (match dm_pool s.1 with Etcd _ => wt_pool w | _ => true end);
       do _ <- update (set_pool p);
       drop stopped) s
  end.

(** A server closes its listener, then waits. *)
Definition stopServer (srv : option (option nat)) (ends : bool) : Stage unit :=
  match srv with
  | None => pass tt
  | Some l => do _ <- drop (optional l); wait ends
  end.

Fixpoint stopServers (ends : nat -> bool) (n : nat) (srvs : list (option nat)) : Stage unit :=
  match srvs with
  | [] => pass tt
  | l :: srvs => do _ <- stopServer (Some l) (ends n); stopServers ends (S n) srvs
  end.

(** An instance that was closed before is not closed again. *)
Definition stopInstance (w : Waits) (hasLoader : bool) (stored : result unit) : Stage unit := fun s =>
  let inst := closeInstance hasLoader stored (dm_V1Server s.1) in
  (do _ <- update (set_V1Server inst.2);
   do _ <- wait (match dm_V1Server s.1 with Some (_, _, false) => wt_instance w | _ => true end);
   drop inst.1) s.

Definition clearServers (d : Daemon) : Daemon := set_grpc (dm_GRPCListeners d) [] (set_http (dm_HTTPListener d) None None (dm_logWriter d) d).

(** [Close], for a daemon with or without a loader and what saving the cache gives. The
    listeners stay in the fields. *)
Definition Close (w : Waits) (hasLoader : bool) (stored : result unit) : Stage unit :=
  do _ <- stopPool w;
  do d <- field id;
  do _ <- stopServer (dm_httpSrv d) (wt_http w);
  do _ <- stopServer (dm_httpSrvNoMTLS d) (wt_status w);
  do _ <- stopServers (wt_grpc w) 0 (dm_grpcSrvs d);
  do _ <- drop (optional (dm_logWriter d));
  do _ <- stopInstance w hasLoader stored;
  do _ <- drop (optional (dm_statsHandler d));
  do _ <- drop (optional (dm_gwCancel d));
  do _ <- update clearServers;
  do _ <- drop (optional (dm_clientConn d));
  update (set_client None).

(** A daemon before [Start]. *)
Definition newDaemon (conf : DaemonConfig) : Daemon :=
  mkDaemon conf ((fun f => mkTLSConfig f (mkPEMs None None None None None) None None) <$> d_TLS conf)
    [] None None NoPool None None [] None None None None.

Definition hasLoader (an : Answers) : bool := match an_loaded an with Some _ => true | None => false end.

Definition SpawnDaemon (an : Answers) (w : Waits) (stored : result unit) (conf : DaemonConfig) (h : Held) : outcome (ended Daemon * Held) :=
  match Start an (newDaemon conf, h) with
  | Panic why => Panic why
  | Ret (Blocks, s) => Ret (Blocks, s.2)
  | Ret (Returned (Ok _), s) => Ret (Returned (Ok s.1), s.2)
  | Ret (Returned (Err e), s) =>
      match Close w (hasLoader an) stored s with
      | Panic why => Panic why
      | Ret (Blocks, s) => Ret (Blocks, s.2)
      | Ret (Returned _, s) => Ret (Returned (Err e), s.2)
      end
  end.

(** ** Peers and clients *)

(** [Daemon.SetPeers]: the list handed to the instance. *)
Definition ownPeers (d : Daemon) (infos : list PeerInfo) : list PeerInfo :=
  (fun p => if String.eqb (d_AdvertiseAddress (dm_conf d)) (pi_GRPCAddress p) then with_IsOwner true p else p) <$> infos.

(** [Client]: a connection is made once and kept until [Close]. *)
Definition Client (connect : result unit) : Stage nat :=
  do conn <- field dm_clientConn;
  match conn : option nat with
  | Some i => pass i
  | None =>
      match connect with
      | Err e => failWith e
      | Ok _ =>
          do i <- acquire ClientConn;
          do _ <- update (set_client (Some i));
          pass i
      end
  end.

Definition MustClient (connect : result unit) : Stage nat := fun s =>
  match Client connect s with
  | Ret (Returned (Err e), s) =>
      Panic ("[" +:+ d_InstanceID (dm_conf s.1) +:+ "] failed to init daemon client - '" +:+ err_text e +:+ "'")
  | other => other
  end.

(** ** Reasoning about stages *)

(** From [P], a stage that returns a value ends in [Q], one that fails in [E]. *)
Definition triple {A} (P : St -> Prop) (m : Stage A) (Q : A -> St -> Prop) (E : St -> Prop) : Prop :=
  forall s, P s -> match m s with
                   | Ret (Returned (Ok a), s') => Q a s'
                   | Ret (Returned (Err _), s') => E s'
                   | _ => True
                   end.

Lemma triple_andThen {A B} (P : St -> Prop) (m : Stage A) (k : A -> Stage B) (R : A -> St -> Prop) Q E :
  triple P m R E -> (forall a, triple (R a) (k a) Q E) -> triple P (andThen m k) Q E.
Proof.
  intros Hm Hk s Hs. specialize (Hm s Hs). unfold andThen.
  destruct (m s) as [[[[a|e]|] s']|]; [|done..]. exact (Hk a s' Hm).
Qed.

(** The resources that closing the daemon releases. *)
Definition poolIds (p : PoolField) : list nat :=
  match p with K8s i false | Etcd i | DNS i => [i] | _ => [] end.

Definition instanceIds (v : option (nat * WorkerPool LRUCache Sto * bool)) : list nat :=
  match v with Some (i, _, false) => [i] | _ => [] end.

Definition served (d : Daemon) : list nat :=
  optional (mjoin (dm_httpSrv d)) ++ optional (mjoin (dm_httpSrvNoMTLS d)) ++ (dm_grpcSrvs d ≫= optional) ++
  optional (dm_logWriter d) ++ optional (dm_statsHandler d) ++ optional (dm_gwCancel d) ++ optional (dm_clientConn d).

Definition covered (d : Daemon) : list nat := poolIds (dm_pool d) ++ served d ++ instanceIds (dm_V1Server d).

(** What no field refers to, so that nothing releases it: the etcd client, the node of a
    member list and the writer it logs to, the goroutines that reload key pairs. *)
Definition lasting (r : Resource) : Prop :=
  r = EtcdClient \/ r = MemberListNode \/ r = MemberListLog \/ r = TLSReloader.

(** Every resource held would be released, is a lasting one, or is [pend]ing. *)
Definition accounted (pend : nat -> Resource -> Prop) (s : St) : Prop :=
  forall i r, h_map s.2 !! i = Some r -> i ∈ covered s.1 \/ lasting r \/ pend i r.

Definition nothingPending : nat -> Resource -> Prop := fun _ _ => False.

(** The fields that are still empty before stage [n]. *)
Definition untouched (n : nat) (d : Daemon) : Prop :=
  ((n <= 0)%nat -> dm_statsHandler d = None) /\ ((n <= 2)%nat -> dm_grpcSrvs d = []) /\
  ((n <= 3)%nat -> dm_V1Server d = None) /\ ((n <= 6)%nat -> dm_pool d = NoPool) /\
  ((n <= 7)%nat -> dm_gwCancel d = None) /\ ((n <= 8)%nat -> dm_logWriter d = None /\ dm_httpSrv d = None) /\
  ((n <= 9)%nat -> dm_httpSrvNoMTLS d = None) /\
  (n = 3%nat \/ n = 4%nat -> dm_grpcSrvs d = if hasTLS d then [None; None] else [None]) /\
  (n = 5%nat -> exists i, dm_grpcSrvs d = if hasTLS d then [Some i; None] else [Some i]).

Definition inv (n : nat) (s : St) : Prop := untouched n s.1 /\ accounted nothingPending s.

Lemma lookup_hold (r : Resource) (h : Held) (i : nat) (r' : Resource) :
  h_map (hold r h).2 !! i = Some r' -> i = h_next h /\ r' = r \/ h_map h !! i = Some r'.
Proof.
  unfold hold. cbn. intros [[<- <-]|[_ ?]]%lookup_insert_Some; [by left|by right].
Qed.

Lemma accounted_update (pend pend' : nat -> Resource -> Prop) (d d' : Daemon) (h : Held) :
  accounted pend (d, h) -> covered d ⊆ covered d' ->
  (forall i r, pend i r -> i ∈ covered d' \/ pend' i r) -> accounted pend' (d', h).
Proof. intros Ha Hc Hp i r Hi. destruct (Ha i r Hi) as [?|[?|Hpend]]; [by left; apply Hc|by right; left|]. destruct (Hp i r Hpend); [by left|by do 2 right]. Qed.

(** A resource taken that a field refers to afterwards. *)
Lemma accounted_hold (pend pend' : nat -> Resource -> Prop) (d d' : Daemon) (h : Held) (r : Resource) :
  accounted pend (d, h) -> covered d ⊆ covered d' -> (forall i x, pend i x -> pend' i x) ->
  h_next h ∈ covered d' \/ lasting r \/ pend' (h_next h) r -> accounted pend' (d', (hold r h).2).
Proof.
  intros Ha Hc Hp Hr i x [[-> ->]|Hi]%lookup_hold; [exact Hr|].
  destruct (Ha i x Hi) as [?|[?|?]]; [by left; apply Hc|by right; left|do 2 right; auto].
Qed.

Lemma accounted_holdAll (pend : nat -> Resource -> Prop) (d : Daemon) (h : Held) (r : Resource) (n : nat) :
  lasting r -> accounted pend (d, h) -> accounted pend (d, holdAll (repeat r n) h).
Proof. intros Hr Ha. induction n as [|n IH]; [done|]. eapply (accounted_hold pend pend d d); [exact IH|done|done|by right; left]. Qed.

(** Splits [inv] and keeps what it says of this stage. *)
Ltac openInv :=
  let d := fresh "d" in let h := fresh "h" in let U := fresh "U" in
  intros [d h] [U Hacc]; unfold untouched in U; cbn [fst snd] in *; destruct_and! U;
  repeat match goal with
    | H : (_ <= _)%nat -> _ |- _ => first [specialize (H ltac:(lia)) | clear H]
    | H : _ = _ \/ _ = _ -> _ |- _ => first [specialize (H ltac:(lia)) | clear H]
    | H : ?n = ?m -> exists _, _ |- _ => first [specialize (H eq_refl) as [? ?] | clear H]
    end; destruct_and?.

Ltac emptyFields := unfold untouched, set_conf, set_TLS, set_stats, set_V1Server, set_pool, set_gateway, set_grpc, set_http, serve;
  cbn; split_and!; intros; try lia; eauto.

Ltac coverage := unfold covered, served, set_conf, set_TLS, set_stats, set_V1Server, set_pool, set_gateway, set_grpc, set_http, serve;
  cbn; repeat match goal with H : _ = _ |- _ => rewrite H end; cbn; set_solver.

Lemma prepare_inv (an : Answers) : triple (inv 0) (prepare an) (fun _ => inv 1) (accounted nothingPending).
Proof.
  openInv. unfold prepare, andThen, update, call. cbn. destruct (an_Register an); cbn.
  - split; [emptyFields|]. eapply accounted_hold; [exact Hacc|coverage|done|left; coverage].
  - eapply accounted_update; [exact Hacc|coverage|done].
Qed.

Lemma setupTLS_inv (an : Answers) : triple (inv 1) (setupTLS an) (fun _ => inv 2) (accounted nothingPending).
Proof.
  openInv. unfold setupTLS. cbn [fst snd]. set (n := reloaders _ _).
  assert (accounted nothingPending (d, holdAll (repeat TLSReloader n) h)) as Hall
    by (apply accounted_holdAll; [by do 3 right|exact Hacc]).
  destruct (SetupTLS _ _) as [[t|e]|]; [|exact Hall|done].
  split; [emptyFields|]. eapply accounted_update; [exact Hall|coverage|done].
Qed.

Lemma makeServers_inv : triple (inv 2) makeServers (fun _ => inv 3) (accounted nothingPending).
Proof.
  openInv. split.
  - emptyFields. match goal with H : dm_grpcSrvs _ = [] |- _ => rewrite H end.
    unfold hasTLS, ServerTLS. cbn. by destruct (dm_TLS d ≫= tc_ServerTLS).
  - eapply accounted_update; [exact Hacc|coverage|done].
Qed.

(** Without a loader, the instance is refused only for its configuration. *)
Lemma newInstance_inv (an : Answers) : an_loaded an = None ->
  triple (inv 3) (newInstance an) (fun _ => inv 4) (accounted nothingPending).
Proof.
  intros Hl. openInv. unfold newInstance, NewV1Instance. cbn [negb fst snd]. rewrite Hl.
  destruct (SetDefaults _ _ _) as [c|e]; [|eapply accounted_update; [exact Hacc|coverage|done]].
  destruct (NewWorkerPool _ _ _ _) as [pool|]; [|done]. split; [emptyFields|].
  eapply accounted_hold; [exact Hacc|coverage|done|left; coverage].
Qed.

Lemma listenGRPC_inv (an : Answers) : triple (inv 4) (listenGRPC an) (fun _ => inv 5) (accounted nothingPending).
Proof.
  openInv. unfold listenGRPC, andThen, call. destruct (an_listenGRPC an) as [addr|e]; cbn; [|exact Hacc].
  split.
  - emptyFields. match goal with H : dm_grpcSrvs _ = _ |- _ => rewrite H end.
    unfold hasTLS, ServerTLS. cbn. exists (h_next h). by destruct (dm_TLS d ≫= tc_ServerTLS).
  - eapply accounted_hold; [exact Hacc| |done|left]; unfold hasTLS in *; destruct (ServerTLS d); coverage.
Qed.

Lemma listenGateway_inv (an : Answers) : triple (inv 5) (listenGateway an) (fun _ => inv 6) (accounted nothingPending).
Proof.
  openInv. unfold listenGateway, andThen, field, call. cbn. destruct (hasTLS d).
  - destruct (an_listenGateway an) as [addr|e]; cbn; [|exact Hacc]. split; [emptyFields|].
    eapply accounted_hold; [exact Hacc| |done|left]; coverage.
  - cbn. destruct (ResolveHostIP _ _); cbn; [|exact Hacc]. split; [emptyFields|exact Hacc].
Qed.

(** The last step of a pool's construction. *)
Lemma poolWatch_inv (p : nat -> PoolField) : (forall i, poolIds (p i) = [i]) ->
  triple (inv 6) (do i <- acquire PoolWatch; update (set_pool (p i))) (fun _ => inv 7) (accounted nothingPending).
Proof.
  intros Hp. openInv. cbn. split; [emptyFields|].
  eapply accounted_hold; [exact Hacc| |done|left]; unfold covered, served, set_pool; cbn; rewrite Hp; [|set_solver].
  match goal with H : dm_pool _ = NoPool |- _ => rewrite H end. set_solver.
Qed.

Lemma call_inv {A} (n : nat) (what : string) (r : result A) :
  triple (inv n) (call what r) (fun _ => inv n) (accounted nothingPending).
Proof. intros s [U Ha]. by destruct r. Qed.

Lemma acquire_inv (n : nat) (r : Resource) : lasting r ->
  triple (inv n) (acquire r) (fun _ => inv n) (accounted nothingPending).
Proof.
  intros Hr [d h] [U Ha]. cbn. split; [exact U|].
  eapply (accounted_hold _ _ d d h r); [exact Ha|done|done|by right; left].
Qed.

(** The HTTP listener before its server serves it. *)
Definition unserved (an : Answers) (d : Daemon) : nat -> Resource -> Prop := fun i r =>
  exists addr, dm_HTTPListener d = Some (i, addr) /\ r = Listener addr /\ an_listenHTTP an = Ok addr.

(** It stays so when the listener of the status address is refused; and an etcd registration
    is kept up when the peers cannot be watched. *)
Definition leftOver (an : Answers) (d : Daemon) : nat -> Resource -> Prop := fun i r =>
  unserved an d i r /\ hasTLS d = true /\ d_HTTPStatusListenAddress (dm_conf d) <> "" /\ (exists e, an_listenStatus an = Err e) \/
  r = EtcdRegistration /\ (exists lease, an_attempt an = Registered lease) /\ ((exists e, an_got an = Err e) \/ an_ready an = false).

Definition failed (an : Answers) (s : St) : Prop := accounted (leftOver an s.1) s.

Lemma accounted_failed (an : Answers) (s : St) : accounted nothingPending s -> failed an s.
Proof. intros Ha i r Hi. destruct (Ha i r Hi) as [?|[?|[]]]; auto. Qed.

Lemma triple_failed {A} (P : St -> Prop) (m : Stage A) Q (an : Answers) :
  triple P m Q (accounted nothingPending) -> triple P m Q (failed an).
Proof.
  intros Hm s Hs. specialize (Hm s Hs). destruct (m s) as [[[[a|e]|] s']|]; [done|by apply accounted_failed|done|done].
Qed.

(** The etcd pool, registered or not. *)
Lemma etcdPool_inv (an : Answers) (ec : EtcdPoolConfig) :
  let made := NewEtcdPool ec (an_attempt an) (an_got an) (an_ready an) in
  triple (inv 6) (do _ <- abandoned (registers ec (an_attempt an)) made; do _ <- call "while creating etcd pool" made;
    do i <- acquire PoolWatch; update (set_pool (Etcd i))) (fun _ => inv 7) (failed an).
Proof.
  intros made. destruct made as [x|e] eqn:Em.
  { eapply (triple_andThen _ _ _ (fun _ => inv 6)); [by intros s Hs|intros ?]. eapply triple_andThen; [apply triple_failed, call_inv|intros ?].
    by apply triple_failed, poolWatch_inv. }
  unfold abandoned. destruct (registers ec _) eqn:Er; [|intros s [_ Ha]; by apply accounted_failed].
  destruct (registers_refused _ _ _ _ _ Er Em) as [Ha Hw]. intros [d h] [_ Hacc]. unfold failed. cbn.
  eapply (accounted_hold _ _ d d h EtcdRegistration Hacc); [done|done|]. do 2 right. by right.
Qed.

(** Stages in sequence, each by its lemma. *)
Ltac stages := repeat first
  [ eapply triple_andThen; [solve [apply triple_failed, call_inv | apply triple_failed, acquire_inv; unfold lasting; auto]|intros ?]
  | apply etcdPool_inv | apply triple_failed, poolWatch_inv; reflexivity ].

Lemma set_pool_inv (p : PoolField) : poolIds p = [] ->
  triple (inv 6) (update (set_pool p)) (fun _ => inv 7) (accounted nothingPending).
Proof.
  intros Hp. openInv. split; [emptyFields|]. eapply accounted_update; [exact Hacc| |done].
  unfold covered, served, set_pool. cbn. rewrite Hp. match goal with H : dm_pool _ = NoPool |- _ => rewrite H end. done.
Qed.

Lemma startPool_inv (an : Answers) : triple (inv 6) (startPool an) (fun _ => inv 7) (failed an).
Proof.
  unfold startPool. eapply (triple_andThen _ _ _ (fun _ => inv 6)); [intros s Hs; exact Hs|intros conf].
  destruct (String.eqb _ "k8s"); [stages|]. destruct (String.eqb _ "etcd"); [stages|].
  destruct (String.eqb _ "dns"); [stages|]. destruct (String.eqb _ "member-list").
  - destruct (mlConfig _ _ _ _); [stages|]; by apply triple_failed, set_pool_inv.
  - openInv. split; [emptyFields|exact Hacc].
Qed.

Lemma startGateway_inv (an : Answers) : triple (inv 7) (startGateway an) (fun _ => inv 8) (accounted nothingPending).
Proof.
  openInv. unfold startGateway, andThen, call. cbn.
  assert (accounted nothingPending (set_gateway (Some (h_next h)) d, (hold GatewayConn h).2)) as Hall
    by (eapply accounted_hold; [exact Hacc| |done|left]; coverage).
  destruct (an_gatewayHandler an); cbn; [|exact Hall]. split; [emptyFields|exact Hall].
Qed.

Lemma listenHTTP_inv (an : Answers) :
  triple (inv 8) (listenHTTP an) (fun _ s => untouched 9 s.1 /\ dm_httpSrv s.1 = Some None /\ accounted (unserved an s.1) s) (failed an).
Proof.
  openInv. unfold listenHTTP. cbn.
  assert (accounted nothingPending (set_http (dm_HTTPListener d) (Some None) (dm_httpSrvNoMTLS d) (Some (h_next h)) d, (hold LogWriter h).2)) as Hlw.
  { eapply accounted_hold; [exact Hacc|coverage|done|left; coverage]. }
  destruct (an_listenHTTP an) as [addr|e] eqn:El; cbn.
  - split; [emptyFields|]. split; [done|]. refine (accounted_hold _ _ _ _ _ (Listener addr) Hlw _ _ _); [done|done|].
    do 2 right. by exists addr.
  - apply accounted_failed. eapply accounted_update; [exact Hlw|coverage|done].
Qed.

Lemma listenStatus_inv (an : Answers) :
  triple (fun s => untouched 9 s.1 /\ dm_httpSrv s.1 = Some None /\ accounted (unserved an s.1) s) (listenStatus an)
    (fun _ s => dm_httpSrv s.1 = Some None /\ accounted (unserved an s.1) s) (failed an).
Proof.
  intros [d h] (U & Hs & Ha). cbn [fst snd] in *. assert (dm_httpSrvNoMTLS d = None) as Hno by (apply U; lia).
  unfold listenStatus, andThen, field. cbn. destruct (hasTLS d) eqn:Et; [|done].
  destruct (String.eqb_spec (d_HTTPStatusListenAddress (dm_conf d)) "") as [|Hne]; [done|]. cbn.
  assert (covered d ⊆ covered (set_http (dm_HTTPListener d) (dm_httpSrv d) (Some None) (dm_logWriter d) d)) as Hc by coverage.
  destruct (an_listenStatus an) as [addr|e] eqn:El; cbn.
  - split; [done|]. eapply accounted_hold; [exact Ha|coverage|done|left; coverage].
  - eapply accounted_update; [exact Ha|exact Hc|]. intros i r Hu. right. left. split; [exact Hu|]. split; [exact Et|].
    split; [exact Hne|by exists e].
Qed.

Lemma serveHTTP_inv (an : Answers) :
  triple (fun s => dm_httpSrv s.1 = Some None /\ accounted (unserved an s.1) s) serveHTTP
    (fun _ => accounted nothingPending) (failed an).
Proof.
  intros [d h] (Hs & Ha). cbn [fst snd] in *. eapply accounted_update; [exact Ha|coverage|].
  intros i r (addr & Hl & _). left. coverage.
Qed.

(** The state [Start] ends in, from a daemon with nothing in its fields. *)
Lemma Start_inv (an : Answers) : an_loaded an = None ->
  triple (inv 0) (Start an) (fun _ => accounted nothingPending) (failed an).
Proof.
  intros Hl. unfold Start.
  eapply triple_andThen; [apply triple_failed, prepare_inv|intros ?].
  eapply triple_andThen; [apply triple_failed, setupTLS_inv|intros ?].
  eapply triple_andThen; [apply triple_failed, makeServers_inv|intros ?].
  eapply triple_andThen; [by apply triple_failed, newInstance_inv|intros ?].
  eapply triple_andThen; [apply triple_failed, listenGRPC_inv|intros ?].
  eapply triple_andThen; [apply triple_failed, listenGateway_inv|intros ?].
  eapply triple_andThen; [apply startPool_inv|intros ?].
  eapply triple_andThen; [apply triple_failed, startGateway_inv|intros ?].
  eapply triple_andThen; [apply listenHTTP_inv|intros ?].
  eapply triple_andThen; [apply listenStatus_inv|intros status].
  eapply triple_andThen; [apply serveHTTP_inv|intros ?].
  intros s Ha. unfold waitAll, WaitForConnect. destruct (forallb _ _); [exact Ha|].
  destruct (an_ctx an); [by apply accounted_failed|done].
Qed.

(** *** Closing *)

Lemma lookup_releaseAll (l : list nat) (h : Held) (i : nat) (r : Resource) :
  h_map (releaseAll l h) !! i = Some r -> (i ∉ l) /\ h_map h !! i = Some r.
Proof.
  induction l as [|j l IH]; cbn; [intros Hi; split; [set_solver|done]|].
  intros [Hne Hi]%lookup_delete_Some. destruct (IH Hi). split; [set_solver|done].
Qed.

Lemma closeInstance_ids (stored : result unit) (v : option (nat * WorkerPool LRUCache Sto * bool)) :
  (closeInstance false stored v).1 = instanceIds v.
Proof. by destruct v as [[[i pool] []]|]. Qed.

Lemma closePool_ids (p p' : PoolField) (l : list nat) : closePool p = Ret (l, p') -> l = poolIds p.
Proof. destruct p as [|i []| | | |]; cbn; congruence. Qed.

Lemma releaseAll_app (l l' : list nat) (h : Held) : releaseAll l (releaseAll l' h) = releaseAll (l ++ l') h.
Proof. unfold releaseAll. by rewrite foldr_app. Qed.

Lemma stopServer_eq (srv : option (option nat)) (ends : bool) (d : Daemon) (h : Held) :
  stopServer srv ends (d, h) =
    Ret (if match srv with Some _ => ends | None => true end then Returned (Ok tt) else Blocks, (d, releaseAll (optional (mjoin srv)) h)).
Proof. by destruct srv as [l|], ends. Qed.

Lemma stopServers_eq (ends : nat -> bool) (srvs : list (option nat)) : forall n d h, exists h',
  stopServers ends n srvs (d, h) =
    Ret (if forallb ends (seq n (length srvs)) then Returned (Ok tt) else Blocks, (d, h')) /\
  (forallb ends (seq n (length srvs)) = true -> exists l, l ≡ₚ srvs ≫= optional /\ h' = releaseAll l h).
Proof.
  induction srvs as [|l srvs IH]; intros n d h; [exists h; split; [done|]; intros _; by exists []|].
  cbn [stopServers length seq forallb]. unfold andThen. rewrite stopServer_eq. change (mjoin (Some l)) with l.
  destruct (ends n); [|by eexists]. cbn [andb]. destruct (IH (S n) d (releaseAll (optional l) h)) as (h' & -> & Hl).
  exists h'. split; [done|]. intros (m & Hm & ->)%Hl. exists (m ++ optional l). rewrite releaseAll_app. split; [|done].
  rewrite Hm. cbn. apply Permutation_app_comm.
Qed.

(** Whether all that [Close] waits for ends. *)
Definition closes (w : Waits) (d : Daemon) : bool :=
  match dm_pool d with Etcd _ => wt_pool w | _ => true end &&
  match dm_httpSrv d with Some _ => wt_http w | None => true end &&
  match dm_httpSrvNoMTLS d with Some _ => wt_status w | None => true end &&
  forallb (wt_grpc w) (seq 0 (length (dm_grpcSrvs d))) &&
  match dm_V1Server d with Some (_, _, false) => wt_instance w | _ => true end.

(** The fields after [Close]. *)
Definition closedFields (hasLoader : bool) (stored : result unit) (p : PoolField) (d : Daemon) : Daemon :=
  set_client None (clearServers (set_V1Server (closeInstance hasLoader stored (dm_V1Server d)).2 (set_pool p d))).

(** [Close] panics with its pool; otherwise it returns if all that it waits for ends, having
    released what the fields refer to, and else blocks. *)
Lemma Close_spec (w : Waits) (hasLdr : bool) (stored : result unit) (d : Daemon) (h : Held) :
  match closePool (dm_pool d) with
  | Panic why => Close w hasLdr stored (d, h) = Panic why
  | Ret (stopped, p) => exists s', Close w hasLdr stored (d, h) = Ret (if closes w d then Returned (Ok tt) else Blocks, s') /\
      (closes w d = true -> s'.1 = closedFields hasLdr stored p d /\ exists l, s'.2 = releaseAll l h /\
         forall i, i ∈ l <-> i ∈ stopped ++ served d ++ (closeInstance hasLdr stored (dm_V1Server d)).1)
  end.
Proof.
  destruct (closePool (dm_pool d)) as [[stopped p]|] eqn:Ep; [|by unfold Close, stopPool, andThen; cbn; rewrite Ep].
  unfold Close, stopPool, closes. unfold andThen at 1. cbn [fst snd]. rewrite Ep.
  unfold andThen at 1, wait at 1. destruct (match dm_pool d with Etcd _ => _ | _ => _ end); [|by eexists]. cbn [andb].
  unfold andThen at 1 2 3 4, update at 1, drop at 1, field at 1. cbn [fst snd id dm_httpSrv dm_httpSrvNoMTLS dm_grpcSrvs set_pool].
  rewrite stopServer_eq. destruct (match dm_httpSrv d with Some _ => _ | _ => _ end); [|by eexists]. cbn [andb].
  unfold andThen at 1. rewrite stopServer_eq. destruct (match dm_httpSrvNoMTLS d with Some _ => _ | _ => _ end); [|by eexists]. cbn [andb].
  unfold andThen at 1. edestruct (stopServers_eq (wt_grpc w) (dm_grpcSrvs d) 0) as (h' & -> & Hl).
  destruct (forallb _ _); [|by eexists]. destruct (Hl eq_refl) as (l & Hperm & ->). cbn [andb].
  unfold andThen at 1 2, drop at 1, stopInstance at 1. cbn [fst snd dm_V1Server set_pool].
  unfold andThen at 1 2, update at 1, wait. destruct (match dm_V1Server d with Some _ => _ | _ => _ end); [|by eexists].
  eexists. split; [reflexivity|]. intros _. split; [reflexivity|]. cbn. rewrite !releaseAll_app.
  eexists. split; [reflexivity|]. intros i. unfold served. rewrite !elem_of_app, Hperm. tauto.
Qed.

(** [Close] returns no error. *)
Lemma Close_returns (w : Waits) (hasLdr : bool) (stored : result unit) (d : Daemon) (h : Held) (r : result unit) (s' : St) :
  Close w hasLdr stored (d, h) = Ret (Returned r, s') -> r = Ok tt.
Proof.
  intros Hc. pose proof (Close_spec w hasLdr stored d h) as Hs. destruct (closePool _) as [[l p]|]; [|congruence].
  destruct Hs as (s1 & Hs & _). rewrite Hs in Hc. destruct (closes w d); [|done]. by injection Hc as <- _.
Qed.

(** Closing releases what it covers. *)
Lemma Close_releases (w : Waits) (stored : result unit) (pend : nat -> Resource -> Prop) (s s' : St) :
  accounted pend s -> Close w false stored s = Ret (Returned (Ok tt), s') ->
  dm_GRPCListeners s'.1 = dm_GRPCListeners s.1 /\ forall i r, h_map s'.2 !! i = Some r -> lasting r \/ pend i r.
Proof.
  destruct s as [d h]. intros Ha Hc. pose proof (Close_spec w false stored d h) as Hs.
  destruct (closePool _) as [[l p]|] eqn:Ep; [|congruence]. apply closePool_ids in Ep as ->.
  destruct Hs as (s1 & Hs & Hl). rewrite Hs in Hc. destruct (closes w d); [|done]. injection Hc as ->.
  destruct (Hl eq_refl) as (-> & rel & -> & Hperm). setoid_rewrite closeInstance_ids in Hperm. split; [done|].
  intros i r [Hn Hi]%lookup_releaseAll. rewrite (Hperm i) in Hn. destruct (Ha i r Hi) as [Hin|Hr]; [|exact Hr]. by destruct (Hn Hin).
Qed.

Lemma fresh_inv (conf : DaemonConfig) : inv 0 (newDaemon conf, nothing).
Proof. split; [emptyFields|]. intros i r Hi. cbn in Hi. by rewrite lookup_empty in Hi. Qed.


(** Closing a daemon that started releases every listener, server, watch, connection and
    goroutine it took, if it returns; only what is never released remains. *)
Theorem close_releases (an : Answers) (w : Waits) (stored : result unit) (conf : DaemonConfig) (s s' : St) :
  an_loaded an = None -> Start an (newDaemon conf, nothing) = Ret (Returned (Ok tt), s) ->
  Close w false stored s = Ret (Returned (Ok tt), s') ->
  forall i r, h_map s'.2 !! i = Some r -> lasting r.
Proof.
  intros Hl Hs Hc i r Hi. pose proof (Start_inv an Hl _ (fresh_inv conf)) as Ha. rewrite Hs in Ha.
  by destruct (proj2 (Close_releases _ _ _ _ _ Ha Hc) i r Hi) as [?|[]].
Qed.

(** *** Starting again *)

(** [addr] is that of a listener in the fields, and nothing listens there. *)
Definition stale (addr : string) (s : St) : Prop :=
  addr ∈ (dm_GRPCListeners s.1).*2 /\ forall i, h_map s.2 !! i <> Some (Listener addr).

Lemma stale_update (addr : string) (f : Daemon -> Daemon) :
  (forall d, (dm_GRPCListeners d).*2 ⊆ (dm_GRPCListeners (f d)).*2) ->
  triple (stale addr) (update f) (fun _ => stale addr) (fun _ => True).
Proof. intros Hf [d h] [Hin Hh]. split; [by apply Hf|done]. Qed.

Lemma stale_acquire (addr : string) (r : Resource) : r <> Listener addr ->
  triple (stale addr) (acquire r) (fun _ => stale addr) (fun _ => True).
Proof. intros Hr [d h] [Hin Hh]. split; [done|]. intros i [[-> <-]|Hi]%(lookup_hold r); [done|by apply (Hh i)]. Qed.

Lemma stale_call {A} (addr : string) (what : string) (r : result A) :
  triple (stale addr) (call what r) (fun a s => stale addr s /\ r = Ok a) (fun _ => True).
Proof. intros s Hs. by destruct r. Qed.

Lemma stale_field {A} (addr : string) (f : Daemon -> A) :
  triple (stale addr) (field f) (fun _ => stale addr) (fun _ => True).
Proof. by intros s Hs. Qed.

Lemma stale_pure {A} (addr : string) (P : Prop) (m : Stage A) Q E :
  (P -> triple (stale addr) m Q E) -> triple (fun s => stale addr s /\ P) m Q E.
Proof. intros Hm s [Hs Hp]. exact (Hm Hp s Hs). Qed.

Lemma serve_listeners (n : nat) (l : nat * string) (d : Daemon) :
  (dm_GRPCListeners d).*2 ⊆ (dm_GRPCListeners (serve n l d)).*2.
Proof. cbn. rewrite fmap_app. set_solver. Qed.

Lemma triple_weaken {A} (P : St -> Prop) (m : Stage A) (Q Q' : A -> St -> Prop) E :
  (forall a s, Q a s -> Q' a s) -> triple P m Q E -> triple P m Q' E.
Proof. intros HQ Hm s Hs. specialize (Hm s Hs). destruct (m s) as [[[[a|e]|] s']|]; auto. Qed.

Lemma stale_abandoned {A} (addr : string) (started : bool) (made : result A) :
  triple (stale addr) (abandoned started made) (fun _ => stale addr) (fun _ => True).
Proof.
  unfold abandoned. destruct made, started; try (by intros s Hs).
  eapply triple_andThen; [by apply stale_acquire|intros ?; by intros s Hs].
Qed.

Ltac staleStage := first
  [ apply stale_field | apply stale_abandoned | apply stale_update; intros ?; first [apply serve_listeners | done]
  | apply stale_acquire; first [discriminate | intros [= ->]; naive_solver] ].

Ltac staleStages := repeat first
  [ staleStage
  | eapply triple_andThen; [apply stale_call|intros ?; apply stale_pure; intros ?]
  | eapply triple_andThen; [staleStage|intros ?] ].

Section Stale.
Variable an : Answers.
Variable addr : string.
Hypothesis other : an_listenGRPC an <> Ok addr /\ an_listenGateway an <> Ok addr /\
  an_listenHTTP an <> Ok addr /\ an_listenStatus an <> Ok addr.

Abbreviation keeps m := (triple (stale addr) m (fun _ => stale addr) (fun _ => True)).

Lemma prepare_stale : keeps (prepare an).
Proof. unfold prepare. staleStages. Qed.

Lemma setupTLS_stale : keeps (setupTLS an).
Proof.
  intros [d h] [Hin Hh]. unfold setupTLS. cbn [fst snd]. destruct (SetupTLS _ _) as [[t|]|]; [|done..]. split; [done|].
  cbn [snd]. intros i Hi. induction (reloaders _ _) as [|n IH]; [by apply (Hh i)|].
  cbn [repeat holdAll foldr] in Hi. apply lookup_hold in Hi as [[_ Hi]|Hi]; [done|by apply IH].
Qed.

Lemma newInstance_stale : keeps (newInstance an).
Proof.
  intros [d h] [Hin Hh]. unfold newInstance. cbn [fst snd]. destruct (NewV1Instance _ _ _ _ _ _ _) as [[pool|]|]; [|done..].
  split; [done|]. cbn. destruct (SetDefaults _ _ _); [|done]. intros i [[_ ?]|Hi]%(lookup_hold V1Instance); [done|by apply (Hh i)].
Qed.

Lemma listenGRPC_stale : keeps (listenGRPC an).
Proof. unfold listenGRPC. staleStages. Qed.

Lemma listenGateway_stale : keeps (listenGateway an).
Proof.
  unfold listenGateway. eapply triple_andThen; [apply stale_field|intros [|]]; staleStages. by intros s Hs.
Qed.

Lemma startPool_stale : keeps (startPool an).
Proof.
  unfold startPool. eapply triple_andThen; [apply stale_field|intros conf].
  destruct (String.eqb _ "k8s"); [staleStages|]. destruct (String.eqb _ "etcd"); [staleStages|].
  destruct (String.eqb _ "dns"); [staleStages|]. destruct (String.eqb _ "member-list"); [|by intros s Hs].
  destruct (mlConfig _ _ _ _); staleStages.
Qed.

Lemma startGateway_stale : keeps (startGateway an).
Proof. unfold startGateway. staleStages. eapply triple_weaken; [|apply stale_call]. by intros ? ? [? _]. Qed.

Lemma listenHTTP_stale : keeps (listenHTTP an).
Proof.
  unfold listenHTTP. staleStages. destruct (an_listenHTTP an) as [bound|e] eqn:E; [|by intros s Hs].
  eapply triple_andThen; [apply stale_acquire; intros [= ->]; by destruct other as (_ & _ & [] & _)|intros ?; staleStages].
Qed.

Lemma listenStatus_stale : keeps (listenStatus an).
Proof.
  unfold listenStatus. staleStages. destruct (_ && _); [|by intros s Hs]. staleStages.
Qed.
End Stale.

Lemma not_listening (addr : string) (h : Held) : (forall i, h_map h !! i <> Some (Listener addr)) -> listening h addr = false.
Proof.
  intros Hh. unfold listening. apply not_true_iff_false. rewrite existsb_exists. intros ([i r] & Hin & Hr).
  apply list_elem_of_In, elem_of_map_to_list in Hin. cbn in Hr. destruct r; try done.
  apply String.eqb_eq in Hr as ->. by apply (Hh i).
Qed.

(** A start that finds a listener in its fields at an address nothing listens on, and
    binds none there, does not succeed. *)
Lemma stale_start (an : Answers) (addr : string) (s s' : St) :
  an_listenGRPC an <> Ok addr /\ an_listenGateway an <> Ok addr /\
    an_listenHTTP an <> Ok addr /\ an_listenStatus an <> Ok addr ->
  addr <> "" -> an_elsewhere an addr = false -> stale addr s -> Start an s <> Ret (Returned (Ok tt), s').
Proof.
  intros Ho Hne He Hs Hstart.
  assert (triple (stale addr) (Start an) (fun _ _ => False) (fun _ => True)) as Ht.
  { unfold Start.
    eapply triple_andThen; [apply prepare_stale|intros ?]. eapply triple_andThen; [apply setupTLS_stale|intros ?].
    eapply triple_andThen; [apply stale_update; done|intros ?]. eapply triple_andThen; [apply newInstance_stale|intros ?].
    eapply triple_andThen; [by apply listenGRPC_stale|intros ?]. eapply triple_andThen; [by apply listenGateway_stale|intros ?].
    eapply triple_andThen; [apply startPool_stale|intros ?]. eapply triple_andThen; [apply startGateway_stale|intros ?].
    eapply triple_andThen; [by apply listenHTTP_stale|intros ?]. eapply triple_andThen; [by apply listenStatus_stale|intros st].
    eapply triple_andThen; [apply stale_update; done|intros ?].
    intros [d h] [Hin Hh]. unfold waitAll, WaitForConnect. cbn [fst snd] in *.
    replace (forallb _ _) with false; [by destruct (an_ctx an)|]. symmetry. apply not_true_iff_false.
    rewrite forallb_forall. intros Hall. specialize (Hall addr). rewrite orb_true_iff in Hall.
    destruct Hall as [Hx%String.eqb_eq|Hx]; [|done|].
    - apply list_elem_of_In. unfold awaited. rewrite !elem_of_app. by do 2 right.
    - unfold dials in Hx. rewrite (not_listening _ _ Hh), He in Hx. by rewrite andb_false_r in Hx. }
  specialize (Ht s Hs). by rewrite Hstart in Ht.
Qed.

(** *** Conditions on the fields *)

(** A condition that mentions only the daemon's fields survives every stage that leaves
    them, or changes them within it. *)
Definition onFields (P : Daemon -> Prop) (s : St) : Prop := P s.1.

Lemma fields_update (P : Daemon -> Prop) (f : Daemon -> Daemon) : (forall d, P d -> P (f d)) ->
  triple (onFields P) (update f) (fun _ => onFields P) (fun _ => True).
Proof. intros Hf [d h] Hd. by apply Hf. Qed.

Lemma fields_acquire (P : Daemon -> Prop) (r : Resource) :
  triple (onFields P) (acquire r) (fun _ => onFields P) (fun _ => True).
Proof. by intros [d h] Hd. Qed.

Lemma fields_call {A} (P : Daemon -> Prop) (what : string) (r : result A) :
  triple (onFields P) (call what r) (fun _ => onFields P) (fun _ => True).
Proof. intros s Hd. by destruct r. Qed.

Lemma fields_field {A} (P : Daemon -> Prop) (f : Daemon -> A) :
  triple (onFields P) (field f) (fun _ => onFields P) (fun _ => True).
Proof. by intros s Hd. Qed.

Lemma fields_pass {A} (P : Daemon -> Prop) (a : A) : triple (onFields P) (pass a) (fun _ => onFields P) (fun _ => True).
Proof. by intros s Hd. Qed.

Lemma fields_fail {A} (P : Daemon -> Prop) (e : gerror) :
  triple (onFields P) (failWith (A := A) e) (fun _ => onFields P) (fun _ => True).
Proof. by intros s Hd. Qed.

Lemma fields_wait (P : Daemon -> Prop) (an : Answers) (status : list string) :
  triple (onFields P) (waitAll an status) (fun _ => onFields P) (fun _ => True).
Proof. intros s Hd. unfold waitAll. by destruct (WaitForConnect _ _ _) as [[|]|]. Qed.

Lemma fields_setupTLS (P : Daemon -> Prop) (an : Answers) : (forall t d, P d -> P (set_TLS t d)) ->
  triple (onFields P) (setupTLS an) (fun _ => onFields P) (fun _ => True).
Proof. intros Hf [d h] Hd. unfold setupTLS. destruct (SetupTLS _ _) as [[|]|]; [by apply Hf|done..]. Qed.

Lemma fields_newInstance (P : Daemon -> Prop) (an : Answers) : (forall v d, P d -> P (set_V1Server v d)) ->
  triple (onFields P) (newInstance an) (fun _ => onFields P) (fun _ => True).
Proof. intros Hf [d h] Hd. unfold newInstance. destruct (NewV1Instance _ _ _ _ _ _ _) as [[|]|]; [by apply Hf|done..]. Qed.

Lemma fields_abandoned {A} (P : Daemon -> Prop) (started : bool) (made : result A) :
  triple (onFields P) (abandoned started made) (fun _ => onFields P) (fun _ => True).
Proof. intros s Hd. unfold abandoned. by destruct made, started. Qed.

Ltac fieldStage := first
  [ apply fields_abandoned | apply fields_update; by intros | apply fields_acquire | apply fields_call | apply fields_field | apply fields_pass
  | apply fields_fail | apply fields_wait | apply fields_setupTLS; by intros | apply fields_newInstance; by intros ].
Ltac fieldStages := repeat first [ fieldStage | eapply triple_andThen; [fieldStage|intros ?]
  | match goal with |- triple _ (if ?b then _ else _) _ _ => destruct b
                  | |- triple _ (match ?r with Ok _ => _ | Err _ => _ end) _ _ => destruct r
                  | |- triple _ (match ?r with Some _ => _ | None => _ end) _ _ => destruct r end ].

(** What [listenGateway] leaves in the fields stays there. *)
Definition gateway_listed (addr : string) (d : Daemon) : Prop := hasTLS d = true -> addr ∈ (dm_GRPCListeners d).*2.

Lemma triple_any {A} (m : Stage A) : triple (fun _ => True) m (fun _ _ => True) (fun _ => True).
Proof. intros s _. by destruct (m s) as [[[[]|] ]|]. Qed.

Lemma listenGateway_lists (an : Answers) (addr : string) : an_listenGateway an = Ok addr ->
  triple (fun _ => True) (listenGateway an) (fun _ => onFields (gateway_listed addr)) (fun _ => True).
Proof.
  intros Hg [d h] _. unfold listenGateway, andThen, field, call. cbn. unfold onFields, gateway_listed. destruct (hasTLS d) eqn:Et.
  - rewrite Hg. cbn. intros _. rewrite fmap_app. set_solver.
  - cbn. destruct (ResolveHostIP _ _); cbn; [congruence|done].
Qed.

(** The stages after [listenGateway]. *)
Lemma gateway_stays (an : Answers) (addr : string) (s s' : St) :
  an_listenGateway an = Ok addr -> Start an s = Ret (Returned (Ok tt), s') -> gateway_listed addr s'.1.
Proof.
  intros Hg Hstart.
  assert (triple (fun _ => True) (Start an) (fun _ => onFields (gateway_listed addr)) (fun _ => True)) as Ht.
  { unfold Start. do 5 (eapply triple_andThen; [apply triple_any|intros ?]).
    eapply triple_andThen; [by apply listenGateway_lists|intros ?].
    do 5 (eapply triple_andThen; [unfold startPool, startGateway, listenHTTP, listenStatus, serveHTTP; fieldStages|intros ?]).
    fieldStages. }
  specialize (Ht s I). by rewrite Hstart in Ht.
Qed.

(** The configuration stays as [prepare] leaves it. *)
Lemma Start_keeps_conf (an : Answers) (s s' : St) :
  Start an s = Ret (Returned (Ok tt), s') -> dm_conf s'.1 = podAddress (dm_conf s.1).
Proof.
  intros Hs. set (c := podAddress (dm_conf s.1)).
  assert (triple (fun x => x = s) (Start an) (fun _ => onFields (fun d => dm_conf d = c)) (fun _ => True)) as Ht.
  { unfold Start. eapply triple_andThen; [|intros ?].
    { unfold prepare. eapply (triple_andThen _ _ _ (fun _ => onFields (fun d => dm_conf d = c))); [by intros x ->|intros ?; fieldStages]. }
    do 10 (eapply triple_andThen; [unfold makeServers, listenGRPC, listenGateway, startPool, startGateway, listenHTTP,
      listenStatus, serveHTTP; fieldStages|intros ?]). fieldStages. }
  specialize (Ht s eq_refl). by rewrite Hs in Ht.
Qed.

(** A daemon with TLS cannot be stopped and started again. The listener of its gateway
    stays in its fields after [Close], bound to a port the system chose; unless that very
    port is bound again, [Start] waits for it until the context ends and never succeeds. *)
Theorem tls_restart_never_completes (an an' : Answers) (w : Waits) (stored : result unit) (conf : DaemonConfig) (gw : string) (s s' s'' : St) :
  an_loaded an = None -> Start an (newDaemon conf, nothing) = Ret (Returned (Ok tt), s) ->
  hasTLS s.1 = true -> an_listenGateway an = Ok gw -> gw <> "" -> Close w false stored s = Ret (Returned (Ok tt), s') ->
  an_listenGRPC an' <> Ok gw /\ an_listenGateway an' <> Ok gw /\ an_listenHTTP an' <> Ok gw /\ an_listenStatus an' <> Ok gw ->
  an_elsewhere an' gw = false ->
  Start an' s' <> Ret (Returned (Ok tt), s'').
Proof.
  intros Hl Hs Ht Hg Hne Hc Ho He. apply (stale_start an' gw); [done..|]. split.
  - pose proof (Start_inv an Hl _ (fresh_inv conf)) as Ha. rewrite Hs in Ha.
    rewrite (proj1 (Close_releases _ _ _ _ _ Ha Hc)). exact (gateway_stays an gw _ _ Hg Hs Ht).
  - intros i Hi. pose proof (Start_inv an Hl _ (fresh_inv conf)) as Ha. rewrite Hs in Ha.
    by destruct (proj2 (Close_releases _ _ _ _ _ Ha Hc) i _ Hi) as [[?|[?|[?|?]]]|[]].
Qed.

(** *** Starting completes *)

(** From [P], a stage returns a value, in [Q]. *)
Definition total {A} (P : St -> Prop) (m : Stage A) (Q : A -> St -> Prop) : Prop :=
  forall s, P s -> exists a s', m s = Ret (Returned (Ok a), s') /\ Q a s'.

Lemma total_andThen {A B} (P : St -> Prop) (m : Stage A) (k : A -> Stage B) (R : A -> St -> Prop) Q :
  total P m R -> (forall a, total (R a) (k a) Q) -> total P (andThen m k) Q.
Proof.
  intros Hm Hk s Hs. destruct (Hm s Hs) as (a & s1 & E & Hr). unfold andThen. rewrite E. by apply Hk.
Qed.

(** The listeners in the fields are open, and new identifiers are fresh. *)
Definition open (l : nat * string) (h : Held) : Prop := h_map h !! l.1 = Some (Listener l.2).

Definition live (c : DaemonConfig) (t : option (TLSConfig Cert CPool)) (s : St) : Prop :=
  dm_conf s.1 = c /\ dm_TLS s.1 = t /\
  (forall l, l ∈ dm_GRPCListeners s.1 \/ dm_HTTPListener s.1 = Some l -> open l s.2) /\
  (forall i r, h_map s.2 !! i = Some r -> (i < h_next s.2)%nat).

Lemma open_hold (r : Resource) (l : nat * string) (h : Held) :
  (forall i x, h_map h !! i = Some x -> (i < h_next h)%nat) -> open l h -> open l (hold r h).2.
Proof.
  unfold open. intros Hf Hl. cbn. rewrite lookup_insert_ne; [done|]. apply Hf in Hl. lia.
Qed.

Lemma fresh_hold (r : Resource) (h : Held) : (forall i x, h_map h !! i = Some x -> (i < h_next h)%nat) ->
  forall i x, h_map (hold r h).2 !! i = Some x -> (i < h_next (hold r h).2)%nat.
Proof. intros Hf i x [[-> _]|Hi]%lookup_hold; cbn; [lia|]. apply Hf in Hi. lia. Qed.

Lemma live_acquire c t (r : Resource) :
  total (live c t) (acquire r) (fun i s => live c t s /\ forall a, r = Listener a -> open (i, a) s.2).
Proof.
  intros [d h] (Hc & Ht & Hl & Hf). eexists _, _. split; [reflexivity|]. split.
  - split_and!; [done|done| |by apply fresh_hold]. intros l Hin. apply open_hold; [done|by apply Hl].
  - intros a ->. unfold open. cbn. apply lookup_insert_eq.
Qed.

Lemma live_update c t (f : Daemon -> Daemon) (P : St -> Prop) :
  (forall d, dm_conf (f d) = dm_conf d /\ dm_TLS (f d) = dm_TLS d /\ dm_GRPCListeners (f d) = dm_GRPCListeners d /\
     dm_HTTPListener (f d) = dm_HTTPListener d) -> (forall s, P s -> live c t s) ->
  total P (update f) (fun _ => live c t).
Proof.
  intros Hf HP [d h] (Hc & Ht & Hl & Hfr)%HP. eexists _, _. split; [reflexivity|]. destruct (Hf d) as (E1 & E2 & E3 & E4).
  unfold live in *. cbn in *. by rewrite E1, E2, E3, E4.
Qed.

Lemma total_call {A} (P : St -> Prop) (what : string) (r : result A) (a : A) : r = Ok a ->
  total P (call what r) (fun _ => P).
Proof. intros -> s Hs. by exists a, s. Qed.

Lemma total_pure {A} (P : St -> Prop) (a : A) : total P (pass a) (fun _ => P).
Proof. intros s Hs. by exists a, s. Qed.

(** Taking a resource that one field refers to. *)
Lemma live_take c t (r : Resource) (f : nat -> Daemon -> Daemon) :
  (forall i d, dm_conf (f i d) = dm_conf d /\ dm_TLS (f i d) = dm_TLS d /\ dm_GRPCListeners (f i d) = dm_GRPCListeners d /\
     dm_HTTPListener (f i d) = dm_HTTPListener d) ->
  total (live c t) (do i <- acquire r; update (f i)) (fun _ => live c t).
Proof. intros Hf. eapply total_andThen; [apply live_acquire|intros i]. apply live_update; [apply Hf|by intros s [? _]]. Qed.

Lemma live_serve c t (n : nat) (addr : string) :
  total (live c t) (do i <- acquire (Listener addr); update (serve n (i, addr))) (fun _ => live c t).
Proof.
  eapply total_andThen; [apply live_acquire|intros i]. intros [d h] [(Hc & Ht & Hl & Hf) Ho].
  eexists _, _. split; [reflexivity|]. split_and!; [done|done| |done]. cbn. intros l [Hin|Hin]; [|apply Hl; by right].
  apply elem_of_app in Hin as [Hin| ->%list_elem_of_singleton]; [apply Hl; by left|by apply Ho].
Qed.

(** The pool of the configured type can be made. *)
Definition poolReady (an : Answers) (c : DaemonConfig) : Prop :=
  let t := d_PeerDiscoveryType c in
  if String.eqb t "k8s" then newK8sPool an (d_K8PoolConf c) = Ok tt
  else if String.eqb t "etcd" then
    an_etcdClient an = Ok tt /\
    exists x, NewEtcdPool (mkEtcdConf (ep_Advertise (fst (d_EtcdPoolConf c))) true (ep_KeyPrefix (fst (d_EtcdPoolConf c))))
                (an_attempt an) (an_got an) (an_ready an) = Ok x
  else if String.eqb t "dns" then exists p, NewDNSPool (d_DNSPoolConf c) (an_resolvConf an) = Ok p
  else if String.eqb t "member-list" then
    (exists m, mlConfig (an_isIP an) (ho_LookupHost (an_host an)) (an_AddKey an) (d_MemberListPoolConf c) = Some (Ok m)) /\
    an_mlCreate an = Ok tt /\ an_mlJoin an = Ok tt
  else True.

(** Everything [Start] asks for is there. *)
Record available (an : Answers) (conf : DaemonConfig) (t : option (TLSConfig Cert CPool)) : Prop := mkAvailable {
  av_register : an_Register an = Ok tt;
  av_tls : SetupTLS (an_host an) (dm_TLS (newDaemon conf)) = Ret (Ok t);
  av_loaded : an_loaded an = None;
  av_instance : exists c, SetDefaults (an_numCPU an) (an_instanceID an) (instanceConf (podAddress conf)) = Ok c /\ 0 < cf_Workers c;
  av_GRPC : exists a, an_listenGRPC an = Ok a;
  av_Gateway : exists a, an_listenGateway an = Ok a;
  av_HTTP : exists a, an_listenHTTP an = Ok a;
  av_Status : exists a, an_listenStatus an = Ok a;
  av_resolve : exists ip, ResolveHostIP (an_host an) (d_GRPCListenAddress (podAddress conf)) = Ok ip;
  av_pool : poolReady an (podAddress conf);
  av_handler : an_gatewayHandler an = Ok tt;
  av_ctx : an_ctxDone an = false
}.

Section Completes.
Variable an : Answers.
Variable conf : DaemonConfig.
Variable t : option (TLSConfig Cert CPool).
Hypothesis av : available an conf t.

Abbreviation lv := (live (podAddress conf) t).

Lemma prepare_total : total (fun s => s = (newDaemon conf, nothing)) (prepare an)
  (fun _ => live (podAddress conf) (dm_TLS (newDaemon conf))).
Proof.
  intros s ->. unfold prepare, andThen, call. rewrite (av_register _ _ _ av). cbn.
  eexists _, _. split; [reflexivity|]. split_and!; [done|done| |].
  - intros l [Hl|Hl]; [by apply elem_of_nil in Hl|done].
  - apply (fresh_hold StatsHandler nothing). intros i x Hx. cbn in Hx. by rewrite lookup_empty in Hx.
Qed.

Lemma setupTLS_total : total (live (podAddress conf) (dm_TLS (newDaemon conf))) (setupTLS an) (fun _ => lv).
Proof.
  intros [d h] (Hc & Ht & Hl & Hf). unfold setupTLS. cbn [fst snd] in *. rewrite Ht, (av_tls _ _ _ av).
  eexists _, _. split; [reflexivity|]. split_and!; [done|done| |]; cbn [fst snd].
  - intros l Hin. induction (reloaders _ _) as [|n IH]; [by apply Hl|].
    apply open_hold; [|exact IH]. clear IH. induction n as [|n IH]; [done|]. by apply fresh_hold.
  - induction (reloaders _ _) as [|n IH]; [done|]. by apply fresh_hold.
Qed.

Lemma newInstance_total : total lv (newInstance an) (fun _ => lv).
Proof.
  intros [d h] (Hc & Ht & Hl & Hf). destruct (av_instance _ _ _ av) as (c & Hd & Hw).
  unfold newInstance, NewV1Instance. cbn [fst snd negb] in *. rewrite Hc, Hd, (av_loaded _ _ _ av).
  unfold NewWorkerPool. cbn [pc_Workers]. replace (cf_Workers c <? 0) with false by lia. replace (cf_Workers c =? 0) with false by lia.
  eexists _, _. split; [reflexivity|]. split_and!; [done|done| |by apply fresh_hold].
  intros l Hin. apply open_hold; [done|by apply Hl].
Qed.

Lemma listenGRPC_total : total lv (listenGRPC an) (fun _ => lv).
Proof.
  destruct (av_GRPC _ _ _ av) as [a Ha]. unfold listenGRPC. eapply total_andThen; [by eapply total_call|intros ?]. apply live_serve.
Qed.

Lemma listenGateway_total : total lv (listenGateway an) (fun _ => lv).
Proof.
  destruct (av_Gateway _ _ _ av) as [a Ha], (av_resolve _ _ _ av) as [ip Hip]. intros s Hs. unfold listenGateway.
  assert (dm_conf s.1 = podAddress conf) as Hc by apply Hs. unfold andThen at 1, field. destruct (hasTLS s.1).
  - revert s Hs Hc. enough (total lv (do a <- call "while starting GRPC Gateway listener" (an_listenGateway an);
      do i <- acquire (Listener a); update (serve 1 (i, a))) (fun _ => lv)) as Ht by (intros s Hs _; by apply Ht).
    eapply total_andThen; [by eapply total_call|intros ?]. apply live_serve.
  - unfold andThen, field, call. rewrite Hc, Hip. by exists tt, s.
Qed.

Lemma startPool_total : total lv (startPool an) (fun _ => lv).
Proof.
  intros s Hs. assert (dm_conf s.1 = podAddress conf) as Hc by apply Hs. pose proof (av_pool _ _ _ av) as Hp.
  unfold startPool, poolReady in *. unfold andThen at 1, field. rewrite Hc. revert s Hs Hc. cbv zeta in *.
  match goal with |- forall s, lv s -> dm_conf s.1 = podAddress conf -> exists a s', ?m s = _ /\ _ =>
    enough (total lv m (fun _ => lv)) as Ht by (intros s Hs _; by apply Ht) end.
  destruct (String.eqb _ "k8s"); [eapply total_andThen; [by eapply total_call|intros ?; by apply live_take]|].
  destruct (String.eqb _ "etcd"); [|destruct (String.eqb _ "dns"); [|destruct (String.eqb _ "member-list")]].
  - destruct Hp as [He [x Hx]]. eapply total_andThen; [by eapply total_call|intros ?].
    eapply (total_andThen _ _ _ (fun _ => lv)); [intros s Hs; destruct (live_acquire _ _ EtcdClient s Hs) as (i & s' & E & ? & _); eauto|intros ?].
    rewrite Hx. eapply total_andThen; [apply total_pure|intros ?].
    eapply total_andThen; [by eapply total_call|intros ?; by apply live_take].
  - destruct Hp as [p Hx]. eapply total_andThen; [by eapply total_call|intros ?; by apply live_take].
  - destruct Hp as [[m Hm] [Hcr Hj]]. rewrite Hm, Hj. eapply total_andThen; [by eapply total_call|intros ?].
    eapply (total_andThen _ _ _ (fun _ => lv)); [intros s Hs; destruct (live_acquire _ _ MemberListLog s Hs) as (i & s' & E & ? & _); eauto|intros ?].
    eapply total_andThen; [by eapply total_call|intros ?]. eapply total_andThen; [apply live_acquire|intros i].
    eapply (total_andThen _ _ _ (fun _ => lv)); [intros s [Hs _]; by exists tt, s|intros ?].
    apply live_update; [done|done].
  - apply total_pure.
Qed.

Lemma startGateway_total : total lv (startGateway an) (fun _ => lv).
Proof.
  unfold startGateway. eapply total_andThen; [apply live_acquire|intros i].
  eapply (total_andThen _ _ _ (fun _ => lv)); [apply live_update; [done|by intros s [? _]]|intros ?].
  eapply total_call, (av_handler _ _ _ av).
Qed.

Lemma listenHTTP_total : total lv (listenHTTP an) (fun _ => lv).
Proof.
  destruct (av_HTTP _ _ _ av) as [a Ha]. unfold listenHTTP. rewrite Ha.
  eapply total_andThen; [apply live_acquire|intros lw].
  eapply (total_andThen _ _ _ (fun _ => lv)); [apply live_update; [done|by intros s [? _]]|intros _].
  eapply total_andThen; [apply live_acquire|intros i]. intros [d h] [(Hc & Ht & Hl & Hf) Ho].
  eexists _, _. split; [reflexivity|]. split_and!; [done|done| |done]. cbn.
  intros l [Hin|[= <-]]; [apply Hl; by left|by apply Ho].
Qed.

Lemma listenStatus_total : total lv (listenStatus an)
  (fun status s => lv s /\ forall a, a ∈ status -> exists i, open (i, a) s.2).
Proof.
  destruct (av_Status _ _ _ av) as [a Ha]. intros [d h] Hs. unfold listenStatus, andThen, field, call. cbn. rewrite Ha.
  destruct (_ && _); cbn.
  - destruct Hs as (Hc & Ht & Hl & Hf). cbn [fst snd] in *. eexists _, _. split; [reflexivity|]. split.
    + split_and!; [done|done| |by apply fresh_hold]. intros l Hin. apply open_hold; [done|by apply Hl].
    + intros x ->%list_elem_of_singleton. eexists. unfold open. cbn. apply lookup_insert_eq.
  - eexists _, _. split; [reflexivity|]. split; [exact Hs|]. by intros x ?%elem_of_nil.
Qed.

Lemma open_listening (l : nat * string) (h : Held) : open l h -> listening h l.2 = true.
Proof.
  intros Ho. unfold listening. apply existsb_exists. exists (l.1, Listener l.2). split; [|cbn; apply String.eqb_refl].
  by apply list_elem_of_In, elem_of_map_to_list.
Qed.

Lemma waitAll_total (status : list string) :
  total (fun s => lv s /\ forall a, a ∈ status -> exists i, open (i, a) s.2) (waitAll an status) (fun _ => lv).
Proof.
  intros s [Hs Hst]. exists tt, s. split; [|done]. unfold waitAll, WaitForConnect.
  replace (forallb _ _) with true; [done|]. symmetry. apply forallb_forall. intros a Hin%list_elem_of_In.
  apply orb_true_iff. right. unfold dials. rewrite (av_ctx _ _ _ av). cbn.
  assert (exists l, open l s.2 /\ l.2 = a) as (l & Ho & <-); [|by rewrite (open_listening _ _ Ho)].
  destruct Hs as (_ & _ & Hl & _). unfold awaited in Hin. rewrite !elem_of_app in Hin.
  destruct Hin as [Hin|[[i Ho]%Hst|(l & -> & Hin)%list_elem_of_fmap]]; [|by exists (i, a)|exists l; split; [apply Hl; by left|done]].
  destruct (dm_HTTPListener s.1) as [l|] eqn:El; [|by apply elem_of_nil in Hin].
  apply list_elem_of_singleton in Hin as ->. exists l. split; [apply Hl; by right|done].
Qed.

Lemma Start_total : total (fun s => s = (newDaemon conf, nothing)) (Start an) (fun _ => lv).
Proof using av.
  unfold Start. eapply total_andThen; [by eapply prepare_total|intros ?]. eapply total_andThen; [by eapply setupTLS_total|intros ?].
  eapply (total_andThen _ _ _ (fun _ => live (podAddress conf) t)); [by apply live_update|intros ?].
  eapply total_andThen; [by eapply newInstance_total|intros ?]. eapply total_andThen; [by eapply listenGRPC_total|intros ?].
  eapply total_andThen; [by eapply listenGateway_total|intros ?]. eapply total_andThen; [by eapply startPool_total|intros ?].
  eapply (total_andThen _ _ _ (fun _ => live (podAddress conf) t)); [by eapply startGateway_total|intros ?].
  eapply total_andThen; [by eapply listenHTTP_total|intros ?]. eapply total_andThen; [by eapply listenStatus_total|intros status].
  eapply (total_andThen _ _ _ (fun _ s => live (podAddress conf) t s /\ forall a, a ∈ status -> exists i, open (i, a) s.2)).
  - intros [d h] [Hs Hst]. eexists _, _. split; [reflexivity|]. split; [exact Hs|exact Hst].
  - intros ?. by eapply waitAll_total.
Qed.
End Completes.

(** A pool that can be closed. *)
Definition closable (p : PoolField) : Prop := match p with K8s _ true | NilMemberList => False | _ => True end.

(** Where the pool of the configured type could be made, closing the daemon does not panic:
    it returns if all that it waits for ends, and else blocks. *)
Lemma Start_closable (an : Answers) (conf : DaemonConfig) (s : St) (w : Waits) (hasLdr : bool) (stored : result unit) :
  poolReady an (podAddress conf) -> Start an (newDaemon conf, nothing) = Ret (Returned (Ok tt), s) ->
  exists s', Close w hasLdr stored s = Ret (if closes w s.1 then Returned (Ok tt) else Blocks, s').
Proof.
  intros Hp Hs. set (P := fun d : Daemon => dm_conf d = podAddress conf /\ closable (dm_pool d)).
  assert (triple (fun x => x = (newDaemon conf, nothing)) (Start an) (fun _ => onFields P) (fun _ => True)) as Ht.
  { unfold Start. eapply triple_andThen; [|intros ?].
    { unfold prepare. eapply (triple_andThen _ _ _ (fun _ => onFields P)); [by intros x ->|intros ?; fieldStages]. }
    do 5 (eapply triple_andThen; [unfold makeServers, listenGRPC, listenGateway; fieldStages|intros ?]).
    eapply triple_andThen; [|intros ?].
    { intros x Hx. unfold startPool, poolReady in *. unfold andThen at 1, field. rewrite (proj1 Hx). revert x Hx.
      match goal with |- forall x, onFields P x -> match ?m x with _ => _ end =>
        enough (triple (onFields P) m (fun _ => onFields P) (fun _ => True)) as Hm by exact Hm end.
      assert (forall p, closable p -> triple (onFields P) (update (set_pool p)) (fun _ => onFields P) (fun _ => True)) as Hset
        by (intros p Hc; apply fields_update; by intros d [? _]).
      destruct (String.eqb _ "k8s"); [|destruct (String.eqb _ "etcd"); [|destruct (String.eqb _ "dns"); [|destruct (String.eqb _ "member-list")]]];
        [| | |destruct Hp as [[m ->] _]|]; fieldStages; by apply Hset. }
    do 4 (eapply triple_andThen; [unfold startGateway, listenHTTP, listenStatus, serveHTTP; fieldStages|intros ?]). fieldStages. }
  specialize (Ht _ eq_refl). rewrite Hs in Ht. destruct s as [d h]. destruct Ht as [_ Hc].
  pose proof (Close_spec w hasLdr stored d h) as Hcs. cbn in Hc.
  destruct (dm_pool d) as [|i []| | | |]; try done; destruct Hcs as (s' & Hcs & _); by exists s'.
Qed.


(** Where a lookup gives no addresses, the daemon starts without a member list and cannot
    be closed. *)
Theorem empty_lookup_breaks_close (an : Answers) (conf : DaemonConfig) (w : Waits) (hasLdr : bool) (stored : result unit) (s : St) :
  dm_conf s.1 = conf -> d_PeerDiscoveryType conf = "member-list" ->
  mlConfig (an_isIP an) (ho_LookupHost (an_host an)) (an_AddKey an) (d_MemberListPoolConf conf) = None ->
  exists s', startPool an s = Ret (Returned (Ok tt), s') /\ exists why, Close w hasLdr stored s' = Panic why.
Proof.
  intros Hc Hd Hm. destruct s as [d h]. cbn in Hc. unfold startPool, andThen, field. cbn [fst]. rewrite Hc, Hd. cbn. rewrite Hm.
  eexists. split; [reflexivity|]. by eexists.
Qed.

(** A batch limit beyond the maximum is accepted from the environment and refused when the
    daemon starts. *)
Theorem batch_limit_refused (an : Answers) (s : St) : maxBatch < bc_BatchLimit (d_Behaviors (dm_conf s.1)) ->
  0 <= bc_ScheduleMaxWait (d_Behaviors (dm_conf s.1)) ->
  exists e s', newInstance an s = Ret (Returned (Err e), s') /\ s'.2 = s.2.
Proof.
  intros Hb Hw. assert (exists e, SetDefaults (an_numCPU an) (an_instanceID an) (instanceConf (dm_conf s.1)) = Err e) as [e He].
  { unfold SetDefaults. cbn [instanceConf cf_Behaviors]. replace (_ <? 0) with false by lia.
    unfold SetDefaultsBehavior. cbn [bc_BatchLimit]. unfold SetDefaultZ at 1.
    replace (bc_BatchLimit _ =? 0) with false by (unfold maxBatch, maxBatchSize in *; lia).
    replace (maxBatch <? _) with true by lia. by eexists. }
  unfold newInstance, NewV1Instance. cbn [negb]. rewrite He. eexists _, _. split; reflexivity.
Qed.

(** The age is the one configured as long as it is below 292 years. *)
Lemma keepaliveParams_spec (c : DaemonConfig) : 0 < d_GRPCMaxConnectionAgeSeconds c <= 9223372036 ->
  keepaliveParams c = Some (Second * d_GRPCMaxConnectionAgeSeconds c, Second * d_GRPCMaxConnectionAgeSeconds c).
Proof.
  intros Hs. unfold keepaliveParams. replace (0 <? _) with true by lia. unfold mul64.
  rewrite wrap64_id by (unfold in64, min_i64, max_i64, Second; lia). done.
Qed.

(** The peers handed to the instance are those given, in order; one is its own if it was
    given as such or has the address advertised. *)
Lemma ownPeers_spec (d : Daemon) (infos : list PeerInfo) :
  pi_GRPCAddress <$> ownPeers d infos = pi_GRPCAddress <$> infos /\
  forall p, p ∈ ownPeers d infos -> pi_GRPCAddress p = d_AdvertiseAddress (dm_conf d) -> pi_IsOwner p = true.
Proof.
  unfold ownPeers. split.
  - rewrite <- list_fmap_compose. apply list_fmap_ext. intros i p _. cbn. by destruct (String.eqb _ _).
  - intros p (q & -> & _)%list_elem_of_fmap. destruct (String.eqb_spec (d_AdvertiseAddress (dm_conf d)) (pi_GRPCAddress q)) as [|Hn]; [done|].
    intros Hq. by destruct Hn.
Qed.
End Daemon.

Arguments Returned {A} r.
Arguments Blocks {A}.

(** ** Examples *)

(** A daemon on fixed addresses without discovery, with generated certificates. *)
Definition tlsDaemon : DaemonConfig :=
  mkDaemonConfig "10.0.0.1:1051" "10.0.0.1:1050" "10.0.0.1:1052" 0 0 "10.0.0.1:1051" 100 1
    (mkBehaviorConfig 0 0 0 false 0 0 0 false 0 0) "" "none"
    (mkEtcdConf (mkPeerInfo "" "" "" false) false "", mkEtcdClient [] 0 "" "" None)
    (mkK8sConf WatchPods "" "" "" "" "") (mkDNSPoolConfig "" "" [] "" "")
    (mkMLPoolConfig (mkPeerInfo "" "" "" false) "" "" [] "" (mkEncryption [] true true))
    None (Some autoFiles) 0 "a1b2c3d4e5" InfoLevel.

(** Everything is granted; the gateway's port and the answer for the status address are
    given. *)
Definition grants (gw : string) (status : result string) : Answers (Sto := unit) :=
  mkAnswers (Some DeadlineExceeded) false (Ok tt) demoHost 1 "a1b2c3d4e5" (demoEnv 1000) None None
    (Ok "10.0.0.1:1051") (Ok gw) (Ok "10.0.0.1:1050") status (Ok tt) (Ok tt) true (Ok tt) (GrantFailed Canceled) (Ok []) true
    None (fun _ => true) (fun _ => Ok tt) (Ok tt) (Ok tt) (Ok tt) (fun _ => false).

Abbreviation demoStart := (Start (H0 := demoDNS) (Sto := unit) (Cert := string * string) (CPool := list string)).


(** Everything that is waited for ends. *)
Definition allEnd : Waits := mkWaits true true true (fun _ => true) true.

Lemma closes_allEnd {Cert CPool Sto : Type} (d : Daemon (Cert := Cert) (CPool := CPool) (Sto := Sto)) : closes allEnd d = true.
Proof.
  unfold closes, allEnd. cbn [wt_pool wt_http wt_status wt_grpc wt_instance].
  replace (forallb _ _) with true by (symmetry; by apply forallb_forall).
  by destruct (dm_pool d), (dm_httpSrv d), (dm_httpSrvNoMTLS d), (dm_V1Server d) as [[[? ?] []]|].
Qed.


(** A daemon that is registered with etcd but cannot watch its peers. *)
Definition etcdDaemon : DaemonConfig :=
  mkDaemonConfig "10.0.0.1:1051" "10.0.0.1:1050" "" 0 0 "10.0.0.1:1051" 100 1
    (mkBehaviorConfig 0 0 0 false 0 0 0 false 0 0) "" "etcd"
    (mkEtcdConf (mkPeerInfo "" "" "10.0.0.1:1051" false) false "", mkEtcdClient [] 0 "" "" None)
    (mkK8sConf WatchPods "" "" "" "" "") (mkDNSPoolConfig "" "" [] "" "")
    (mkMLPoolConfig (mkPeerInfo "" "" "" false) "" "" [] "" (mkEncryption [] true true))
    None None 0 "a1b2c3d4e5" InfoLevel.

Definition unwatched : Answers (Sto := unit) :=
  mkAnswers (Some DeadlineExceeded) false (Ok tt) demoHost 1 "a1b2c3d4e5" (demoEnv 1000) None None
    (Ok "10.0.0.1:1051") (Ok "") (Ok "10.0.0.1:1050") (Ok "") (Ok tt) (Ok tt) true (Ok tt) (Registered 7)
    (Err DeadlineExceeded) true None (fun _ => true) (fun _ => Ok tt) (Ok tt) (Ok tt) (Ok tt) (fun _ => false).

(** Its client and the goroutine of its registration are left. *)
Example registration_left :
  match SpawnDaemon (H0 := demoDNS) unwatched allEnd (Ok tt) etcdDaemon nothing with
  | Ret (Returned (Err _), h) => (map_to_list (h_map h)).*2 ≡ₚ [EtcdClient; EtcdRegistration]
  | _ => False
  end.
Proof. vm_compute. apply perm_swap || reflexivity. Qed.

Lemma demo_closes : exists s s',
  demoStart (grants "127.0.0.1:40001" (Ok "10.0.0.1:1052")) (newDaemon tlsDaemon, nothing) = Ret (Returned (Ok tt), s) /\
  hasTLS s.1 = true /\ Close allEnd false (Ok tt) s = Ret (Returned (Ok tt), s').
Proof.
  assert (match demoStart (grants "127.0.0.1:40001" (Ok "10.0.0.1:1052")) (newDaemon tlsDaemon, nothing) with
          | Ret (Returned (Ok tt), s) => hasTLS s.1 = true /\ match Close allEnd false (Ok tt) s with Ret (Returned (Ok tt), _) => True | _ => False end
          | _ => False
          end) as Hs by (vm_compute; exact (conj eq_refl I)).
  destruct (demoStart (grants "127.0.0.1:40001" (Ok "10.0.0.1:1052")) (newDaemon tlsDaemon, nothing))
    as [[[[[]|]|] s]|]; [|destruct Hs..]. destruct Hs as [Ht Hs].
  destruct (Close allEnd false (Ok tt) s) as [[[[[]|]|] s']|] eqn:Ec; [|destruct Hs..]. exists s, s'. split; [reflexivity|]. split; [exact Ht|exact Ec].
Qed.

Lemma close_releases_witness : exists s s',
  demoStart (grants "127.0.0.1:40001" (Ok "10.0.0.1:1052")) (newDaemon tlsDaemon, nothing) = Ret (Returned (Ok tt), s) /\
  Close allEnd false (Ok tt) s = Ret (Returned (Ok tt), s') /\
  (forall i r, h_map s'.2 !! i = Some r -> lasting r).
Proof.
  destruct demo_closes as (s & s' & Es & _ & Ec). exists s, s'. split; [exact Es|]. split; [exact Ec|].
  exact (close_releases (grants "127.0.0.1:40001" (Ok "10.0.0.1:1052")) _ _ _ _ _ eq_refl Es Ec).
Defined.

Lemma tls_restart_never_completes_witness : exists s s',
  demoStart (grants "127.0.0.1:40001" (Ok "10.0.0.1:1052")) (newDaemon tlsDaemon, nothing) = Ret (Returned (Ok tt), s) /\
  Close allEnd false (Ok tt) s = Ret (Returned (Ok tt), s') /\
  forall s'', demoStart (grants "127.0.0.1:40002" (Ok "10.0.0.1:1052")) s' <> Ret (Returned (Ok tt), s'').
Proof.
  destruct demo_closes as (s & s' & Es & Ht & Ec). exists s, s'. split; [exact Es|]. split; [exact Ec|]. intros s''.
  refine (tls_restart_never_completes (grants "127.0.0.1:40001" (Ok "10.0.0.1:1052")) (grants "127.0.0.1:40002" (Ok "10.0.0.1:1052")) _ _ _ "127.0.0.1:40001" _ _ s'' eq_refl Es Ht eq_refl _ Ec _ eq_refl); [discriminate|].
  split_and!; discriminate.
Defined.
