(* ===== verification/Tools.v ===== *)
(** * Around the server ([client.go], [staticbuilder.go], [metadata_carrier.go],
    [grpc_stats.go], [cmd/gubernator-cli], [cmd/healthcheck])

    The helpers of clients, the counting of finished calls, and what the command line
    tools send and report. *)

From stdpp Require Import base gmap strings pretty list.
From Stdlib Require Import ZArith Lia Ascii.
From S2P Require Import Prelude Float64 Types GoStrings GoTime ReplicatedHash Network TLS DNSPool Config EnvConfig.

Local Open Scope Z_scope.
#[local] Set Warnings "-clear-no-such-hyp".

(** ** Times and names ([client.go]) *)

Definition ToTimeStamp (duration : Z) : Z := Z.quot duration Millisecond.

(** The zone plays no part in what is computed from it. *)
Definition FromUnixMilliseconds (ts : Z) : Time := mkTime (mul64 ts Millisecond) UTC.

Definition FromTimeStamp (now : Time) (ts : Z) : Z := Sub (FromUnixMilliseconds ts) now.

Definition alphanumeric : string := "0123456789ABCDEFGHIJKLMNOPQRSTUVWXYZabcdefghijklmnopqrstuvwxyz".

(** [RandomString], from the bytes that were read. *)
Definition RandomString (random : list Z) : string :=
  foldr (fun b s => match String.get (Z.to_nat (b mod 62)) alphanumeric with
                    | Some c => String c s
                    | None => s
                    end) "" random.

(** [RandomPeer] on a list as it was shuffled. *)
Definition RandomPeer (shuffled : list PeerInfo) : outcome PeerInfo :=
  match shuffled with
  | [] => Panic "index out of range [0] with length 0"
  | p :: _ => Ret p
  end.

(** [DialV1Server], given what [grpc.NewClient] returns. *)
Definition DialV1Server {A} (server : string) (newClient : result A) : result A :=
  if String.eqb server "" then Err (ErrNew "server is empty; must provide a server")
  else match newClient with
       | Err e => Err (ErrWrap ("failed to dial server " +:+ server) e)
       | Ok c => Ok c
       end.

Lemma alphanumeric_get (k : nat) : (k < 62)%nat -> exists c, String.get k alphanumeric = Some c /\ contains c alphanumeric = true.
Proof. intros Hk. do 62 (destruct k as [|k]; [by eexists|]). lia. Qed.

(** A random string has a character for every byte read, all from the alphabet. *)
Lemma RandomString_spec (random : list Z) :
  String.length (RandomString random) = length random /\
  forall c, contains c (RandomString random) = true -> contains c alphanumeric = true.
Proof.
  induction random as [|b bs [IHl IHc]]; [done|]. cbn [RandomString foldr].
  destruct (alphanumeric_get (Z.to_nat (b mod 62))) as (c & Hc & Ha).
  { pose proof (Z.mod_pos_bound b 62 ltac:(lia)). lia. }
  rewrite Hc. fold (RandomString bs). split; [cbn; by rewrite IHl|].
  intros d [Hd|Hd]%orb_true_iff; [apply Ascii.eqb_eq in Hd as ->; done|by apply IHc].
Qed.

(** The time left until a reset time, and back: exact for reset times of the next 292
    years, to the millisecond below. *)
Lemma FromTimeStamp_spec (now : Time) (ts : Z) : in64 (ts * Millisecond) -> in64 (ts * Millisecond - t_ns now) ->
  FromTimeStamp now ts = ts * Millisecond - t_ns now.
Proof.
  intros Hr Hd. unfold FromTimeStamp, Sub, FromUnixMilliseconds, mul64. cbn [t_ns]. rewrite wrap64_id by done.
  unfold in64 in *. lia.
Qed.

(** ** Resolver and metadata *)

(** [staticBuilder.Build]: the addresses an endpoint stands for. *)
Definition Build (endpoint : string) : list string := Split "," endpoint.

Definition carrierGet (m : gmap string string) (key : string) : string := default "" (m !! key).
Definition carrierSet (m : gmap string string) (key value : string) : gmap string string := <[key := value]> m.
Definition carrierKeys (m : gmap string string) : list string := (map_to_list m).*1.

(** What was set is found, under a key that is listed. *)
Lemma carrier_spec (m : gmap string string) (k v : string) :
  carrierGet (carrierSet m k v) k = v /\ k ∈ carrierKeys (carrierSet m k v).
Proof.
  unfold carrierGet, carrierSet, carrierKeys. rewrite lookup_insert_eq. split; [done|].
  apply list_elem_of_fmap. exists (k, v). split; [done|]. apply elem_of_map_to_list, lookup_insert_eq.
Qed.

(** ** Counting calls ([GRPCStatsHandler]) *)

Record GRPCStats : Type := mkStats { gs_Duration : Z; gs_Method : string; gs_Failed : Z; gs_Success : Z }.

(** The channel, the request counter by status and method, and the durations observed;
    the counter adds 0 and 1 and is exact. *)
Record Stats : Type := mkHandlerStats {
  sh_reqCh : list GRPCStats;
  sh_count : gmap (string * string) Z;
  sh_durations : list (string * Z)
}.

Definition reqChSize : nat := Z.to_nat 10000.

Definition TagRPC (method : string) : GRPCStats := mkStats 0 method 0 0.

(** [HandleRPC] of the end of a call; [None] while the channel is full. *)
Definition HandleRPC (rs : option GRPCStats) (begin_ end_ : Z) (failed : bool) (s : Stats) : option Stats :=
  match rs with
  | None => Some s
  | Some rs =>
      if (length (sh_reqCh s) <? reqChSize)%nat then
        Some (mkHandlerStats
          (sh_reqCh s ++ [mkStats (end_ - begin_) (gs_Method rs)
                            (if failed then 1 else gs_Failed rs) (if failed then gs_Success rs else 1)])
          (sh_count s) (sh_durations s))
      else None
  end.

Definition addCount (status method : string) (n : Z) (m : gmap (string * string) Z) : gmap (string * string) Z :=
  <[(status, method) := default 0 (m !! (status, method)) + n]> m.

(** One turn of the goroutine of [run]; [None] while the channel is empty. *)
Definition runOnce (s : Stats) : option Stats :=
  match sh_reqCh s with
  | [] => None
  | st :: rest =>
      Some (mkHandlerStats rest
        (addCount "success" (gs_Method st) (gs_Success st) (addCount "failed" (gs_Method st) (gs_Failed st) (sh_count s)))
        (sh_durations s ++ [(gs_Method st, gs_Duration st)]))
  end.

(** What happens to the handler: calls end and the goroutine runs, in any order. *)
Inductive statsStep : list (string * bool) -> Stats -> list (string * bool) -> Stats -> Prop :=
  | EndRPC log s s' method b e failed :
      HandleRPC (Some (TagRPC method)) b e failed s = Some s' -> statsStep log s (log ++ [(method, failed)]) s'
  | Run log s s' : runOnce s = Some s' -> statsStep log s log s'.

Inductive statsReach : list (string * bool) -> Stats -> Prop :=
  | StatsInit : statsReach [] (mkHandlerStats [] ∅ [])
  | StatsStep log s log' s' : statsReach log s -> statsStep log s log' s' -> statsReach log' s'.

(** *** Every call is counted once *)

Definition waiting (f : GRPCStats -> Z) (method : string) (q : list GRPCStats) : Z :=
  foldr (fun st n => (if String.eqb (gs_Method st) method then f st else 0) + n) 0 q.

Definition ended_with (failed : bool) (method : string) (log : list (string * bool)) : Z :=
  foldr (fun e n => (if String.eqb e.1 method && Bool.eqb e.2 failed then 1 else 0) + n) 0 log.

Definition counted (status method : string) (s : Stats) : Z := default 0 (sh_count s !! (status, method)).

Lemma foldr_sum_app {A} (f : A -> Z) (l : list A) (x : A) :
  foldr (fun a n => f a + n) 0 (l ++ [x]) = foldr (fun a n => f a + n) 0 l + f x.
Proof. induction l as [|a l IH]; simpl; lia. Qed.

Lemma counted_add (status method st m : string) (n : Z) (c : gmap (string * string) Z) :
  default 0 (addCount st m n c !! (status, method)) =
    default 0 (c !! (status, method)) + (if String.eqb st status && String.eqb m method then n else 0).
Proof.
  unfold addCount. destruct (decide ((st, m) = (status, method))) as [[= -> ->]|Hn].
  - rewrite lookup_insert_eq, !String.eqb_refl. done.
  - rewrite lookup_insert_ne by done. destruct (String.eqb_spec st status), (String.eqb_spec m method); cbn; try lia. congruence.
Qed.

Definition stats_inv (log : list (string * bool)) (s : Stats) : Prop :=
  (forall method, counted "failed" method s + waiting gs_Failed method (sh_reqCh s) = ended_with true method log /\
                  counted "success" method s + waiting gs_Success method (sh_reqCh s) = ended_with false method log) /\
  (length (sh_durations s) + length (sh_reqCh s) = length log)%nat.

Lemma stats_inv_step (log log' : list (string * bool)) (s s' : Stats) :
  stats_inv log s -> statsStep log s log' s' -> stats_inv log' s'.
Proof.
  intros [Hc Hd] Hstep. destruct Hstep as [log s s' method b e failed Hh|log s s' Hr].
  - unfold HandleRPC in Hh. destruct (_ <? _)%nat; [|done]. injection Hh as <-. split.
    + intros m. destruct (Hc m) as [Hf Hs]. unfold waiting, ended_with, counted in *. cbn [sh_count sh_reqCh] in *.
      rewrite !foldr_sum_app. cbn [gs_Method gs_Failed gs_Success TagRPC fst snd].
      destruct (String.eqb method m), failed; cbn; lia.
    + cbn. rewrite !List.length_app. cbn. lia.
  - unfold runOnce in Hr. destruct (sh_reqCh s) as [|st rest] eqn:Eq; [done|]. injection Hr as <-. split.
    + intros m. destruct (Hc m) as [Hf Hs]. unfold counted, waiting in *. cbn [sh_count sh_reqCh foldr] in *.
      rewrite !counted_add. cbn [String.eqb Ascii.eqb Bool.eqb andb]. destruct (String.eqb (gs_Method st) m); cbn in *; lia.
    + cbn in *. rewrite List.length_app. cbn. lia.
Qed.

(** However calls end and the collecting goroutine runs, every call that ended is counted
    exactly once, under its method and its outcome, or still waits in the channel; and one
    duration is observed for each call counted. *)
Theorem stats_counted_once (log : list (string * bool)) (s : Stats) (method : string) : statsReach log s ->
  counted "failed" method s + waiting gs_Failed method (sh_reqCh s) = ended_with true method log /\
  counted "success" method s + waiting gs_Success method (sh_reqCh s) = ended_with false method log /\
  (length (sh_durations s) + length (sh_reqCh s) = length log)%nat.
Proof.
  intros Hr. assert (stats_inv log s) as [Hc Hd].
  { induction Hr as [|log s log' s' _ IH Hstep]; [by split|by eapply stats_inv_step]. }
  destruct (Hc method) as [Hf Hs]. done.
Qed.

Definition oneCall : Stats := mkHandlerStats [mkStats 5 "/V1/GetRateLimits" 1 0] ∅ [].

Lemma stats_counted_once_witness :
  counted "failed" "/V1/GetRateLimits" oneCall + waiting gs_Failed "/V1/GetRateLimits" (sh_reqCh oneCall) =
    ended_with true "/V1/GetRateLimits" [("/V1/GetRateLimits", true)].
Proof.
  refine (proj1 (stats_counted_once [("/V1/GetRateLimits", true)] oneCall "/V1/GetRateLimits" _)).
  eapply StatsStep; [apply StatsInit|]. apply (EndRPC [] _ _ _ 0 5). reflexivity.
Defined.

(** ** The command line client ([cmd/gubernator-cli]) *)

(** The requests of one pass over the limits, [checks] in each. *)
Fixpoint passFrom {A} (fuel : nat) (checks i : nat) (limits : list A) : list (list A) :=
  match fuel with
  | O => []
  | S fuel =>
      if (i <? length limits)%nat
      then take (Nat.min (i + checks) (length limits) - i) (drop i limits) :: passFrom fuel checks (i + checks) limits
      else []
  end.

Definition pass {A} (checks : nat) (limits : list A) : list (list A) := passFrom (S (length limits)) checks 0 limits.

(** [randInt] of a random number; bounds of the durations generated. *)
Definition randInt (random min max : Z) : Z := random mod (max - min) + min.

Definition cliDuration (random : Z) : Z := randInt random (500 * Millisecond) (6 * Second).

(** Opening the configuration and choosing the address; [-config] and [-e] as given. *)
Definition cliAddress `{Arch, DNSLib} (pr : Process) (open : string -> result ConfigFile) (configFile grpcAddress : string)
    (g : Globals) : outcome (result string) :=
  match open configFile with
  | Err e => Ret (Err (ErrNew ("while opening config file: " +:+ err_text e)))
  | Ok f =>
      match SetupDaemonConfig pr (Some f) g with
      | Panic why => Panic why
      | Ret (Err e, _) => Ret (Err e)
      | Ret (Ok conf, g) =>
          let addr := if String.eqb grpcAddress "" then d_GRPCListenAddress conf else grpcAddress in
          if String.eqb configFile "" && String.eqb grpcAddress "" && String.eqb (Getenv (g_env g) "GUBER_GRPC_ADDRESS") ""
          then Ret (Err (ErrNew ("please provide a GRPC endpoint via -e or from a config " +:+
                                 "file via -config or set the env GUBER_GRPC_ADDRESS")))
          else Ret (Ok addr)
      end
  end.

Lemma passFrom_spec {A} (checks : nat) (limits : list A) : (0 < checks)%nat ->
  forall fuel i, (length limits < i + fuel)%nat ->
  concat (passFrom fuel checks i limits) = drop i limits /\
  Forall (fun r => (0 < length r <= checks)%nat) (passFrom fuel checks i limits).
Proof.
  intros Hc fuel. induction fuel as [|fuel IH]; intros i Hf.
  - cbn. split; [|constructor]. by rewrite drop_ge by lia.
  - cbn [passFrom]. destruct (Nat.ltb_spec i (length limits)) as [Hi|Hi].
    + destruct (IH (i + checks)%nat ltac:(lia)) as [Hcat Hall]. cbn [concat]. rewrite Hcat. split.
      * rewrite <- (take_drop (Nat.min (i + checks) (length limits) - i) (drop i limits)) at 2. f_equal.
        rewrite drop_drop. destruct (Nat.le_ge_cases (i + checks) (length limits)).
        -- f_equal. lia.
        -- rewrite !drop_ge by lia. done.
      * constructor; [|exact Hall]. rewrite length_take, length_drop. lia.
    + split; [|constructor]. cbn. by rewrite drop_ge by lia.
Qed.

(** One pass of the client sends every limit exactly once and in order, in requests that
    are not empty and hold at most the number of checks asked for; the pass ends. *)
Theorem cli_pass {A} (checks : nat) (limits : list A) : (0 < checks)%nat ->
  concat (pass checks limits) = limits /\ Forall (fun r => (0 < length r <= checks)%nat) (pass checks limits).
Proof. intros Hc. apply (passFrom_spec checks limits Hc (S (length limits)) 0). lia. Qed.

Lemma cli_pass_witness : concat (pass 3 [1; 2; 3; 4; 5; 6; 7; 8]) = [1; 2; 3; 4; 5; 6; 7; 8] /\ length (pass 3 [1; 2; 3; 4; 5; 6; 7; 8]) = 3%nat.
Proof. split; [|reflexivity]. exact (proj1 (cli_pass 3 [1; 2; 3; 4; 5; 6; 7; 8] ltac:(lia))). Defined.

(** The loop of [main] on machine integers: [-checks] is a [uint64], the index an [int]. *)
Definition minInt (a b : Z) : Z := if a <=? b then a else b.

Definition cliRequest {A} (checks i : Z) (limits : list A) : outcome (list A * Z) :=
  let n := Z.of_nat (length limits) in
  let next := wrap64 (i + wrap64 checks) in
  let hi := minInt next n in
  if (0 <=? i) && (i <=? hi) && (hi <=? n)
  then Ret (take (Z.to_nat (hi - i)) (drop (Z.to_nat i) limits), next)
  else Panic "slice bounds out of range".

Fixpoint cliPass {A} (fuel : nat) (checks i : Z) (limits : list A) : outcome (list (list A)) :=
  match fuel with
  | O => Ret []
  | S fuel =>
      if i <? Z.of_nat (length limits) then
        match cliRequest checks i limits with
        | Panic why => Panic why
        | Ret (req, next) =>
            match cliPass fuel checks next limits with Ret reqs => Ret (req :: reqs) | Panic why => Panic why end
        end
      else Ret []
  end.

Lemma cliPass_passFrom {A} (checks : Z) (limits : list A) : 1 <= checks < 2 ^ 63 -> Z.of_nat (length limits) < 2 ^ 62 ->
  forall fuel i, (i = 0%nat \/ checks <= Z.of_nat i) ->
  cliPass fuel checks (Z.of_nat i) limits = Ret (passFrom fuel (Z.to_nat checks) i limits).
Proof.
  intros Hc Hl fuel. induction fuel as [|fuel IH]; intros i Hi; [done|]. cbn [cliPass passFrom].
  destruct (Z.ltb_spec (Z.of_nat i) (Z.of_nat (length limits))), (Nat.ltb_spec i (length limits)); try lia; [|done].
  unfold cliRequest. rewrite (wrap64_id checks) by (unfold in64, min_i64, max_i64; lia).
  rewrite wrap64_id by (unfold in64, min_i64, max_i64; lia).
  replace (Z.of_nat i + checks) with (Z.of_nat (i + Z.to_nat checks)) by lia. unfold minInt.
  destruct (Z.leb_spec (Z.of_nat (i + Z.to_nat checks)) (Z.of_nat (length limits)));
    (destruct (Z.leb_spec 0 (Z.of_nat i)); [|lia]); cbn [andb].
  - rewrite (proj2 (Z.leb_le _ _)), (proj2 (Z.leb_le _ _)) by lia. cbn [andb]. rewrite IH by (right; lia). rewrite Nat2Z.id.
    replace (Z.to_nat (Z.of_nat (i + Z.to_nat checks) - Z.of_nat i)) with (Nat.min (i + Z.to_nat checks) (length limits) - i)%nat by lia. done.
  - rewrite (proj2 (Z.leb_le _ _)), (proj2 (Z.leb_le _ _)) by lia. cbn [andb]. rewrite IH by (right; lia). rewrite Nat2Z.id.
    replace (Z.to_nat (Z.of_nat (length limits) - Z.of_nat i)) with (Nat.min (i + Z.to_nat checks) (length limits) - i)%nat by lia. done.
Qed.

(** What [-checks] does: with a number from 1 to 2^63 - 1 a pass sends every limit once;
    with 0 the client sends empty requests for ever and no limit at all; with more the
    program panics at once. *)
Theorem cli_checks {A} (limits : list A) (checks : Z) (Hne : limits <> []) (Hl : Z.of_nat (length limits) < 2 ^ 62)
    (Hc : 0 <= checks < 2 ^ 64) :
  (1 <= checks < 2 ^ 63 -> exists reqs, cliPass (S (length limits)) checks 0 limits = Ret reqs /\ concat reqs = limits /\ Forall (fun r => r <> []) reqs) /\
  (checks = 0 -> cliRequest checks 0 limits = Ret ([], 0)) /\
  (2 ^ 63 <= checks -> cliRequest checks 0 limits = Panic "slice bounds out of range").
Proof.
  assert (Hn : 0 < Z.of_nat (length limits)) by (destruct limits; [done|simpl; lia]). split_and!.
  - intros Hr. exists (pass (Z.to_nat checks) limits). split; [apply (cliPass_passFrom checks limits Hr Hl (S (length limits)) 0); by left|].
    destruct (cli_pass (Z.to_nat checks) limits ltac:(lia)) as [Hcat Hall]. split; [done|].
    eapply Forall_impl; [exact Hall|]. intros r Hlen ->. simpl in Hlen. lia.
  - intros ->. unfold cliRequest, minInt. change (wrap64 (0 + wrap64 0)) with 0.
    by destruct (Z.leb_spec 0 (Z.of_nat (length limits))) as [Hle|]; [rewrite (proj2 (Z.leb_le _ _) Hle)|lia].
  - intros Hbig. unfold cliRequest. assert (Hw : wrap64 checks = checks - 2 ^ 64).
    { unfold wrap64. rewrite <- (Z_mod_plus_full _ (-1)), Z.mod_small; lia. }
    rewrite Hw, Z.add_0_l, wrap64_id by (unfold in64, min_i64, max_i64; lia). unfold minInt.
    destruct (Z.leb_spec (checks - 2 ^ 64) (Z.of_nat (length limits))); [|lia]. by destruct (Z.leb_spec 0 (checks - 2 ^ 64)); [lia|].
Qed.

Lemma cli_checks_witness : cliRequest (2 ^ 64 - 1) 0 [1; 2; 3] = Panic "slice bounds out of range" /\ cliRequest 0 0 [1; 2; 3] = Ret ([], 0).
Proof.
  split.
  - apply (cli_checks [1; 2; 3] (2 ^ 64 - 1)); [discriminate|reflexivity|split; [discriminate|reflexivity]|discriminate].
  - apply (cli_checks [1; 2; 3] 0); [discriminate|reflexivity|split; [discriminate|reflexivity]|reflexivity].
Defined.

(** The durations generated are numbers of nanoseconds where the request has milliseconds:
    none is below five days. *)
Theorem cli_durations (random : Z) : 5 * 24 * 60 * 60 * 1000 < cliDuration random.
Proof. unfold cliDuration, randInt. pose proof (Z.mod_pos_bound random (6 * Second - 500 * Millisecond) ltac:(done)). unfold Second, Millisecond in *. lia. Qed.

(** Without [-config] the client gives up on opening it, whatever the endpoint given: a file
    with an empty name does not exist. *)
Theorem cli_needs_config `{Arch, DNSLib} (pr : Process) (open : string -> result ConfigFile) (grpcAddress : string) (g : Globals) (e : gerror) :
  open "" = Err e -> exists e', cliAddress pr open "" grpcAddress g = Ret (Err e').
Proof. intros Ho. unfold cliAddress. rewrite Ho. by eexists. Qed.

(** The limits the client replays, from three random values for each. *)
Definition cliLimit (i : nat) (random : list Z * Z * Z) : RateLimitReq :=
  let '(key, limit, duration) := random in
  mkReq ("gubernator-cli-" +:+ pretty (Z.of_nat i)) (RandomString key) 1 (randInt limit 1 1000) (cliDuration duration)
    TOKEN_BUCKET BATCHING 0 ∅ None 0.

Definition cliLimits (random : list (list Z * Z * Z)) : list RateLimitReq := imap cliLimit (take 2000 random).

(** What the client logs of one response. *)
Inductive CliLog : Type :=
  | CallFailed (e : gerror)
  | NilResponse
  | NilResponses
  | Overlimit (name : string)
  | Dump (responses : list RateLimitResp).

(** The loop over the responses; it indexes the requests. *)
Fixpoint overlimits (itemNum : nat) (requests : list RateLimitReq) (responses : list RateLimitResp) : outcome (list CliLog) :=
  match responses with
  | [] => Ret []
  | resp :: responses =>
      match rl_Status resp with
      | OVER_LIMIT =>
          match requests !! itemNum with
          | None => Panic "index out of range"
          | Some req =>
              match overlimits (S itemNum) requests responses with
              | Panic why => Panic why
              | Ret logs => Ret (Overlimit (r_Name req) :: logs)
              end
          end
      | _ => overlimits (S itemNum) requests responses
      end
  end.

(** [sendRequest], of what the call returned: a message, whose list may be nil. *)
Definition sendRequest (quiet : bool) (requests : list RateLimitReq) (got : result (option (option (list RateLimitResp))))
    : outcome (list CliLog) :=
  match got with
  | Err e => Ret [CallFailed e]
  | Ok None => Ret [NilResponse]
  | Ok (Some None) => Ret [NilResponses]
  | Ok (Some (Some responses)) =>
      match overlimits 0 requests responses with
      | Panic why => Panic why
      | Ret [] => Ret []
      | Ret logs => Ret (logs ++ if quiet then [] else [Dump responses])
      end
  end.

Lemma overlimits_spec (requests : list RateLimitReq) (responses : list RateLimitResp) : forall i,
  (i + length responses <= length requests)%nat ->
  overlimits i requests responses =
    Ret ((fun rr => Overlimit (r_Name rr.1)) <$> filter (fun rr => rl_Status rr.2 = OVER_LIMIT) (zip (drop i requests) responses)).
Proof.
  induction responses as [|resp responses IH]; intros i Hl; [by rewrite zip_with_nil_r|].
  simpl in Hl. destruct (lookup_lt_is_Some_2 requests i) as [req Hr]; [lia|].
  rewrite (drop_S requests req i Hr). cbn [zip_with overlimits]. rewrite filter_cons. cbn [snd].
  rewrite (IH (S i)) by lia. destruct (rl_Status resp); case_decide; try done. by rewrite Hr.
Qed.

(** A response for each request is what the server gives; then the client names exactly the
    limits that were over, in order, and never reads past its requests. *)
Theorem cli_names_overlimits (quiet : bool) (requests : list RateLimitReq) (responses : list RateLimitResp)
    (Hl : length responses = length requests) :
  exists logs, sendRequest quiet requests (Ok (Some (Some responses))) = Ret logs /\
    forall name, Overlimit name ∈ logs <->
      exists i req resp, requests !! i = Some req /\ responses !! i = Some resp /\ rl_Status resp = OVER_LIMIT /\ r_Name req = name.
Proof.
  unfold sendRequest. rewrite (overlimits_spec requests responses 0) by (simpl; lia). rewrite drop_0.
  set (over := (fun rr : RateLimitReq * RateLimitResp => Overlimit (r_Name rr.1)) <$> filter _ _).
  assert (forall name, Overlimit name ∈ over <-> exists i req resp, requests !! i = Some req /\ responses !! i = Some resp /\
    rl_Status resp = OVER_LIMIT /\ r_Name req = name) as Hover.
  { intros name. unfold over. rewrite list_elem_of_fmap. split.
    - intros ([req resp] & [= ->] & [Hs (i & Hi)%list_elem_of_lookup]%list_elem_of_filter).
      apply lookup_zip_Some in Hi as [? ?]. by exists i, req, resp.
    - intros (i & req & resp & Hq & Hp & Hs & <-). exists (req, resp). split; [done|]. apply list_elem_of_filter.
      split; [done|]. apply list_elem_of_lookup. exists i. by apply lookup_zip_Some. }
  destruct over as [|l over]; [by exists []|]. eexists. split; [done|]. intros name. rewrite <- Hover, elem_of_app.
  destruct quiet; [set_solver|]. rewrite list_elem_of_singleton. naive_solver.
Qed.

(** ** The health probe ([cmd/healthcheck]) *)

Definition parseAttempts (attemptsStr : string) : result Z :=
  if String.eqb attemptsStr "" then Ok 1 else Atoi attemptsStr.

Inductive probeError : Type := NotHealthy (status : string) | Failed (e : gerror).

(** One attempt: what the request, reading the body and decoding it gave. *)
Definition checkOnce (got : result string) (body : string -> result string) : option probeError :=
  match got with
  | Err e => Some (Failed e)
  | Ok b =>
      match body b with
      | Err e => Some (Failed e)
      | Ok status => if String.eqb status "healthy" then None else Some (NotHealthy status)
      end
  end.

Definition exitCode (err : option probeError) : Z :=
  match err with None => 0 | Some (NotHealthy _) => 2 | Some (Failed _) => 1 end.

(** The probe exits with 0 exactly when the instance says it is healthy. *)
Lemma probe_exact (got : result string) (body : string -> result string) :
  exitCode (checkOnce got body) = 0 <-> exists b, got = Ok b /\ body b = Ok "healthy".
Proof.
  split.
  - unfold checkOnce. destruct got as [b|e]; [|done]. destruct (body b) as [st|e] eqn:E; [|done].
    destruct (String.eqb_spec st "healthy") as [->|]; [|done]. by exists b.
  - intros (b & -> & Hb). unfold checkOnce. by rewrite Hb.
Qed.
