(* ===== verification/Metrics.v ===== *)
(** * Metrics ([gubernator.go], [lrucache.go], [global.go], [grpc_stats.go], [daemon.go])

    The metrics of a daemon, the three collectors that describe and collect them, and
    their registration when the daemon starts. The registry is a library: an interface
    with its documented rules for descriptions. *)

From stdpp Require Import base gmap strings list.
From Stdlib Require Import ZArith Lia Ascii.
From S2P Require Import Prelude Float64 Types Runtime LRUCache Store Demo.

Local Open Scope Z_scope.

(** ** Descriptions *)

Inductive MetricKind : Type := Counter | Gauge | Summary.

(** The name of a metric, its kind and its variable labels. *)
Record Desc : Type := mkDesc { d_Name : string; d_Kind : MetricKind; d_Labels : list string }.

Definition metricGetRateLimitCounter : Desc := mkDesc "gubernator_getratelimit_counter" Counter ["calltype"].
Definition metricFuncTimeDuration : Desc := mkDesc "gubernator_func_duration" Summary ["name"].
Definition metricOverLimitCounter : Desc := mkDesc "gubernator_over_limit_counter" Counter [].
Definition metricScheduledCount : Desc := mkDesc "gubernator_scheduled_count" Counter [].
Definition metricScheduledCeilingRefusedCount : Desc := mkDesc "gubernator_scheduled_ceiling_refused_count" Counter [].
Definition metricScheduledDebtResetCount : Desc := mkDesc "gubernator_scheduled_debt_reset_count" Counter [].
Definition metricConcurrentChecks : Desc := mkDesc "gubernator_concurrent_checks_counter" Gauge [].
Definition metricCheckErrorCounter : Desc := mkDesc "gubernator_check_error_counter" Counter ["error"].
Definition metricCommandCounter : Desc := mkDesc "gubernator_command_counter" Counter ["worker"; "method"].
Definition metricWorkerQueue : Desc := mkDesc "gubernator_worker_queue_length" Gauge ["method"; "worker"].
Definition metricBatchSendRetries : Desc := mkDesc "gubernator_batch_send_retries" Counter ["name"].
Definition metricBatchQueueLength : Desc := mkDesc "gubernator_batch_queue_length" Gauge ["peerAddr"].
Definition metricBatchSendDuration : Desc := mkDesc "gubernator_batch_send_duration" Summary ["peerAddr"].
Definition metricUpdatePeerGlobalsCounter : Desc := mkDesc "gubernator_updatepeerglobals_counter" Counter [].

(** The metrics [newGlobalManager] makes. *)
Definition metricGlobalSendDuration : Desc := mkDesc "gubernator_global_send_duration" Summary [].
Definition metricGlobalSendQueueLength : Desc := mkDesc "gubernator_global_send_queue_length" Gauge [].
Definition metricGlobalSendErrors : Desc := mkDesc "gubernator_global_send_errors" Counter [].
Definition metricBroadcastDuration : Desc := mkDesc "gubernator_broadcast_duration" Summary [].
Definition metricBroadcastErrors : Desc := mkDesc "gubernator_broadcast_errors" Counter [].
Definition metricGlobalQueueLength : Desc := mkDesc "gubernator_global_queue_length" Gauge [].

(** The metrics of the caches and of the calls. *)
Definition metricCacheSize : Desc := mkDesc "gubernator_cache_size" Gauge [].
Definition metricCacheAccess : Desc := mkDesc "gubernator_cache_access_count" Counter ["type"].
Definition metricCacheUnexpiredEvictions : Desc := mkDesc "gubernator_unexpired_evictions_count" Counter [].
Definition metricScheduledDebtEvictions : Desc := mkDesc "gubernator_scheduled_debt_evictions_count" Counter [].
Definition metricScheduledDebtLostTokens : Desc := mkDesc "gubernator_scheduled_debt_lost_tokens" Counter [].
Definition grpcRequestCount : Desc := mkDesc "gubernator_grpc_request_counts" Counter ["status"; "method"].
Definition grpcRequestDuration : Desc := mkDesc "gubernator_grpc_request_duration" Summary ["method"].

(** ** Collectors *)

(** [Describe] and [Collect] as what they put on the channel. *)
Definition instanceDescribe : list Desc :=
  [metricBatchQueueLength; metricBatchSendDuration; metricBatchSendRetries; metricCheckErrorCounter;
   metricCommandCounter; metricConcurrentChecks; metricFuncTimeDuration; metricGetRateLimitCounter;
   metricOverLimitCounter; metricScheduledCount; metricScheduledCeilingRefusedCount;
   metricScheduledDebtResetCount; metricWorkerQueue; metricUpdatePeerGlobalsCounter;
   metricBroadcastDuration; metricBroadcastErrors; metricGlobalQueueLength; metricGlobalSendDuration;
   metricGlobalSendQueueLength; metricGlobalSendErrors].

Definition instanceCollect : list Desc :=
  [metricBatchQueueLength; metricBatchSendDuration; metricBatchSendRetries; metricCheckErrorCounter;
   metricCommandCounter; metricConcurrentChecks; metricFuncTimeDuration; metricGetRateLimitCounter;
   metricOverLimitCounter; metricScheduledCount; metricScheduledCeilingRefusedCount;
   metricScheduledDebtResetCount; metricWorkerQueue; metricUpdatePeerGlobalsCounter;
   metricBroadcastDuration; metricBroadcastErrors; metricGlobalQueueLength; metricGlobalSendDuration;
   metricGlobalSendErrors; metricGlobalSendQueueLength].

Definition statsDescribe : list Desc := [grpcRequestCount; grpcRequestDuration].
Definition statsCollect : list Desc := [grpcRequestCount; grpcRequestDuration].

(** The collector of the caches of a daemon. *)
Definition NewLRUCacheCollector : list LRUCache := [].
Definition AddCache (cache : LRUCache) (caches : list LRUCache) : list LRUCache := caches ++ [cache].

Definition cacheDescribe : list Desc :=
  [metricCacheSize; metricCacheAccess; metricCacheUnexpiredEvictions; metricScheduledDebtEvictions; metricScheduledDebtLostTokens].

(** The gauge is set to the size of all caches before it is collected. *)
Definition cacheCollect (caches : list LRUCache) : list (Desc * option f64) :=
  [(metricCacheSize, Some (getSize caches)); (metricCacheAccess, None); (metricCacheUnexpiredEvictions, None);
   (metricScheduledDebtEvictions, None); (metricScheduledDebtLostTokens, None)].

(** ** The size of the caches *)

(** An element of the list is in the map under one key. *)
Lemma cache_elements (e : Env) (c : LRUCache) : lru_core e c -> (map_to_list (lc_cache c)).*2 ≡ₚ lc_ll c.
Proof.
  intros Hc. apply NoDup_Permutation; [|apply Hc|].
  - apply NoDup_fmap_2_strong; [|apply NoDup_map_to_list]. intros [k1 id1] [k2 id2] H1 H2 Hid. simpl in Hid. subst id2.
    apply elem_of_map_to_list in H1, H2. destruct (wf_cache _ _ Hc _ _ H1) as (p1 & it1 & Hp1 & Hi1 & <-).
    destruct (wf_cache _ _ Hc _ _ H2) as (p2 & it2 & Hp2 & Hi2 & <-). congruence.
  - intros id. rewrite (wf_ll _ _ Hc), list_elem_of_fmap. split.
    + intros ([k id'] & -> & Hk%elem_of_map_to_list). destruct (wf_cache _ _ Hc _ _ Hk) as (p & it & Hp & _). by exists p.
    + intros [p Hp]. destruct (wf_elems _ _ Hc _ _ Hp) as (it & _ & Hk). exists (it_Key it, id). by rewrite elem_of_map_to_list.
Qed.

(** [Size] is the number of keys. *)
Lemma Size_keys (e : Env) (c : LRUCache) : lru_wf e c -> Size c = Z.of_nat (size (lru_view c)).
Proof.
  intros [Hc Hlen _]. unfold Size. rewrite Hlen. f_equal.
  rewrite <- (Permutation_length (cache_elements e c Hc)), length_fmap, length_map_to_list.
  rewrite <- !size_dom. f_equal. apply set_eq. intros k. rewrite !elem_of_dom. unfold lru_view. rewrite lookup_omap. split.
  - intros [id Hk]. rewrite Hk. destruct (wf_cache _ _ Hc _ _ Hk) as (p & it & Hp & _). simpl. by rewrite Hp.
  - intros [p Hp]. destruct (lc_cache c !! k); [done|discriminate Hp].
Qed.

Definition totalKeys (caches : list LRUCache) : Z := foldr (fun c n => Z.of_nat (size (lru_view c)) + n) 0 caches.

Lemma getSize_sum (e : Env) (caches : list LRUCache) (n : Z) : Forall (lru_wf e) caches -> 0 <= n -> n + totalKeys caches < 2 ^ 53 ->
  fold_left (fun size c => fadd size (f64_of_int (Size c))) caches (f64_of_int n) = f64_of_int (n + totalKeys caches).
Proof.
  intros Hc. revert n. induction Hc as [|c caches Hw _ IH]; intros n Hn Hlt; simpl in *; [by rewrite Z.add_0_r|].
  assert (Hpos : 0 <= totalKeys caches) by (clear; induction caches; simpl; lia). rewrite (Size_keys e) by done. unfold f64_of_int in *.
  rewrite fadd_dyf; [|unfold mant, expo; lia..]. rewrite IH by lia. f_equal. lia.
Qed.

(** The gauge of the cache size is the number of keys in all caches of the daemon, exactly,
    as long as there are fewer than 2^53. *)
Theorem cache_size_reported (e : Env) (caches : list LRUCache)
    (Hwf : Forall (lru_wf e) caches) (Hlt : totalKeys caches < 2 ^ 53) :
  (metricCacheSize, Some (f64_of_int (totalKeys caches))) ∈ cacheCollect caches.
Proof.
  unfold cacheCollect, getSize. change fzero with (f64_of_int 0). rewrite (getSize_sum e) by done. left.
Qed.

Lemma cache_size_reported_witness :
  (metricCacheSize, Some (f64_of_int 0)) ∈ cacheCollect (AddCache (NewLRUCache 10) NewLRUCacheCollector).
Proof.
  apply (cache_size_reported (demoEnv 0) (AddCache (NewLRUCache 10) NewLRUCacheCollector)); [|reflexivity].
  apply Forall_cons_2; [apply NewLRUCache_wf; discriminate|apply Forall_nil_2].
Defined.

(** ** Registration *)

Definition letter (c : ascii) : bool :=
  let n := nat_of_ascii c in ((65 <=? n) && (n <=? 90) || (97 <=? n) && (n <=? 122))%nat.
Definition digit (c : ascii) : bool := let n := nat_of_ascii c in ((48 <=? n) && (n <=? 57))%nat.

Fixpoint allChars (f : ascii -> bool) (s : string) : bool :=
  match s with EmptyString => true | String c s => f c && allChars f s end.

(** The data model: a metric name is letters, digits, [_] and [:], a label name letters,
    digits and [_]; neither begins with a digit, and labels with [__] are reserved. *)
Definition validName (s : string) : bool :=
  match s with
  | EmptyString => false
  | String c _ => negb (digit c) && allChars (fun c => letter c || digit c || (c =? "_")%char || (c =? ":")%char) s
  end.

Definition validLabel (s : string) : bool :=
  match s with
  | EmptyString => false
  | String c _ => negb (digit c) && negb (String.prefix "__" s) && allChars (fun c => letter c || digit c || (c =? "_")%char) s
  end.

Definition validDesc (d : Desc) : bool :=
  validName (d_Name d) && forallb validLabel (d_Labels d) && bool_decide (NoDup (d_Labels d)).

(** A registry ([prometheus.Registry]). *)
Class Registry (R : Type) : Type := {
  NewRegistry : R;
  Register_ : list Desc -> R -> result unit * R;    (* [Register] of a collector that describes these *)
  registered : R -> list Desc
}.

(** Its documented rules: valid descriptions under new names are accepted, a name that is
    taken is refused. *)
Class RegistryLaws (R : Type) `{Registry R} : Prop := {
  reg_new : registered NewRegistry = [];
  reg_accepts : forall r ds, Forall (fun d => validDesc d = true) ds -> NoDup (d_Name <$> (registered r ++ ds)) ->
    exists r', Register_ ds r = (Ok tt, r') /\ registered r' = registered r ++ ds;
  reg_refuses : forall r ds d, d ∈ ds -> d_Name d ∈ d_Name <$> registered r ->
    exists e, Register_ ds r = (Err e, r)
}.

Section Registration.
Context {R : Type} `{RegistryLaws R}.

(** The registrations of [Start]: the error of the first is returned, those of the others
    are dropped. *)
Definition registerCollectors (r : R) : result R :=
  match Register_ cacheDescribe r with
  | (Err e, _) => Err (ErrWrap "during call to promRegister.Register()" e)
  | (Ok _, r) => Ok (snd (Register_ instanceDescribe (snd (Register_ statsDescribe r))))
  end.

(** Whatever is collected is described, once. *)
Lemma collect_described :
  instanceCollect ≡ₚ instanceDescribe /\ statsCollect = statsDescribe /\
  forall caches, (cacheCollect caches).*1 = cacheDescribe.
Proof.
  split_and!; [|done|done]. unfold instanceCollect, instanceDescribe. repeat apply Permutation_skip. apply Permutation_swap.
Qed.

Lemma names_distinct : NoDup (d_Name <$> (cacheDescribe ++ statsDescribe ++ instanceDescribe)).
Proof. apply (bool_decide_unpack _). vm_compute. exact I. Qed.

Lemma all_valid : Forall (fun d => validDesc d = true) (cacheDescribe ++ statsDescribe ++ instanceDescribe).
Proof. apply (bool_decide_unpack _). vm_compute. exact I. Qed.

(** A daemon starts with its metrics registered: none of the registrations fails, although
    the errors of two are dropped, and the registry knows every metric that any of the
    three collectors will ever collect. *)
Theorem metrics_registered : exists r, registerCollectors NewRegistry = Ok r /\
  (forall d, d ∈ instanceCollect \/ d ∈ statsCollect \/ (exists caches, d ∈ (cacheCollect caches).*1) -> d ∈ registered r) /\
  NoDup (d_Name <$> registered r).
Proof.
  pose proof names_distinct as Hnd. pose proof all_valid as Hv. rewrite !Forall_app in Hv. destruct Hv as (V1 & V2 & V3).
  assert (Hnd2 : NoDup (d_Name <$> (cacheDescribe ++ statsDescribe))).
  { rewrite (assoc_L (++)), fmap_app in Hnd. by apply NoDup_app in Hnd as [? _]. }
  assert (Hnd1 : NoDup (d_Name <$> cacheDescribe)) by (rewrite fmap_app in Hnd2; by apply NoDup_app in Hnd2 as [? _]).
  destruct (reg_accepts NewRegistry cacheDescribe V1) as (r1 & H1 & R1); [by rewrite reg_new|]. rewrite reg_new, app_nil_l in R1.
  destruct (reg_accepts r1 statsDescribe V2) as (r2 & H2 & R2); [by rewrite R1|].
  destruct (reg_accepts r2 instanceDescribe V3) as (r3 & H3 & R3); [by rewrite R2, R1, <- (assoc_L (++))|].
  exists r3. unfold registerCollectors. rewrite H1, H2. simpl. rewrite H3. split; [done|].
  rewrite R3, R2, R1, <- (assoc_L (++)). split; [|exact Hnd]. destruct collect_described as (Hi & Hs & Hc).
  intros d [Hd|[Hd|[caches Hd]]]; rewrite !elem_of_app; [right; right; by rewrite <- Hi|right; left; by rewrite <- Hs|left; by rewrite <- (Hc caches)].
Qed.
End Registration.

(** A registry as a list of descriptions. *)
#[export] Instance listRegistry : Registry (list Desc) := {
  NewRegistry := [];
  Register_ ds r := if bool_decide (Forall (fun d => validDesc d = true) ds) && bool_decide (NoDup (d_Name <$> (r ++ ds)))
                    then (Ok tt, r ++ ds) else (Err (ErrNew "duplicate metrics collector registration attempted"), r);
  registered r := r
}.

#[export] Instance listRegistry_laws : RegistryLaws (list Desc).
Proof.
  constructor; [done| |].
  - intros r ds Hv Hn. simpl. rewrite (bool_decide_eq_true_2 _ Hv), (bool_decide_eq_true_2 _ Hn). eauto.
  - intros r ds d Hd Hr. simpl. rewrite (bool_decide_eq_false_2 (NoDup _)), andb_false_r; [eauto|].
    rewrite fmap_app, NoDup_app. intros (_ & Hdis & _). apply (Hdis _ Hr). by apply list_elem_of_fmap_2.
Qed.

Lemma metrics_registered_witness : exists r : list Desc, registerCollectors NewRegistry = Ok r /\ length r = 27%nat.
Proof.
  destruct (metrics_registered (R := list Desc)) as (r & Hr & _). exists r. split; [exact Hr|].
  vm_compute in Hr. injection Hr as <-. reflexivity.
Defined.
