(* ===== verification/Cluster.v ===== *)
(** * A cluster in one process ([cluster/cluster.go])

    Several daemons started on local addresses and told of each other, as the tests and
    [cmd/gubernator-cluster] do. *)

From stdpp Require Import base gmap strings list pretty.
From Stdlib Require Import ZArith Lia.
From S2P Require Import Prelude Types GoStrings GoTime Runtime LRUCache Store Demo Workers WorkersSpec ReplicatedHash Network TLS PeerJSON DNSPool MemberList EtcdPool K8sPool Config EnvConfig Daemon.

Local Open Scope Z_scope.
#[local] Set Warnings "-clear-no-such-hyp".

(** ** Configuration *)

Inductive option_ : Type :=
  | WithEventChannel
  | WithGlobalSyncWait (wait : Z)
  | WithCacheSize (size : Z).

(** The configuration of a peer; the fields that are left alone are zero, and the trace level,
    whose zero is of no consequence here, the lowest. *)
Definition daemonConfig (peer : PeerInfo) (syncWait cacheSize workers : Z) : DaemonConfig :=
  mkDaemonConfig (pi_GRPCAddress peer) (pi_HTTPAddress peer) "" 0 0 (pi_GRPCAddress peer) cacheSize workers
    (mkBehaviorConfig (5 * Second) 0 0 false syncWait (5 * Second) 0 false 0 0) (pi_DataCenter peer) ""
    (mkEtcdConf zeroPeer false "", mkEtcdClient [] 0 "" "" None) (mkK8sConf "" "" "" "" "" "") (mkDNSPoolConfig "" "" [] "" "")
    (mkMLPoolConfig zeroPeer "" "" [] "" (mkEncryption [] false false)) None None 0 (pi_GRPCAddress peer) ErrorLevel.

(** [Apply] of the options, in order, on the fields they set. *)
Definition applyOption (f : Z * Z * Z) (o : option_) : Z * Z * Z :=
  let '(syncWait, cacheSize, workers) := f in
  match o with
  | WithEventChannel => f
  | WithGlobalSyncWait w => (w, cacheSize, workers)
  | WithCacheSize size => (syncWait, size, 1)
  end.

Definition configFor (opts : list option_) (peer : PeerInfo) : DaemonConfig :=
  let '(syncWait, cacheSize, workers) := foldl applyOption (50 * Millisecond, 0, 0) opts in
  daemonConfig peer syncWait cacheSize workers.

(** [Start]: the peers of a cluster of [n] instances. *)
Definition startPeers (n : nat) : list PeerInfo :=
  (fun i => mkPeerInfo "" ("localhost:" +:+ pretty (1111 + 2 * Z.of_nat i)) ("localhost:" +:+ pretty (1112 + 2 * Z.of_nat i)) false)
    <$> seq 0 n.

(** ** The cluster *)

Section Cluster.
Context {Cert CPool Key Der : Type} `{Crypto Cert CPool Key Der} `{DNSLib} `{Hash64} {Sto : Type}.

Abbreviation D := (Daemon (Cert := Cert) (CPool := CPool) (Sto := Sto)).

(** A daemon, its [PeerInfo], and the peers its instance was last given. *)
Record Node : Type := mkClusterNode { nd_daemon : D; nd_info : PeerInfo; nd_peers : list PeerInfo }.

(** The package's [daemons] and [peers], and what the process holds. *)
Record Cluster : Type := mkCluster { cu_daemons : list Node; cu_peers : list PeerInfo; cu_held : Held }.

(** The daemons closed, in order; [w] tells of each which of its waits end. *)
Fixpoint closeAll (w : D -> Waits) (ns : list Node) (h : Held) : outcome (ended unit * Held) :=
  match ns with
  | [] => Ret (Returned (Ok tt), h)
  | n :: ns =>
      match Close (w (nd_daemon n)) false (Ok tt) (nd_daemon n, h) with
      | Panic why => Panic why
      | Ret (Blocks, s) => Ret (Blocks, s.2)
      | Ret (Returned _, s) => closeAll w ns s.2
      end
  end.

(** [Stop] *)
Definition Stop (w : D -> Waits) (c : Cluster) : outcome (ended unit * Cluster) :=
  match closeAll w (cu_daemons c) (cu_held c) with
  | Panic why => Panic why
  | Ret (Blocks, h) => Ret (Blocks, mkCluster (cu_daemons c) (cu_peers c) h)
  | Ret (Returned r, h) => Ret (Returned r, mkCluster [] [] h)
  end.

(** The addresses a started daemon is bound to. *)
Definition boundInfo (dc : string) (d : D) : outcome PeerInfo :=
  match dm_GRPCListeners d, dm_HTTPListener d with
  | (_, grpc) :: _, Some (_, http) => Ret (mkPeerInfo dc http grpc false)
  | [], _ => Panic "index out of range [0] with length 0"
  | _, None => Panic "invalid memory address or nil pointer dereference"
  end.

(** The loop of [StartWith]: a peer and the answers to its start each. *)
Fixpoint startEach (w : D -> Waits) (opts : list option_) (todo : list (PeerInfo * Answers (Sto := Sto))) (c : Cluster)
    : outcome (ended unit * Cluster) :=
  match todo with
  | [] => Ret (Returned (Ok tt), c)
  | (peer, an) :: todo =>
      match SpawnDaemon an (w (newDaemon (configFor opts peer))) (Ok tt) (configFor opts peer) (cu_held c) with
      | Panic why => Panic why
      | Ret (Blocks, h) => Ret (Blocks, mkCluster (cu_daemons c) (cu_peers c) h)
      | Ret (Returned (Err e), h) =>
          match closeAll w (cu_daemons c) h with
          | Panic why => Panic why
          | Ret (Blocks, h) => Ret (Blocks, mkCluster (cu_daemons c) (cu_peers c) h)
          | Ret (Returned _, h) => Ret (Returned (Err (ErrWrap ("while starting server for addr '" +:+ pi_GRPCAddress peer +:+ "'") e)),
                          mkCluster [] [] h)
          end
      | Ret (Returned (Ok d), h) =>
          match boundInfo (pi_DataCenter peer) d with
          | Panic why => Panic why
          | Ret p => startEach w opts todo (mkCluster (cu_daemons c ++ [mkClusterNode d p []]) (cu_peers c ++ [p]) h)
          end
      end
  end.

(** Each daemon is told of all peers. *)
Definition tell (peers : list PeerInfo) (n : Node) : Node :=
  mkClusterNode (nd_daemon n) (nd_info n) (ownPeers (nd_daemon n) peers).

Definition StartWith (w : D -> Waits) (opts : list option_) (todo : list (PeerInfo * Answers (Sto := Sto))) (c : Cluster)
    : outcome (ended unit * Cluster) :=
  match startEach w opts todo c with
  | Ret (Returned (Ok _), c) => Ret (Returned (Ok tt), mkCluster (tell (cu_peers c) <$> cu_daemons c) (cu_peers c) (cu_held c))
  | other => other
  end.

(** [Restart], a set of answers for each daemon; those before the one that fails stay
    restarted. *)
Fixpoint restartEach (w : D -> Waits) (peers : list PeerInfo) (ns : list (Node * Answers (Sto := Sto))) (h : Held)
    : outcome (ended unit * list Node * Held) :=
  match ns with
  | [] => Ret (Returned (Ok tt), [], h)
  | (n, an) :: ns =>
      match Close (w (nd_daemon n)) false (Ok tt) (nd_daemon n, h) with
      | Panic why => Panic why
      | Ret (Blocks, (d, h)) => Ret (Blocks, mkClusterNode d (nd_info n) (nd_peers n) :: ns.*1, h)
      | Ret (Returned _, s) =>
          match Start an s with
          | Panic why => Panic why
          | Ret (Returned (Ok _), (d, h)) =>
              match restartEach w peers ns h with
              | Panic why => Panic why
              | Ret (r, rest, h) => Ret (r, tell peers (mkClusterNode d (nd_info n) (nd_peers n)) :: rest, h)
              end
          | Ret (r, (d, h)) => Ret (r, mkClusterNode d (nd_info n) (nd_peers n) :: ns.*1, h)
          end
      end
  end.

(** ** Queries *)

(** [GetRandomPeer], with the index drawn for a list of a length. *)
Definition GetRandomPeer (intn : nat -> nat) (dc : string) (peers : list PeerInfo) : outcome PeerInfo :=
  let local := filter (fun p => pi_DataCenter p = dc) peers in
  match local !! intn (length local) with
  | Some p => Ret p
  | None => Panic ("failed to find random peer for dc '" +:+ dc +:+ "'")
  end.

(** [FindOwningDaemon], from what [GetPeer] of the first daemon returns. *)
Definition FindOwningDaemon (getPeer : result PeerInfo) (ns : list Node) : result Node :=
  match getPeer with
  | Err e => Err e
  | Ok p =>
      match find (fun n => String.eqb (pi_GRPCAddress (nd_info n)) (pi_GRPCAddress p)) ns with
      | Some n => Ok n
      | None => Err (ErrNew "unable to find owning daemon")
      end
  end.

Definition ListNonOwningDaemons (getPeer : result PeerInfo) (ns : list Node) : result (list Node) :=
  match FindOwningDaemon getPeer ns with
  | Err e => Err e
  | Ok owner => Ok (filter (fun n => pi_GRPCAddress (nd_info n) <> pi_GRPCAddress (nd_info owner)) ns)
  end.

(** ** Properties *)

(** *** Ownership *)

(** A node that was started for [peer]. *)
Definition startedFor (n : Node) (pa : PeerInfo * Answers (Sto := Sto)) : Prop :=
  d_AdvertiseAddress (dm_conf (nd_daemon n)) = pi_GRPCAddress pa.1 /\ pi_IsOwner (nd_info n) = false.

Lemma configFor_advertise (opts : list option_) (peer : PeerInfo) :
  d_AdvertiseAddress (podAddress (configFor opts peer)) = pi_GRPCAddress peer.
Proof. unfold configFor. by destruct (foldl _ _ _) as [[? ?] ?]. Qed.

Lemma startEach_spec (w : D -> Waits) (opts : list option_) (todo : list (PeerInfo * Answers (Sto := Sto))) : forall c c',
  startEach w opts todo c = Ret (Returned (Ok tt), c') ->
  exists new, cu_daemons c' = cu_daemons c ++ new /\ cu_peers c' = cu_peers c ++ (nd_info <$> new) /\ Forall2 startedFor new todo.
Proof.
  induction todo as [|[peer an] todo IH]; intros c c'; cbn [startEach].
  { intros [= <-]. exists []. by rewrite !app_nil_r. }
  unfold SpawnDaemon. destruct (Start an _) as [[[[[]|e]|] [d h]]|] eqn:Es; [| |done|done].
  - apply Start_keeps_conf in Es. cbn [fst snd] in *. destruct (boundInfo _ d) as [p|] eqn:Eb; [|done].
    intros (new & -> & -> & Hf)%IH. cbn [cu_daemons cu_peers]. exists (mkClusterNode d p [] :: new).
    rewrite <- !app_assoc. split; [done|]. split; [done|]. constructor; [|done]. split; cbn.
    + rewrite Es. apply configFor_advertise.
    + unfold boundInfo in Eb. destruct (dm_GRPCListeners d) as [|[? ?] ?]; [done|].
      destruct (dm_HTTPListener d) as [[? ?]|]; [|done]. by injection Eb as <-.
  - destruct (Close _ _ _ _) as [[[r|] s]|]; [|done..]. by destruct (closeAll _ _ _) as [[[]]|].
Qed.

(** When a cluster has started, every daemon is told of all daemons, at the addresses they
    are bound to and in the order they were started, and takes as its own exactly those whose
    bound address is the one it was configured with: itself, if that address was written the
    way the system reports it, and nobody if it was written as a host name. *)
Theorem cluster_owner (w : D -> Waits) (opts : list option_) (todo : list (PeerInfo * Answers (Sto := Sto))) (c : Cluster) (i : nat) (n : Node)
    (peer : PeerInfo) (an : Answers (Sto := Sto)) :
  StartWith w opts todo (mkCluster [] [] nothing) = Ret (Returned (Ok tt), c) ->
  cu_daemons c !! i = Some n -> todo !! i = Some (peer, an) ->
  length (cu_daemons c) = length todo /\ cu_peers c = nd_info <$> cu_daemons c /\
  pi_GRPCAddress <$> nd_peers n = pi_GRPCAddress <$> cu_peers c /\
  (forall p, p ∈ nd_peers n -> pi_IsOwner p = true <-> pi_GRPCAddress p = pi_GRPCAddress peer).
Proof.
  unfold StartWith. destruct (startEach _ _ _) as [[[[[]|e]|] c1]|] eqn:Es; [|done..].
  intros [= <-] Hn Ht. cbn [cu_daemons cu_peers] in *.
  apply startEach_spec in Es as (new & Hd & Hp & Hf). cbn in Hd, Hp. rewrite Hd, Hp in *.
  apply list_lookup_fmap_Some in Hn as (m & -> & Hm).
  destruct (Forall2_lookup_lr _ _ _ _ _ _ Hf Hm Ht) as [Hadv _]. cbn [fst] in Hadv.
  split_and!.
  - rewrite length_fmap. by eapply Forall2_length.
  - rewrite <- list_fmap_compose. by apply list_fmap_ext.
  - apply ownPeers_spec.
  - intros p Hin. cbn [tell nd_peers] in Hin. unfold ownPeers in Hin. rewrite Hadv in Hin.
    apply list_elem_of_fmap in Hin as (q & -> & Hq).
    assert (pi_IsOwner q = false) as Hq'.
    { apply list_elem_of_fmap in Hq as (k & -> & Hk). apply list_elem_of_lookup in Hk as [j Hj].
      destruct (Forall2_lookup_l _ _ _ _ _ Hf Hj) as (pa & _ & _ & Ho). exact Ho. }
    destruct (String.eqb_spec (pi_GRPCAddress peer) (pi_GRPCAddress q)) as [E|E]; cbn; [done|]. rewrite Hq'. split; congruence.
Qed.

(** A peer drawn at random is one of the data center asked for, and one is drawn if there
    is any. *)
Lemma GetRandomPeer_spec (intn : nat -> nat) (dc : string) (peers : list PeerInfo) :
  (forall k, (0 < k)%nat -> (intn k < k)%nat) -> (exists p, p ∈ peers /\ pi_DataCenter p = dc) ->
  exists p, GetRandomPeer intn dc peers = Ret p /\ p ∈ peers /\ pi_DataCenter p = dc.
Proof.
  intros Hi (q & Hq & Hdc). unfold GetRandomPeer. set (local := filter _ peers).
  assert (q ∈ local) as Hl by (by apply list_elem_of_filter).
  destruct (lookup_lt_is_Some_2 local (intn (length local))) as [p Hp].
  { apply Hi. destruct local; [by apply elem_of_nil in Hl|cbn; lia]. }
  rewrite Hp. exists p. split; [done|]. apply list_elem_of_lookup_2, list_elem_of_filter in Hp as [? ?]. done.
Qed.

(** The daemons that do not own a key are those at other addresses than the owner's. *)
Lemma ListNonOwningDaemons_spec (p : PeerInfo) (ns others : list Node) :
  ListNonOwningDaemons (Ok p) ns = Ok others ->
  forall n, n ∈ others <-> n ∈ ns /\ pi_GRPCAddress (nd_info n) <> pi_GRPCAddress p.
Proof.
  unfold ListNonOwningDaemons, FindOwningDaemon. destruct (find _ ns) as [o|] eqn:Ef; [|done]. intros [= <-] n.
  apply find_some in Ef as [_ Ho]. apply String.eqb_eq in Ho. rewrite list_elem_of_filter, Ho. tauto.
Qed.
End Cluster.

(** ** Example *)

(** Everything granted, the listeners bound to the addresses given. *)
Definition clusterGrants (grpc http : string) : Answers (Sto := unit) :=
  mkAnswers (Some DeadlineExceeded) false (Ok tt) demoHost 1 "a1b2c3d4e5" (demoEnv 1000) None None
    (Ok grpc) (Ok "") (Ok http) (Ok "") (Ok tt) (Ok tt) true (Ok tt) (GrantFailed Canceled) (Ok []) true
    None (fun _ => true) (fun _ => Ok tt) (Ok tt) (Ok tt) (Ok tt) (fun _ => false).

(** One peer is named by its address, the other by a host name. *)
Definition twoNodes : list (PeerInfo * Answers (Sto := unit)) :=
  [(mkPeerInfo "" "127.0.0.1:9980" "127.0.0.1:9990" false, clusterGrants "127.0.0.1:9990" "127.0.0.1:9980");
   (mkPeerInfo "" "localhost:9981" "localhost:9991" false, clusterGrants "127.0.0.1:9991" "127.0.0.1:9981")].

Abbreviation demoStartWith := (StartWith (Cert := string * string) (CPool := list string) (H0 := demoDNS) (fun _ => allEnd) [WithCacheSize 10] twoNodes (mkCluster [] [] nothing)).

Lemma cluster_owner_witness : exists c n0 n1,
  demoStartWith = Ret (Returned (Ok tt), c) /\ cu_daemons c = [n0; n1] /\
  pi_IsOwner <$> nd_peers n0 = [true; false] /\ pi_IsOwner <$> nd_peers n1 = [false; false] /\
  (forall p, p ∈ nd_peers n0 -> pi_IsOwner p = true <-> pi_GRPCAddress p = "127.0.0.1:9990").
Proof.
  assert (match demoStartWith with
          | Ret (Returned (Ok tt), c) =>
              match cu_daemons c with
              | [n0; n1] => pi_IsOwner <$> nd_peers n0 = [true; false] /\ pi_IsOwner <$> nd_peers n1 = [false; false]
              | _ => False
              end
          | _ => False
          end) as Hs by (vm_compute; exact (conj eq_refl eq_refl)).
  destruct demoStartWith as [[[[[]|]|] c]|] eqn:Es; [|destruct Hs..].
  destruct (cu_daemons c) as [|n0 [|n1 [|]]] eqn:Ed; [destruct Hs..| |destruct Hs]. destruct Hs as [H0 H1].
  exists c, n0, n1. split; [reflexivity|]. split; [exact Ed|]. split; [exact H0|]. split; [exact H1|].
  refine (proj2 (proj2 (proj2 (cluster_owner (fun _ => allEnd) [WithCacheSize 10] twoNodes c 0 n0 _ _ Es _ eq_refl)))). by rewrite Ed.
Defined.
