(* ===== verification/Server.v ===== *)
(** * The server's program ([cmd/gubernator/main.go], [cmd/gubernator-cluster/main.go])

    The command line, as package [flag] reads it, and [Main]: the configuration is
    collected, the daemon spawned, and closed when a signal comes. *)

From stdpp Require Import base gmap strings list.
From Stdlib Require Import ZArith Lia Ascii.
From S2P Require Import Prelude Types Float64 GoStrings GoTime Runtime LRUCache Store Demo Workers ReplicatedHash Network TLS DNSPool MemberList EtcdPool K8sPool Config EnvConfig Daemon Cluster.

Local Open Scope Z_scope.
#[local] Set Warnings "-clear-no-such-hyp".

(** ** Package [flag] *)

(** The flags a set knows, with their present values. *)
Inductive FlagValue : Type := FString (v : string) | FBool (b : bool).

Abbreviation FlagSet := (gmap string FlagValue).

(** What one argument is: the end of the flags, a malformed flag, or a flag with its name
    and the value after an equals sign. *)
Inductive Argument : Type := NoFlag | BadSyntax | Flag (name : string) (value : option string).

(** The text before and after the first equals sign. *)
Fixpoint cutEquals (s : string) : string * option string :=
  match s with
  | "" => ("", None)
  | String c s =>
      if Ascii.eqb c "=" then ("", Some s)
      else let '(name, value) := cutEquals s in (String c name, value)
  end.

(** One dash or two; equals cannot be first. *)
Definition readArgument (s : string) : Argument :=
  match s with
  | String "-" (String c r) =>
      if Ascii.eqb c "-" && String.eqb r "" then NoFlag
      else
        match (if Ascii.eqb c "-" then r else String c r) with
        | "" => BadSyntax
        | String d r =>
            if Ascii.eqb d "-" || Ascii.eqb d "=" then BadSyntax
            else let '(name, value) := cutEquals r in Flag (String d name) value
        end
  | _ => NoFlag
  end.

(** [flag.ErrHelp] *)
Definition ErrHelp : gerror := ErrNew "flag: help requested".

Definition notDefined : string := "flag provided but not defined".

Section Parse.
(** The verb [%q], which appears in one message. *)
Variable Quote : string -> string.

(** [FlagSet.Parse] with [ContinueOnError]: it stops at the first argument that is not a
    flag and at the first error; what was set before it stays set. *)
Fixpoint Parse (fs : FlagSet) (args : list string) : option gerror * FlagSet :=
  match args with
  | [] => (None, fs)
  | s :: rest =>
      match readArgument s with
      | NoFlag => (None, fs)
      | BadSyntax => (Some (ErrNew ("bad flag syntax: " +:+ s)), fs)
      | Flag name value =>
          match fs !! name with
          | None =>
              if String.eqb name "help" || String.eqb name "h" then (Some ErrHelp, fs)
              else (Some (ErrNew (notDefined +:+ ": -" +:+ name)), fs)
          | Some (FBool _) =>
              let text := default "true" value in
              match ParseBool text with
              | Ok b => Parse (<[name := FBool b]> fs) rest
              | Err _ => (Some (ErrNew ("invalid boolean value " +:+ Quote text +:+ " for -" +:+ name +:+ ": parse error")),
                          <[name := FBool false]> fs)
              end
          | Some (FString _) =>
              match value, rest with
              | Some v, _ => Parse (<[name := FString v]> fs) rest
              | None, v :: rest => Parse (<[name := FString v]> fs) rest
              | None, [] => (Some (ErrNew ("flag needs an argument: -" +:+ name)), fs)
              end
          end
      end
  end.
End Parse.

(** [strings.Contains] *)
Definition Contains (s substr : string) : bool :=
  match String.index 0 substr s with Some _ => true | None => false end.

(** ** [Main] *)

(** The flags of the server. *)
Definition serverFlags : FlagSet := {[ "config" := FString ""; "debug" := FBool false ]}.

Definition flagString (fs : FlagSet) (name : string) : string := match fs !! name with Some (FString v) => v | _ => "" end.
Definition flagBool (fs : FlagSet) (name : string) : bool := match fs !! name with Some (FBool b) => b | _ => false end.

(** An error of the flags ends the program, unless its text is that of an unknown flag. *)
Definition tolerated (e : gerror) : bool := Contains (err_text e) notDefined.

(** [Main] returns an error or nil, the program ends in [Fatal], or it never ends. *)
Inductive Finished : Type := Returns (e : option gerror) | Exits | Hangs.

(** What ends the wait for a signal. *)
Inductive Ending : Type := Caught | Cancelled (e : gerror).

Section Main.
Context {Cert CPool Key Der : Type} `{Crypto Cert CPool Key Der} `{DNSLib} `{Hash64} {Sto : Type} `{Arch}.

(** What [Main] is answered: [os.Open], [resource.Merge], [InitTracing], what the process
    finds around it, the answers to the daemon, how the wait for a signal ends, and which
    of the calls that [Close] waits in return. *)
Record World : Type := mkWorld {
  wd_Quote : string -> string;
  wd_Open : string -> result ConfigFile;
  wd_Merge : result unit;
  wd_InitTracing : result unit;
  wd_process : Process;
  wd_answers : Answers (Sto := Sto);
  wd_end : Ending;
  wd_waits : Waits
}.

(** The configuration from the environment has neither a loader nor a store. *)
Definition bare (an : Answers (Sto := Sto)) : Answers (Sto := Sto) :=
  mkAnswers (an_ctx an) (an_ctxDone an) (an_Register an) (an_host an) (an_numCPU an) (an_instanceID an) (an_env an) None None
    (an_listenGRPC an) (an_listenGateway an) (an_listenHTTP an) (an_listenStatus an) (an_RestConfig an) (an_NewForConfig an)
    (an_CacheSync an) (an_etcdClient an) (an_attempt an) (an_got an) (an_ready an) (an_resolvConf an) (an_isIP an)
    (an_AddKey an) (an_mlCreate an) (an_mlJoin an) (an_gatewayHandler an) (an_elsewhere an).

(** [DebugEnabled] is the flag's variable. *)
Definition set_debug (b : bool) (g : Globals) : Globals := mkGlobals (g_env g) b (g_formatter g) (g_level g).

Definition openConfig (w : World) (configFile : string) : result (option ConfigFile) :=
  if String.eqb configFile "" then Ok None
  else match wd_Open w configFile with Ok f => Ok (Some f) | Err e => Err e end.

(** From the configuration on. *)
Definition runDaemon (w : World) (reader : option ConfigFile) (g : Globals) : outcome (Finished * Globals * Held) :=
  match SetupDaemonConfig (wd_process w) reader g with
  | Panic why => Panic why
  | Ret (Err e, g) => Ret (Returns (Some (ErrWrap "while collecting daemon config" e)), g, nothing)
  | Ret (Ok conf, g) =>
      match SpawnDaemon (bare (wd_answers w)) (wd_waits w) (Ok tt) conf nothing with
      | Panic why => Panic why
      | Ret (Blocks, h) => Ret (Hangs, g, h)
      | Ret (Returned (Err e), h) => Ret (Returns (Some (ErrWrap "while spawning daemon" e)), g, h)
      | Ret (Returned (Ok d), h) =>
          match wd_end w with
          | Cancelled e => Ret (Returns (Some e), g, h)
          | Caught =>
              match Close (wd_waits w) false (Ok tt) (d, h) with
              | Panic why => Panic why
              | Ret (Blocks, s) => Ret (Hangs, g, s.2)
              | Ret (Returned _, s) => Ret (Returns None, g, s.2)
              end
          end
      end
  end.

(** After the flags. *)
Definition setUp (w : World) (configFile : string) (g : Globals) : outcome (Finished * Globals * Held) :=
  match GetInstanceID (wd_process w) (g_env g) with
  | Panic why => Panic why
  | Ret _ =>
      match wd_Merge w, wd_InitTracing w, openConfig w configFile with
      | Ok _, Ok _, Ok reader => runDaemon w reader g
      | _, _, _ => Ret (Exits, g, nothing)
      end
  end.

Definition Main (w : World) (args : list string) (g : Globals) : outcome (Finished * Globals * Held) :=
  let '(err, fs) := Parse (wd_Quote w) serverFlags args in
  let g := set_debug (flagBool fs "debug") g in
  match err with
  | Some e =>
      if tolerated e then setUp w (flagString fs "config") g
      else Ret (Returns (Some (ErrWrap "while parsing flags" e)), g, nothing)
  | None => setUp w (flagString fs "config") g
  end.

(** [main]: the exit status, of a program that ends. *)
Definition main (o : outcome (Finished * Globals * Held)) : option Z :=
  match o with
  | Panic _ => Some 2
  | Ret (Returns None, _, _) => Some 0
  | Ret (Returns (Some _), _, _) | Ret (Exits, _, _) => Some 1
  | Ret (Hangs, _, _) => None
  end.
End Main.

(** ** The cluster for tests of clients ([cmd/gubernator-cluster]) *)

Definition clusterPeers : list PeerInfo :=
  [mkPeerInfo "" "127.0.0.1:9980" "127.0.0.1:9990" false; mkPeerInfo "" "127.0.0.1:9981" "127.0.0.1:9991" false;
   mkPeerInfo "" "127.0.0.1:9982" "127.0.0.1:9992" false; mkPeerInfo "" "127.0.0.1:9983" "127.0.0.1:9993" false;
   mkPeerInfo "" "127.0.0.1:9984" "127.0.0.1:9994" false; mkPeerInfo "" "127.0.0.1:9985" "127.0.0.1:9995" false].

(** [main] from a cluster that is empty until an interrupt, with the answers to each start:
    the exit status if it ends, the cluster as it ran, and what is held at the end. *)
Definition clusterMain {Cert CPool Key Der : Type} `{Crypto Cert CPool Key Der} `{DNSLib} `{Hash64} {Sto : Type}
    (w : Daemon (Cert := Cert) (CPool := CPool) (Sto := Sto) -> Waits) (ans : list (Answers (Sto := Sto))) : outcome (option (Z * list PeerInfo * Held)) :=
  match StartWith w [] (zip clusterPeers ans) (mkCluster [] [] nothing) with
  | Panic why => Panic why
  | Ret (Blocks, _) => Ret None
  | Ret (Returned (Err e), _) => Panic (err_text e)
  | Ret (Returned (Ok _), c) =>
      match Stop w c with
      | Panic why => Panic why
      | Ret (Blocks, _) => Ret None
      | Ret (Returned _, c') => Ret (Some (0, cu_peers c, cu_held c'))
      end
  end.

(** ** Reading the flags *)

(** The flags of the server as they may be written. *)
Inductive Setting : Type := SetConfig (v : string) (apart : bool) | SetDebug (b : option bool).

Definition written (st : Setting) : list string :=
  match st with
  | SetConfig v true => ["-config"; v]
  | SetConfig v false => ["-config=" +:+ v]
  | SetDebug None => ["-debug"]
  | SetDebug (Some b) => ["-debug=" +:+ (if b then "true" else "false")]
  end.

Definition applied (fs : FlagSet) (st : Setting) : FlagSet :=
  match st with
  | SetConfig v _ => <["config" := FString v]> fs
  | SetDebug b => <["debug" := FBool (default true b)]> fs
  end.

(** Flags that keep the types of their values. *)
Definition server_flags (fs : FlagSet) : Prop :=
  (exists v, fs !! "config" = Some (FString v)) /\ (exists b, fs !! "debug" = Some (FBool b)).

Lemma applied_typed (fs : FlagSet) (st : Setting) : server_flags fs -> server_flags (applied fs st).
Proof.
  intros [[v Hv] [b Hb]]. destruct st as [v' a|b']; split; simpl;
    (rewrite lookup_insert_eq || rewrite lookup_insert_ne by done); eauto.
Qed.

Lemma cutEquals_after (name v : string) : Forall (fun c => c <> "="%char) (String.list_ascii_of_string name) ->
  cutEquals (name +:+ "=" +:+ v) = (name, Some v).
Proof.
  induction name as [|c name IH]; intros Hn; [done|]. apply Forall_cons in Hn as [Hc Hn].
  change (String c name +:+ "=" +:+ v) with (String c (name +:+ "=" +:+ v)). cbn [cutEquals].
  rewrite (proj2 (Ascii.eqb_neq _ _) Hc), IH; done.
Qed.

Lemma readArgument_set (c : ascii) (name v : string) :
  c <> "-"%char -> c <> "="%char -> Forall (fun c => c <> "="%char) (String.list_ascii_of_string name) ->
  readArgument (String "-" (String c name) +:+ "=" +:+ v) = Flag (String c name) (Some v).
Proof.
  intros Hd He Hn. change (String "-" (String c name) +:+ "=" +:+ v) with (String "-" (String c (name +:+ "=" +:+ v))).
  apply Ascii.eqb_neq in Hd, He. unfold readArgument. rewrite Hd. cbn [andb]. rewrite Hd, He. cbn [orb].
  by rewrite cutEquals_after.
Qed.

Lemma Parse_written (Quote : string -> string) (fs : FlagSet) (st : Setting) (rest : list string) :
  server_flags fs -> Parse Quote fs (written st ++ rest) = Parse Quote (applied fs st) rest.
Proof.
  intros [[v0 Hv] [b0 Hb]]. destruct st as [v [|]|[b|]]; cbn [written app applied].
  - cbn [Parse]. change (readArgument "-config") with (Flag "config" None). cbv iota. by rewrite Hv.
  - change ("-config=" +:+ v) with ("-config" +:+ "=" +:+ v). cbn [Parse]. rewrite (readArgument_set "c" "onfig" v) by first [done | by repeat constructor]. cbv iota. by rewrite Hv.
  - change ("-debug=" +:+ ?v) with ("-debug" +:+ "=" +:+ v). cbn [Parse]. rewrite (readArgument_set "d" "ebug") by first [done | by repeat constructor].
    cbv iota. rewrite Hb. by destruct b.
  - cbn [Parse]. change (readArgument "-debug") with (Flag "debug" None). cbv iota. by rewrite Hb.
Qed.

Lemma Parse_prefix (Quote : string -> string) (sts : list Setting) (fs : FlagSet) (rest : list string) : server_flags fs ->
  Parse Quote fs (concat (written <$> sts) ++ rest) = Parse Quote (foldl applied fs sts) rest.
Proof.
  revert fs. induction sts as [|st sts IH]; intros fs Hfs; [done|].
  rewrite fmap_cons. cbn [concat foldl]. rewrite <- app_assoc, Parse_written by done. by apply IH, applied_typed.
Qed.

Lemma Parse_all (Quote : string -> string) (sts : list Setting) (fs : FlagSet) (rest : list string) : server_flags fs ->
  match rest with [] => True | s :: _ => readArgument s = NoFlag end ->
  Parse Quote fs (concat (written <$> sts) ++ rest) = (None, foldl applied fs sts).
Proof.
  intros Hfs Hrest. rewrite Parse_prefix by done. destruct rest as [|s rest]; [done|]. cbn. by rewrite Hrest.
Qed.

Lemma applied_others (sts : list Setting) (fs : FlagSet) (name : string) : name <> "config" -> name <> "debug" ->
  fs !! name = None -> foldl applied fs sts !! name = None.
Proof.
  intros Hc Hd. revert fs. induction sts as [|st sts IH]; intros fs Hn; [done|]. cbn [foldl]. apply IH.
  destruct st; simpl; by rewrite lookup_insert_ne.
Qed.

(** The command line round trips: settings written as flags, in one argument or two and
    in any order and number, are read back, the last one of each flag winning, and nothing
    after the first argument that is no flag is read. *)
Theorem flags_roundtrip (Quote : string -> string) (sts : list Setting) (fs : FlagSet) (rest : list string)
    (Hfs : server_flags fs) (Hrest : match rest with [] => True | s :: _ => readArgument s = NoFlag end) :
  Parse Quote fs (concat (written <$> sts) ++ rest) = (None, foldl applied fs sts).
Proof. by apply Parse_all. Qed.

Lemma serverFlags_typed : server_flags serverFlags.
Proof. split; eexists; reflexivity. Qed.

Lemma flags_roundtrip_witness :
  Parse (fun s => s) serverFlags ["-debug"; "-config=a.conf"; "-config"; "b=c.conf"; "serve"; "-debug=false"] =
    (None, foldl applied serverFlags [SetDebug None; SetConfig "a.conf" false; SetConfig "b=c.conf" true]).
Proof.
  exact (flags_roundtrip (fun s => s) [SetDebug None; SetConfig "a.conf" false; SetConfig "b=c.conf" true] serverFlags
    ["serve"; "-debug=false"] serverFlags_typed eq_refl).
Defined.

(** ** What [Main] does *)

Section MainSpec.
Context {Cert CPool Key Der : Type} `{Crypto Cert CPool Key Der} `{DNSLib} `{Hash64} {Sto : Type} `{Arch}.


(** The server exits with status 0 only after it collected a configuration, started the
    daemon with it, caught a signal and closed the daemon; in particular an error that ends
    [Main] is never taken for success. *)
Theorem exit_zero_means_closed (w : World (Sto := Sto)) (args : list string) (g : Globals)
    (Hok : main (Main w args g) = Some 0) :
  exists reader b conf g' s s',
    SetupDaemonConfig (wd_process w) reader (set_debug b g) = Ret (Ok conf, g') /\
    Start (bare (wd_answers w)) (newDaemon conf, nothing) = Ret (Returned (Ok tt), s) /\
    wd_end w = Caught /\ Close (wd_waits w) false (Ok tt) s = Ret (Returned (Ok tt), s') /\ Main w args g = Ret (Returns None, g', s'.2).
Proof.
  assert (forall reader b, main (runDaemon w reader (set_debug b g)) = Some 0 -> exists conf g' s s',
    SetupDaemonConfig (wd_process w) reader (set_debug b g) = Ret (Ok conf, g') /\
    Start (bare (wd_answers w)) (newDaemon conf, nothing) = Ret (Returned (Ok tt), s) /\
    wd_end w = Caught /\ Close (wd_waits w) false (Ok tt) s = Ret (Returned (Ok tt), s') /\
    runDaemon w reader (set_debug b g) = Ret (Returns None, g', s'.2)) as Hrun.
  { intros reader b. unfold runDaemon, SpawnDaemon.
    destruct (SetupDaemonConfig _ _ _) as [[[conf|] g']|]; [|done..].
    destruct (Start _ _) as [[[[[]|e]|] [d h]]|] eqn:Es; [| |done..].
    - cbn [fst snd]. destruct (wd_end w); [|done]. pose proof (Close_returns (wd_waits w) false (Ok tt) d h) as Hret.
      destruct (Close _ _ _ _) as [[[r|] s']|] eqn:Ec; [|done..]. intros _. rewrite (Hret r s' eq_refl) in Ec.
      by exists conf, g', (d, h), s'.
    - by destruct (Close _ _ _ _) as [[[] ?]|]. }
  assert (forall path b, main (setUp w path (set_debug b g)) = Some 0 -> exists reader,
    setUp w path (set_debug b g) = runDaemon w reader (set_debug b g)) as Hset.
  { intros path b. unfold setUp. destruct (GetInstanceID _ _); [|done]. destruct (wd_Merge w); [|done].
    destruct (wd_InitTracing w); [|done]. destruct (openConfig w path) as [reader|]; [|done]. by exists reader. }
  assert (exists path b, Main w args g = setUp w path (set_debug b g)) as (path & b & Hm).
  { unfold Main in *. destruct (Parse _ _ _) as [[e|] fs]; [|eauto]. destruct (tolerated e); [eauto|done]. }
  rewrite Hm in *. destruct (Hset path b Hok) as [reader Hr]. rewrite Hr in *.
  destruct (Hrun reader b Hok) as (conf & g' & s & s' & ?). by exists reader, b, conf, g', s, s'.
Qed.

(** A flag that is not the server's. *)
Definition unknownFlag (s : string) : bool :=
  match readArgument s with
  | Flag name _ => negb (String.eqb name "config" || String.eqb name "debug" || String.eqb name "help" || String.eqb name "h")
  | _ => false
  end.

Lemma unknownFlag_stops (Quote : string -> string) (fs : FlagSet) (s : string) (rest : list string) :
  unknownFlag s = true -> (forall name, name <> "config" -> name <> "debug" -> fs !! name = None) ->
  exists e, Parse Quote fs (s :: rest) = (Some e, fs) /\ tolerated e = true.
Proof.
  unfold unknownFlag. cbn [Parse]. destruct (readArgument s) as [| |name value]; [done..|].
  rewrite negb_true_iff, !orb_false_iff, !String.eqb_neq. intros [[[Hc Hd] Hh] Hh'] Hfs.
  rewrite (Hfs name Hc Hd), (proj2 (String.eqb_neq _ _) Hh), (proj2 (String.eqb_neq _ _) Hh'). cbn [orb].
  eexists. split; [done|]. unfold tolerated, Contains. cbn [err_text].
  assert (String.index 0 notDefined (notDefined +:+ (": -" +:+ name)) = Some 0%nat) as -> by reflexivity. done.
Qed.

(** A flag the server does not know hides all the arguments after it: the error is
    dropped, but parsing has stopped, so that [-config] or [-debug] behind it are not read
    and the server runs as if the command line ended there. *)
Theorem unknown_flag_hides_rest (w : World (Sto := Sto)) (sts : list Setting) (s : string) (rest : list string) (g : Globals)
    (Hs : unknownFlag s = true) :
  Main w (concat (written <$> sts) ++ s :: rest) g = Main w (concat (written <$> sts)) g.
Proof.
  unfold Main. pose proof (Parse_all (wd_Quote w) sts serverFlags [] serverFlags_typed I) as Hp. rewrite app_nil_r in Hp.
  rewrite Hp, Parse_prefix by apply serverFlags_typed.
  destruct (unknownFlag_stops (wd_Quote w) (foldl applied serverFlags sts) s rest Hs) as (e & -> & ->); [|done].
  intros name Hc Hd. apply applied_others; [done..|]. unfold serverFlags. by rewrite lookup_insert_ne, lookup_singleton_ne.
Qed.
End MainSpec.

(** ** Examples *)

(** A server that is told of its peers by nobody; its addresses are in a file. *)
Definition demoFile : ConfigFile := mkConfigFile "&{g.conf}"
  (Ok (Join (chr 10) ["# addresses"; "GUBER_GRPC_ADDRESS=10.0.0.1:1051"; "GUBER_HTTP_ADDRESS=10.0.0.1:1050";
                      "GUBER_PEER_DISCOVERY_TYPE=none"])).

Definition demoWorld (ending : Ending) : World (Sto := unit) :=
  mkWorld (fun s => s) (fun path => if String.eqb path "g.conf" then Ok demoFile else Err (ErrNew "no such file or directory"))
    (Ok tt) (Ok tt) (demoProcess "10.0.0.1") (grants "127.0.0.1:40001" (Ok "10.0.0.1:1052")) ending allEnd.

Abbreviation demoMain w args := (Main (Cert := string * string) (CPool := list string) (H0 := demoDNS) (H2 := amd64) w args (fromEnv ∅)).

(** The configuration the file gives. *)
Definition demoConf : DaemonConfig :=
  match SetupDaemonConfig (H := amd64) (H0 := demoDNS) (demoProcess "10.0.0.1") (Some demoFile) (set_debug true (fromEnv ∅)) with
  | Ret (Ok conf, _) => conf
  | _ => tlsDaemon
  end.

Lemma demo_collects : exists g',
  SetupDaemonConfig (H := amd64) (H0 := demoDNS) (demoProcess "10.0.0.1") (Some demoFile) (set_debug true (fromEnv ∅)) =
    Ret (Ok demoConf, g') /\ g_DebugEnabled g' = true.
Proof. eexists. split; [vm_compute; reflexivity|reflexivity]. Qed.

Lemma demo_available :
  available (Cert := string * string) (CPool := list string) (H0 := demoDNS) (bare (wd_answers (demoWorld Caught))) demoConf None.
Proof.
  assert (exists c, SetDefaults 1 "a1b2c3d4e5" (instanceConf (podAddress demoConf)) = Ok c /\ 0 < cf_Workers c) as Hi
    by (eexists; split; [vm_compute; reflexivity|reflexivity]).
  assert (exists ip, ResolveHostIP demoHost (d_GRPCListenAddress (podAddress demoConf)) = Ok ip) as Hr
    by (eexists; vm_compute; reflexivity).
  split; [reflexivity|vm_compute; reflexivity|reflexivity|exact Hi|by eexists|by eexists|by eexists|by eexists|exact Hr
    |vm_compute; exact I|reflexivity|reflexivity].
Qed.


(** A client that keeps its HTTP connection busy keeps the server from ending. *)
Example busy_connection_hangs :
  main (demoMain (let w := demoWorld Caught in
    mkWorld (wd_Quote w) (wd_Open w) (wd_Merge w) (wd_InitTracing w) (wd_process w) (wd_answers w) (wd_end w)
      (mkWaits true false true (fun _ => true) true)) ["-debug"; "-config"; "g.conf"]) = None.
Proof. vm_compute. reflexivity. Qed.

Lemma exit_zero_means_closed_witness : exists reader b conf g' s s',
  SetupDaemonConfig (H := amd64) (H0 := demoDNS) (demoProcess "10.0.0.1") reader (set_debug b (fromEnv ∅)) = Ret (Ok conf, g') /\
  demoStart (bare (wd_answers (demoWorld Caught))) (newDaemon conf, nothing) = Ret (Returned (Ok tt), s) /\
  Caught = Caught /\ Close allEnd false (Ok tt) s = Ret (Returned (Ok tt), s') /\
  demoMain (demoWorld Caught) ["-debug"; "-config"; "g.conf"] = Ret (Returns None, g', s'.2).
Proof.
  assert (main (demoMain (demoWorld Caught) ["-debug"; "-config"; "g.conf"]) = Some 0) as Hz by (vm_compute; reflexivity).
  exact (exit_zero_means_closed _ _ _ Hz).
Defined.

(** The configuration behind a misspelt flag is not read: the server runs without it. *)
Lemma unknown_flag_hides_rest_witness :
  unknownFlag "-debgu" = true /\
  demoMain (demoWorld Caught) ["-debug"; "-debgu"; "-config"; "g.conf"] = demoMain (demoWorld Caught) ["-debug"].
Proof.
  split; [reflexivity|].
  exact (unknown_flag_hides_rest (demoWorld Caught) [SetDebug None] "-debgu" ["-config"; "g.conf"] (fromEnv ∅) eq_refl).
Defined.

(** The six daemons start on their addresses, and an interrupt leaves nothing behind. *)
Example cluster_runs :
  match clusterMain (Cert := string * string) (CPool := list string) (H0 := demoDNS)
          (fun _ => allEnd) ((fun p => clusterGrants (pi_GRPCAddress p) (pi_HTTPAddress p)) <$> clusterPeers) with
  | Ret (Some (0, peers, h)) => peers = clusterPeers /\ map_to_list (h_map h) = []
  | _ => False
  end.
Proof. vm_compute. exact (conj eq_refl eq_refl). Qed.
